(* ===== verification/_CoqProject ===== *)
-Q . S2P
Prelude.v
Sql.v
StoreSchema.v
Store.v
StoreLookup.v
StoreInv.v
StoreCalls.v
StoreSpec.v
StoreLifecycle.v
StoreOutcome.v
StoreSafety.v
StorePeers.v
StoreProps.v
Snapshots.v
SnapshotProps.v
GoLib.v
Float64.v
StoreStats.v
Sha256.v
Http.v
Placeholders.v
JsonText.v
UrlPath.v
UrlPolicy.v
HeartbeatLogs.v
HeartbeatLogProps.v
Config.v
ConfigLoad.v
Handler.v
HttpAction.v
HttpProps.v
ExecAction.v
Heartbeat.v
HeartbeatProps.v
HeartbeatRace.v
Policy.v
Secrets.v
SecretProps.v
PolicyProps.v
Auth.v
Limits.v
LimitProps.v
ClientAddr.v
Server.v
ServerProps.v
Admin.v
Queue.v
QueueSteps.v
QueuePass.v
QueueOutcome.v
QueueTiming.v
QueueProps.v
ConfigProps.v
Lifecycle.v
LifecycleProps.v
Main.v
MainProps.v
Exposition.v
Metrics.v
MetricsProps.v
QueueFrame.v
QueueProgress.v
QueueWeight.v
QueueDrain.v
DrainProps.v
GoTime.v
TimeText.v
Migration.v
LegacyTime.v
MigrationSteps.v
MigrationRun.v
MigrationLoops.v
MigrationProps.v
StoreFile.v
StoreFileProps.v
Logger.v
Upgrade.v
Callers.v
