(* ===== verification/Prelude.v ===== *)
(** * General Webhook: a verification library for the Go webhook gateway

    The gateway receives webhooks over HTTP, authenticates them, stores each
    one in a SQLite outbox and answers; workers claim the stored events, decide
    by the rules of their source whether they are delivered, run their actions
    (HTTP requests or local commands) and retry what failed; operators read
    statistics, replay dead events and push heartbeats. This library models the
    Go code under [src/] and proves what makes it correct. Every definition is
    executable where the code is, so the witnesses evaluate it.

    ** The parts and how they interact

    - The store. [Sql] is the driver: tables as finite maps, statements as
      functions on the database, transactions, and a failure of every single
      driver call as the environment decides. [StoreSchema] has the tables,
      [Store] one definition per method of [internal/store/store.go],
      [StoreStats] its statistics, [HeartbeatLogs] the audit records of
      [heartbeat_logs.go], [Snapshots] the rewriting of stored plans of
      [snapshots.go]. What holds after each statement is in [StoreLookup],
      the invariant [db_ok] in [StoreInv], all calls as data in [StoreCalls],
      the specification of each call in [StoreSpec], [StoreLifecycle] and
      [StoreOutcome], safety over sequences of calls in [StoreSafety] and
      [StorePeers], the resulting contract in [StoreProps]. [Migration] is
      [migrate] with the columns, times and statuses of older databases, over
      tables of untyped values; [GoTime] the part of Go's [time] it parses
      times with, [TimeText] and [LegacyTime] the texts it reads back;
      [MigrationSteps], [MigrationRun] and [MigrationLoops] say what each
      statement leaves unchanged, [MigrationProps] what an opened database
      looks like. [StoreFile] is [Open] with the directory, the permissions and
      the data source name of the file ([sqlite.go]), [StoreFileProps] that it
      is never exposed; [Upgrade] reads the migrated file as the typed database
      of [StoreSchema] and composes the two.
    - Configuration. [Config] has the types and the durable snapshot of a
      source ([internal/config/config.go], [snapshot.go]), [ConfigLoad] the
      defaults and the validation, [ConfigProps] what a loaded configuration
      guarantees to the others, [Secrets] and [SecretProps] the removal of
      credentials from stored plans.
    - Deciding. [Policy] and [PolicyProps]: extraction, rules with their cache,
      allow lists, drop counters and redaction ([internal/parser],
      [internal/router], [internal/policy], [internal/logger/redact.go]);
      [Logger] is the rest of [internal/logger].
    - Actions ([internal/handler]). [Handler]: errors, their classification and
      the registry. [Placeholders], [JsonText]: templates. [UrlPath],
      [UrlPolicy]: where a request may go. [HttpAction] and [HttpProps]: what
      is sent. [ExecAction]: local commands.
    - The worker ([internal/queue/queue.go]). [Queue] is one worker as a
      program over the database, the clock and the trace of dispatched
      attempts, while [others] change the database before each of its calls.
      [QueueSteps], [QueuePass], [QueueOutcome], [QueueTiming] and [QueueProps]
      say what a pass over an event does; [QueueFrame], [QueueProgress],
      [QueueWeight], [QueueDrain] and [DrainProps] that the worker loop ends.
    - The HTTP front ([internal/server]). [Http] is the interface of a request;
      [Auth] with [Sha256] the authentication ([internal/auth]); [Limits] and
      [LimitProps] the in-flight budget and the token buckets on [Float64];
      [ClientAddr] trusted proxies; [Server] and [ServerProps] the webhook
      handler; [Admin] the operator's endpoints; [Exposition], [Metrics] and
      [MetricsProps] the statistics and the metrics text.
    - The heartbeat ([internal/heartbeat/heartbeat.go]). [Heartbeat] and
      [HeartbeatProps]: sampling, delivery, counters and audit records;
      [HeartbeatRace]: the compare-and-swap loop of concurrent deliveries;
      [HeartbeatLogProps]: the audit records in the store.
    - The process ([cmd/server/main.go]). [Main] and [MainProps]: the start up
      to the goroutines, and retention; [Lifecycle] and [LifecycleProps]: the
      goroutines, the wake channel and the shutdown as a step relation;
      [Callers]: starting and stopping the monitor and the queue from any
      number of goroutines.

    The components meet at four places. The server saves an event and announces
    it ([Server.save], [Lifecycle.q_Wake]); the worker claims it under a lease
    ([Store.ClaimPending]); while the lease lasts the calls of everybody else
    leave the event alone ([StorePeers], the hypothesis [respects] of the
    worker's theorems); and the stored plan makes the event independent of
    later configurations ([Config.SnapshotSource], [Queue.resolveSource]).
    Interfaces to code outside the repository are classes with their laws:
    [Regexp], [Json], [Url], [Net] and their like in [GoLib], [Config] and [Http], [Env]
    (failures, clock, cancellation, randomness) and [SqlOrder] in [Sql].

    ** What is proved

    - Durability and exclusion: a webhook is acknowledged exactly when it is
      stored, a signed one once; failed calls write nothing; a leased event
      belongs to one worker; every sequence of calls keeps [db_ok].
    - Delivery: which attempts a pass dispatches and within which budget, how
      it gives its event back, what a failed attempt leads to, that leases
      cover passes, and that the worker loop ends with nothing due.
    - Confinement: destinations and addresses of requests, templates in JSON,
      commands, credentials in stored plans, forged proxy headers, the admin
      token, load limits.
    - Reports: statistics, the metrics text read back by a reader of its
      format, heartbeat counters and records, concurrent updates.
    - The process: start-up, the upgrade of older databases, retention, no lost
      wake-up, an orderly shutdown that cannot deadlock.

    ** Conventions, bounds and fuel

    A Go error is a value of an error type or of [result]; a call that may fail
    is a state transformer with a result ([M], [St]); int64 arithmetic that can
    overflow is wrapped by [wrap64], a [time.Duration] is its number of
    nanoseconds, a [time.Time] its nanoseconds since 1970. Strings are byte
    strings. [wp m Q s] says that running [m] from [s] ends in [Q].

    Fuel stands for loops Go does not bound, and each is proved or chosen large
    enough: [drain] needs one more than [drain_bound] of the database, which
    [DrainProps.drain_ends] proves enough; [RewriteActionSnapshots] one more
    than the number of events, the retention loop the number of rounds that
    are looked at; scanners over a text (placeholders, JSON strings, labels,
    trimming) take its length; redirects follow Go's limit of three;
    [scale10] of the %g verb takes 700 steps, more than the exponents of
    binary64.

    ** What is not modelled

    - The writing of log lines ([Logger] has the levels, the trace ids and the
      masking of [internal/logger]); signals and listening sockets but for
      their effect on [run]; of the file system only names and permissions
      ([StoreFile]), and of the driver's connections only that one is opened,
      with which name.
    - YAML decoding (the model starts from the decoded values), the JSON text
      of the answers (an answer stands for the values it encodes), and the
      bodies of third-party packages: [regexp], [encoding/json], [net/url],
      [gjson], TLS and the resolver are parameters, with the laws the code
      relies on as fields of their classes.
    - The store of [Store] is the schema after [migrate], with typed rows;
      [Migration] has untyped rows and keeps to the tables [migrate] changes.
      SQLite's strftime, and where a SELECT is broken off, are parameters of it.
    - Indexes other than the unique one on delivery ids: they change no answer
      of a query. The order in which SQLite returns equal rows is an
      unconstrained choice of [SqlOrder].
    - The real-time scheduler: interleavings are arbitrary where goroutines
      share state ([Lifecycle], [HeartbeatRace], [others]); how long a step
      takes is not.
    - The retention goroutine is not waited for by [run], so nothing is said
      about a round that is cut off by the end of the process beyond the
      atomicity of its transaction. *)

From stdpp Require Export prelude.
From stdpp Require Export gmap strings list fin_maps sorting relations.
From Stdlib Require Export ZArith Lia.

#[global] Set Default Proof Using "Type".
#[global] Open Scope Z_scope.

(** ** Results: what a Go function with an [error] result returns. *)

Inductive result (E A : Type) : Type :=
| Ok (a : A)
| Err (e : E).
Arguments Ok {E A} a.
Arguments Err {E A} e.

#[global] Instance Ok_inj {E A} : Inj (=) (=) (@Ok E A).
Proof. by intros a b [= ->]. Qed.

Definition is_ok {E A} (r : result E A) : bool :=
  match r with Ok _ => true | Err _ => false end.

(** ** A state monad with errors: [err != nil] ends the function early, the
    state reached so far is kept. *)

Definition M (S E A : Type) : Type := S → result E A * S.

#[global] Instance M_ret {S E} : MRet (M S E) := λ A a s, (Ok a, s).
#[global] Instance M_bind {S E} : MBind (M S E) := λ A B f m s,
  match m s with
  | (Ok a, s') => f a s'
  | (Err e, s') => (Err e, s')
  end.

Definition fail {S E A} (e : E) : M S E A := λ s, (Err e, s).

(** A plain state monad, for the code that handles every error itself. *)

Definition St (S A : Type) : Type := S → A * S.

#[global] Instance St_ret {S} : MRet (St S) := λ A a s, (a, s).
#[global] Instance St_bind {S} : MBind (St S) := λ A B f m s,
  let '(a, s') := m s in f a s'.

(** ** Weakest preconditions of both monads *)

Definition wp {S A} (m : S → A * S) (Q : A → S → Prop) (s : S) : Prop :=
  Q (m s).1 (m s).2.

Lemma wp_mono {S A} (m : S → A * S) (Q Q' : A → S → Prop) s :
  wp m Q s → (∀ a s', Q a s' → Q' a s') → wp m Q' s.
Proof. unfold wp; eauto. Qed.

Lemma wp_ret_M {S E A} (a : A) (Q : result E A → S → Prop) s :
  Q (Ok a) s → wp (mret (M := M S E) a) Q s.
Proof. done. Qed.

Lemma wp_fail {S E A} (e : E) (Q : result E A → S → Prop) s :
  Q (Err e) s → wp (fail (A := A) e) Q s.
Proof. done. Qed.

Lemma wp_bind_M {S E A B} (m : M S E A) (f : A → M S E B) Q s :
  wp m (λ r s', match r with
                | Ok a => wp (f a) Q s'
                | Err e => Q (Err e) s'
                end) s →
  wp (m ≫= f) Q s.
Proof.
  unfold wp, mbind, M_bind. destruct (m s) as [[a|e] s']; done.
Qed.

Lemma wp_ret_St {S A} (a : A) (Q : A → S → Prop) s :
  Q a s → wp (mret (M := St S) a) Q s.
Proof. done. Qed.

Lemma wp_bind_St {S A B} (m : St S A) (f : A → St S B) Q s :
  wp m (λ a s', wp (f a) Q s') s → wp (m ≫= f) Q s.
Proof. unfold wp, mbind, St_bind. destruct (m s); done. Qed.

Lemma wp_run {S A} (m : S → A * S) (Q : A → S → Prop) s a s' :
  wp m Q s → m s = (a, s') → Q a s'.
Proof. unfold wp. intros H E. by rewrite E in H. Qed.

Lemma wp_and {S A} (m : S → A * S) (P Q : A → S → Prop) s :
  wp m P s → wp m Q s → wp m (λ a s', P a s' ∧ Q a s') s.
Proof. by split. Qed.

(** ** Machine integers and Go's time package *)

(** int64 and uint64 arithmetic wraps around. *)
Definition wrap64 (z : Z) : Z := (z + 2^63) `mod` 2^64 - 2^63.
Definition uwrap64 (z : Z) : Z := z `mod` 2^64.

Definition int64_ok (z : Z) : Prop := - 2^63 ≤ z < 2^63.
Definition uint64_ok (z : Z) : Prop := 0 ≤ z < 2^64.

Lemma wrap64_id z : int64_ok z → wrap64 z = z.
Proof. unfold int64_ok, wrap64. intros. rewrite Z.mod_small; lia. Qed.

Lemma uwrap64_id z : uint64_ok z → uwrap64 z = z.
Proof. unfold uint64_ok, uwrap64. intros. by rewrite Z.mod_small. Qed.

Lemma uwrap64_ok z : uint64_ok (uwrap64 z).
Proof. unfold uint64_ok, uwrap64. by apply Z.mod_pos_bound. Qed.

(** A [time.Duration] is an int64 of nanoseconds. A [time.Time] is the instant
    in nanoseconds since the Unix epoch. *)
Definition Millisecond : Z := 1000000.
Definition Second : Z := 1000 * Millisecond.
Definition Minute : Z := 60 * Second.
Definition Hour : Z := 60 * Minute.

(** [Time.Sub] saturates at the limits of a Duration. *)
Definition time_sub (t u : Z) : Z :=
  if t - u <? - 2^63 then - 2^63 else if 2^63 - 1 <? t - u then 2^63 - 1 else t - u.

(** [Time.UnixMilli], [time.UnixMilli] and [Duration.Milliseconds] (which
    truncates towards zero). *)
Definition unix_milli (t : Z) : Z := t / Millisecond.
Definition of_unix_milli (ms : Z) : Z := ms * Millisecond.
Definition duration_ms (d : Z) : Z := Z.quot d Millisecond.

Lemma unix_milli_of ms : unix_milli (of_unix_milli ms) = ms.
Proof. unfold unix_milli, of_unix_milli. by rewrite Z.div_mul. Qed.

Lemma unix_milli_mono t t' : t ≤ t' → unix_milli t ≤ unix_milli t'.
Proof. intros. apply Z.div_le_mono; done. Qed.

(** ** Booleans *)

Lemma bool_decide_impl (P Q : Prop) `{Decision P, Decision Q} :
  (P → Q) → bool_decide P = true → bool_decide Q = true.
Proof. rewrite !bool_decide_eq_true. auto. Qed.

(** ** Strings are ordered bytewise, as SQLite and Go compare them. *)

Lemma str_ltb_leb a b : String.ltb a b = negb (String.leb b a).
Proof.
  unfold String.ltb, String.leb. rewrite (String.compare_antisym b a).
  by destruct (String.compare a b).
Qed.

Lemma str_leb_spec a b : String.leb a b = true ↔ String.le a b.
Proof. unfold String.le. symmetry. apply Is_true_true. Qed.

Lemma str_leb_trans a b c : String.leb a b = true → String.leb b c = true → String.leb a c = true.
Proof. rewrite !str_leb_spec. apply (transitivity (R := String.le)). Qed.

Lemma str_leb_refl a : String.leb a a = true.
Proof. apply str_leb_spec. apply (reflexivity (R := String.le)). Qed.

Lemma str_leb_ne_ltb a b : String.leb a b = true → a ≠ b → String.ltb a b = true.
Proof.
  rewrite str_ltb_leb, negb_true_iff, <- not_true_iff_false. intros Hab Hne Hba.
  by apply Hne, String.leb_antisym.
Qed.

Lemma str_ltb_leb_trans a b c : String.ltb a b = true → String.leb b c = true → String.ltb a c = true.
Proof.
  rewrite !str_ltb_leb, !negb_true_iff, <- !not_true_iff_false.
  intros Hba Hbc Hca. by eapply Hba, str_leb_trans.
Qed.

Lemma str_ltb_weak a b : String.ltb a b = true → String.leb a b = true.
Proof.
  rewrite str_ltb_leb, negb_true_iff. destruct (String.leb_total a b) as [?|E]; [done|].
  by rewrite E.
Qed.

(** ** Lists *)

Lemma sum_list_insert {A} (f : A → nat) (l : list A) i x y :
  l !! i = Some x →
  (sum_list_with f (<[i := y]> l) + f x = sum_list_with f l + f y)%nat.
Proof.
  revert i. induction l as [|z l IH]; intros [|i] Hi; try done; cbn in Hi.
  - injection Hi as ->. cbn. lia.
  - change (<[S i:=y]> (z :: l)) with (z :: <[i:=y]> l). specialize (IH i Hi). cbn [sum_list_with]. lia.
Qed.

(** ** Tactics and hints shared by the components *)

Create HintDb webhook.

Ltac bool_simpl :=
  repeat match goal with
  | H : context [andb _ _ = true] |- _ => rewrite andb_true_iff in H
  | H : context [orb _ _ = true] |- _ => rewrite orb_true_iff in H
  | H : context [negb _ = true] |- _ => rewrite negb_true_iff in H
  | H : bool_decide _ = true |- _ => apply bool_decide_eq_true in H
  | H : bool_decide _ = false |- _ => apply bool_decide_eq_false in H
  | H : Is_true _ |- _ => apply Is_true_true in H
  | H : (_ <=? _) = true |- _ => apply Z.leb_le in H
  | H : (_ <=? _) = false |- _ => apply Z.leb_gt in H
  | H : (_ <? _) = true |- _ => apply Z.ltb_lt in H
  | H : (_ <? _) = false |- _ => apply Z.ltb_ge in H
  | H : _ ∧ _ |- _ => destruct H
  end.

(** The refusals a function got past: every disjunct of a guard is false. *)
Ltac guards :=
  repeat match goal with
  | H : orb _ _ = false |- _ => apply orb_false_iff in H; destruct H
  | H : negb _ = false |- _ => apply negb_false_iff in H
  end; bool_simpl.
