(* ===== verification/Sql.v ===== *)
(** * The SQL layer: tables, statements, transactions and their failures

    [internal/store] talks to one SQLite database through one connection
    ([db.SetMaxOpenConns(1)]). A table with a primary key is a finite map from
    the key to the row without its key columns; a nullable column is an
    [option]. A statement is a function on the database; every call into the
    driver (begin, query, exec, commit) first asks the environment whether it
    fails, so every [err != nil] branch of the source is reachable. *)

From S2P Require Import Prelude.

(** ** The environment: everything a run reads from outside the process.
    Each outside interaction is numbered by the tick of the run. *)

Class Env : Type := {
  (* the n-th driver call returns an error (disk, lock, cancelled context) *)
  fault : nat → bool;
  (* the n-th reading of the clock, in nanoseconds since the epoch *)
  clock : nat → Z;
  (* the worker context is cancelled when it is looked at *)
  canceled : nat → bool;
  (* math/rand/v2.Int64N: a value in [0, n) *)
  rand_int64n : nat → Z → Z;
  rand_int64n_range : ∀ t n, 0 < n → 0 ≤ rand_int64n t n < n;
}.

Definition no_faults `{Env} : Prop := ∀ n, fault n = false.

(** SQL's [ORDER BY]: a sorted permutation of the rows; the order of rows with
    equal keys is not specified. *)
Class SqlOrder : Type := {
  order_by : ∀ {A : Type}, (A → A → bool) → list A → list A;
  order_by_perm : ∀ {A} (le : A → A → bool) l, order_by le l ≡ₚ l;
  order_by_sorted : ∀ {A} (le : A → A → bool) l,
    (∀ x y, le x y = true ∨ le y x = true) →
    (∀ x y z, le x y = true → le y z = true → le x z = true) →
    StronglySorted (λ x y, le x y = true) (order_by le l);
}.

(** A stable sort is one such order; the concrete runs use it. *)
Definition le_rel {A} (le : A → A → bool) : relation A := λ x y, le x y = true.
#[global] Instance le_rel_dec {A} (le : A → A → bool) : RelDecision (le_rel le).
Proof. intros x y. unfold le_rel. apply _. Defined.

#[global] Program Instance stable_order : SqlOrder := {|
  order_by A le l := merge_sort (le_rel le) l;
|}.
Next Obligation. intros A le l. apply merge_sort_Permutation. Qed.
Next Obligation.
  intros A le l Htot Htrans.
  assert (Transitive (le_rel le)) by (intros x y z; apply Htrans).
  assert (Total (le_rel le)) by (intros x y; apply Htot).
  apply (StronglySorted_merge_sort (le_rel le)).
Qed.

(** NULL sorts before every integer. *)
Definition null_le (x y : option Z) : bool :=
  match x, y with
  | None, _ => true
  | Some _, None => false
  | Some a, Some b => a <=? b
  end.

Lemma null_le_total x y : null_le x y = true ∨ null_le y x = true.
Proof. destruct x, y; simpl; rewrite ?Z.leb_le; auto; lia. Qed.

Lemma null_le_trans x y z :
  null_le x y = true → null_le y z = true → null_le x z = true.
Proof. destruct x, y, z; simpl; rewrite ?Z.leb_le; try done; lia. Qed.

(** [COALESCE(x, d)] *)
Definition coalesce {A} (x : option A) (d : A) : A := default d x.

(** [x IN ('a', 'b', ...)] on text columns *)
Definition one_of (s : string) (l : list string) : bool := existsb (String.eqb s) l.

Lemma one_of_cons s x l : one_of s (x :: l) = true ↔ s = x ∨ one_of s l = true.
Proof. unfold one_of. simpl. by rewrite orb_true_iff, String.eqb_eq. Qed.

Lemma one_of_nil s : one_of s [] = true ↔ False.
Proof. done. Qed.

(** Split [one_of s l = true] into the cases of [l]; decide it for literals. *)
Ltac one_of_cases H :=
  rewrite ?one_of_cons, ?one_of_nil in H;
  repeat match type of H with
  | _ ∨ _ => destruct H as [H|H]
  | False => destruct H
  end.

(** ** Statements on one table *)

Section Statements.
Context {K V : Type} `{Countable K}.

(** The rows a WHERE clause selects. *)
Definition select (p : K → V → bool) (m : gmap K V) : gmap K V :=
  filter (λ kv, Is_true (p kv.1 kv.2)) m.

(** UPDATE ... SET f WHERE p *)
Definition update_where (p : K → V → bool) (f : V → V) (m : gmap K V) : gmap K V :=
  map_imap (λ k v, Some (if p k v then f v else v)) m.

(** DELETE ... WHERE p *)
Definition delete_where (p : K → V → bool) (m : gmap K V) : gmap K V :=
  filter (λ kv, Is_true (negb (p kv.1 kv.2))) m.

(** RowsAffected *)
Definition rows_affected (p : K → V → bool) (m : gmap K V) : Z :=
  Z.of_nat (size (select p m)).

Definition exists_row (p : K → V → bool) (m : gmap K V) : bool :=
  negb (rows_affected p m =? 0).

Lemma select_lookup_Some p m k v :
  select p m !! k = Some v ↔ m !! k = Some v ∧ p k v = true.
Proof. unfold select. rewrite map_lookup_filter_Some. simpl. by rewrite Is_true_true. Qed.

Lemma update_where_lookup p f m k :
  update_where p f m !! k = (λ v, if p k v then f v else v) <$> m !! k.
Proof. unfold update_where. rewrite map_lookup_imap. by destruct (m !! k). Qed.

Lemma update_where_lookup_Some p f m k v :
  update_where p f m !! k = Some v ↔
  ∃ v0, m !! k = Some v0 ∧ v = if p k v0 then f v0 else v0.
Proof.
  rewrite update_where_lookup, fmap_Some. split; intros (v0 & Hv & Hp); eauto.
Qed.

Lemma update_where_is_Some p f m k :
  is_Some (update_where p f m !! k) ↔ is_Some (m !! k).
Proof. rewrite update_where_lookup. apply fmap_is_Some. Qed.

Lemma delete_where_lookup_Some p m k v :
  delete_where p m !! k = Some v ↔ m !! k = Some v ∧ p k v = false.
Proof.
  unfold delete_where. rewrite map_lookup_filter_Some. simpl.
  by rewrite Is_true_true, negb_true_iff.
Qed.

Lemma exists_row_true p m :
  exists_row p m = true ↔ ∃ k v, m !! k = Some v ∧ p k v = true.
Proof.
  unfold exists_row, rows_affected. rewrite negb_true_iff, Z.eqb_neq. split.
  - intros Hne. destruct (map_choose (select p m)) as (k & v & Hkv).
    { intros E. apply Hne. by rewrite E, map_size_empty. }
    apply select_lookup_Some in Hkv. eauto.
  - intros (k & v & Hk & Hp) Hz.
    assert (size (select p m) = 0%nat) as Hs by lia.
    apply map_size_empty_inv in Hs.
    assert (select p m !! k = Some v) as Hl.
    { by apply select_lookup_Some. }
    by rewrite Hs, lookup_empty in Hl.
Qed.

Lemma exists_row_false p m :
  exists_row p m = false ↔ ∀ k v, m !! k = Some v → p k v = false.
Proof.
  rewrite <- not_true_iff_false, exists_row_true. split.
  - intros Hn k v Hk. destruct (p k v) eqn:E; [exfalso; eauto|done].
  - intros Hn (k & v & Hk & Hp). rewrite (Hn _ _ Hk) in Hp. done.
Qed.

Lemma rows_affected_zero p m :
  (rows_affected p m =? 0) = true ↔ ∀ k v, m !! k = Some v → p k v = false.
Proof. rewrite <- exists_row_false. unfold exists_row. by destruct (_ =? 0). Qed.

Lemma rows_affected_pos p m :
  (rows_affected p m =? 0) = false ↔ ∃ k v, m !! k = Some v ∧ p k v = true.
Proof. rewrite <- exists_row_true. unfold exists_row. by destruct (_ =? 0). Qed.

Lemma update_where_none p f m :
  (∀ k v, m !! k = Some v → p k v = false) → update_where p f m = m.
Proof.
  intros Hp. apply map_eq. intros k. rewrite update_where_lookup.
  destruct (m !! k) as [v|] eqn:E; simpl; [|done]. by rewrite (Hp _ _ E).
Qed.

(** Counting: the rows of [q] that also satisfy [p]. *)
Lemma select_subseteq (p q : K → V → bool) m :
  (∀ k v, p k v = true → q k v = true) → select p m ⊆ select q m.
Proof.
  intros Hpq. apply map_subseteq_spec. intros k v.
  rewrite !select_lookup_Some. intros []. auto.
Qed.

Lemma rows_affected_all (p q : K → V → bool) m :
  rows_affected (λ k v, q k v && p k v) m = rows_affected q m ↔
  ∀ k v, m !! k = Some v → q k v = true → p k v = true.
Proof.
  unfold rows_affected. split.
  - intros Hs k v Hk Hq.
    assert (select (λ k v, q k v && p k v) m = select q m) as He.
    { apply map_subseteq_size_eq; [|lia]. apply select_subseteq. intros. by bool_simpl. }
    assert (select q m !! k = Some v) as Hl by (by apply select_lookup_Some).
    rewrite <- He in Hl. apply select_lookup_Some in Hl as [_ Hl]. by bool_simpl.
  - intros Hall. do 2 f_equal. apply map_eq. intros k. apply option_eq. intros v.
    rewrite !select_lookup_Some, andb_true_iff. naive_solver.
Qed.

Lemma rows_affected_or (p q : K → V → bool) m :
  (∀ k v, p k v = true → q k v = true → False) →
  rows_affected p m + rows_affected q m = rows_affected (λ k v, p k v || q k v) m.
Proof.
  intros Hdisj. unfold rows_affected. rewrite <- Nat2Z.inj_add. f_equal.
  rewrite <- map_size_disj_union.
  - f_equal. apply map_eq. intros k. apply option_eq. intros v.
    rewrite lookup_union_Some_raw, !select_lookup_Some, orb_true_iff.
    split.
    + intros [[? ?]|[? [? ?]]]; auto.
    + intros [Hk [Hp|Hq]]; [by left|]. right. split; [|done].
      apply eq_None_not_Some. intros [v' [Hk' Hp']%select_lookup_Some].
      simplify_eq. eauto.
  - apply map_disjoint_spec. intros k v v' [Hv Hp]%select_lookup_Some [Hv' Hq]%select_lookup_Some.
    simplify_eq. eauto.
Qed.

Lemma rows_affected_ext (p q : K → V → bool) m :
  (∀ k v, m !! k = Some v → p k v = q k v) → rows_affected p m = rows_affected q m.
Proof.
  intros Hpq. unfold rows_affected. do 2 f_equal. apply map_eq. intros k. apply option_eq.
  intros v. rewrite !select_lookup_Some. split; intros [Hk Hp]; split; try done.
  - by rewrite <- (Hpq _ _ Hk).
  - by rewrite (Hpq _ _ Hk).
Qed.

Lemma rows_affected_nonneg (p : K → V → bool) m : 0 ≤ rows_affected p m.
Proof. unfold rows_affected. lia. Qed.

Lemma rows_affected_key k0 (p : K → V → bool) m :
  rows_affected (λ k v, bool_decide (k = k0) && p k v) m =
    match m !! k0 with Some v => if p k0 v then 1 else 0 | None => 0 end.
Proof.
  unfold rows_affected.
  assert (select (λ k v, bool_decide (k = k0) && p k v) m =
    match m !! k0 with Some v => if p k0 v then {[k0 := v]} else ∅ | None => ∅ end) as ->.
  - apply map_eq. intros k. apply option_eq. intros v. rewrite select_lookup_Some.
    rewrite andb_true_iff, bool_decide_eq_true.
    destruct (m !! k0) as [v0|] eqn:E; [destruct (p k0 v0) eqn:Hp|];
      rewrite ?lookup_singleton_Some, ?lookup_empty; split; naive_solver congruence.
  - destruct (m !! k0); [case_match|]; by rewrite ?map_size_singleton, ?map_size_empty.
Qed.

End Statements.

(** ** The connection: driver calls, statements and transactions *)

(** The errors the store hands to its callers. [SqlError] is whatever the
    driver reported; [ErrEvent] and [ErrAction] are the [fmt.Errorf] texts. *)
Inductive store_err : Type :=
| SqlError
| ErrNoRows
| ErrDuplicateEvent
| ErrDuplicateBody
| ErrReplayUnavailable
| ErrEventNotRetryable
| ErrEvent (id what : string)
| ErrAction (event_id : string) (index : Z) (what : string).

#[global] Instance store_err_eq_dec : EqDecision store_err.
Proof. solve_decision. Defined.

Section Connection.
Context {DB : Type} `{Env}.

Record conn : Type := Conn { cn_db : DB; cn_tick : nat }.

#[local] Abbreviation SM := (M conn store_err).

(** One call into the driver. *)
Definition sql_call : SM unit := λ c,
  let c' := Conn (cn_db c) (S (cn_tick c)) in
  if fault (cn_tick c) then (Err SqlError, c') else (Ok tt, c').

(** A SELECT reads the database, an [Exec] also changes it. *)
Definition apply_stmt {A} (f : DB → A * DB) : SM A := λ c,
  let '(a, db) := f (cn_db c) in (Ok a, Conn db (cn_tick c)).

Definition query {A} (f : DB → A) : SM A :=
  sql_call ≫= λ _, apply_stmt (λ db, (f db, db)).

Definition exec {A} (f : DB → A * DB) : SM A :=
  sql_call ≫= λ _, apply_stmt f.

(** time.Now() inside the store *)
Definition time_now : SM Z := λ c,
  (Ok (clock (cn_tick c)), Conn (cn_db c) (S (cn_tick c))).

(** How the body of a transaction ends without an error: with [tx.Commit], or
    by a plain return that leaves the deferred [tx.Rollback] to undo it. *)
Inductive tx_end (A : Type) : Type :=
| Commit (a : A)
| Rollback (a : A).
Arguments Commit {A} a.
Arguments Rollback {A} a.

(** BeginTx; defer tx.Rollback(); body; tx.Commit() *)
Definition transaction {A} (body : SM (tx_end A)) : SM A := λ c0,
  match sql_call c0 with
  | (Err e, c1) => (Err e, c1)
  | (Ok _, c1) =>
    match body c1 with
    | (Err e, c2) => (Err e, Conn (cn_db c1) (cn_tick c2))
    | (Ok (Rollback a), c2) => (Ok a, Conn (cn_db c1) (cn_tick c2))
    | (Ok (Commit a), c2) =>
      match sql_call c2 with
      | (Err e, c3) => (Err e, Conn (cn_db c1) (cn_tick c3))
      | (Ok _, c3) => (Ok a, c3)
      end
    end
  end.

(** [withDeadlineWriter] of sqlite.go, with the deadline of the context. A
    short budget is set as the busy timeout of the connection; the normal one
    is restored whatever happened, its error is dropped. *)
Definition sqliteBusyTimeoutMS : Z := 250.

Definition restoring {A} (m : SM A) : SM A := λ c,
  let '(r, c') := m c in (r, (sql_call c').2).

Definition withDeadlineWriter {A} (deadline : option Z) (write : SM A) : SM A :=
  _ ← sql_call;
  match deadline with
  | None => write
  | Some d =>
      now ← time_now;
      let remaining := time_sub d now in
      if remaining <=? 0 then fail SqlError
      else if duration_ms remaining <? sqliteBusyTimeoutMS
      then _ ← sql_call; restoring write
      else write
  end.

(** *** Rules: a failing driver call leaves the database as it was. *)

Lemma wp_sql_call (Q : result store_err unit → conn → Prop) c :
  (∀ n, Q (Ok tt) (Conn (cn_db c) n)) →
  (∀ n, Q (Err SqlError) (Conn (cn_db c) n)) →
  wp sql_call Q c.
Proof. intros H1 H2. unfold wp, sql_call. destruct (fault _); simpl; auto. Qed.

Lemma wp_query {A} (f : DB → A) Q c :
  (∀ n, Q (Ok (f (cn_db c))) (Conn (cn_db c) n)) →
  (∀ n, Q (Err SqlError) (Conn (cn_db c) n)) →
  wp (query f) Q c.
Proof.
  intros H1 H2. unfold query. apply wp_bind_M, wp_sql_call; auto.
Qed.

Lemma wp_exec {A} (f : DB → A * DB) Q c :
  (∀ n, Q (Ok (f (cn_db c)).1) (Conn (f (cn_db c)).2 n)) →
  (∀ n, Q (Err SqlError) (Conn (cn_db c) n)) →
  wp (exec f) Q c.
Proof.
  intros H1 H2. unfold exec. apply wp_bind_M, wp_sql_call; auto.
  intros n. unfold wp, apply_stmt. simpl. specialize (H1 n). by destruct (f (cn_db c)).
Qed.

Lemma wp_time_now Q c :
  (∀ t n, Q (Ok t) (Conn (cn_db c) n)) → wp time_now Q c.
Proof. intros H1. unfold wp, time_now. simpl. auto. Qed.

(** The busy timeout is no part of the database. *)
Lemma wp_withDeadlineWriter {A} deadline (write : SM A) Q c :
  (∀ n, Q (Err SqlError) (Conn (cn_db c) n)) →
  (∀ n, wp write (λ r c', ∀ n, Q r (Conn (cn_db c') n)) (Conn (cn_db c) n)) →
  wp (withDeadlineWriter deadline write) Q c.
Proof.
  intros He Hw.
  assert (∀ n, wp write Q (Conn (cn_db c) n)) as Hplain.
  { intros n. eapply wp_mono; [apply Hw|]. intros r [db n'] HQ. apply HQ. }
  unfold withDeadlineWriter. apply wp_bind_M, wp_sql_call; intros n; [|done].
  destruct deadline as [d|]; [|apply Hplain]. apply wp_bind_M, wp_time_now. intros t n'.
  cbn zeta. destruct (_ <=? 0); [apply wp_fail, He|].
  destruct (_ <? _); [|apply Hplain].
  apply wp_bind_M, wp_sql_call; intros n''; [|done]. specialize (Hw n''). cbn [cn_db].
  unfold wp, restoring, sql_call in *. destruct (write _) as [r c']. cbn in *.
  destruct (fault _); apply Hw.
Qed.

(** A transaction either commits what its body did or changes nothing. *)
Lemma wp_transaction {A} (body : SM (tx_end A)) Q c :
  (∀ n, Q (Err SqlError) (Conn (cn_db c) n)) →
  (∀ n, wp body (λ r c', match r with
     | Err e => ∀ n, Q (Err e) (Conn (cn_db c) n)
     | Ok (Rollback a) => ∀ n, Q (Ok a) (Conn (cn_db c) n)
     | Ok (Commit a) => ∀ n, Q (Ok a) (Conn (cn_db c') n)
     end) (Conn (cn_db c) n)) →
  wp (transaction body) Q c.
Proof.
  intros Hf Hb. unfold transaction, wp, sql_call.
  destruct (fault (cn_tick c)); simpl; [apply Hf|].
  specialize (Hb (S (cn_tick c))). unfold wp in Hb.
  destruct (body _) as [[[a|a]|e] c2]; simpl in *; [|apply Hb|apply Hb].
  destruct (fault (cn_tick c2)); simpl; [apply Hf|apply Hb].
Qed.

(** *** Atomicity: an operation that reports an error changed nothing. *)

Definition atomic {A} (m : SM A) : Prop := ∀ c,
  wp m (λ r c', match r with Err _ => cn_db c' = cn_db c | Ok _ => True end) c.

Definition read_only {A} (m : SM A) : Prop := ∀ c,
  wp m (λ _ c', cn_db c' = cn_db c) c.

Lemma transaction_atomic {A} (body : SM (tx_end A)) : atomic (transaction body).
Proof.
  intros c. apply wp_transaction; [done|]. intros n.
  unfold wp. destruct (body _) as [[[a|a]|e] c2]; simpl; done.
Qed.

Lemma withDeadlineWriter_atomic {A} deadline (write : SM A) :
  atomic write → atomic (withDeadlineWriter deadline write).
Proof.
  intros Hw c. apply wp_withDeadlineWriter; [done|]. intros n.
  eapply wp_mono; [apply Hw|]. by intros [a|e] c' Hc' n'.
Qed.

Lemma read_only_query {A} (f : DB → A) : read_only (query f).
Proof. intros c. apply wp_query; done. Qed.

Lemma read_only_ret {A} (a : A) : read_only (mret a).
Proof. done. Qed.

Lemma read_only_fail {A} e : read_only (fail (A := A) e).
Proof. done. Qed.

Lemma read_only_bind {A B} (m : SM A) (f : A → SM B) :
  read_only m → (∀ a, read_only (f a)) → read_only (m ≫= f).
Proof.
  intros Hm Hf c. apply wp_bind_M. eapply wp_mono; [apply Hm|].
  intros [a|e] c' E; simpl in E; [|done].
  eapply wp_mono; [apply Hf|]. simpl. intros ? ? E'. by rewrite E', E.
Qed.

Lemma read_only_atomic {A} (m : SM A) : read_only m → atomic m.
Proof. intros Hm c. eapply wp_mono; [apply Hm|]. by intros [a|e] c' E. Qed.

(** A statement followed by code that changes nothing when it fails. *)
Lemma atomic_bind_read {A B} (m : SM A) (f : A → SM B) :
  read_only m → (∀ a, atomic (f a)) → atomic (m ≫= f).
Proof.
  intros Hm Hf c. apply wp_bind_M. eapply wp_mono; [apply Hm|].
  intros [a|e] c' E; simpl in E; [|done].
  eapply wp_mono; [apply Hf|]. simpl. intros [b|e] ? E'; [done|]. by rewrite E', E.
Qed.

(** One UPDATE whose zero count is reported as an error. *)
Lemma atomic_exec_checked {A B} (f : DB → A * DB) (k : A → SM B) :
  (∀ a, read_only (k a)) →
  (∀ db c, (is_ok (k (f db).1 c).1 = false → (f db).2 = db)) →
  atomic (exec f ≫= k).
Proof.
  intros Hk Hz c. apply wp_bind_M, wp_exec; [|done].
  intros n. pose proof (Hk (f (cn_db c)).1 (Conn (f (cn_db c)).2 n)) as Hr.
  pose proof (Hz (cn_db c) (Conn (f (cn_db c)).2 n)) as Hz'.
  unfold wp in *. destruct (k _ _) as [[b|e] c']; simpl in *; [done|].
  rewrite Hr. auto.
Qed.

(** *** Invariants of the database *)

Definition preserves {A} (I : DB → Prop) (m : SM A) : Prop := ∀ c,
  I (cn_db c) → wp m (λ _ c', I (cn_db c')) c.

Lemma preserves_read_only {A} I (m : SM A) : read_only m → preserves I m.
Proof. intros Hm c Hc. eapply wp_mono; [apply Hm|]. simpl. by intros ? ? ->. Qed.

Lemma preserves_bind {A B} I (m : SM A) (f : A → SM B) :
  preserves I m → (∀ a, preserves I (f a)) → preserves I (m ≫= f).
Proof.
  intros Hm Hf c Hc. apply wp_bind_M. eapply wp_mono; [by apply Hm|].
  intros [a|e] c' Hc'; [by apply Hf|done].
Qed.

Lemma preserves_exec {A} I (f : DB → A * DB) :
  (∀ db, I db → I (f db).2) → preserves I (exec f).
Proof. intros Hf c Hc. apply wp_exec; simpl; auto. Qed.

Lemma preserves_withDeadlineWriter {A} I deadline (write : SM A) :
  preserves I write → preserves I (withDeadlineWriter deadline write).
Proof.
  intros Hw c Hc. apply wp_withDeadlineWriter; [done|]. intros n.
  eapply wp_mono; [by apply Hw|]. done.
Qed.

Lemma preserves_transaction {A} I (body : SM (tx_end A)) :
  (∀ c, I (cn_db c) → wp body (λ r c', match r with
      | Ok (Commit _) => I (cn_db c') | _ => True end) c) →
  preserves I (transaction body).
Proof.
  intros Hb c Hc. apply wp_transaction; [done|]. intros n.
  eapply wp_mono; [by apply Hb|]. by intros [[a|a]|e] c'; simpl.
Qed.

(** *** Runs without faults *)

Lemma wp_sql_call_ok (Q : result store_err unit → conn → Prop) c :
  no_faults → (∀ n, Q (Ok tt) (Conn (cn_db c) n)) → wp sql_call Q c.
Proof. intros Hn HQ. unfold wp, sql_call. rewrite Hn. apply HQ. Qed.

Lemma wp_exec_ok {A} (f : DB → A * DB) Q c :
  no_faults → (∀ n, Q (Ok (f (cn_db c)).1) (Conn (f (cn_db c)).2 n)) → wp (exec f) Q c.
Proof.
  intros Hn HQ. unfold exec. apply wp_bind_M, wp_sql_call_ok; [done|].
  intros n. unfold wp, apply_stmt. simpl. specialize (HQ n). by destruct (f (cn_db c)).
Qed.

Lemma wp_query_ok {A} (f : DB → A) Q c :
  no_faults → (∀ n, Q (Ok (f (cn_db c))) (Conn (cn_db c) n)) → wp (query f) Q c.
Proof. intros Hn HQ. exact (wp_exec_ok (λ db, (f db, db)) Q c Hn HQ). Qed.

Lemma wp_transaction_ok {A} (body : SM (tx_end A)) Q c :
  no_faults →
  (∀ n, wp body (λ r c', match r with
     | Err e => ∀ n, Q (Err e) (Conn (cn_db c) n)
     | Ok (Rollback a) => ∀ n, Q (Ok a) (Conn (cn_db c) n)
     | Ok (Commit a) => ∀ n, Q (Ok a) (Conn (cn_db c') n)
     end) (Conn (cn_db c) n)) →
  wp (transaction body) Q c.
Proof.
  intros Hn Hb. unfold transaction, wp, sql_call. rewrite Hn. simpl.
  specialize (Hb (S (cn_tick c))). unfold wp in Hb.
  destruct (body _) as [[[a|a]|e] c2]; simpl in *; [|apply Hb|apply Hb].
  rewrite Hn. apply Hb.
Qed.

Lemma wp_withDeadlineWriter_ok {A} d (write : SM A) Q c :
  no_faults → clock (S (cn_tick c)) < d →
  (∀ n, wp write (λ r c', ∀ n, Q r (Conn (cn_db c') n)) (Conn (cn_db c) n)) →
  wp (withDeadlineWriter (Some d) write) Q c.
Proof.
  intros Hn Hd Hw. unfold withDeadlineWriter. apply wp_bind_M. unfold wp at 1, sql_call. rewrite Hn.
  cbn [fst snd]. apply wp_bind_M. unfold wp at 1, time_now. cbn zeta. cbn [fst snd cn_db cn_tick].
  assert ((time_sub d (clock (S (cn_tick c))) <=? 0) = false) as ->.
  { apply Z.leb_gt. unfold time_sub. repeat case_match; bool_simpl; lia. }
  destruct (_ <? _).
  - apply wp_bind_M, wp_sql_call_ok; [done|]. intros n''. specialize (Hw n''). cbn [cn_db].
    unfold wp, restoring, sql_call in *. destruct (write _) as [r c']. cbn in *.
    destruct (fault _); apply Hw.
  - eapply wp_mono; [apply Hw|]. intros r [db n'] HQ. apply HQ.
Qed.

End Connection.
Arguments conn : clear implicits.
Arguments Conn {DB} cn_db cn_tick.
Arguments cn_db {DB} c.
Arguments cn_tick {DB} c.
Arguments Commit {A} a.
Arguments Rollback {A} a.

(** Symbolic execution of a store operation. *)
Ltac wp_step :=
  lazymatch goal with
  | |- wp (_ ≫= _) _ _ => apply wp_bind_M
  | |- wp (mret _) _ _ => apply wp_ret_M
  | |- wp (fail _) _ _ => apply wp_fail
  | |- wp (query _) _ _ => apply wp_query; [intros ?|intros ?]
  | |- wp (exec _) _ _ => apply wp_exec; [intros ?|intros ?]
  | |- wp time_now _ _ => apply wp_time_now; intros ? ?
  | |- wp (transaction _) _ _ => apply wp_transaction; intros ?
  | |- wp (withDeadlineWriter _ _) _ _ => apply wp_withDeadlineWriter; intros ?
  | |- wp (if ?b then _ else _) _ _ => destruct b eqn:?
  | |- wp (match ?x with _ => _ end) _ _ => destruct x eqn:?
  end; cbn [cn_db cn_tick].

(** The same when no driver call fails. *)
Ltac wp_step_ok :=
  lazymatch goal with
  | |- wp (query _) _ _ => apply wp_query_ok; [done|intros ?]
  | |- wp (exec _) _ _ => apply wp_exec_ok; [done|intros ?]
  | |- wp (transaction _) _ _ => apply wp_transaction_ok; [done|intros ?]
  | |- _ => wp_step
  end; cbn [cn_db cn_tick].

(** A run for concrete examples: nothing fails, nothing is cancelled, the clock
    advances by [step] from [t0], and the jitter is the smallest one. *)
Program Definition calm (t0 step : Z) : Env := {|
  fault _ := false;
  clock n := t0 + Z.of_nat n * step;
  canceled _ := false;
  rand_int64n _ _ := 0;
|}.
Next Obligation. intros; simpl; lia. Qed.

Lemma calm_no_faults t0 step : @no_faults (calm t0 step).
Proof. done. Qed.
