(* ===== verification/StoreSchema.v ===== *)
(** * The durable state: the tables of [internal/store/store.go]

    One record per table of [migrate]'s schema, with the nullable columns as
    options; [DB] is the whole database file. The setters are the assignments
    the store's UPDATE statements make. *)

From S2P Require Import Prelude Sql.

(** The columns of [events] other than the primary key [id]. *)
Record event_row : Type := EventRow {
  ev_source : string;
  ev_remote_ip : option string;
  ev_payload : option string;
  ev_status : string;
  ev_received_at : Z;
  ev_processed_at : option Z;
  ev_external_delivery_id : option string;
  ev_body_sha256 : option string;
  ev_lease_until : option Z;
  ev_lease_owner : option string;
  ev_config_hash : option string;
  ev_actions_json : option string;
  ev_vars_json : option string;
  ev_received_at_ms : option Z;
  ev_processed_at_ms : option Z;
  ev_lease_until_ms : option Z;
  ev_next_attempt_at_ms : option Z;
  ev_replay_generation : Z;
  ev_replayed_at_ms : option Z;
  ev_replay_reason : option string;
}.

(** The columns of [event_actions] other than its key (event_id, action_index). *)
Record action_row : Type := ActionRow {
  ac_status : string;
  ac_attempt_count : Z;
  ac_next_attempt_at_ms : option Z;
  ac_last_error : option string;
  ac_retry_after_ms : option Z;
  ac_completed_at_ms : option Z;
}.

Record action_log_row : Type := ActionLog {
  al_id : Z;
  al_event_id : string;
  al_action : string;
  al_action_index : Z;
  al_replay_generation : Z;
  al_target : option string;
  al_attempt : Z;
  al_success : Z;
  al_detail : option string;
  al_duration_ms : option Z;
  al_created_at : Z;
  al_created_at_ms : option Z;
}.

Record heartbeat_log_row : Type := HeartbeatLogRow {
  hb_id : Z;
  hb_target : string;
  hb_origin : string;
  hb_mode : string;
  hb_health : string;
  hb_error : string;
  hb_http_status : Z;
  hb_duration_ms : Z;
  hb_created_at : Z;
  hb_created_at_ms : Z;
}.

(** The database. The two sequences are SQLite's AUTOINCREMENT counters. *)
Record DB : Type := MkDB {
  events : gmap string event_row;
  event_actions : gmap (string * Z) action_row;
  action_logs : list action_log_row;
  action_logs_seq : Z;
  replay_guard : gmap (string * string) Z;
  ready_check : gmap Z Z;
  heartbeat_logs : list heartbeat_log_row;
  heartbeat_logs_seq : Z;
}.

Definition empty_db : DB := MkDB ∅ ∅ [] 0 ∅ ∅ [] 0.

#[global] Instance event_row_eq_dec : EqDecision event_row.
Proof. solve_decision. Defined.
#[global] Instance action_row_eq_dec : EqDecision action_row.
Proof. solve_decision. Defined.

(** ** Table updates *)

Definition set_events (t : gmap string event_row) (db : DB) : DB :=
  MkDB t (event_actions db) (action_logs db) (action_logs_seq db) (replay_guard db)
    (ready_check db) (heartbeat_logs db) (heartbeat_logs_seq db).
Definition set_event_actions (t : gmap (string * Z) action_row) (db : DB) : DB :=
  MkDB (events db) t (action_logs db) (action_logs_seq db) (replay_guard db)
    (ready_check db) (heartbeat_logs db) (heartbeat_logs_seq db).
Definition set_action_logs (t : list action_log_row) (seq : Z) (db : DB) : DB :=
  MkDB (events db) (event_actions db) t seq (replay_guard db)
    (ready_check db) (heartbeat_logs db) (heartbeat_logs_seq db).
Definition set_replay_guard (t : gmap (string * string) Z) (db : DB) : DB :=
  MkDB (events db) (event_actions db) (action_logs db) (action_logs_seq db) t
    (ready_check db) (heartbeat_logs db) (heartbeat_logs_seq db).
Definition set_ready_check (t : gmap Z Z) (db : DB) : DB :=
  MkDB (events db) (event_actions db) (action_logs db) (action_logs_seq db) (replay_guard db)
    t (heartbeat_logs db) (heartbeat_logs_seq db).
Definition set_heartbeat_logs (t : list heartbeat_log_row) (seq : Z) (db : DB) : DB :=
  MkDB (events db) (event_actions db) (action_logs db) (action_logs_seq db) (replay_guard db)
    (ready_check db) t seq.

(** ** Column assignments of the UPDATE statements on [events] *)

(** status = s *)
Definition set_status (s : string) (e : event_row) : event_row :=
  EventRow (ev_source e) (ev_remote_ip e) (ev_payload e) s (ev_received_at e)
    (ev_processed_at e) (ev_external_delivery_id e) (ev_body_sha256 e) (ev_lease_until e)
    (ev_lease_owner e) (ev_config_hash e) (ev_actions_json e) (ev_vars_json e)
    (ev_received_at_ms e) (ev_processed_at_ms e) (ev_lease_until_ms e)
    (ev_next_attempt_at_ms e) (ev_replay_generation e) (ev_replayed_at_ms e)
    (ev_replay_reason e).

(** payload = p *)
Definition set_payload (p : option string) (e : event_row) : event_row :=
  EventRow (ev_source e) (ev_remote_ip e) p (ev_status e) (ev_received_at e)
    (ev_processed_at e) (ev_external_delivery_id e) (ev_body_sha256 e) (ev_lease_until e)
    (ev_lease_owner e) (ev_config_hash e) (ev_actions_json e) (ev_vars_json e)
    (ev_received_at_ms e) (ev_processed_at_ms e) (ev_lease_until_ms e)
    (ev_next_attempt_at_ms e) (ev_replay_generation e) (ev_replayed_at_ms e)
    (ev_replay_reason e).

(** processed_at = t, processed_at_ms = ms *)
Definition set_processed (t ms : option Z) (e : event_row) : event_row :=
  EventRow (ev_source e) (ev_remote_ip e) (ev_payload e) (ev_status e) (ev_received_at e)
    t (ev_external_delivery_id e) (ev_body_sha256 e) (ev_lease_until e)
    (ev_lease_owner e) (ev_config_hash e) (ev_actions_json e) (ev_vars_json e)
    (ev_received_at_ms e) ms (ev_lease_until_ms e)
    (ev_next_attempt_at_ms e) (ev_replay_generation e) (ev_replayed_at_ms e)
    (ev_replay_reason e).

(** lease_until = t, lease_until_ms = ms *)
Definition set_lease_until (t ms : option Z) (e : event_row) : event_row :=
  EventRow (ev_source e) (ev_remote_ip e) (ev_payload e) (ev_status e) (ev_received_at e)
    (ev_processed_at e) (ev_external_delivery_id e) (ev_body_sha256 e) t
    (ev_lease_owner e) (ev_config_hash e) (ev_actions_json e) (ev_vars_json e)
    (ev_received_at_ms e) (ev_processed_at_ms e) ms
    (ev_next_attempt_at_ms e) (ev_replay_generation e) (ev_replayed_at_ms e)
    (ev_replay_reason e).

(** lease_owner = o *)
Definition set_lease_owner (o : option string) (e : event_row) : event_row :=
  EventRow (ev_source e) (ev_remote_ip e) (ev_payload e) (ev_status e) (ev_received_at e)
    (ev_processed_at e) (ev_external_delivery_id e) (ev_body_sha256 e) (ev_lease_until e)
    o (ev_config_hash e) (ev_actions_json e) (ev_vars_json e)
    (ev_received_at_ms e) (ev_processed_at_ms e) (ev_lease_until_ms e)
    (ev_next_attempt_at_ms e) (ev_replay_generation e) (ev_replayed_at_ms e)
    (ev_replay_reason e).

(** actions_json = j *)
Definition set_actions_json (j : option string) (e : event_row) : event_row :=
  EventRow (ev_source e) (ev_remote_ip e) (ev_payload e) (ev_status e) (ev_received_at e)
    (ev_processed_at e) (ev_external_delivery_id e) (ev_body_sha256 e) (ev_lease_until e)
    (ev_lease_owner e) (ev_config_hash e) j (ev_vars_json e)
    (ev_received_at_ms e) (ev_processed_at_ms e) (ev_lease_until_ms e)
    (ev_next_attempt_at_ms e) (ev_replay_generation e) (ev_replayed_at_ms e)
    (ev_replay_reason e).

(** vars_json = j *)
Definition set_vars_json (j : option string) (e : event_row) : event_row :=
  EventRow (ev_source e) (ev_remote_ip e) (ev_payload e) (ev_status e) (ev_received_at e)
    (ev_processed_at e) (ev_external_delivery_id e) (ev_body_sha256 e) (ev_lease_until e)
    (ev_lease_owner e) (ev_config_hash e) (ev_actions_json e) j
    (ev_received_at_ms e) (ev_processed_at_ms e) (ev_lease_until_ms e)
    (ev_next_attempt_at_ms e) (ev_replay_generation e) (ev_replayed_at_ms e)
    (ev_replay_reason e).

(** received_at_ms = ms *)
Definition set_received_ms (ms : option Z) (e : event_row) : event_row :=
  EventRow (ev_source e) (ev_remote_ip e) (ev_payload e) (ev_status e) (ev_received_at e)
    (ev_processed_at e) (ev_external_delivery_id e) (ev_body_sha256 e) (ev_lease_until e)
    (ev_lease_owner e) (ev_config_hash e) (ev_actions_json e) (ev_vars_json e)
    ms (ev_processed_at_ms e) (ev_lease_until_ms e)
    (ev_next_attempt_at_ms e) (ev_replay_generation e) (ev_replayed_at_ms e)
    (ev_replay_reason e).

(** next_attempt_at_ms = ms *)
Definition set_next_attempt (ms : option Z) (e : event_row) : event_row :=
  EventRow (ev_source e) (ev_remote_ip e) (ev_payload e) (ev_status e) (ev_received_at e)
    (ev_processed_at e) (ev_external_delivery_id e) (ev_body_sha256 e) (ev_lease_until e)
    (ev_lease_owner e) (ev_config_hash e) (ev_actions_json e) (ev_vars_json e)
    (ev_received_at_ms e) (ev_processed_at_ms e) (ev_lease_until_ms e)
    ms (ev_replay_generation e) (ev_replayed_at_ms e)
    (ev_replay_reason e).

(** replay_generation = g, replayed_at_ms = ms, replay_reason = r *)
Definition set_replay (g : Z) (ms : option Z) (r : option string) (e : event_row) : event_row :=
  EventRow (ev_source e) (ev_remote_ip e) (ev_payload e) (ev_status e) (ev_received_at e)
    (ev_processed_at e) (ev_external_delivery_id e) (ev_body_sha256 e) (ev_lease_until e)
    (ev_lease_owner e) (ev_config_hash e) (ev_actions_json e) (ev_vars_json e)
    (ev_received_at_ms e) (ev_processed_at_ms e) (ev_lease_until_ms e)
    (ev_next_attempt_at_ms e) g ms r.

(** lease_until = NULL, lease_until_ms = NULL, lease_owner = NULL *)
Definition clear_lease (e : event_row) : event_row :=
  set_lease_owner None (set_lease_until None None e).

(** [nullable]: the empty string is stored as NULL. *)
Definition nullable (v : string) : option string :=
  if bool_decide (v = ""%string) then None else Some v.

(** [boolToInt] *)
Definition boolToInt (v : bool) : Z := if v then 1 else 0.
