(* ===== verification/Store.v ===== *)
(** * The durable outbox: the operations of [internal/store/store.go]

    Every method of [*Store] that the gateway's accept path, worker and
    retention loop call, statement by statement. A transaction is
    [transaction]; a method that issues its statements outside a transaction
    keeps them as separate driver calls. *)

From S2P Require Import Prelude Sql StoreSchema.

(** What [ClaimPending] hands to a worker. *)
Record PendingEvent : Type := MkPendingEvent {
  pe_id : string;
  pe_source : string;
  pe_remote_ip : string;
  pe_payload : string;
  pe_vars_json : string;
  pe_external_delivery_id : string;
  pe_received_at : Z;
  pe_retry_started_at : Z;
  pe_config_hash : string;
  pe_actions_json : string;
  pe_replay_generation : Z;
}.

Record EventMeta : Type := MkEventMeta {
  em_id : string;
  em_source : string;
  em_remote_ip : string;
  em_status : string;
  em_received_at : Z;
  em_processed_at : option Z;
  em_external_delivery_id : string;
  em_config_hash : string;
  em_replay_generation : Z;
  em_replay_reason : string;
}.

Record ActionState : Type := MkActionState {
  as_index : Z;
  as_status : string;
  as_attempt_count : Z;
  as_next_attempt_ms : Z;
  as_last_error : string;
}.

Record ActionLogRow : Type := MkActionLogRow {
  lr_action : string;
  lr_action_index : Z;
  lr_replay_generation : Z;
  lr_target : string;
  lr_attempt : Z;
  lr_success : bool;
  lr_detail : string;
  lr_duration_ms : Z;
  lr_created_at : Z;
}.

(** ** Conditions and assignments the statements share *)

(** status = s *)
Definition status_is (s : string) (e : event_row) : bool := bool_decide (ev_status e = s).
Definition action_is (s : string) (a : action_row) : bool := bool_decide (ac_status a = s).

(** UPDATE event_actions SET status = 'pending', next_attempt_at_ms = NULL,
    attempt_count = CASE WHEN attempt_count > 0 THEN attempt_count - 1 ELSE 0 END *)
Definition release_action (a : action_row) : action_row :=
  ActionRow "pending" (if 0 <? ac_attempt_count a then ac_attempt_count a - 1 else 0)
    None (ac_last_error a) (ac_retry_after_ms a) (ac_completed_at_ms a).

(** UPDATE events SET status = 'pending', next_attempt_at_ms = received_at_ms,
    lease_* = NULL, processed_* = NULL *)
Definition requeue_row (e : event_row) : event_row :=
  set_processed None None (clear_lease
    (set_next_attempt (ev_received_at_ms e) (set_status "pending" e))).

(** [terminal] of PurgeOlderThan *)
Definition terminal_status (s : string) : bool :=
  one_of s ["done"; "dead"; "skipped"; "partial"; "error"]%string.

(** Condition of ClaimPending's SELECT and UPDATE. *)
Definition claimable (nowMS : Z) (e : event_row) : bool :=
  status_is "pending" e
  || (status_is "retrying" e && (coalesce (ev_next_attempt_at_ms e) 0 <=? nowMS))
  || (status_is "processing" e && (coalesce (ev_lease_until_ms e) 0 <? nowMS)).

(** COALESCE(next_attempt_at_ms, received_at_ms), the key of its ORDER BY. *)
Definition due_key (e : event_row) : option Z :=
  match ev_next_attempt_at_ms e with Some v => Some v | None => ev_received_at_ms e end.

(** The rows of a table that satisfy a condition, as the driver returns them. *)
Definition rows {K V} `{Countable K} (p : K → V → bool) (m : gmap K V) : list (K * V) :=
  map_to_list (select p m).

(** ** Accepting an event *)

Section StoreOps.
Context `{Env, SqlOrder}.
#[local] Abbreviation SM := (M (conn DB) store_err).

(** The unique index idx_events_delivery. *)
Definition delivery_taken (source : string) (delivery : option string) (db : DB) : bool :=
  match delivery with
  | None => false
  | Some d =>
      negb (bool_decide (d = ""%string)) &&
      exists_row (λ _ e, bool_decide (ev_source e = source) &&
                         bool_decide (ev_external_delivery_id e = Some d)) (events db)
  end.

(** INSERT OR IGNORE INTO events: the rows affected. *)
Definition insert_event (id : string) (row : event_row) (db : DB) : Z * DB :=
  if bool_decide (is_Some (events db !! id))
     || delivery_taken (ev_source row) (ev_external_delivery_id row) db
  then (0, db)
  else (1, set_events (<[id := row]> (events db)) db).

(** The row savePendingEvent inserts. *)
Definition new_event_row (source ip payload : string) (at_ : Z)
    (externalDeliveryID bodySHA256 configHash actionsJSON : string) : event_row :=
  {| ev_source := source; ev_remote_ip := Some ip; ev_payload := Some payload;
     ev_status := "pending"; ev_received_at := at_; ev_processed_at := None;
     ev_external_delivery_id := nullable externalDeliveryID;
     ev_body_sha256 := nullable bodySHA256; ev_lease_until := None;
     ev_lease_owner := None; ev_config_hash := nullable configHash;
     ev_actions_json := nullable actionsJSON; ev_vars_json := None;
     ev_received_at_ms := Some (unix_milli at_); ev_processed_at_ms := None;
     ev_lease_until_ms := None; ev_next_attempt_at_ms := Some (unix_milli at_);
     ev_replay_generation := 0; ev_replayed_at_ms := None; ev_replay_reason := None |}.

(** DELETE FROM replay_guard WHERE source = ? AND body_sha256 = ? AND expires_at_ms <= ? *)
Definition drop_expired_guard (source sha : string) (atMS : Z) (db : DB) : Z * DB :=
  let p := λ (k : string * string) (x : Z), bool_decide (k = (source, sha)) && (x <=? atMS) in
  (rows_affected p (replay_guard db), set_replay_guard (delete_where p (replay_guard db)) db).

(** INSERT OR IGNORE INTO replay_guard *)
Definition insert_guard (source sha : string) (expiresMS : Z) (db : DB) : Z * DB :=
  match replay_guard db !! (source, sha) with
  | Some _ => (0, db)
  | None => (1, set_replay_guard (<[(source, sha) := expiresMS]> (replay_guard db)) db)
  end.

(** [replayExpiresAt] is [None] for the zero time. *)
Definition savePendingEvent (id source ip payload : string) (at_ : Z)
    (externalDeliveryID bodySHA256 configHash actionsJSON : string)
    (replayExpiresAt : option Z) : SM unit :=
  transaction (
    _ ← match replayExpiresAt with
        | Some expires =>
            if bool_decide (bodySHA256 = ""%string) then mret tt
            else
              _ ← exec (drop_expired_guard source bodySHA256 (unix_milli at_));
              n ← exec (insert_guard source bodySHA256 (unix_milli expires));
              if n =? 0 then fail ErrDuplicateBody else mret tt
        | None => mret tt
        end;
    n ← exec (insert_event id (new_event_row source ip payload at_
                externalDeliveryID bodySHA256 configHash actionsJSON));
    if n =? 0 then fail ErrDuplicateEvent else mret (Commit tt)).

Definition SavePendingEvent id source ip payload at_
    externalDeliveryID bodySHA256 configHash actionsJSON : SM unit :=
  savePendingEvent id source ip payload at_ externalDeliveryID bodySHA256 configHash
    actionsJSON None.

Definition SavePendingEventGuarded id source ip payload at_
    externalDeliveryID bodySHA256 configHash actionsJSON (replayExpiresAt : Z) : SM unit :=
  savePendingEvent id source ip payload at_ externalDeliveryID bodySHA256 configHash
    actionsJSON (Some replayExpiresAt).

Definition SaveEvent id source ip payload at_ : SM unit :=
  SavePendingEvent id source ip payload at_ "" "" "" "".

Definition HasRecentBodyHash (source bodySHA256 : string) (since : Z) : SM bool :=
  if bool_decide (bodySHA256 = ""%string) then mret false
  else query (λ db, exists_row (λ _ e,
         bool_decide (ev_source e = source) && bool_decide (ev_body_sha256 e = Some bodySHA256)
         && match ev_received_at_ms e with Some r => unix_milli since <=? r | None => false end)
         (events db)).

(** ** Claiming, leases and recovery *)

(** The row ClaimPending's SELECT returns. *)
Definition claim_select (nowMS : Z) (db : DB) : option (string * event_row) :=
  head (order_by (λ x y, null_le (due_key x.2) (due_key y.2))
          (rows (λ _ e, claimable nowMS e) (events db))).

(** row.Scan: a NULL received_at_ms does not fit an int64. *)
Definition scan_pending (id : string) (e : event_row) : option PendingEvent :=
  match ev_received_at_ms e with
  | None => None
  | Some receivedMS => Some
      {| pe_id := id; pe_source := ev_source e;
         pe_remote_ip := coalesce (ev_remote_ip e) ""%string;
         pe_payload := coalesce (ev_payload e) ""%string;
         pe_vars_json := coalesce (ev_vars_json e) ""%string;
         pe_external_delivery_id := coalesce (ev_external_delivery_id e) ""%string;
         pe_received_at := of_unix_milli receivedMS;
         pe_retry_started_at := of_unix_milli (coalesce (ev_replayed_at_ms e) receivedMS);
         pe_config_hash := coalesce (ev_config_hash e) ""%string;
         pe_actions_json := coalesce (ev_actions_json e) ""%string;
         pe_replay_generation := ev_replay_generation e |}
  end.

(** UPDATE events SET status = 'processing', lease_until = ?, lease_until_ms = ?,
    lease_owner = ? WHERE id = ? AND <claimable> *)
Definition lease_event (id : string) (leaseUntil : Z) (owner : string) (nowMS : Z)
    (db : DB) : Z * DB :=
  let p := λ k e, bool_decide (k = id) && claimable nowMS e in
  (rows_affected p (events db),
   set_events (update_where p (λ e, set_lease_owner (Some owner)
     (set_lease_until (Some leaseUntil) (Some (unix_milli leaseUntil))
       (set_status "processing" e))) (events db)) db).

(** UPDATE event_actions SET <release> WHERE status = 'running' AND q *)
Definition release_running (q : string → bool) (db : DB) : Z * DB :=
  let p := λ (k : string * Z) a, action_is "running" a && q k.1 in
  (rows_affected p (event_actions db),
   set_event_actions (update_where p release_action (event_actions db)) db).

Definition ClaimPending (lease now : Z) (owner : string) : SM (option PendingEvent) :=
  let lease := if lease <=? 0 then 2 * Minute else lease in
  let nowMS := unix_milli now in
  transaction (
    row ← query (claim_select nowMS);
    match row with
    | None => mret (Rollback None)
    | Some (id, e) =>
        match scan_pending id e with
        | None => fail SqlError
        | Some ev =>
            n ← exec (lease_event id (now + lease) owner nowMS);
            if n =? 0 then mret (Rollback None)
            else
              _ ← exec (release_running (λ k, bool_decide (k = id)));
              mret (Commit (Some ev))
        end
    end).

(** UPDATE events SET <requeue> WHERE p *)
Definition requeue_events (p : string → event_row → bool) (db : DB) : Z * DB :=
  (rows_affected p (events db), set_events (update_where p requeue_row (events db)) db).

(** event_id IN (SELECT id FROM events WHERE p) *)
Definition event_in (p : event_row → bool) (db : DB) (id : string) : bool :=
  match events db !! id with Some e => p e | None => false end.

(** EXISTS (SELECT 1 FROM event_actions WHERE event_id = id AND status = 'running') *)
Definition has_running (id : string) (db : DB) : bool :=
  exists_row (λ (k : string * Z) a, bool_decide (k.1 = id) && action_is "running" a)
    (event_actions db).

Definition requeueProcessing (recoverOrphans : bool) (condition : event_row → bool) : SM Z :=
  transaction (
    orphanCount ←
      (if recoverOrphans then
         n ← exec (λ db, requeue_events
               (λ id e, (status_is "pending" e || status_is "retrying" e) && has_running id db) db);
         _ ← exec (λ db, release_running (event_in (status_is "pending") db) db);
         mret n
       else mret 0);
    _ ← exec (λ db, release_running
          (event_in (λ e, status_is "processing" e && condition e) db) db);
    n ← exec (requeue_events (λ _ e, status_is "processing" e && condition e));
    mret (Commit (n + orphanCount))).

Definition RequeueExpiredLeases (now : Z) : SM Z :=
  requeueProcessing false (λ e, coalesce (ev_lease_until_ms e) 0 <? unix_milli now).

Definition RequeueAllProcessing : SM Z := requeueProcessing true (λ _, true).

Definition RequeueEvent (id : string) : SM unit :=
  transaction (
    _ ← exec (release_running (λ k, bool_decide (k = id)));
    n ← exec (requeue_events (λ k e, bool_decide (k = id) && status_is "processing" e));
    if n =? 0 then fail (ErrEvent id "not requeueable") else mret (Commit tt)).

(** UPDATE events SET lease_until = ?, lease_until_ms = ? WHERE id = ? AND
    status = 'processing' AND (lease_owner = ? OR lease_owner IS NULL OR lease_owner = '') *)
Definition RenewLease (id : string) (lease now : Z) (owner : string) : SM unit :=
  let lease := if lease <=? 0 then 2 * Minute else lease in
  let until := now + lease in
  let p := λ k e, bool_decide (k = id) && status_is "processing" e &&
     match ev_lease_owner e with
     | None => true
     | Some o => bool_decide (o = owner) || bool_decide (o = ""%string)
     end in
  n ← exec (λ db, (rows_affected p (events db),
        set_events (update_where p (set_lease_until (Some until) (Some (unix_milli until)))
          (events db)) db));
  if n =? 0 then fail (ErrEvent id "not processing") else mret tt.

(** ** Replay of dead events *)

(** UPDATE event_actions SET status = 'pending', attempt_count = 0, ... *)
Definition replay_action (nowMS : Z) (a : action_row) : action_row :=
  ActionRow "pending" 0 (Some nowMS) None None None.

Definition replay_actions (id : string) (nowMS : Z) (db : DB) : Z * DB :=
  let p := λ (k : string * Z) a, bool_decide (k.1 = id) && action_is "dead" a in
  (rows_affected p (event_actions db),
   set_event_actions (update_where p (replay_action nowMS) (event_actions db)) db).

Definition replay_event (id : string) (nowMS generation : Z) (reason : string)
    (db : DB) : Z * DB :=
  let p := λ k (_ : event_row), bool_decide (k = id) in
  (rows_affected p (events db),
   set_events (update_where p (λ e,
     set_replay generation (Some nowMS) (Some reason) (clear_lease (set_processed None None
       (set_next_attempt (Some nowMS) (set_status "pending" e))))) (events db)) db).

(** CASE WHEN payload IS NOT NULL AND length(payload) > 0 THEN 1 ELSE 0 END *)
Definition has_payload (e : event_row) : bool :=
  match ev_payload e with Some p => negb (bool_decide (p = ""%string)) | None => false end.

Definition ReplayDeadEvent (id reason : string) (now : Z) : SM Z :=
  transaction (
    row ← query (λ db, events db !! id);
    match row with
    | None => fail ErrEventNotRetryable
    | Some e =>
        if negb (status_is "dead" e) && negb (status_is "partial" e) && negb (status_is "error" e)
        then fail ErrEventNotRetryable
        else if negb (has_payload e) && bool_decide (coalesce (ev_vars_json e) ""%string = ""%string)
        then fail ErrReplayUnavailable
        else
          let nextGeneration := ev_replay_generation e + 1 in
          _ ← exec (replay_actions id (unix_milli now));
          n ← exec (replay_event id (unix_milli now) nextGeneration reason);
          if n =? 0 then fail ErrEventNotRetryable
          else mret (Commit nextGeneration)
    end).

Definition RetryFailedEvent (id : string) : SM unit :=
  now ← time_now;
  _ ← ReplayDeadEvent id "manual replay" now;
  mret tt.

(** ** Per-action retry state *)

(** INSERT OR IGNORE INTO event_actions(...) VALUES (?, ?, 'pending', 0, ?) *)
Definition insert_action (id : string) (i nowMS : Z) (db : DB) : Z * DB :=
  match event_actions db !! (id, i) with
  | Some _ => (0, db)
  | None => (1, set_event_actions
      (<[(id, i) := ActionRow "pending" 0 (Some nowMS) None None None]> (event_actions db)) db)
  end.

(** for i := 0; i < actionCount; i++ *)
Fixpoint insert_actions (id : string) (i : Z) (count : nat) (nowMS : Z) : SM unit :=
  match count with
  | O => mret tt
  | S count' => _ ← exec (insert_action id i nowMS); insert_actions id (i + 1) count' nowMS
  end.

(** UPDATE events SET f WHERE id = ? AND p *)
Definition update_event (id : string) (p : event_row → bool) (f : event_row → event_row)
    (db : DB) : Z * DB :=
  let q := λ k e, bool_decide (k = id) && p e in
  (rows_affected q (events db), set_events (update_where q f (events db)) db).

Definition PrepareEvent (id varsJSON : string) (actionCount : nat) (clearPayload : bool)
    (now : Z) : SM unit :=
  transaction (
    n ← exec (update_event id (status_is "processing") (set_vars_json (Some varsJSON)));
    if n =? 0 then fail (ErrEvent id "not processing")
    else
      _ ← insert_actions id 0 actionCount (unix_milli now);
      _ ← (if clearPayload then
             _ ← exec (update_event id (λ _, true) (set_payload None)); mret tt
           else mret tt);
      mret (Commit tt)).

Definition action_state (i : Z) (a : action_row) : ActionState :=
  MkActionState i (ac_status a) (ac_attempt_count a) (coalesce (ac_next_attempt_at_ms a) 0)
    (coalesce (ac_last_error a) ""%string).

(** SELECT ... FROM event_actions WHERE event_id = ? ORDER BY action_index *)
Definition select_action_states (eventID : string) (db : DB) : list ActionState :=
  (λ r, action_state r.1.2 r.2) <$>
    order_by (λ x y, x.1.2 <=? y.1.2)
      (rows (λ (k : string * Z) _, bool_decide (k.1 = eventID)) (event_actions db)).

Definition ListActionStates (eventID : string) : SM (list ActionState) :=
  query (select_action_states eventID).

(** UPDATE event_actions SET f WHERE event_id = ? AND action_index = ? AND p *)
Definition update_action (eventID : string) (index : Z) (p : action_row → bool)
    (f : action_row → action_row) (db : DB) : Z * DB :=
  let q := λ k a, bool_decide (k = (eventID, index)) && p a in
  (rows_affected q (event_actions db),
   set_event_actions (update_where q f (event_actions db)) db).

(** status IN ('pending', 'retrying') *)
Definition action_waiting (a : action_row) : bool := action_is "pending" a || action_is "retrying" a.

(** ... AND COALESCE(next_attempt_at_ms, 0) <= ? *)
Definition action_due (nowMS : Z) (a : action_row) : bool :=
  action_waiting a && (coalesce (ac_next_attempt_at_ms a) 0 <=? nowMS).

Definition start_row (a : action_row) : action_row :=
  ActionRow "running" (ac_attempt_count a + 1) None (ac_last_error a) (ac_retry_after_ms a)
    (ac_completed_at_ms a).

(** The UPDATE ... RETURNING attempt_count of StartAction. *)
Definition start_stmt (eventID : string) (index nowMS : Z) (db : DB) : option Z * DB :=
  let '(n, db') := update_action eventID index (action_due nowMS) start_row db in
  (if n =? 0 then None else ac_attempt_count <$> event_actions db' !! (eventID, index), db').

Definition StartAction (eventID : string) (index now : Z) : SM Z :=
  r ← exec (start_stmt eventID index (unix_milli now));
  match r with Some attempt => mret attempt | None => fail ErrNoRows end.

Definition updateRunningAction (eventID : string) (index : Z)
    (assignment : action_row → action_row) : SM unit :=
  n ← exec (update_action eventID index (action_is "running") assignment);
  if n =? 0 then fail (ErrAction eventID index "not running") else mret tt.

Definition complete_row (nowMS : Z) (a : action_row) : action_row :=
  ActionRow "done" (ac_attempt_count a) None None None (Some nowMS).

Definition retry_row (nextMS : Z) (detail : string) (retryAfterMS : Z) (a : action_row) : action_row :=
  ActionRow "retrying" (ac_attempt_count a) (Some nextMS) (Some detail) (Some retryAfterMS) None.

Definition dead_row (detail : string) (nowMS : Z) (a : action_row) : action_row :=
  ActionRow "dead" (ac_attempt_count a) None (Some detail) None (Some nowMS).

Definition CompleteAction (eventID : string) (index now : Z) : SM unit :=
  updateRunningAction eventID index (complete_row (unix_milli now)).

Definition ScheduleActionRetry (eventID : string) (index next : Z) (detail : string)
    (retryAfter : Z) : SM unit :=
  updateRunningAction eventID index (retry_row (unix_milli next) detail (duration_ms retryAfter)).

Definition DeadAction (eventID : string) (index : Z) (detail : string) (now : Z) : SM unit :=
  updateRunningAction eventID index (dead_row detail (unix_milli now)).

Definition ExpireAction (eventID : string) (index now : Z) : SM unit :=
  n ← exec (update_action eventID index action_waiting
        (dead_row "maximum retry age exceeded" (unix_milli now)));
  if n =? 0 then fail (ErrAction eventID index "not pending or retrying") else mret tt.

(** *** RefreshEventStatus *)

(** The columns of its SELECT. *)
Record action_counts : Type := ActionCounts {
  n_total : Z; n_done : Z; n_dead : Z; n_retrying : Z; n_pending : Z; n_running : Z;
  n_next : option Z;
}.

Definition count_actions (eventID : string) (p : action_row → bool) (db : DB) : Z :=
  rows_affected (λ (k : string * Z) a, bool_decide (k.1 = eventID) && p a) (event_actions db).

(** MIN over the non-NULL values. *)
Fixpoint sql_min (l : list (option Z)) : option Z :=
  match l with
  | [] => None
  | x :: l' =>
      match x, sql_min l' with
      | Some a, Some b => Some (Z.min a b)
      | Some a, None => Some a
      | None, acc => acc
      end
  end.

Definition refresh_select (eventID : string) (db : DB) : action_counts :=
  {| n_total := count_actions eventID (λ _, true) db;
     n_done := count_actions eventID (action_is "done") db;
     n_dead := count_actions eventID (action_is "dead") db;
     n_retrying := count_actions eventID (action_is "retrying") db;
     n_pending := count_actions eventID (action_is "pending") db;
     n_running := count_actions eventID (action_is "running") db;
     n_next := sql_min ((λ r, ac_next_attempt_at_ms r.2) <$>
       rows (λ (k : string * Z) a, bool_decide (k.1 = eventID) && action_is "retrying" a)
         (event_actions db)) |}.

(** status, processed, due *)
Definition refresh_plan (c : action_counts) (nowMS : Z) : string * option Z * option Z :=
  if n_done c =? n_total c then ("done"%string, Some nowMS, None)
  else if (0 <? n_dead c) && (n_done c + n_dead c =? n_total c)
  then ("dead"%string, Some nowMS, None)
  else if 0 <? n_retrying c then
    ("retrying"%string, None,
     match n_next c with Some v => Some v | None => Some nowMS end)
  else ("pending"%string, None, Some nowMS).

(** UPDATE events SET status = ?, processed_at = ..., next_attempt_at_ms = ?, lease_* = NULL *)
Definition refresh_stmt (eventID : string) (plan : string * option Z * option Z) (now : Z) :
    DB → Z * DB :=
  let '(status, processed, due) := plan in
  update_event eventID (λ _, true) (λ e,
    clear_lease (set_next_attempt due
      (set_processed (match processed with None => None | Some _ => Some now end) processed
        (set_status status e)))).

Definition RefreshEventStatus (eventID : string) (now : Z) : SM string :=
  c ← query (refresh_select eventID);
  if n_total c =? 0 then fail (ErrEvent eventID "has no action state")
  else
    let plan := refresh_plan c (unix_milli now) in
    n ← exec (refresh_stmt eventID plan now);
    if n =? 0 then fail (ErrEvent eventID "not found") else mret plan.1.1.

(** ** Other event updates and the reads *)

Definition HasEvent (id : string) : SM bool :=
  query (λ db, bool_decide (is_Some (events db !! id))).

Definition status_row (status : string) (at_ : Z) (e : event_row) : event_row :=
  clear_lease (set_next_attempt None (set_processed (Some at_) (Some (unix_milli at_))
    (set_status status e))).

Definition UpdateEventStatus (id status : string) (at_ : Z) : SM unit :=
  n ← exec (update_event id (λ _, true) (status_row status at_));
  if n =? 0 then fail (ErrEvent id "not found") else mret tt.

(** INSERT INTO action_logs: the id is SQLite's next AUTOINCREMENT value. *)
Definition insert_action_log (eventID action target : string) (actionIndex generation attempt : Z)
    (success : bool) (detail : string) (dur at_ : Z) (db : DB) : unit * DB :=
  let id := action_logs_seq db + 1 in
  (tt, set_action_logs (action_logs db ++
    [{| al_id := id; al_event_id := eventID; al_action := action;
        al_action_index := actionIndex; al_replay_generation := generation;
        al_target := Some target; al_attempt := attempt; al_success := boolToInt success;
        al_detail := Some detail; al_duration_ms := Some (duration_ms dur);
        al_created_at := at_; al_created_at_ms := Some (unix_milli at_) |}]) id db).

Definition SaveActionAttemptLog (eventID : string) (actionIndex generation : Z)
    (action target : string) (attempt : Z) (success : bool) (detail : string)
    (dur at_ : Z) : SM unit :=
  found ← query (λ db, bool_decide (is_Some (events db !! eventID)));
  if found : bool then
    exec (insert_action_log eventID action target actionIndex generation attempt success
            detail dur at_)
  else fail (ErrEvent eventID "not found").

Definition SaveActionLog (eventID action target : string) (attempt : Z) (success : bool)
    (detail : string) (dur at_ : Z) : SM unit :=
  SaveActionAttemptLog eventID (-1) 0 action target attempt success detail dur at_.

(** A NULL payload scans as a nil slice. *)
Definition GetPayload (id : string) : SM (string * string) :=
  row ← query (λ db, events db !! id);
  match row with
  | Some e => mret (coalesce (ev_payload e) ""%string, ev_source e)
  | None => fail ErrNoRows
  end.

Definition GetEvent (id : string) : SM (option EventMeta) :=
  row ← query (λ db, events db !! id);
  match row with
  | None => mret None
  | Some e =>
      match ev_received_at_ms e with
      | None => fail SqlError
      | Some receivedMS => mret (Some
          {| em_id := id; em_source := ev_source e;
             em_remote_ip := coalesce (ev_remote_ip e) ""%string; em_status := ev_status e;
             em_received_at := of_unix_milli receivedMS;
             em_processed_at := of_unix_milli <$> ev_processed_at_ms e;
             em_external_delivery_id := coalesce (ev_external_delivery_id e) ""%string;
             em_config_hash := coalesce (ev_config_hash e) ""%string;
             em_replay_generation := ev_replay_generation e;
             em_replay_reason := coalesce (ev_replay_reason e) ""%string |})
      end
  end.

Definition ListActionLogs (eventID : string) (limit : Z) : SM (list ActionLogRow) :=
  let limit := if limit <=? 0 then 20 else limit in
  query (λ db, (λ r,
    {| lr_action := al_action r; lr_action_index := al_action_index r;
       lr_replay_generation := al_replay_generation r;
       lr_target := coalesce (al_target r) ""%string; lr_attempt := al_attempt r;
       lr_success := negb (al_success r =? 0); lr_detail := coalesce (al_detail r) ""%string;
       lr_duration_ms := coalesce (al_duration_ms r) 0;
       lr_created_at := of_unix_milli (coalesce (al_created_at_ms r) 0) |}) <$>
    take (Z.to_nat limit) (order_by (λ x y, al_id y <=? al_id x)
      (filter (λ r, al_event_id r = eventID) (action_logs db)))).

Definition ClearPayload (id : string) : SM unit :=
  _ ← exec (update_event id (λ _, true) (set_payload None)); mret tt.

(** ** Readiness probe and retention *)

(** INSERT INTO _ready_check VALUES (1, 1) ON CONFLICT(id) DO UPDATE SET nonce = 1 - nonce *)
Definition toggle_ready (db : DB) : unit * DB :=
  (tt, set_ready_check (match ready_check db !! 1 with
                        | Some nonce => <[1 := 1 - nonce]> (ready_check db)
                        | None => <[1 := 1]> (ready_check db)
                        end) db).

Definition ReadyCheck (deadline : option Z) : SM unit :=
  withDeadlineWriter deadline (transaction (_ ← exec toggle_ready; mret (Commit tt))).

(** COALESCE(processed_at_ms, received_at_ms) < ? AND status IN (<terminal>) *)
Definition purgeable (cutoffMS : Z) (e : event_row) : bool :=
  match ev_processed_at_ms e, ev_received_at_ms e with
  | Some p, _ => p <? cutoffMS
  | None, Some r => r <? cutoffMS
  | None, None => false
  end && terminal_status (ev_status e).

Definition purge_action_logs (cutoffMS : Z) (db : DB) : unit * DB :=
  (tt, set_action_logs (filter (λ r, event_in (purgeable cutoffMS) db (al_event_id r) = false)
         (action_logs db)) (action_logs_seq db) db).

Definition purge_actions (cutoffMS : Z) (db : DB) : unit * DB :=
  (tt, set_event_actions (delete_where (λ (k : string * Z) _,
         event_in (purgeable cutoffMS) db k.1) (event_actions db)) db).

Definition purge_events (cutoffMS : Z) (db : DB) : Z * DB :=
  let p := λ (_ : string) e, purgeable cutoffMS e in
  (rows_affected p (events db), set_events (delete_where p (events db)) db).

Definition purge_guards (nowMS : Z) (db : DB) : unit * DB :=
  (tt, set_replay_guard (delete_where (λ _ x, x <? nowMS) (replay_guard db)) db).

Definition purge_heartbeats (cutoffMS : Z) (db : DB) : unit * DB :=
  (tt, set_heartbeat_logs (filter (λ r, (hb_created_at_ms r <? cutoffMS) = false)
         (heartbeat_logs db)) (heartbeat_logs_seq db) db).

Definition PurgeOlderThan (cutoff : Z) : SM Z :=
  let cutoffMS := unix_milli cutoff in
  transaction (
    _ ← exec (purge_action_logs cutoffMS);
    _ ← exec (purge_actions cutoffMS);
    n ← exec (purge_events cutoffMS);
    now ← time_now;
    _ ← exec (purge_guards (unix_milli now));
    _ ← exec (purge_heartbeats cutoffMS);
    mret (Commit n)).

End StoreOps.

(** Statements are reasoned about through their lemmas, not unfolded. *)
#[global] Arguments drop_expired_guard : simpl never.
#[global] Arguments insert_guard : simpl never.
#[global] Arguments insert_event : simpl never.
#[global] Arguments claim_select : simpl never.
#[global] Arguments lease_event : simpl never.
#[global] Arguments release_running : simpl never.
#[global] Arguments requeue_events : simpl never.
#[global] Arguments replay_actions : simpl never.
#[global] Arguments replay_event : simpl never.
#[global] Arguments insert_action : simpl never.
#[global] Arguments update_event : simpl never.
#[global] Arguments update_action : simpl never.
#[global] Arguments start_stmt : simpl never.
#[global] Arguments refresh_stmt : simpl never.
#[global] Arguments refresh_plan : simpl never.
#[global] Arguments refresh_select : simpl never.
#[global] Arguments insert_action_log : simpl never.
#[global] Arguments toggle_ready : simpl never.
#[global] Arguments purge_action_logs : simpl never.
#[global] Arguments purge_actions : simpl never.
#[global] Arguments purge_events : simpl never.
#[global] Arguments purge_guards : simpl never.
#[global] Arguments purge_heartbeats : simpl never.
