(* ===== verification/StoreLookup.v ===== *)
(** * Reading a row after a statement

    One lookup lemma per statement of [Store]: what a row is after it, and that
    it leaves the other tables alone. *)

From S2P Require Import Prelude Sql StoreSchema Store.

Section Lookup.
Implicit Types (db : DB) (id : string) (k : string * Z).

Lemma lease_event_lookup id t owner ms db id' :
  events (lease_event id t owner ms db).2 !! id' =
  (λ e, if bool_decide (id' = id) && claimable ms e
        then set_lease_owner (Some owner) (set_lease_until (Some t) (Some (unix_milli t))
               (set_status "processing" e))
        else e) <$> events db !! id'.
Proof. unfold lease_event. cbn. by rewrite update_where_lookup. Qed.

Lemma release_running_lookup q db k :
  event_actions (release_running q db).2 !! k =
  (λ a, if action_is "running" a && q k.1 then release_action a else a)
    <$> event_actions db !! k.
Proof. unfold release_running. cbn. by rewrite update_where_lookup. Qed.

Lemma requeue_events_lookup p db id :
  events (requeue_events p db).2 !! id =
  (λ e, if p id e then requeue_row e else e) <$> events db !! id.
Proof. unfold requeue_events. cbn. by rewrite update_where_lookup. Qed.

Lemma update_event_lookup id p f db id' :
  events (update_event id p f db).2 !! id' =
  (λ e, if bool_decide (id' = id) && p e then f e else e) <$> events db !! id'.
Proof. unfold update_event. cbn. by rewrite update_where_lookup. Qed.

Lemma update_action_lookup id i p f db k :
  event_actions (update_action id i p f db).2 !! k =
  (λ a, if bool_decide (k = (id, i)) && p a then f a else a) <$> event_actions db !! k.
Proof. unfold update_action. cbn. by rewrite update_where_lookup. Qed.

Lemma replay_actions_lookup id ms db k :
  event_actions (replay_actions id ms db).2 !! k =
  (λ a, if bool_decide (k.1 = id) && action_is "dead" a then replay_action ms a else a)
    <$> event_actions db !! k.
Proof. unfold replay_actions. cbn. by rewrite update_where_lookup. Qed.

Lemma replay_event_lookup id ms g r db id' :
  events (replay_event id ms g r db).2 !! id' =
  (λ e, if bool_decide (id' = id)
        then set_replay g (Some ms) (Some r) (clear_lease (set_processed None None
               (set_next_attempt (Some ms) (set_status "pending" e))))
        else e) <$> events db !! id'.
Proof. unfold replay_event. cbn. by rewrite update_where_lookup. Qed.

Lemma insert_action_lookup id i ms db k :
  event_actions (insert_action id i ms db).2 !! k =
  match event_actions db !! k with
  | Some a => Some a
  | None => if bool_decide (k = (id, i)) then Some (ActionRow "pending" 0 (Some ms) None None None)
            else None
  end.
Proof.
  unfold insert_action. destruct (event_actions db !! (id, i)) eqn:E; cbn.
  - destruct (event_actions db !! k) eqn:E'; [done|]. case_bool_decide; naive_solver.
  - rewrite lookup_insert. case_decide; case_bool_decide; simplify_eq; try done.
    + by rewrite E.
    + by destruct (event_actions db !! k).
Qed.

(** RowsAffected of the keyed updates. *)
Lemma update_event_count id p f db :
  ((update_event id p f db).1 =? 0) = false ↔
  ∃ e, events db !! id = Some e ∧ p e = true.
Proof.
  unfold update_event. cbn. rewrite rows_affected_pos. split.
  - intros (k & e & He & Hp). bool_simpl. subst. eauto.
  - intros (e & He & Hp). exists id, e. by rewrite bool_decide_true.
Qed.

Lemma update_action_count id i p f db :
  ((update_action id i p f db).1 =? 0) = false ↔
  ∃ a, event_actions db !! (id, i) = Some a ∧ p a = true.
Proof.
  unfold update_action. cbn. rewrite rows_affected_pos. split.
  - intros (k & a & Ha & Hp). bool_simpl. subst. eauto.
  - intros (a & Ha & Hp). exists (id, i), a. by rewrite bool_decide_true.
Qed.

Lemma lease_event_count id t owner ms db :
  ((lease_event id t owner ms db).1 =? 0) = false ↔
  ∃ e, events db !! id = Some e ∧ claimable ms e = true.
Proof. exact (update_event_count id (claimable ms) (λ e, e) db). Qed.

Lemma requeue_events_count p db :
  ((requeue_events p db).1 =? 0) = false ↔ ∃ id e, events db !! id = Some e ∧ p id e = true.
Proof. unfold requeue_events. cbn. apply rows_affected_pos. Qed.

Lemma replay_event_count id ms g r db :
  ((replay_event id ms g r db).1 =? 0) = false ↔ is_Some (events db !! id).
Proof.
  unfold replay_event. cbn. rewrite rows_affected_pos. split.
  - intros (k & e & He & Hp). bool_simpl. subst. eauto.
  - intros [e He]. exists id, e. by rewrite bool_decide_true.
Qed.

(** Updates of events keep the other tables, and the reverse. *)
Lemma update_event_actions id p f db :
  event_actions (update_event id p f db).2 = event_actions db.
Proof. done. Qed.

Lemma update_action_events id i p f db :
  events (update_action id i p f db).2 = events db.
Proof. done. Qed.

Lemma insert_action_events id i ms db : events (insert_action id i ms db).2 = events db.
Proof. unfold insert_action. by case_match. Qed.

Lemma start_stmt_fst id i ms db :
  (start_stmt id i ms db).1 =
  match event_actions db !! (id, i) with
  | Some a => if action_due ms a then Some (ac_attempt_count a + 1) else None
  | None => None
  end.
Proof.
  unfold start_stmt. pose proof (update_action_count id i (action_due ms) start_row db) as Hc.
  pose proof (update_action_lookup id i (action_due ms) start_row db (id, i)) as Hl.
  destruct (update_action _ _ _ _ _) as [n db']. cbn in *.
  rewrite Hl. destruct (event_actions db !! (id, i)) as [a|]; cbn.
  - rewrite bool_decide_true by done. cbn. destruct (action_due ms a) eqn:Ed.
    + assert ((n =? 0) = false) as -> by (apply Hc; eauto). done.
    + destruct (n =? 0) eqn:En; [done|].
      destruct Hc as [Hc _]. destruct (Hc eq_refl) as (a' & Ha' & ?). congruence.
  - by case_match.
Qed.

Lemma start_stmt_snd id i ms db :
  (start_stmt id i ms db).2 = (update_action id i (action_due ms) start_row db).2.
Proof. unfold start_stmt. by destruct (update_action _ _ _ _ _). Qed.

Lemma purge_action_logs_elem ms db r :
  r ∈ action_logs (purge_action_logs ms db).2 ↔
  r ∈ action_logs db ∧ event_in (purgeable ms) db (al_event_id r) = false.
Proof.
  unfold purge_action_logs, set_action_logs. cbn [snd action_logs].
  rewrite list_elem_of_filter. naive_solver.
Qed.

Lemma purge_actions_lookup ms db id i a :
  event_actions (purge_actions ms db).2 !! (id, i) = Some a ↔
  event_actions db !! (id, i) = Some a ∧ event_in (purgeable ms) db id = false.
Proof. exact (delete_where_lookup_Some _ _ (id, i) a). Qed.

Lemma purge_guards_lookup ms db (k : string * string) x :
  replay_guard (purge_guards ms db).2 !! k = Some x ↔ replay_guard db !! k = Some x ∧ ms ≤ x.
Proof.
  unfold purge_guards, set_replay_guard. cbn [snd replay_guard].
  by rewrite delete_where_lookup_Some, Z.ltb_ge.
Qed.

End Lookup.
