(* ===== verification/StoreInv.v ===== *)
(** * Well-formedness of the durable state

    [db_ok] collects what every row looks like between two operations of the
    store: the shape of each event status (leases only while processing, an end
    time exactly on the finished ones), of each action status, the foreign key
    from actions to events and the uniqueness of delivery ids. Every operation
    preserves it, whatever fails on the way. *)

From S2P Require Import Prelude Sql StoreSchema Store StoreLookup.

(** ** The invariant *)

(** The statuses an event has after [migrate]; the last two are legacy ones. *)
Definition known_status (s : string) : bool :=
  one_of s ["pending"; "processing"; "retrying"; "done"; "dead"; "skipped";
            "partial"; "error"]%string.

Definition live_status (s : string) : bool :=
  one_of s ["pending"; "processing"; "retrying"]%string.

Definition finished_status (s : string) : bool := one_of s ["done"; "dead"; "skipped"]%string.

Record event_ok (e : event_row) : Prop := {
  eok_received : is_Some (ev_received_at_ms e);
  eok_status : known_status (ev_status e) = true;
  eok_unleased : ev_status e ≠ "processing"%string →
    ev_lease_until e = None ∧ ev_lease_until_ms e = None ∧ ev_lease_owner e = None;
  eok_leased : ev_status e = "processing"%string →
    is_Some (ev_lease_until_ms e) ∧ is_Some (ev_lease_owner e);
  eok_live : live_status (ev_status e) = true → ev_processed_at_ms e = None;
  eok_finished : finished_status (ev_status e) = true →
    is_Some (ev_processed_at_ms e) ∧ ev_next_attempt_at_ms e = None;
}.

(** What each status of an action says about the other columns. *)
Inductive action_ok (a : action_row) : Prop :=
| aok_pending : ac_status a = "pending"%string → 0 ≤ ac_attempt_count a →
    ac_completed_at_ms a = None → action_ok a
| aok_running : ac_status a = "running"%string → 1 ≤ ac_attempt_count a →
    ac_next_attempt_at_ms a = None → ac_completed_at_ms a = None → action_ok a
| aok_retrying : ac_status a = "retrying"%string → 1 ≤ ac_attempt_count a →
    is_Some (ac_next_attempt_at_ms a) → is_Some (ac_last_error a) →
    ac_completed_at_ms a = None → action_ok a
| aok_done : ac_status a = "done"%string → 1 ≤ ac_attempt_count a →
    ac_next_attempt_at_ms a = None → ac_last_error a = None →
    is_Some (ac_completed_at_ms a) → action_ok a
| aok_dead : ac_status a = "dead"%string → 0 ≤ ac_attempt_count a →
    ac_next_attempt_at_ms a = None → is_Some (ac_last_error a) →
    is_Some (ac_completed_at_ms a) → action_ok a.

(** idx_events_delivery: a non-empty delivery id is unique per source. *)
Definition delivery_unique (db : DB) : Prop := ∀ id1 id2 e1 e2 d,
  events db !! id1 = Some e1 → events db !! id2 = Some e2 →
  ev_external_delivery_id e1 = Some d → ev_external_delivery_id e2 = Some d →
  d ≠ ""%string → ev_source e1 = ev_source e2 → id1 = id2.

Record db_ok (db : DB) : Prop := {
  dok_events : ∀ id e, events db !! id = Some e → event_ok e;
  dok_actions : ∀ k a, event_actions db !! k = Some a → action_ok a;
  dok_fk : ∀ id i a, event_actions db !! (id, i) = Some a → is_Some (events db !! id);
  dok_index : ∀ id i a, event_actions db !! (id, i) = Some a → 0 ≤ i;
  dok_delivery : delivery_unique db;
}.

(** Two databases with the same events and actions. *)
Definition same_outbox (db db' : DB) : Prop :=
  events db' = events db ∧ event_actions db' = event_actions db.

(** ** Row lemmas *)

Ltac row_cases :=
  repeat match goal with
  | H : action_is _ _ = true |- _ => unfold action_is in H
  | H : status_is _ _ = true |- _ => unfold status_is in H
  | H : action_waiting _ = true |- _ => unfold action_waiting in H
  | H : action_due _ _ = true |- _ => unfold action_due in H
  | H : _ ∨ _ |- _ => destruct H
  | _ => progress bool_simpl
  end; simplify_eq/=.

Lemma release_action_ok a : action_ok a → action_is "running" a = true → action_ok (release_action a).
Proof.
  intros Ha Hr. row_cases. destruct Ha; simplify_eq/=; try congruence.
  apply aok_pending; simpl; [done| |done]. destruct (0 <? _) eqn:?; lia.
Qed.

Lemma replay_action_ok ms a : action_ok (replay_action ms a).
Proof. by apply aok_pending. Qed.

Lemma start_row_ok ms a : action_ok a → action_due ms a = true → action_ok (start_row a).
Proof.
  intros Ha Hr. apply aok_running; simpl; try done.
  all: destruct Ha; row_cases; try congruence; lia.
Qed.

Lemma complete_row_ok ms a : action_ok a → action_is "running" a = true → action_ok (complete_row ms a).
Proof. intros Ha Hr. apply aok_done; simpl; eauto. destruct Ha; row_cases; congruence || lia. Qed.

Lemma retry_row_ok ms d ra a :
  action_ok a → action_is "running" a = true → action_ok (retry_row ms d ra a).
Proof. intros Ha Hr. apply aok_retrying; simpl; eauto. destruct Ha; row_cases; congruence || lia. Qed.

Lemma dead_row_ok d ms a : action_ok a → action_ok (dead_row d ms a).
Proof. intros Ha. apply aok_dead; simpl; eauto. destruct Ha; lia. Qed.

#[export] Hint Resolve release_action_ok replay_action_ok start_row_ok complete_row_ok
  retry_row_ok dead_row_ok : webhook.

Lemma live_known s : live_status s = true → known_status s = true.
Proof. unfold live_status. intros H. one_of_cases H; by subst. Qed.

Lemma claimable_live ms e : claimable ms e = true → live_status (ev_status e) = true.
Proof. unfold claimable. intros H. row_cases; by destruct e; simplify_eq/=. Qed.

(** The row after an assignment that ends the lease. *)
Lemma event_ok_intro e :
  is_Some (ev_received_at_ms e) → known_status (ev_status e) = true →
  ev_status e ≠ "processing"%string →
  ev_lease_until e = None → ev_lease_until_ms e = None → ev_lease_owner e = None →
  (live_status (ev_status e) = true → ev_processed_at_ms e = None) →
  (finished_status (ev_status e) = true →
   is_Some (ev_processed_at_ms e) ∧ ev_next_attempt_at_ms e = None) →
  event_ok e.
Proof. intros. split; auto. done. Qed.

Lemma requeue_row_ok e : event_ok e → event_ok (requeue_row e).
Proof. intros [Hr ? ? ? ? ?]. by apply event_ok_intro. Qed.

Lemma lease_row_ok t owner ms e : event_ok e → claimable ms e = true →
  event_ok (set_lease_owner (Some owner) (set_lease_until (Some t) (Some (unix_milli t))
    (set_status "processing" e))).
Proof.
  intros [Hr Hs Hu Hl Hv Hf] Hc%claimable_live. split; simpl; eauto; done.
Qed.

Lemma renew_row_ok t e : event_ok e → status_is "processing" e = true →
  event_ok (set_lease_until (Some t) (Some (unix_milli t)) e).
Proof.
  intros [Hr Hs Hu Hl Hv Hf] Hp. row_cases. split; simpl; eauto; try done.
  intros _. split; [eauto|]. by apply Hl.
Qed.

Lemma replay_row_ok g ms r e : event_ok e →
  event_ok (set_replay g (Some ms) (Some r) (clear_lease (set_processed None None
    (set_next_attempt (Some ms) (set_status "pending" e))))).
Proof. intros [Hr ? ? ? ? ?]. by apply event_ok_intro. Qed.

Lemma status_row_ok s t e : event_ok e → one_of s ["dead"; "skipped"]%string = true →
  event_ok (status_row s t e).
Proof.
  intros [Hr ? ? ? ? ?] Hs. apply event_ok_intro; simpl; try done.
  all: by one_of_cases Hs; subst.
Qed.

(** The plans RefreshEventStatus can write. *)
Definition plan_ok (plan : string * option Z * option Z) : Prop :=
  let '(s, processed, due) := plan in
  (one_of s ["done"; "dead"]%string = true ∧ is_Some processed ∧ due = None) ∨
  (one_of s ["retrying"; "pending"]%string = true ∧ processed = None ∧ is_Some due).

Lemma refresh_plan_ok c ms : plan_ok (refresh_plan c ms).
Proof.
  unfold refresh_plan, plan_ok.
  repeat case_match; simplify_eq; first [by left; eauto | by right; eauto].
Qed.

Lemma refresh_row_ok s processed due now e : event_ok e → plan_ok (s, processed, due) →
  event_ok (clear_lease (set_next_attempt due
    (set_processed (match processed with None => None | Some _ => Some now end) processed
      (set_status s e)))).
Proof.
  intros [Hr ? ? ? ? ?] [(Hs & Hp & ->)|(Hs & -> & Hd)];
    apply event_ok_intro; simpl; try done.
  all: one_of_cases Hs; by subst.
Qed.

(** ** Statements preserve the invariant *)

(** An assignment that leaves the columns of idx_events_delivery alone. *)
Definition keeps_delivery (f : event_row → event_row) : Prop := ∀ e,
  ev_source (f e) = ev_source e ∧ ev_external_delivery_id (f e) = ev_external_delivery_id e.

Lemma db_ok_empty : db_ok empty_db.
Proof. split; intros *; simpl; rewrite ?lookup_empty; try done. Qed.

Lemma db_ok_same db db' : same_outbox db db' → db_ok db → db_ok db'.
Proof.
  intros [He Ha] [H1 H2 H3 H4 H5].
  split; unfold delivery_unique in *; rewrite ?He, ?Ha; auto.
Qed.

Lemma update_events_ok p f db :
  keeps_delivery f →
  (∀ id e, events db !! id = Some e → p id e = true → event_ok e → event_ok (f e)) →
  db_ok db → db_ok (set_events (update_where p f (events db)) db).
Proof.
  intros Hkeep Hf [H1 H2 H3 H4 H5]. split; simpl; auto.
  - intros id e (e0 & He & ->)%update_where_lookup_Some. case_match; eauto.
  - intros id i a Ha. apply update_where_is_Some. eauto.
  - intros id1 id2 e1 e2 d (e1' & He1 & ->)%update_where_lookup_Some
      (e2' & He2 & ->)%update_where_lookup_Some Hd1 Hd2 Hne Hs.
    destruct (Hkeep e1') as [Hs1 Hx1], (Hkeep e2') as [Hs2 Hx2].
    eapply (H5 id1 id2 e1' e2' d); eauto; repeat case_match; congruence.
Qed.

Lemma update_actions_ok p f db :
  (∀ k a, p k a = true → action_ok a → action_ok (f a)) →
  db_ok db → db_ok (set_event_actions (update_where p f (event_actions db)) db).
Proof.
  intros Hf [H1 H2 H3 H4 H5]. split; simpl; auto.
  - intros k a (a0 & Ha & ->)%update_where_lookup_Some. case_match; eauto.
  - intros id i a (a0 & Ha & ->)%update_where_lookup_Some. eauto.
  - intros id i a (a0 & Ha & ->)%update_where_lookup_Some. eauto.
Qed.

Lemma insert_event_ok id row db :
  event_ok row → db_ok db → db_ok (insert_event id row db).2.
Proof.
  intros Hrow [H1 H2 H3 H4 H5]. unfold insert_event.
  destruct (_ || _) eqn:Hcond; simpl; [by split|].
  apply orb_false_iff in Hcond as [Hid Hdel]. bool_simpl.
  assert (∀ id' e d, events db !! id' = Some e → d ≠ ""%string →
    ev_external_delivery_id row = Some d → ev_external_delivery_id e = Some d →
    ev_source e = ev_source row → False) as Hfree.
  { intros id' e d He Hd Hx1 Hx2 Hs. unfold delivery_taken in Hdel.
    rewrite Hx1, bool_decide_false in Hdel by done. simpl in Hdel.
    rewrite exists_row_false in Hdel. specialize (Hdel _ _ He). simpl in Hdel.
    rewrite Hs, Hx2, !bool_decide_true in Hdel; done. }
  split; simpl; auto.
  - intros id' e. rewrite lookup_insert. case_decide; naive_solver.
  - intros id' i a Ha. rewrite lookup_insert. case_decide; eauto.
  - intros id1 id2 e1 e2 d. simpl. rewrite !lookup_insert.
    repeat case_decide; intros; simplify_eq; eauto; exfalso; eauto.
Qed.

Lemma insert_action_ok id i ms db :
  is_Some (events db !! id) → 0 ≤ i → db_ok db → db_ok (insert_action id i ms db).2.
Proof.
  intros Hid Hi [H1 H2 H3 H4 H5]. unfold insert_action. case_match; simpl; [by split|].
  split; simpl; auto.
  - intros k a. rewrite lookup_insert. case_decide; [|eauto].
    intros ?; simplify_eq. by apply aok_pending.
  - intros id' i' a. rewrite lookup_insert. case_decide; [|eauto].
    intros; by simplify_eq.
  - intros id' i' a. rewrite lookup_insert. case_decide; [|eauto].
    intros; by simplify_eq.
Qed.

Lemma release_running_ok q db : db_ok db → db_ok (release_running q db).2.
Proof. apply update_actions_ok. intros k a Hp. bool_simpl. auto with webhook. Qed.

Lemma requeue_events_ok p db : db_ok db → db_ok (requeue_events p db).2.
Proof. apply update_events_ok; [done|]. intros. by apply requeue_row_ok. Qed.

Lemma lease_event_ok id t owner ms db : db_ok db → db_ok (lease_event id t owner ms db).2.
Proof.
  apply update_events_ok; [done|]. intros id' e _ Hp Hok. bool_simpl.
  by eapply lease_row_ok.
Qed.

Lemma replay_actions_ok id ms db : db_ok db → db_ok (replay_actions id ms db).2.
Proof. apply update_actions_ok. auto with webhook. Qed.

Lemma replay_event_ok id ms g r db : db_ok db → db_ok (replay_event id ms g r db).2.
Proof. apply update_events_ok; [done|]. intros. by apply replay_row_ok. Qed.

(** UPDATE events SET f WHERE id = ? AND p *)
Lemma update_event_ok id p f db :
  keeps_delivery f → (∀ e, p e = true → event_ok e → event_ok (f e)) →
  db_ok db → db_ok (update_event id p f db).2.
Proof. intros Hk Hf. apply update_events_ok; [done|]. intros id' e _ Hp. bool_simpl. auto. Qed.

Lemma update_action_ok id i p f db :
  (∀ a, p a = true → action_ok a → action_ok (f a)) →
  db_ok db → db_ok (update_action id i p f db).2.
Proof. intros Hf. apply update_actions_ok. intros k a Hp. bool_simpl. auto. Qed.

Lemma start_stmt_ok id i ms db : db_ok db → db_ok (start_stmt id i ms db).2.
Proof.
  intros Hok. unfold start_stmt. pose proof (update_action_ok id i (action_due ms) start_row db).
  destruct (update_action _ _ _ _ _) as [n db']. simpl in *. eauto with webhook.
Qed.

Lemma refresh_stmt_ok id plan now db : plan_ok plan → db_ok db → db_ok (refresh_stmt id plan now db).2.
Proof.
  intros Hplan. destruct plan as [[s processed] due]. apply update_event_ok; [done|].
  intros e _ He. by apply refresh_row_ok.
Qed.

Lemma purge_actions_ok ms db : db_ok db → db_ok (purge_actions ms db).2.
Proof.
  intros [H1 H2 H3 H4 H5]. split; simpl; auto.
  - intros k a [Ha _]%delete_where_lookup_Some. eauto.
  - intros id i a [Ha _]%delete_where_lookup_Some. eauto.
  - intros id i a [Ha _]%delete_where_lookup_Some. eauto.
Qed.

(** Deleting events keeps the foreign key only after their actions are gone. *)
Lemma purge_events_ok ms db : db_ok db → db_ok (purge_events ms (purge_actions ms db).2).2.
Proof.
  intros Hok%(purge_actions_ok ms). destruct Hok as [H1 H2 H3 H4 H5]. split; simpl in *; auto.
  - intros id e [He _]%delete_where_lookup_Some. eauto.
  - intros id i a Ha. destruct (H3 _ _ _ Ha) as [e He]. exists e.
    apply delete_where_lookup_Some in Ha as [_ Hp]. simpl in Hp. unfold event_in in Hp.
    rewrite He in Hp. by apply delete_where_lookup_Some.
  - intros id1 id2 e1 e2 d [He1 _]%delete_where_lookup_Some [He2 _]%delete_where_lookup_Some. eauto.
Qed.

#[export] Hint Resolve db_ok_empty release_running_ok requeue_events_ok lease_event_ok
  replay_actions_ok replay_event_ok start_stmt_ok purge_actions_ok : webhook.

(** ** Operations preserve the invariant *)

Section Operations.
Context `{Env, SqlOrder}.

(** Statements that touch neither events nor actions. *)
Lemma preserves_same {A} (f : DB → A * DB) :
  (∀ db, same_outbox db (f db).2) → preserves db_ok (exec f).
Proof. intros Hf. apply preserves_exec. intros db. by apply db_ok_same. Qed.

Lemma savePendingEvent_ok id source ip payload at_ d sha cfg actions exp :
  preserves db_ok (savePendingEvent id source ip payload at_ d sha cfg actions exp).
Proof.
  apply preserves_transaction. intros c Hc.
  apply wp_bind_M. eapply wp_mono with (Q := λ _ c', db_ok (cn_db c')).
  - destruct exp as [x|]; [|by apply wp_ret_M].
    case_match; [by apply wp_ret_M|].
    assert (db_ok (drop_expired_guard source sha (unix_milli at_) (cn_db c)).2).
    { by eapply db_ok_same; [|apply Hc]. }
    repeat wp_step; try done; unfold insert_guard; case_match; simpl; try done.
    all: by eapply db_ok_same; [|eassumption].
  - intros [[]|e] c' Hc'; [|done]. repeat wp_step; try done.
    apply insert_event_ok; [|done]. apply event_ok_intro; simpl; eauto; done.
Qed.

Lemma ClaimPending_ok lease now owner : preserves db_ok (ClaimPending lease now owner).
Proof.
  apply preserves_transaction. intros c Hc.
  repeat (wp_step; try done); auto with webhook.
Qed.

Lemma requeueProcessing_ok orphans cond : preserves db_ok (requeueProcessing orphans cond).
Proof.
  apply preserves_transaction. intros c Hc. apply wp_bind_M.
  eapply wp_mono with (Q := λ _ c', db_ok (cn_db c')).
  - destruct orphans; repeat (wp_step; try done); auto with webhook.
  - intros [n|e] c' Hc'; [|done]. repeat (wp_step; try done); auto with webhook.
Qed.

Lemma RequeueEvent_ok id : preserves db_ok (RequeueEvent id).
Proof.
  apply preserves_transaction. intros c Hc.
  repeat (wp_step; try done); auto with webhook.
Qed.

Lemma RenewLease_ok id lease now owner : preserves db_ok (RenewLease id lease now owner).
Proof.
  apply preserves_bind; [|intros n; case_match; by apply preserves_read_only].
  apply preserves_exec. intros db. apply update_events_ok; [done|].
  intros id' e _ Hp He. bool_simpl. by apply renew_row_ok.
Qed.

Lemma ReplayDeadEvent_ok id reason now : preserves db_ok (ReplayDeadEvent id reason now).
Proof.
  apply preserves_transaction. intros c Hc.
  repeat (wp_step; try done); auto with webhook.
Qed.

(** The loop of PrepareEvent runs under an event that exists. *)
Lemma insert_actions_ok id i count ms c :
  0 ≤ i → db_ok (cn_db c) → is_Some (events (cn_db c) !! id) →
  wp (insert_actions id i count ms)
     (λ _ c', db_ok (cn_db c') ∧ is_Some (events (cn_db c') !! id)) c.
Proof.
  revert i c. induction count as [|count IH]; intros i c Hi Hok Hid; simpl; [done|].
  do 2 wp_step; [|done]. apply IH; [lia|by apply insert_action_ok|].
  unfold insert_action. by case_match.
Qed.

Lemma update_event_is_Some id p f db :
  ((update_event id p f db).1 =? 0) = false → is_Some (events (update_event id p f db).2 !! id).
Proof.
  simpl. rewrite rows_affected_pos, update_where_is_Some.
  intros (k & e & He & Hp). bool_simpl. by simplify_eq.
Qed.

Lemma PrepareEvent_ok id vars n clear now : preserves db_ok (PrepareEvent id vars n clear now).
Proof.
  apply preserves_transaction. intros c Hc. do 2 wp_step; [|done].
  destruct (_ =? 0) eqn:Hn; [done|]. apply update_event_is_Some in Hn.
  assert (db_ok (update_event id (status_is "processing") (set_vars_json (Some vars)) (cn_db c)).2).
  { apply update_event_ok; [done| |done]. intros e _ []. by split. }
  apply wp_bind_M. eapply wp_mono; [by apply insert_actions_ok|].
  intros [[]|e] c' [Hc' _]; [|done].
  destruct clear; repeat (wp_step; try done).
  apply update_event_ok; [done| |done]. intros e _ []. by split.
Qed.

(** A single UPDATE, its row count checked afterwards. *)
Lemma preserves_update {A B} (f : DB → A * DB) (k : A → M (conn DB) store_err B) :
  (∀ db, db_ok db → db_ok (f db).2) → (∀ a, read_only (k a)) →
  preserves db_ok (exec f ≫= k).
Proof.
  intros Hf Hk. apply preserves_bind; [by apply preserves_exec|].
  intros a. by apply preserves_read_only.
Qed.

Lemma StartAction_ok id i now : preserves db_ok (StartAction id i now).
Proof. apply preserves_update; [auto with webhook|]. by intros [a|]. Qed.

Lemma updateRunningAction_ok id i f :
  (∀ a, action_is "running" a = true → action_ok a → action_ok (f a)) →
  preserves db_ok (updateRunningAction id i f).
Proof.
  intros Hf. apply preserves_update.
  - intros db. by apply update_action_ok.
  - intros n. by case_match.
Qed.

Lemma ExpireAction_ok id i now : preserves db_ok (ExpireAction id i now).
Proof.
  apply preserves_update.
  - intros db. apply update_action_ok. auto with webhook.
  - intros n. by case_match.
Qed.

Lemma RefreshEventStatus_ok id now : preserves db_ok (RefreshEventStatus id now).
Proof.
  apply preserves_bind; [apply preserves_read_only, read_only_query|].
  intros counts. destruct (n_total counts =? 0); [by apply preserves_read_only|].
  apply preserves_update.
  - intros db. apply refresh_stmt_ok, refresh_plan_ok.
  - intros n. by case_match.
Qed.

Lemma UpdateEventStatus_ok id s t :
  one_of s ["dead"; "skipped"]%string = true → preserves db_ok (UpdateEventStatus id s t).
Proof.
  intros Hs. apply preserves_update.
  - intros db. apply update_event_ok; [done|]. intros e _ He. by apply status_row_ok.
  - intros n. by case_match.
Qed.

Lemma ClearPayload_ok id : preserves db_ok (ClearPayload id).
Proof.
  apply preserves_update; [|done]. intros db. apply update_event_ok; [done|].
  intros e _ []. by split.
Qed.

Lemma SaveActionAttemptLog_ok id i g action target attempt success detail dur t :
  preserves db_ok (SaveActionAttemptLog id i g action target attempt success detail dur t).
Proof.
  apply preserves_bind; [apply preserves_read_only, read_only_query|].
  intros []; [by apply preserves_same|by apply preserves_read_only].
Qed.

Lemma ReadyCheck_ok deadline : preserves db_ok (ReadyCheck deadline).
Proof.
  apply preserves_withDeadlineWriter, preserves_transaction. intros c Hc. repeat (wp_step; try done).
  by eapply db_ok_same; [|apply Hc].
Qed.

Lemma PurgeOlderThan_ok cutoff : preserves db_ok (PurgeOlderThan cutoff).
Proof.
  apply preserves_transaction. intros c Hc. repeat (wp_step; try done).
  apply (db_ok_same (purge_events (unix_milli cutoff)
    (purge_actions (unix_milli cutoff) (purge_action_logs (unix_milli cutoff) (cn_db c)).2).2).2);
    [done|].
  apply purge_events_ok. by eapply db_ok_same; [|apply Hc].
Qed.

End Operations.
