(* ===== verification/StoreCalls.v ===== *)
(** * Every call on the store, as data

    [store_call] enumerates the methods of [*Store] with the arguments the
    program passes; [run_call] runs one. The theorems below quantify over all
    of them: an error means nothing was written, and a well-formed database
    stays well formed, whichever driver calls fail. *)

From S2P Require Import Prelude Sql StoreSchema Store StoreLookup StoreInv.

Inductive store_call : Type :=
| CallSave (id source ip payload : string) (at_ : Z) (delivery sha cfg actions : string)
    (expires : option Z)
| CallHasBody (source sha : string) (since : Z)
| CallClaim (lease now : Z) (owner : string)
| CallRequeueExpired (now : Z)
| CallRequeueAll
| CallRequeue (id : string)
| CallRenew (id : string) (lease now : Z) (owner : string)
| CallReplay (id reason : string) (now : Z)
| CallRetryFailed (id : string)
| CallPrepare (id vars : string) (count : nat) (clear : bool) (now : Z)
| CallListActions (id : string)
| CallStart (id : string) (index now : Z)
| CallComplete (id : string) (index now : Z)
| CallSchedule (id : string) (index next : Z) (detail : string) (retryAfter : Z)
| CallDead (id : string) (index : Z) (detail : string) (now : Z)
| CallExpire (id : string) (index now : Z)
| CallRefresh (id : string) (now : Z)
| CallStatus (id status : string) (at_ : Z)
| CallLog (id : string) (index generation : Z) (action target : string) (attempt : Z)
    (success : bool) (detail : string) (dur at_ : Z)
| CallHasEvent (id : string)
| CallGetPayload (id : string)
| CallGetEvent (id : string)
| CallListLogs (id : string) (limit : Z)
| CallClearPayload (id : string)
| CallReady (deadline : option Z)
| CallPurge (cutoff : Z).

(** The program only ends events with UpdateEventStatus as dead or skipped
    (queue.go lines 212, 432, 437, 456, 464, 482 and 486). *)
Definition call_ok (c : store_call) : Prop :=
  match c with
  | CallStatus _ status _ => one_of status ["dead"; "skipped"]%string = true
  | _ => True
  end.

Section Calls.
Context `{Env, SqlOrder}.
#[local] Abbreviation SM := (M (conn DB) store_err).

Definition void {A} (m : SM A) : SM unit := m ≫= λ _, mret tt.

Definition run_call (c : store_call) : SM unit :=
  match c with
  | CallSave id source ip payload at_ d sha cfg actions None =>
      SavePendingEvent id source ip payload at_ d sha cfg actions
  | CallSave id source ip payload at_ d sha cfg actions (Some x) =>
      SavePendingEventGuarded id source ip payload at_ d sha cfg actions x
  | CallHasBody source sha since => void (HasRecentBodyHash source sha since)
  | CallClaim lease now owner => void (ClaimPending lease now owner)
  | CallRequeueExpired now => void (RequeueExpiredLeases now)
  | CallRequeueAll => void RequeueAllProcessing
  | CallRequeue id => RequeueEvent id
  | CallRenew id lease now owner => RenewLease id lease now owner
  | CallReplay id reason now => void (ReplayDeadEvent id reason now)
  | CallRetryFailed id => RetryFailedEvent id
  | CallPrepare id vars count clear now => PrepareEvent id vars count clear now
  | CallListActions id => void (ListActionStates id)
  | CallStart id index now => void (StartAction id index now)
  | CallComplete id index now => CompleteAction id index now
  | CallSchedule id index next detail ra => ScheduleActionRetry id index next detail ra
  | CallDead id index detail now => DeadAction id index detail now
  | CallExpire id index now => ExpireAction id index now
  | CallRefresh id now => void (RefreshEventStatus id now)
  | CallStatus id status at_ => UpdateEventStatus id status at_
  | CallLog id index g action target attempt success detail dur at_ =>
      SaveActionAttemptLog id index g action target attempt success detail dur at_
  | CallHasEvent id => void (HasEvent id)
  | CallGetPayload id => void (GetPayload id)
  | CallGetEvent id => void (GetEvent id)
  | CallListLogs id limit => void (ListActionLogs id limit)
  | CallClearPayload id => ClearPayload id
  | CallReady deadline => ReadyCheck deadline
  | CallPurge cutoff => void (PurgeOlderThan cutoff)
  end.

(** ** Reads *)

Lemma read_only_HasRecentBodyHash source sha since : read_only (HasRecentBodyHash source sha since).
Proof. unfold HasRecentBodyHash. case_match; [done|apply read_only_query]. Qed.

Lemma read_only_GetPayload id : read_only (GetPayload id).
Proof. apply read_only_bind; [apply read_only_query|]. by intros [e|]. Qed.

Lemma read_only_GetEvent id : read_only (GetEvent id).
Proof.
  apply read_only_bind; [apply read_only_query|]. intros [e|]; [|done].
  by destruct (ev_received_at_ms e).
Qed.

Lemma read_only_void {A} (m : SM A) : read_only m → read_only (void m).
Proof. intros Hm. by apply read_only_bind. Qed.

Lemma read_only_HasEvent id : read_only (HasEvent id).
Proof. apply read_only_query. Qed.

Lemma read_only_ListActionStates id : read_only (ListActionStates id).
Proof. apply read_only_query. Qed.

Lemma read_only_ListActionLogs id limit : read_only (ListActionLogs id limit).
Proof. apply read_only_query. Qed.

#[local] Hint Resolve read_only_HasEvent read_only_ListActionStates read_only_ListActionLogs read_only_query read_only_void read_only_HasRecentBodyHash
  read_only_GetPayload read_only_GetEvent : webhook.

(** ** Atomicity *)

Lemma atomic_void {A} (m : SM A) : atomic m → atomic (void m).
Proof.
  intros Hm c. apply wp_bind_M. eapply wp_mono; [apply Hm|]. by intros [a|e].
Qed.

(** One UPDATE whose zero row count is reported as an error. *)
Definition zero_is_noop (f : DB → Z * DB) : Prop :=
  ∀ db, ((f db).1 =? 0) = true → (f db).2 = db.

Lemma atomic_counted {B} (f : DB → Z * DB) (err : store_err) (b : B) :
  zero_is_noop f → atomic (exec f ≫= λ n, if n =? 0 then fail err else mret b).
Proof.
  intros Hf. apply atomic_exec_checked.
  - intros n. by destruct (n =? 0).
  - intros db c. destruct ((f db).1 =? 0) eqn:En; [by intros; apply Hf|done].
Qed.

Lemma zero_update_events (p : string → event_row → bool) (f : event_row → event_row) :
  zero_is_noop (λ db, (rows_affected p (events db),
                       set_events (update_where p f (events db)) db)).
Proof.
  intros db Hz. cbn in *. rewrite rows_affected_zero in Hz.
  rewrite update_where_none by done. by destruct db.
Qed.

Lemma zero_update_actions (p : string * Z → action_row → bool) (f : action_row → action_row) :
  zero_is_noop (λ db, (rows_affected p (event_actions db),
                       set_event_actions (update_where p f (event_actions db)) db)).
Proof.
  intros db Hz. cbn in *. rewrite rows_affected_zero in Hz.
  rewrite update_where_none by done. by destruct db.
Qed.

(** StartAction without a matching row reports sql.ErrNoRows and writes nothing. *)
Lemma start_stmt_none id i ms db : (start_stmt id i ms db).1 = None → (start_stmt id i ms db).2 = db.
Proof.
  rewrite start_stmt_fst, start_stmt_snd. intros Hn.
  apply (zero_update_actions (λ k a, bool_decide (k = (id, i)) && action_due ms a) start_row db).
  apply not_false_is_true. intros (a & Ha & Hd)%(update_action_count id i _ start_row).
  by rewrite Ha, Hd in Hn.
Qed.

Lemma StartAction_atomic id i now : atomic (StartAction id i now).
Proof.
  apply atomic_exec_checked.
  - by intros [a|].
  - intros db c. destruct (start_stmt id i (unix_milli now) db).1 as [a|] eqn:E; [done|].
    intros _. by apply start_stmt_none.
Qed.

Lemma RefreshEventStatus_atomic id now : atomic (RefreshEventStatus id now).
Proof.
  apply atomic_bind_read; [apply read_only_query|]. intros counts.
  destruct (n_total counts =? 0); [by apply read_only_atomic|].
  apply atomic_counted. unfold refresh_stmt.
  destruct (refresh_plan _ _) as [[s p] d]. apply zero_update_events.
Qed.

Lemma atomic_exec {A} (f : DB → A * DB) : atomic (exec f).
Proof. intros c. by apply wp_exec. Qed.

Lemma SaveActionAttemptLog_atomic id i g action target attempt success detail dur t :
  atomic (SaveActionAttemptLog id i g action target attempt success detail dur t).
Proof.
  apply atomic_bind_read; [apply read_only_query|].
  intros []; [apply atomic_exec|by apply read_only_atomic].
Qed.

#[local] Hint Resolve transaction_atomic atomic_void read_only_atomic StartAction_atomic
  RefreshEventStatus_atomic SaveActionAttemptLog_atomic : webhook.

Lemma run_call_atomic c : atomic (run_call c).
Proof.
  destruct c; simpl; try destruct expires;
    try apply transaction_atomic; try (by auto with webhook);
    try (apply atomic_void, transaction_atomic);
    try (apply atomic_counted; first [apply zero_update_events|apply zero_update_actions]).
  - (* RetryFailedEvent *)
    intros c. unfold RetryFailedEvent. repeat wp_step.
    eapply wp_mono; [apply transaction_atomic|]. by intros [a|e].
  - (* ClearPayload *)
    intros c. by apply wp_bind_M, wp_exec.
  - (* ReadyCheck *)
    apply withDeadlineWriter_atomic, transaction_atomic.
Qed.

(** ** The invariant *)

Lemma preserves_void {A} (m : SM A) : preserves db_ok m → preserves db_ok (void m).
Proof. intros Hm. apply preserves_bind; [done|]. intros a. by apply preserves_read_only. Qed.

#[local] Hint Resolve preserves_void savePendingEvent_ok ClaimPending_ok requeueProcessing_ok
  RequeueEvent_ok RenewLease_ok ReplayDeadEvent_ok PrepareEvent_ok StartAction_ok
  ExpireAction_ok RefreshEventStatus_ok UpdateEventStatus_ok ClearPayload_ok
  SaveActionAttemptLog_ok ReadyCheck_ok PurgeOlderThan_ok preserves_read_only
  updateRunningAction_ok complete_row_ok retry_row_ok dead_row_ok : webhook.

Lemma run_call_db_ok c : call_ok c → preserves db_ok (run_call c).
Proof.
  intros Hc. destruct c; simpl in *; try destruct expires;
    try apply savePendingEvent_ok; try (by auto with webhook);
    try (apply preserves_void, requeueProcessing_ok);
    try (apply updateRunningAction_ok; auto with webhook).
  - (* RetryFailedEvent *)
    intros c Hok. unfold RetryFailedEvent. repeat wp_step.
    eapply wp_mono; [by apply ReplayDeadEvent_ok|]. by intros [a|e].
Qed.

End Calls.
