(* ===== verification/StoreSpec.v ===== *)
(** * What the store promises

    The functional behaviour of the outbox operations, stated on the rows a
    caller can observe. [no_faults] isolates the behaviour of the statements
    from driver failures; a failing call is covered by the atomicity theorem
    of [StoreCalls]. *)

From S2P Require Import Prelude Sql StoreSchema Store StoreLookup StoreInv StoreCalls.

(** ** ClaimPending *)

Section Claim.
Context `{Env, SqlOrder}.

(** The SELECT returns a claimable row whose due time is minimal. *)
Lemma claim_select_Some ms db id e :
  claim_select ms db = Some (id, e) →
  events db !! id = Some e ∧ claimable ms e = true ∧
  (∀ id' e', events db !! id' = Some e' → claimable ms e' = true →
    null_le (due_key e) (due_key e') = true).
Proof.
  unfold claim_select. set (le := λ x y : string * event_row, null_le (due_key x.2) (due_key y.2)).
  set (l := rows _ _). intros Hhd.
  assert (∀ id' e', (id', e') ∈ l ↔ events db !! id' = Some e' ∧ claimable ms e' = true) as Hin.
  { intros id' e'. unfold l, rows. by rewrite elem_of_map_to_list, select_lookup_Some. }
  pose proof (order_by_perm le l) as Hp.
  pose proof (order_by_sorted le l) as Hs.
  destruct (order_by le l) as [|x rest] eqn:E; simplify_eq/=.
  assert ((id, e) ∈ l) as [He Hc]%Hin by (rewrite <- Hp; left).
  split_and!; [done|done|]. intros id' e' He' Hc'.
  assert ((id', e') ∈ (id, e) :: rest) as Hmem by (rewrite Hp; by apply Hin).
  apply elem_of_cons in Hmem as [Heq|Hrest].
  - simplify_eq. by destruct (null_le_total (due_key e) (due_key e)).
  - assert (StronglySorted (λ x y, le x y = true) ((id, e) :: rest)) as Hst.
    { apply Hs; intros; [apply null_le_total|by eapply null_le_trans]. }
    inversion Hst as [|? ? _ Hall]; subst. rewrite Forall_forall in Hall.
    by apply (Hall (id', e')).
Qed.

Lemma claim_select_None ms db :
  claim_select ms db = None ↔ ∀ id e, events db !! id = Some e → claimable ms e = false.
Proof.
  unfold claim_select. set (le := λ x y : string * event_row, null_le (due_key x.2) (due_key y.2)).
  set (l := rows _ _). pose proof (order_by_perm le l) as Hp. split.
  - intros Hhd id e He. destruct (claimable ms e) eqn:Hc; [|done].
    assert ((id, e) ∈ order_by le l) as Hin.
    { rewrite Hp. unfold l, rows. by rewrite elem_of_map_to_list, select_lookup_Some. }
    destruct (order_by le l); [by apply elem_of_nil in Hin|done].
  - intros Hnone. destruct (order_by le l) as [|[id e] rest]; [done|].
    assert ((id, e) ∈ l) as Hin by (rewrite <- Hp; left).
    unfold l, rows in Hin. rewrite elem_of_map_to_list, select_lookup_Some in Hin.
    destruct Hin as [He Hc]. by rewrite (Hnone _ _ He) in Hc.
Qed.

(** The row a claim leaves behind. *)
Definition leased (until : Z) (owner : string) (e : event_row) : event_row :=
  set_lease_owner (Some owner) (set_lease_until (Some until) (Some (unix_milli until))
    (set_status "processing" e)).

Definition effective_lease (lease : Z) : Z := if lease <=? 0 then 2 * Minute else lease.

(** The database after claiming [id]: its row is leased, its running actions
    are waiting again with the attempt given back, nothing else changed. *)
Definition claimed (id : string) (until : Z) (owner : string) (db db' : DB) : Prop :=
  (∀ id', events db' !! id' =
     (λ e, if bool_decide (id' = id) then leased until owner e else e) <$> events db !! id') ∧
  (∀ k, event_actions db' !! k =
     (λ a, if bool_decide (k.1 = id) && action_is "running" a then release_action a else a)
       <$> event_actions db !! k) ∧
  action_logs db' = action_logs db ∧ replay_guard db' = replay_guard db ∧
  heartbeat_logs db' = heartbeat_logs db.

Lemma claimed_intro id until owner ms e db :
  events db !! id = Some e → claimable ms e = true →
  claimed id until owner db
    (release_running (λ k, bool_decide (k = id)) (lease_event id until owner ms db).2).2.
Proof.
  intros He Hc. split_and!; try done.
  - intros id'. change (events (release_running ?q ?d).2) with (events d).
    rewrite lease_event_lookup. case_bool_decide; [subst|by destruct (events db !! id')].
    rewrite He. cbn. by rewrite Hc.
  - intros k. rewrite release_running_lookup.
    change (event_actions (lease_event id until owner ms db).2) with (event_actions db).
    destruct (event_actions db !! k); cbn; [|done]. by rewrite andb_comm.
Qed.

Lemma lease_event_found id until owner ms e db :
  events db !! id = Some e → claimable ms e = true →
  ((lease_event id until owner ms db).1 =? 0) = false.
Proof.
  intros He Hc. apply lease_event_count. eauto.
Qed.

Lemma scan_pending_id id e ev : scan_pending id e = Some ev → pe_id ev = id.
Proof. unfold scan_pending. intros. by case_match; simplify_eq. Qed.

(** What a claim returns and does when the driver does not fail. *)
Definition claim_result (lease now : Z) (owner : string) (db : DB)
    (r : result store_err (option PendingEvent)) (db' : DB) : Prop :=
  match r with
  | Ok None => db' = db ∧ ∀ id e, events db !! id = Some e → claimable (unix_milli now) e = false
  | Ok (Some ev) => ∃ e,
      events db !! pe_id ev = Some e ∧ claimable (unix_milli now) e = true ∧
      scan_pending (pe_id ev) e = Some ev ∧
      (∀ id' e', events db !! id' = Some e' → claimable (unix_milli now) e' = true →
        null_le (due_key e) (due_key e') = true) ∧
      claimed (pe_id ev) (now + effective_lease lease) owner db db'
  | Err _ => False
  end.

Lemma ClaimPending_run lease now owner c :
  no_faults → db_ok (cn_db c) →
  wp (ClaimPending lease now owner) (λ r c', claim_result lease now owner (cn_db c) r (cn_db c')) c.
Proof.
  intros Hnf Hok. unfold ClaimPending. do 3 wp_step_ok.
  destruct (claim_select _ _) as [[id e]|] eqn:Hsel.
  - apply claim_select_Some in Hsel as (He & Hc & Hmin).
    destruct (dok_events _ Hok _ _ He) as [[ms Hms] _ _ _ _ _].
    destruct (scan_pending id e) as [ev|] eqn:Hscan; [|unfold scan_pending in Hscan; by rewrite Hms in Hscan].
    do 2 wp_step_ok. rewrite (lease_event_found _ _ _ _ e) by done.
    do 3 wp_step_ok. intros _. pose proof (scan_pending_id _ _ _ Hscan) as <-.
    exists e. split_and!; try done. by apply claimed_intro with e.
  - wp_step_ok. intros _. split; [done|]. by apply claim_select_None.
Qed.

(** *** Safety without assumptions on the driver *)

Lemma ClaimPending_safe lease now owner c :
  wp (ClaimPending lease now owner) (λ r c', match r with
    | Ok (Some ev) => ∃ e, events (cn_db c) !! pe_id ev = Some e ∧
        claimable (unix_milli now) e = true ∧
        claimed (pe_id ev) (now + effective_lease lease) owner (cn_db c) (cn_db c')
    | _ => cn_db c' = cn_db c
    end) c.
Proof.
  unfold ClaimPending. apply wp_transaction; [done|intros n]. do 2 wp_step; [|done].
  destruct (claim_select _ _) as [[id e]|] eqn:Hsel; [|by wp_step].
  apply claim_select_Some in Hsel as (He & Hc & Hmin).
  destruct (scan_pending id e) as [ev|] eqn:Hscan; [|by wp_step].
  do 2 wp_step; [|done]. rewrite (lease_event_found _ _ _ _ e) by done.
  do 2 wp_step; [|done]. wp_step. intros _.
  pose proof (scan_pending_id _ _ _ Hscan) as <-. exists e.
  split_and!; try done. by apply claimed_intro with e.
Qed.

End Claim.

(** ** Accepting an event *)

Section Accept.
Context `{Env, SqlOrder}.

(** The HMAC replay guard of (source, sha) is held at [atMS]. *)
Definition guard_held (source sha : string) (atMS : Z) (db : DB) : bool :=
  match replay_guard db !! (source, sha) with
  | Some expires => atMS <? expires
  | None => false
  end.

(** A guard is asked for when the caller gives an expiry and a body hash. *)
Definition guard_wanted (sha : string) (expires : option Z) : bool :=
  match expires with Some _ => negb (bool_decide (sha = ""%string)) | None => false end.

(** The specification of savePendingEvent as one decision. *)
Definition accept_spec (id : string) (row : event_row) (sha : string) (atMS : Z)
    (expires : option Z) (db : DB) : result store_err unit * DB :=
  if guard_wanted sha expires && guard_held (ev_source row) sha atMS db
  then (Err ErrDuplicateBody, db)
  else if bool_decide (is_Some (events db !! id))
          || delivery_taken (ev_source row) (ev_external_delivery_id row) db
  then (Err ErrDuplicateEvent, db)
  else (Ok tt,
    set_events (<[id := row]> (events db))
      (if guard_wanted sha expires
       then set_replay_guard
              (<[(ev_source row, sha) := unix_milli (default 0 expires)]> (replay_guard db)) db
       else db)).

Lemma drop_insert_guard source sha atMS exMS db :
  guard_held source sha atMS db = false →
  (insert_guard source sha exMS (drop_expired_guard source sha atMS db).2).1 = 1 ∧
  (insert_guard source sha exMS (drop_expired_guard source sha atMS db).2).2 =
    set_replay_guard (<[(source, sha) := exMS]> (replay_guard db)) db.
Proof.
  unfold guard_held, insert_guard, drop_expired_guard. intros Hg. cbn.
  set (p := λ k x, _). assert (delete_where p (replay_guard db) !! (source, sha) = None) as Hd.
  { apply eq_None_not_Some. intros [x Hx%delete_where_lookup_Some]. destruct Hx as [Hx Hp].
    rewrite Hx in Hg. unfold p in Hp. rewrite bool_decide_true in Hp by done.
    cbn in Hp. bool_simpl. lia. }
  rewrite Hd. cbn. split; [done|]. unfold set_replay_guard. cbn. f_equal.
  apply map_eq. intros k. rewrite !lookup_insert. case_decide as Hk; [done|].
  apply option_eq. intros x. rewrite delete_where_lookup_Some.
  split; [by intros [? _]|]. intros Hx. split; [done|]. unfold p.
  by rewrite bool_decide_false by congruence.
Qed.

Lemma drop_insert_guard_held source sha atMS exMS db :
  guard_held source sha atMS db = true →
  (insert_guard source sha exMS (drop_expired_guard source sha atMS db).2).1 = 0.
Proof.
  unfold guard_held, insert_guard, drop_expired_guard. intros Hg. cbn.
  destruct (replay_guard db !! (source, sha)) as [x|] eqn:Hx; [|done].
  set (p := λ k x, _). assert (delete_where p (replay_guard db) !! (source, sha) = Some x) as ->.
  { apply delete_where_lookup_Some. split; [done|]. unfold p.
    rewrite bool_decide_true by done. cbn. bool_simpl. by apply Z.leb_gt. }
  done.
Qed.

Lemma insert_event_run id row db :
  insert_event id row db =
  if bool_decide (is_Some (events db !! id))
     || delivery_taken (ev_source row) (ev_external_delivery_id row) db
  then (0, db) else (1, set_events (<[id := row]> (events db)) db).
Proof. done. Qed.

Lemma delivery_taken_guard source d db m :
  delivery_taken source d (set_replay_guard m db) = delivery_taken source d db.
Proof. done. Qed.

Lemma savePendingEvent_run id source ip payload at_ d sha cfg actions expires c :
  no_faults →
  wp (savePendingEvent id source ip payload at_ d sha cfg actions expires)
     (λ r c', accept_spec id (new_event_row source ip payload at_ d sha cfg actions) sha
                (unix_milli at_) expires (cn_db c) = (r, cn_db c')) c.
Proof.
  intros Hnf. unfold savePendingEvent, accept_spec. set (row := new_event_row _ _ _ _ _ _ _ _).
  change (ev_source row) with source.
  destruct (guard_wanted sha expires) eqn:Hw.
  - destruct expires as [x|]; [|done]. unfold guard_wanted in Hw. bool_simpl. cbn [andb default].
    rewrite (bool_decide_false (sha = ""%string)) by done.
    do 6 wp_step_ok.
    destruct (guard_held source sha (unix_milli at_) (cn_db c)) eqn:Hg.
    + rewrite drop_insert_guard_held by done. by wp_step_ok.
    + destruct (drop_insert_guard source sha (unix_milli at_) (unix_milli x) (cn_db c) Hg) as [-> ->].
      change (1 =? 0) with false. cbv iota. do 3 wp_step_ok.
      rewrite insert_event_run, delivery_taken_guard. cbn [set_replay_guard events].
      change (ev_source row) with source. destruct (_ || _); intros; by cbn.
  - cbn [andb]. unfold guard_wanted in Hw.
    destruct expires as [x|]; [apply negb_false_iff in Hw; rewrite Hw|].
    all: do 5 wp_step_ok; rewrite insert_event_run; change (ev_source row) with source.
    all: destruct (_ || _); intros; by cbn.
Qed.

(** The same whatever the driver does: an error of its own changes nothing. *)
Lemma savePendingEvent_any id source ip payload at_ d sha cfg actions expires c :
  wp (savePendingEvent id source ip payload at_ d sha cfg actions expires)
     (λ r c', accept_spec id (new_event_row source ip payload at_ d sha cfg actions) sha
                (unix_milli at_) expires (cn_db c) = (r, cn_db c') ∨
              (r = Err SqlError ∧ cn_db c' = cn_db c)) c.
Proof.
  unfold savePendingEvent, accept_spec. set (row := new_event_row _ _ _ _ _ _ _ _).
  change (ev_source row) with source.
  destruct (guard_wanted sha expires) eqn:Hw.
  - destruct expires as [x|]; [|done]. unfold guard_wanted in Hw. bool_simpl. cbn [andb default].
    rewrite (bool_decide_false (sha = ""%string)) by done.
    wp_step; [by auto|]. do 3 wp_step; [|by auto]. do 2 wp_step; [|by auto].
    destruct (guard_held source sha (unix_milli at_) (cn_db c)) eqn:Hg.
    + rewrite drop_insert_guard_held by done.
      change (0 =? 0) with true. cbv iota. wp_step. by auto.
    + destruct (drop_insert_guard source sha (unix_milli at_) (unix_milli x) (cn_db c) Hg) as [-> ->].
      change (1 =? 0) with false. cbv iota. wp_step. do 2 wp_step; [|by auto].
      rewrite insert_event_run, delivery_taken_guard. cbn [set_replay_guard events].
      change (ev_source row) with source. destruct (_ || _); unfold wp; cbn; intros; by left.
  - cbn [andb]. unfold guard_wanted in Hw.
    destruct expires as [x|]; [apply negb_false_iff in Hw; rewrite Hw|].
    all: wp_step; [by auto|]; do 4 (wp_step; try (intros; by auto)).
    all: try (rewrite insert_event_run; change (ev_source row) with source;
      destruct (_ || _); unfold wp; cbn; intros; by left).
Qed.

End Accept.
