(* ===== verification/StoreLifecycle.v ===== *)
(** * The life of an event after it was claimed

    What RefreshEventStatus concludes from the actions, and what requeueing,
    preparing, replaying and purging do to the rows. *)

From S2P Require Import Prelude Sql StoreSchema Store StoreLookup StoreInv StoreCalls.

(** ** The verdict of RefreshEventStatus *)

(** [a] is the state of one action of event [id]. *)
Definition has_action (id : string) (db : DB) (a : action_row) : Prop :=
  ∃ i, event_actions db !! (id, i) = Some a.

Definition action_ended (a : action_row) : Prop := action_is "done" a = true ∨ action_is "dead" a = true.

(** The status an event deserves, given its actions. *)
Inductive verdict (id : string) (db : DB) : string → Prop :=
| verdict_done :
    (∀ a, has_action id db a → action_is "done" a = true) →
    verdict id db "done"
| verdict_dead :
    (∃ a, has_action id db a ∧ action_is "dead" a = true) →
    (∀ a, has_action id db a → action_ended a) →
    verdict id db "dead"
| verdict_retrying :
    (∃ a, has_action id db a ∧ action_is "retrying" a = true) →
    verdict id db "retrying"
| verdict_pending :
    (∀ a, has_action id db a → action_is "retrying" a = false) →
    (∃ a, has_action id db a ∧ ¬ action_ended a) →
    verdict id db "pending".

(** The earliest retry among the retrying actions. *)
Definition earliest_retry (id : string) (db : DB) (m : Z) : Prop :=
  (∃ a, has_action id db a ∧ action_is "retrying" a = true ∧ ac_next_attempt_at_ms a = Some m) ∧
  (∀ a x, has_action id db a → action_is "retrying" a = true →
     ac_next_attempt_at_ms a = Some x → m ≤ x).

Section Counts.
Implicit Types (id : string) (db : DB).

Lemma count_actions_all id p db :
  count_actions id p db = count_actions id (λ _, true) db ↔
  ∀ a, has_action id db a → p a = true.
Proof.
  unfold count_actions. erewrite (rows_affected_ext (λ (k : string * Z) a, bool_decide (k.1 = id) && true)).
  2: { intros k a _. by rewrite andb_true_r. }
  rewrite (rows_affected_all (λ _ a, p a) (λ (k : string * Z) _, bool_decide (k.1 = id))). split.
  - intros Hall a [i Ha]. apply (Hall (id, i)); [done|]. by apply bool_decide_eq_true.
  - intros Hall [id' i] a Ha Hid. bool_simpl. cbn in Hid. subst. apply Hall. by exists i.
Qed.

Lemma count_actions_pos id p db :
  (0 <? count_actions id p db) = true ↔ ∃ a, has_action id db a ∧ p a = true.
Proof.
  unfold count_actions. set (q := λ k a, _).
  pose proof (rows_affected_nonneg q (event_actions db)). split.
  - intros Hpos%Z.ltb_lt. destruct (proj1 (rows_affected_pos q (event_actions db))) as (k & a & Ha & Hq).
    { apply Z.eqb_neq. lia. }
    unfold q in Hq. bool_simpl. exists a. split; [|done]. exists k.2. subst. by destruct k.
  - intros (a & [i Ha] & Hp). apply Z.ltb_lt.
    assert ((rows_affected q (event_actions db) =? 0) = false) as Hne.
    { apply rows_affected_pos. exists (id, i), a. unfold q. by rewrite bool_decide_true. }
    bool_simpl. apply Z.eqb_neq in Hne. lia.
Qed.

Lemma count_actions_or id p q db :
  (∀ a, p a = true → q a = true → False) →
  count_actions id p db + count_actions id q db = count_actions id (λ a, p a || q a) db.
Proof.
  intros Hd. unfold count_actions. rewrite rows_affected_or.
  - apply rows_affected_ext. intros k a _. by destruct (bool_decide _), (p a), (q a).
  - intros k a Hp Hq. bool_simpl. eauto.
Qed.

Lemma done_not_dead a : action_is "done" a = true → action_is "dead" a = true → False.
Proof. unfold action_is. intros. bool_simpl. congruence. Qed.

Lemma count_zero id p db :
  (0 <? count_actions id p db) = false ↔ ∀ a, has_action id db a → p a = false.
Proof.
  split.
  - intros Hz a Ha. destruct (p a) eqn:Hp; [|done].
    assert ((0 <? count_actions id p db) = true) by (apply count_actions_pos; eauto). congruence.
  - intros Hall. apply not_true_is_false. intros (a & Ha & Hp)%count_actions_pos.
    by rewrite (Hall _ Ha) in Hp.
Qed.

Lemma sql_min_None l : sql_min l = None → ∀ x, Some x ∉ l.
Proof.
  induction l as [|y l IH]; cbn; [intros _ x; apply not_elem_of_nil|].
  destruct y as [a|], (sql_min l) as [b|]; try done.
  intros _ x [?|Hx]%elem_of_cons; [done|]. by eapply IH.
Qed.

Lemma sql_min_spec l m :
  sql_min l = Some m → Some m ∈ l ∧ ∀ x, Some x ∈ l → m ≤ x.
Proof.
  revert m. induction l as [|y l IH]; intros m; [done|]. cbn.
  destruct y as [a|], (sql_min l) as [b|] eqn:E; cbn; intros ?; simplify_eq.
  - destruct (IH b eq_refl) as [Hin Hmin]. split.
    + destruct (Z.min_spec a b) as [[_ ->]|[_ ->]]; [left|by right].
    + intros x [?|Hx]%elem_of_cons; simplify_eq; [lia|]. specialize (Hmin _ Hx). lia.
  - split; [left|]. intros x [?|Hx]%elem_of_cons; simplify_eq; [lia|].
    by apply (sql_min_None _ E) in Hx.
  - destruct (IH m eq_refl) as [Hin Hmin]. split; [by right|].
    intros x [?|Hx]%elem_of_cons; [done|]. by apply Hmin.
Qed.

Lemma refresh_select_next id db m :
  n_next (refresh_select id db) = Some m → earliest_retry id db m.
Proof.
  unfold refresh_select. cbn. intros [Hin Hmin]%sql_min_spec.
  assert (∀ x, Some x ∈ ((λ r : string * Z * action_row, ac_next_attempt_at_ms r.2) <$>
      rows (λ (k : string * Z) a, bool_decide (k.1 = id) && action_is "retrying" a)
        (event_actions db)) ↔
    ∃ a, has_action id db a ∧ action_is "retrying" a = true ∧ ac_next_attempt_at_ms a = Some x) as Hiff.
  { intros x. rewrite list_elem_of_fmap. unfold rows. split.
    - intros ([[id' i] a] & Hx & Hr). rewrite elem_of_map_to_list, select_lookup_Some in Hr.
      destruct Hr as [Ha Hp]. cbn in *. bool_simpl. subst. exists a. split; [by exists i|done].
    - intros (a & [i Ha] & Hr & Hx). exists (id, i, a). split; [done|].
      rewrite elem_of_map_to_list, select_lookup_Some. split; [done|]. cbn.
      by rewrite bool_decide_true, Hr. }
  split; [by apply Hiff|]. intros a x Ha Hr Hx. apply Hmin, Hiff. eauto.
Qed.

(** The status computed from the counts is the verdict on the actions. *)
Lemma refresh_plan_verdict id db ms :
  n_total (refresh_select id db) ≠ 0 →
  verdict id db (refresh_plan (refresh_select id db) ms).1.1.
Proof.
  intros Htot. unfold refresh_plan, refresh_select. cbn -[count_actions].
  destruct (count_actions id (action_is "done") db =? _) eqn:Hdone.
  { apply verdict_done. by apply count_actions_all, Z.eqb_eq. }
  assert (count_actions id (action_is "done") db + count_actions id (action_is "dead") db =
    count_actions id (λ a, action_is "done" a || action_is "dead" a) db) as Hor.
  { apply count_actions_or. apply done_not_dead. }
  rewrite Hor. destruct ((0 <? count_actions id (action_is "dead") db) && _) eqn:Hdead.
  { bool_simpl. apply verdict_dead.
    - by apply count_actions_pos, Z.ltb_lt.
    - intros a Ha. match goal with H : (_ =? _) = true |- _ => apply Z.eqb_eq in H; rename H into Heq end.
      rewrite count_actions_all in Heq. apply Heq, orb_true_iff in Ha. done. }
  destruct (0 <? count_actions id (action_is "retrying") db) eqn:Hretry.
  { apply verdict_retrying. by apply count_actions_pos. }
  apply verdict_pending; [by apply count_zero|].
  destruct (decide (count_actions id (λ a, action_is "done" a || action_is "dead" a) db =
                    count_actions id (λ _, true) db)) as [Heq|Hne].
  - (* all ended, so one of them is dead: excluded above *)
    exfalso. rewrite Heq, Z.eqb_refl, andb_true_r in Hdead.
    apply Z.eqb_neq in Hdone. apply Hdone. rewrite count_zero in Hdead.
    apply count_actions_all. rewrite count_actions_all in Heq. intros a Ha.
    specialize (Heq _ Ha). rewrite (Hdead _ Ha), orb_false_r in Heq. done.
  - assert (¬ ∀ a, has_action id db a → action_is "done" a || action_is "dead" a = true) as Hex.
    { by rewrite <- count_actions_all. }
    assert ((0 <? count_actions id (λ a, negb (action_is "done" a || action_is "dead" a)) db) = true) as Hpos.
    { apply not_false_is_true. rewrite count_zero. intros Hall. apply Hex.
      intros a Ha. specialize (Hall _ Ha). by apply negb_false_iff. }
    apply count_actions_pos in Hpos as (a & Ha & Hn). exists a. split; [done|].
    unfold action_ended. rewrite negb_true_iff, orb_false_iff in Hn. destruct Hn as [-> ->]. naive_solver.
Qed.

Lemma total_zero id db :
  n_total (refresh_select id db) = 0 ↔ ∀ a, ¬ has_action id db a.
Proof.
  unfold refresh_select. cbn -[count_actions]. split.
  - intros Hz a Ha. assert ((0 <? count_actions id (λ _, true) db) = true) as Hpos.
    { apply count_actions_pos. eauto. }
    rewrite Hz in Hpos. done.
  - intros Hno. pose proof (rows_affected_nonneg
      (λ (k : string * Z) a, bool_decide (k.1 = id) && true) (event_actions db)) as Hge.
    change (rows_affected _ _) with (count_actions id (λ _, true) db) in Hge.
    destruct (0 <? count_actions id (λ _, true) db) eqn:E; [|apply Z.ltb_ge in E; lia].
    apply count_actions_pos in E as (a & Ha & _). by destruct (Hno a).
Qed.

End Counts.

(** ** The statements run without failures *)

(** The row RefreshEventStatus leaves: status [s], no lease, and the due time
    and end time that go with [s]. *)
Definition refreshed (id s : string) (nowMS : Z) (db : DB) (e' : event_row) : Prop :=
  ev_status e' = s ∧ ev_lease_until e' = None ∧ ev_lease_until_ms e' = None ∧
  ev_lease_owner e' = None ∧
  (one_of s ["done"; "dead"]%string = true →
     ev_processed_at_ms e' = Some nowMS ∧ ev_next_attempt_at_ms e' = None) ∧
  (s = "retrying"%string → ev_processed_at_ms e' = None ∧
     ∃ m, earliest_retry id db m ∧ ev_next_attempt_at_ms e' = Some m) ∧
  (s = "pending"%string → ev_processed_at_ms e' = None ∧ ev_next_attempt_at_ms e' = Some nowMS).

Definition others_same (id : string) (db db' : DB) : Prop :=
  (∀ id', id' ≠ id → events db' !! id' = events db !! id') ∧
  (∀ id' i, id' ≠ id → event_actions db' !! (id', i) = event_actions db !! (id', i)) ∧
  action_logs db' = action_logs db ∧ replay_guard db' = replay_guard db ∧
  heartbeat_logs db' = heartbeat_logs db.

Section Runs.
Context `{Env, SqlOrder}.

Lemma update_event_others id p f db : others_same id db (update_event id p f db).2.
Proof.
  split_and!; try done. intros id' Hne. rewrite update_event_lookup, bool_decide_false by done.
  by destruct (events db !! id').
Qed.

Lemma update_action_others id i p f db : others_same id db (update_action id i p f db).2.
Proof.
  split_and!; try done. intros id' i' Hne. rewrite update_action_lookup, bool_decide_false by congruence.
  by destruct (event_actions db !! (id', i')).
Qed.

Lemma refresh_due_retrying id ms db :
  db_ok db → (refresh_plan (refresh_select id db) ms).1.1 = "retrying"%string →
  ∃ m, earliest_retry id db m ∧
       refresh_plan (refresh_select id db) ms = ("retrying"%string, None, Some m).
Proof.
  intros Hok. unfold refresh_plan.
  destruct (_ =? _); [done|]. destruct (_ && _); [done|].
  destruct (0 <? n_retrying (refresh_select id db)) eqn:Hr; [|done]. intros _.
  destruct (n_next (refresh_select id db)) as [m|] eqn:Hm.
  { exists m. split; [by apply refresh_select_next|done]. }
  exfalso. unfold refresh_select in *. cbn -[count_actions] in *.
  apply count_actions_pos in Hr as (a & [i Ha] & Hr).
  destruct (dok_actions _ Hok _ _ Ha); row_cases; try congruence.
  match goal with H : is_Some (ac_next_attempt_at_ms a) |- _ => destruct H as [x Hx] end.
  apply (sql_min_None _ Hm x). rewrite list_elem_of_fmap. exists (id, i, a). split; [done|].
  unfold rows. rewrite elem_of_map_to_list, select_lookup_Some. split; [done|]. cbn.
  rewrite bool_decide_true by done. unfold action_is. by rewrite bool_decide_true.
Qed.

Lemma refresh_stmt_refreshed id now db e e' :
  db_ok db → events db !! id = Some e →
  let plan := refresh_plan (refresh_select id db) (unix_milli now) in
  events (refresh_stmt id plan now db).2 !! id = Some e' →
  refreshed id plan.1.1 (unix_milli now) db e'.
Proof.
  intros Hok He plan. unfold plan, refresh_stmt.
  pose proof (refresh_plan_ok (refresh_select id db) (unix_milli now)) as Hp.
  pose proof (refresh_due_retrying id (unix_milli now) db Hok) as Hret.
  assert (∀ s p d, refresh_plan (refresh_select id db) (unix_milli now) = (s, p, d) →
    (one_of s ["done"; "dead"]%string = true → p = Some (unix_milli now)) ∧
    (s = "pending"%string → d = Some (unix_milli now))) as Hval.
  { unfold refresh_plan. intros s p d. repeat case_match; intros ?; simplify_eq; done. }
  destruct (refresh_plan _ _) as [[s p] d] eqn:Hplan. cbn [fst snd] in *.
  destruct (Hval _ _ _ eq_refl) as [Hdone Hpend].
  rewrite update_event_lookup, He, bool_decide_true by done. cbn. intros ?; simplify_eq.
  split_and!; try done; cbn.
  - intros Hs. split; [by apply Hdone|].
    destruct Hp as [(_ & _ & ->)|(Hs' & _ & _)]; [done|].
    one_of_cases Hs; one_of_cases Hs'; subst; discriminate.
  - intros ->. destruct Hret as (m & Hm & Hm'); [done|]. simplify_eq. eauto.
  - intros ->. destruct Hp as [(Hs' & _ & _)|(_ & -> & _)]; [done|]. auto.
Qed.

Lemma RefreshEventStatus_run id now c :
  no_faults → db_ok (cn_db c) →
  wp (RefreshEventStatus id now) (λ r c', match r with
    | Ok s => verdict id (cn_db c) s ∧ others_same id (cn_db c) (cn_db c') ∧
        event_actions (cn_db c') = event_actions (cn_db c) ∧
        ∃ e', events (cn_db c') !! id = Some e' ∧ refreshed id s (unix_milli now) (cn_db c) e'
    | Err _ => cn_db c' = cn_db c ∧
        ((∀ a, ¬ has_action id (cn_db c) a) ∨ events (cn_db c) !! id = None)
    end) c.
Proof.
  intros Hnf Hok. unfold RefreshEventStatus. do 2 wp_step_ok.
  destruct (n_total _ =? 0) eqn:Htot.
  { wp_step_ok. split; [done|]. left. by apply total_zero, Z.eqb_eq. }
  do 2 wp_step_ok. apply Z.eqb_neq in Htot.
  set (plan := refresh_plan _ _). set (db' := (refresh_stmt id plan now (cn_db c)).2).
  assert (((refresh_stmt id plan now (cn_db c)).1 =? 0) = false ↔
    is_Some (events (cn_db c) !! id)) as Hcount.
  { unfold refresh_stmt. destruct plan as [[s p] d]. rewrite update_event_count.
    split; [intros (e & He & _); eauto|intros [e He]; eauto]. }
  destruct (_ =? 0) eqn:Hn; wp_step_ok.
  - assert (events (cn_db c) !! id = None) as Hnone.
    { apply eq_None_not_Some. intros Hs%Hcount. done. }
    split; [|by right]. unfold db', refresh_stmt. destruct plan as [[s p] d].
    apply (zero_update_events (λ k e, bool_decide (k = id) && true)).
    unfold refresh_stmt in Hn. done.
  - destruct (proj1 Hcount eq_refl) as [e He]. split_and!.
    + by apply refresh_plan_verdict.
    + unfold db', refresh_stmt. destruct plan as [[s p] d]. apply update_event_others.
    + unfold db', refresh_stmt. by destruct plan as [[s p] d].
    + assert (is_Some (events db' !! id)) as [e' He'].
      { unfold db', refresh_stmt. destruct plan as [[s p] d].
        rewrite update_event_lookup, He. eauto. }
      exists e'. split; [done|]. by eapply refresh_stmt_refreshed.
Qed.

(** *** Requeueing *)

Lemma RequeueEvent_run id c :
  no_faults →
  wp (RequeueEvent id) (λ r c', match r with
    | Ok _ => others_same id (cn_db c) (cn_db c') ∧
        (∃ e, events (cn_db c) !! id = Some e ∧ status_is "processing" e = true ∧
              events (cn_db c') !! id = Some (requeue_row e)) ∧
        (∀ i, event_actions (cn_db c') !! (id, i) =
           (λ a, if action_is "running" a then release_action a else a)
             <$> event_actions (cn_db c) !! (id, i))
    | Err _ => cn_db c' = cn_db c ∧
        ∀ e, events (cn_db c) !! id = Some e → status_is "processing" e = false
    end) c.
Proof.
  intros Hnf. unfold RequeueEvent. do 5 wp_step_ok.
  set (db1 := (release_running _ _).2). destruct (_ =? 0) eqn:Hn; wp_step_ok; intros _.
  - split; [done|]. intros e He. destruct (status_is "processing" e) eqn:Hs; [|done].
    assert (((requeue_events (λ k e, bool_decide (k = id) && status_is "processing" e) db1).1 =? 0)
      = false) as Hf; [|congruence].
    apply requeue_events_count. exists id, e. by rewrite bool_decide_true, Hs.
  - apply requeue_events_count in Hn as (id' & e & He & Hp). bool_simpl. subst.
    change (events db1) with (events (cn_db c)) in He. split_and!.
    + split_and!; try done.
      * intros id' Hne. rewrite requeue_events_lookup, bool_decide_false by done.
        change (events db1) with (events (cn_db c)). by destruct (events (cn_db c) !! id').
      * intros id' i Hne. change (event_actions (requeue_events ?p ?d).2) with (event_actions d).
        unfold db1. rewrite release_running_lookup. cbn. rewrite (bool_decide_false (id' = id)) by done.
        destruct (event_actions _ !! _); cbn; [|done]. by rewrite andb_false_r.
    + exists e. split_and!; [done|done|]. rewrite requeue_events_lookup.
      change (events db1) with (events (cn_db c)). rewrite He. cbn.
      rewrite bool_decide_true by done. cbn. by case_match.
    + intros i. change (event_actions (requeue_events ?p ?d).2) with (event_actions d).
      unfold db1. rewrite release_running_lookup. cbn. rewrite bool_decide_true by done.
      destruct (event_actions _ !! _); cbn; [|done]. by rewrite andb_true_r.
Qed.

End Runs.
