(* ===== verification/StoreOutcome.v ===== *)
(** * Preparing, replaying and purging events

    The functional specifications of the operations that create the action
    rows of an event, bring a dead event back, and delete finished ones. *)

From S2P Require Import Prelude Sql StoreSchema Store StoreLookup StoreInv StoreCalls StoreLifecycle.

Section Outcomes.
Context `{Env, SqlOrder}.

(** ** Preparing *)

(** The actions of [id] after its plan of [count] actions was prepared: the
    rows that exist are kept as they are, the missing ones start pending. *)
Definition prepared_actions (id : string) (count : nat) (nowMS : Z) (db db' : DB) : Prop :=
  ∀ i, event_actions db' !! (id, i) =
    match event_actions db !! (id, i) with
    | Some a => Some a
    | None => if (0 <=? i) && (i <? Z.of_nat count)
              then Some (ActionRow "pending" 0 (Some nowMS) None None None) else None
    end.

Definition same_but_actions (id : string) (db db' : DB) : Prop :=
  events db' = events db ∧
  (∀ id' i, id' ≠ id → event_actions db' !! (id', i) = event_actions db !! (id', i)) ∧
  action_logs db' = action_logs db ∧ replay_guard db' = replay_guard db ∧
  heartbeat_logs db' = heartbeat_logs db.

Lemma insert_action_same id i ms db : same_but_actions id db (insert_action id i ms db).2.
Proof.
  split_and!.
  2: { intros id' i' Hne. rewrite insert_action_lookup, bool_decide_false by congruence.
       by destruct (event_actions db !! _). }
  all: unfold insert_action; by case_match.
Qed.

Lemma same_but_actions_trans id db1 db2 db3 :
  same_but_actions id db1 db2 → same_but_actions id db2 db3 → same_but_actions id db1 db3.
Proof.
  intros (H1 & H2 & H3 & H4 & H5) (G1 & G2 & G3 & G4 & G5).
  split_and!; [congruence| |congruence|congruence|congruence].
  intros id' i Hne. by rewrite G2, H2.
Qed.

Lemma insert_actions_run id ms count i c :
  no_faults →
  wp (insert_actions id i count ms) (λ r c',
    r = Ok tt ∧ same_but_actions id (cn_db c) (cn_db c') ∧
    ∀ j, event_actions (cn_db c') !! (id, j) =
      match event_actions (cn_db c) !! (id, j) with
      | Some a => Some a
      | None => if (i <=? j) && (j <? i + Z.of_nat count)
                then Some (ActionRow "pending" 0 (Some ms) None None None) else None
      end) c.
Proof.
  intros Hnf. revert i c. induction count as [|count IH]; intros i c; cbn [insert_actions].
  { wp_step_ok. split_and!; try done. intros j. destruct (_ !! _); [done|].
    destruct (i <=? j) eqn:?, (j <? i + Z.of_nat 0) eqn:?; try done. bool_simpl. lia. }
  do 2 wp_step_ok. eapply wp_mono; [apply IH|]. cbn [cn_db cn_tick].
  intros r c' (-> & Hs & Hl). split_and!; [done| |].
  { by eapply same_but_actions_trans; [apply insert_action_same|]. }
  intros j. rewrite Hl, insert_action_lookup.
  destruct (event_actions (cn_db c) !! (id, j)); [done|].
  case_bool_decide; simplify_eq.
  - destruct (i <=? i) eqn:?, (i <? i + Z.of_nat (S count)) eqn:?; try done; bool_simpl; lia.
  - assert (j ≠ i) by congruence.
    replace ((i <=? j) && (j <? i + Z.of_nat (S count)))
      with ((i + 1 <=? j) && (j <? i + 1 + Z.of_nat count)); [done|].
    apply eq_true_iff_eq. rewrite !andb_true_iff, !Z.leb_le, !Z.ltb_lt. lia.
Qed.

(** The event row PrepareEvent leaves. *)
Definition prepared_row (vars : string) (clear : bool) (e : event_row) : event_row :=
  let e := set_vars_json (Some vars) e in if clear then set_payload None e else e.

Lemma PrepareEvent_run id vars count clear now c :
  no_faults →
  wp (PrepareEvent id vars count clear now) (λ r c', match r with
    | Ok _ => others_same id (cn_db c) (cn_db c') ∧
        (∃ e, events (cn_db c) !! id = Some e ∧ status_is "processing" e = true ∧
              events (cn_db c') !! id = Some (prepared_row vars clear e)) ∧
        prepared_actions id count (unix_milli now) (cn_db c) (cn_db c')
    | Err err => err = ErrEvent id "not processing" ∧ cn_db c' = cn_db c ∧
        ∀ e, events (cn_db c) !! id = Some e → status_is "processing" e = false
    end) c.
Proof.
  intros Hnf. unfold PrepareEvent. do 3 wp_step_ok.
  set (db1 := (update_event _ _ _ _).2). destruct (_ =? 0) eqn:Hn.
  { wp_step_ok. intros _. split_and!; [done|done|]. intros e He.
    apply not_true_is_false. intros Hs.
    assert (((update_event id (status_is "processing") (set_vars_json (Some vars)) (cn_db c)).1 =? 0)
      = false); [|congruence]. apply update_event_count. eauto. }
  apply update_event_count in Hn as (e & He & Hs).
  assert (events db1 !! id = Some (set_vars_json (Some vars) e)) as He1.
  { unfold db1. rewrite update_event_lookup, He. cbn. by rewrite bool_decide_true, Hs. }
  pose proof (update_event_others id (status_is "processing") (set_vars_json (Some vars)) (cn_db c))
    as Ho. change (others_same id (cn_db c) db1) in Ho.
  assert (event_actions db1 = event_actions (cn_db c)) as Ha by done.
  apply wp_bind_M. eapply wp_mono; [by apply insert_actions_run|]. cbn [cn_db cn_tick].
  intros r c' (-> & (Hse & Hsa & Hs3 & Hs4 & Hs5) & Hl).
  assert (prepared_actions id count (unix_milli now) (cn_db c) (cn_db c')) as Hp.
  { intros i. rewrite Hl, Ha. destruct (_ !! _); [done|]. by rewrite Z.add_0_l. }
  assert (others_same id (cn_db c) (cn_db c')) as Ho'.
  { destruct Ho as (O1 & O2 & O3 & O4 & O5).
    split_and!; [| |congruence|congruence|congruence].
    - intros id' Hne. rewrite Hse. by apply O1.
    - intros id' i Hne. rewrite Hsa by done. by apply O2. }
  destruct clear; repeat wp_step_ok; intros _.
  - split_and!; [| |done].
    + destruct Ho' as (O1 & O2 & O3 & O4 & O5). split_and!; try done.
      intros id' Hne. rewrite update_event_lookup, bool_decide_false by done.
      rewrite O1 by done. by destruct (events (cn_db c) !! id').
    + exists e. split_and!; [done|done|]. rewrite update_event_lookup, Hse, He1. cbn.
      by rewrite bool_decide_true.
  - split_and!; [done| |done]. exists e. split_and!; [done|done|]. by rewrite Hse, He1.
Qed.

(** ** Replaying a dead event *)

(** The statuses an operator can replay. *)
Definition replayable_status (s : string) : bool := one_of s ["dead"; "partial"; "error"]%string.

(** Something to run the actions on is still there. *)
Definition has_input (e : event_row) : bool :=
  has_payload e || negb (bool_decide (coalesce (ev_vars_json e) ""%string = ""%string)).

(** The row of a replayed event: a new generation, due at once, without lease
    and end time, the retry deadline counted from now. *)
Definition replayed_row (nowMS : Z) (reason : string) (e : event_row) : event_row :=
  set_replay (ev_replay_generation e + 1) (Some nowMS) (Some reason)
    (clear_lease (set_processed None None (set_next_attempt (Some nowMS) (set_status "pending" e)))).

Lemma replay_refused e :
  negb (status_is "dead" e) && negb (status_is "partial" e) && negb (status_is "error" e) =
  negb (replayable_status (ev_status e)).
Proof.
  unfold replayable_status, one_of, status_is. cbn [existsb].
  rewrite orb_false_r, !negb_orb, <- andb_assoc.
  assert (∀ s t, bool_decide (s = t) = String.eqb s t) as Hb.
  { intros s t. destruct (String.eqb_spec s t); [by rewrite bool_decide_true|by rewrite bool_decide_false]. }
  by rewrite !Hb.
Qed.

Lemma ReplayDeadEvent_run id reason now c :
  no_faults →
  wp (ReplayDeadEvent id reason now) (λ r c', match r with
    | Ok g => ∃ e, events (cn_db c) !! id = Some e ∧
        replayable_status (ev_status e) = true ∧ has_input e = true ∧
        g = ev_replay_generation e + 1 ∧
        others_same id (cn_db c) (cn_db c') ∧
        events (cn_db c') !! id = Some (replayed_row (unix_milli now) reason e) ∧
        ∀ i, event_actions (cn_db c') !! (id, i) =
          (λ a, if action_is "dead" a then ActionRow "pending" 0 (Some (unix_milli now)) None None None
                else a) <$> event_actions (cn_db c) !! (id, i)
    | Err err => cn_db c' = cn_db c ∧
        ((err = ErrEventNotRetryable ∧
          ∀ e, events (cn_db c) !! id = Some e → replayable_status (ev_status e) = false) ∨
         (err = ErrReplayUnavailable ∧
          ∃ e, events (cn_db c) !! id = Some e ∧ has_input e = false))
    end) c.
Proof.
  intros Hnf. unfold ReplayDeadEvent. do 3 wp_step_ok.
  destruct (events (cn_db c) !! id) as [e|] eqn:He.
  2: { wp_step_ok. intros _. split; [done|]. left. split; [done|]. naive_solver. }
  rewrite replay_refused. destruct (replayable_status (ev_status e)) eqn:Hs; cbn [negb].
  2: { wp_step_ok. intros _. split; [done|]. left. split; [done|]. naive_solver. }
  replace (negb (has_payload e) && _) with (negb (has_input e)).
  2: { unfold has_input. by rewrite negb_orb, negb_involutive. }
  destruct (has_input e) eqn:Hi; cbn [negb].
  2: { wp_step_ok. intros _. split; [done|]. right. split; [done|]. eauto. }
  do 4 wp_step_ok.
  assert (∀ r, ((replay_event id (unix_milli now) (ev_replay_generation e + 1) r
    (replay_actions id (unix_milli now) (cn_db c)).2).1 =? 0) = false) as Hn.
  { intros r. apply replay_event_count. by exists e. }
  rewrite Hn. wp_step_ok. intros _. exists e. split_and!; try done.
  - split_and!; try done.
    + intros id' Hne. rewrite replay_event_lookup, bool_decide_false by done.
      change (events (replay_actions _ _ _).2) with (events (cn_db c)).
      by destruct (events (cn_db c) !! id').
    + intros id' i Hne. change (event_actions (replay_event _ _ _ _ ?d).2) with (event_actions d).
      rewrite replay_actions_lookup. cbn. rewrite bool_decide_false by done.
      by destruct (event_actions _ !! _).
  - rewrite replay_event_lookup. change (events (replay_actions _ _ _).2) with (events (cn_db c)).
    rewrite He. cbn. by rewrite bool_decide_true.
  - intros i. change (event_actions (replay_event _ _ _ _ ?d).2) with (event_actions d).
    rewrite replay_actions_lookup. cbn. rewrite bool_decide_true by done.
    by destruct (event_actions _ !! _).
Qed.

(** ** Retention *)

(** What PurgeOlderThan(cutoff) leaves: the events that are not both finished
    and older than the cutoff, with the actions and logs of the others gone. *)
Definition purged (cutoffMS : Z) (db db' : DB) : Prop :=
  (∀ id e, events db' !! id = Some e ↔ events db !! id = Some e ∧ purgeable cutoffMS e = false) ∧
  (∀ id i a, event_actions db' !! (id, i) = Some a ↔
     event_actions db !! (id, i) = Some a ∧ event_in (purgeable cutoffMS) db id = false) ∧
  (∀ r, r ∈ action_logs db' ↔
     r ∈ action_logs db ∧ event_in (purgeable cutoffMS) db (al_event_id r) = false).

Lemma purge_purged cutoffMS nowMS db :
  purged cutoffMS db (purge_heartbeats cutoffMS (purge_guards nowMS
    (purge_events cutoffMS (purge_actions cutoffMS (purge_action_logs cutoffMS db).2).2).2).2).2.
Proof.
  split_and!.
  - intros id e. apply (delete_where_lookup_Some (λ (_ : string) e, purgeable cutoffMS e)).
  - intros id i a. etrans; [apply purge_actions_lookup|done].
  - apply purge_action_logs_elem.
Qed.

Lemma PurgeOlderThan_run cutoff c :
  no_faults →
  wp (PurgeOlderThan cutoff) (λ r c', ∃ now,
    r = Ok (rows_affected (λ _ e, purgeable (unix_milli cutoff) e) (events (cn_db c))) ∧
    purged (unix_milli cutoff) (cn_db c) (cn_db c') ∧
    (∀ k x, replay_guard (cn_db c') !! k = Some x ↔
       replay_guard (cn_db c) !! k = Some x ∧ unix_milli now ≤ x)) c.
Proof.
  intros Hnf. unfold PurgeOlderThan. repeat wp_step_ok. intros _. exists t.
  split_and!; [done|apply purge_purged|]. intros k x. etrans; [apply purge_guards_lookup|done].
Qed.

(** Whatever fails, a purge is complete or did nothing. *)
Lemma PurgeOlderThan_any cutoff c :
  wp (PurgeOlderThan cutoff) (λ r c',
    if is_ok r then purged (unix_milli cutoff) (cn_db c) (cn_db c') else cn_db c' = cn_db c) c.
Proof. unfold PurgeOlderThan. repeat wp_step; try done. intros _. apply purge_purged. Qed.

(** A live event is never purgeable, whatever its age. *)
Lemma live_not_purgeable ms e : live_status (ev_status e) = true → purgeable ms e = false.
Proof.
  unfold live_status, purgeable. intros Hs.
  assert (terminal_status (ev_status e) = false) as ->.
  { one_of_cases Hs; by rewrite Hs. }
  by rewrite andb_false_r.
Qed.

(** ** Recovery *)

(** What RequeueExpiredLeases(now) leaves: the events whose lease ran out are
    pending again and their running actions released, nothing else changed. *)
Definition lease_expired (nowMS : Z) (e : event_row) : bool :=
  status_is "processing" e && (coalesce (ev_lease_until_ms e) 0 <? nowMS).

Definition released_where (q : string → bool) (db db' : DB) : Prop := ∀ k,
  event_actions db' !! k =
    (λ a, if action_is "running" a && q k.1 then release_action a else a) <$> event_actions db !! k.

Definition requeued_where (q : string → event_row → bool) (db db' : DB) : Prop := ∀ id,
  events db' !! id = (λ e, if q id e then requeue_row e else e) <$> events db !! id.

Lemma RequeueExpiredLeases_run now c :
  no_faults →
  wp (RequeueExpiredLeases now) (λ r c',
    r = Ok (rows_affected (λ _ e, lease_expired (unix_milli now) e) (events (cn_db c))) ∧
    requeued_where (λ _ e, lease_expired (unix_milli now) e) (cn_db c) (cn_db c') ∧
    released_where (event_in (lease_expired (unix_milli now)) (cn_db c)) (cn_db c) (cn_db c') ∧
    action_logs (cn_db c') = action_logs (cn_db c) ∧
    replay_guard (cn_db c') = replay_guard (cn_db c)) c.
Proof.
  intros Hnf. unfold RequeueExpiredLeases, requeueProcessing. repeat wp_step_ok.
  intros _. rewrite Z.add_0_r. split_and!; try done.
  - intros id. by rewrite requeue_events_lookup.
  - intros k. change (event_actions (requeue_events ?p ?d).2) with (event_actions d).
    by rewrite release_running_lookup.
Qed.

(** An event the start-up recovery takes back: it was being processed, or it
    waits while one of its actions is still marked running. *)
Definition interrupted (db : DB) (id : string) (e : event_row) : bool :=
  status_is "processing" e || ((status_is "pending" e || status_is "retrying" e) && has_running id db).

Definition recovered (db db' : DB) : Prop :=
  requeued_where (interrupted db) db db' ∧
  released_where (event_in (λ e, live_status (ev_status e)) db) db db' ∧
  action_logs db' = action_logs db ∧ replay_guard db' = replay_guard db.

Lemma has_running_true id i a db :
  event_actions db !! (id, i) = Some a → action_is "running" a = true → has_running id db = true.
Proof.
  intros Ha Hr. apply exists_row_true. exists (id, i), a. by rewrite bool_decide_true, Hr.
Qed.

Lemma status_cases e :
  live_status (ev_status e) = status_is "pending" e || status_is "processing" e || status_is "retrying" e.
Proof.
  unfold live_status, status_is, one_of. cbn [existsb]. rewrite orb_false_r, <- orb_assoc.
  assert (∀ s t, String.eqb s t = bool_decide (s = t)) as Hb.
  { intros s t. destruct (String.eqb_spec s t); [by rewrite bool_decide_true|by rewrite bool_decide_false]. }
  by rewrite !Hb.
Qed.

Lemma status_is_requeue s e : status_is s (requeue_row e) = bool_decide ("pending"%string = s).
Proof. done. Qed.

Lemma release_not_running a : action_is "running" (release_action a) = false.
Proof. done. Qed.

Lemma status_excl s t e : status_is s e = true → s ≠ t → status_is t e = false.
Proof. unfold status_is. intros. bool_simpl. apply bool_decide_eq_false. congruence. Qed.

#[local] Arguments live_status : simpl never.

Lemma RequeueAllProcessing_run c :
  no_faults →
  wp RequeueAllProcessing (λ r c', is_ok r = true ∧ recovered (cn_db c) (cn_db c')) c.
Proof.
  intros Hnf. unfold RequeueAllProcessing, requeueProcessing. repeat wp_step_ok.
  intros _. split; [done|]. set (db := cn_db c).
  set (db1 := (requeue_events _ db).2). set (db2 := (release_running _ db1).2).
  set (db3 := (release_running _ db2).2).
  assert (∀ id, events db1 !! id = (λ e, if (status_is "pending" e || status_is "retrying" e) &&
    has_running id db then requeue_row e else e) <$> events db !! id) as H1.
  { intros id. unfold db1. by rewrite requeue_events_lookup. }
  split_and!; try done.
  - intros id. rewrite requeue_events_lookup. change (events db3) with (events db1). rewrite H1.
    destruct (events db !! id) as [e|]; cbn; [|done]. f_equal. unfold interrupted.
    destruct (status_is "processing" e) eqn:Hp; cbn.
    { rewrite (status_excl _ "pending" e Hp), (status_excl _ "retrying" e Hp) by done. cbn. by rewrite Hp. }
    destruct (_ && has_running id db) eqn:Ho; cbn; [done|]. by rewrite Hp.
  - intros k. change (event_actions (requeue_events ?p ?d).2) with (event_actions d).
    unfold db3. rewrite release_running_lookup. unfold db2. rewrite release_running_lookup.
    change (event_actions db1) with (event_actions db).
    destruct (event_actions db !! k) as [a|] eqn:Ha; cbn; [|done]. f_equal.
    destruct (action_is "running" a) eqn:Hr; cbn; [|by rewrite Hr].
    assert (has_running k.1 db = true) as Hhr.
    { destruct k as [id i]. by eapply has_running_true. }
    unfold event_in. change (events (release_running ?q ?d).2) with (events d). rewrite H1.
    destruct (events db !! k.1) as [e|]; cbn; [|by rewrite Hr].
    rewrite Hhr, andb_true_r, status_cases.
    destruct (status_is "processing" e) eqn:Hp.
    { rewrite (status_excl _ "pending" e Hp), (status_excl _ "retrying" e Hp) by done. cbn.
      rewrite (status_excl _ "pending" e Hp), Hp by done. cbn. by rewrite Hr. }
    destruct (status_is "pending" e) eqn:Hpe; cbn.
    { done. }
    destruct (status_is "retrying" e) eqn:Hre; cbn; [done|].
    rewrite Hpe, Hp. cbn. by rewrite Hr.
Qed.

(** Nothing is leased afterwards, and nothing live runs. *)
Definition settled (db : DB) : Prop :=
  (∀ id e, events db !! id = Some e → status_is "processing" e = false) ∧
  (∀ id e i a, events db !! id = Some e → live_status (ev_status e) = true →
     event_actions db !! (id, i) = Some a → action_is "running" a = false).

Lemma recovered_settled db db' : recovered db db' → settled db'.
Proof.
  intros Hrec. destruct Hrec as (Hev & Hac & _). split.
  - intros id e. rewrite Hev. destruct (events db !! id) as [e0|]; [|done]. cbn.
    intros ?; simplify_eq. unfold interrupted.
    destruct (status_is "processing" e0) eqn:Hp; cbn; [done|]. by destruct (_ && _).
  - intros id e i a. rewrite Hev, Hac. unfold event_in. cbn [fst].
    destruct (events db !! id) as [e0|]; [|done].
    destruct (event_actions db !! (id, i)) as [a0|]; [|done]. cbn [fmap option_fmap option_map].
    intros He Hl Ha. simplify_eq.
    assert (live_status (ev_status e0) = true) as ->.
    { destruct (interrupted _ _ _) eqn:Hi in Hl; [|done]. rewrite status_cases.
      unfold interrupted in Hi. by destruct (status_is "processing" e0), (status_is "pending" e0),
        (status_is "retrying" e0). }
    rewrite andb_true_r. destruct (action_is "running" a0) eqn:Hrun; [done|]. done.
Qed.

End Outcomes.
