(* ===== verification/StoreSafety.v ===== *)
(** * Safety over sequences of store calls

    [run_calls] runs any sequence of calls one after the other, each of which
    may fail. Three properties survive every such sequence: the well-formedness
    of the database, the hold a worker has on an event while its lease lasts,
    and the replay guard of a body until it expires. *)

From S2P Require Import Prelude Sql StoreSchema Store StoreLookup StoreInv StoreCalls StoreSpec.

Section Sequences.
Context `{Env, SqlOrder}.

(** The callers log an error and go on. *)
Fixpoint run_calls (cs : list store_call) (c : conn DB) : conn DB :=
  match cs with
  | [] => c
  | call :: cs' => run_calls cs' (run_call call c).2
  end.

Lemma run_calls_ind (P : store_call → Prop) (I : DB → Prop) cs c :
  (∀ call, P call → preserves I (run_call call)) →
  Forall P cs → I (cn_db c) → I (cn_db (run_calls cs c)).
Proof.
  intros Hstep Hcs. revert c. induction Hcs as [|call cs Hc _ IH]; intros c HI; [done|].
  cbn [run_calls]. apply IH. exact (Hstep call Hc c HI).
Qed.

Lemma run_calls_db_ok cs c :
  Forall call_ok cs → db_ok (cn_db c) → db_ok (cn_db (run_calls cs c)).
Proof. intros. eapply run_calls_ind; eauto. intros. by apply run_call_db_ok. Qed.

End Sequences.

(** ** Leases *)

(** [owner] holds [id] until [untilMS]. *)
Definition holds (id owner : string) (untilMS : Z) (db : DB) : Prop :=
  ∃ e, events db !! id = Some e ∧ ev_status e = "processing"%string ∧
       ev_lease_owner e = Some owner ∧ ev_lease_until_ms e = Some untilMS.

(** A call that is not the holder's own: it may claim, recover, replay, purge
    or accept anything, at times up to the end of the lease; it does not
    requeue, refresh, end or renew [id], and it is not the start-up recovery. *)
Definition foreign (id : string) (untilMS : Z) (c : store_call) : Prop :=
  match c with
  | CallClaim _ now _ | CallRequeueExpired now => unix_milli now ≤ untilMS
  | CallRequeueAll => False
  | CallRequeue id' | CallRenew id' _ _ _ | CallRefresh id' _ | CallStatus id' _ _ => id' ≠ id
  | _ => True
  end.

Section Leases.
Context `{Env, SqlOrder}.
Context (id owner : string) (untilMS : Z).

#[local] Abbreviation H_ := (holds id owner untilMS).

Lemma holds_same_events db db' : events db' = events db → H_ db → H_ db'.
Proof. unfold holds. by intros ->. Qed.

(** An assignment that does not touch the lease or the status of [id]. *)
Lemma holds_update p f db :
  (∀ e, events db !! id = Some e → ev_status e = "processing"%string →
     ev_lease_until_ms e = Some untilMS → p id e = true →
     ev_status (f e) = ev_status e ∧ ev_lease_owner (f e) = ev_lease_owner e ∧
     ev_lease_until_ms (f e) = ev_lease_until_ms e) →
  H_ db → H_ (set_events (update_where p f (events db)) db).
Proof.
  intros Hf (e & He & Hs & Ho & Hu).
  exists (if p id e then f e else e). cbn. rewrite update_where_lookup, He. cbn.
  destruct (p id e) eqn:Hp; [|by eauto].
  destruct (Hf e He Hs Hu Hp) as (E1 & E2 & E3). rewrite E1, E2, E3. done.
Qed.

Lemma holds_update_other p f db :
  (∀ e, events db !! id = Some e → ev_status e = "processing"%string →
     ev_lease_until_ms e = Some untilMS → p id e = false) →
  H_ db → H_ (set_events (update_where p f (events db)) db).
Proof. intros Hp. apply holds_update. intros e He Hs Hu Hpt. by rewrite Hp in Hpt. Qed.

Lemma holds_insert_event id' row db : H_ db → H_ (insert_event id' row db).2.
Proof.
  intros (e & He & Hs & Ho & Hu). unfold insert_event.
  destruct (bool_decide (is_Some _)) eqn:Hid; cbn; [by exists e|].
  destruct (delivery_taken _ _ _); cbn; [by exists e|]. bool_simpl.
  exists e. cbn. rewrite lookup_insert_ne; [done|]. intros ->. by destruct Hid.
Qed.

Lemma not_claimable_held ms e :
  ev_status e = "processing"%string → ev_lease_until_ms e = Some untilMS →
  ms ≤ untilMS → claimable ms e = false.
Proof.
  intros Hs Hu Hle. unfold claimable, status_is. rewrite Hs, Hu. cbn.
  apply Z.ltb_ge. done.
Qed.

Lemma preserves_events_same {A} (f : DB → A * DB) :
  (∀ db, events (f db).2 = events db) → preserves H_ (exec f).
Proof. intros Hf. apply preserves_exec. intros db. by apply holds_same_events. Qed.

Lemma holds_insert_actions id' i count ms : preserves H_ (insert_actions id' i count ms).
Proof.
  revert i. induction count as [|count IH]; intros i; [by apply preserves_read_only|].
  apply preserves_bind; [|intros; apply IH].
  apply preserves_events_same. intros db. apply insert_action_events.
Qed.

(** A body all of whose steps preserve [I], inside a transaction. *)
Lemma preserves_tx {A} (I : DB → Prop) (body : M (conn DB) store_err (tx_end A)) :
  preserves I body → preserves I (transaction body).
Proof.
  intros Hb. apply preserves_transaction. intros c Hc.
  eapply wp_mono; [by apply Hb|]. by intros [[a|a]|e] c'.
Qed.

Lemma preserves_query {A} (I : DB → Prop) (f : DB → A) : preserves I (query f).
Proof. apply preserves_read_only, read_only_query. Qed.

Lemma preserves_time (I : DB → Prop) : preserves I time_now.
Proof. by intros c Hc. Qed.

Lemma preserves_ret {A} (I : DB → Prop) (a : A) : preserves I (mret a).
Proof. by intros c Hc. Qed.

Lemma preserves_fail {A} (I : DB → Prop) e : preserves I (fail (A := A) e).
Proof. by intros c Hc. Qed.

Lemma preserves_void' {A} (I : DB → Prop) (m : M (conn DB) store_err A) :
  preserves I m → preserves I (void m).
Proof. intros Hm. apply preserves_bind; [done|]. intros a. apply preserves_ret. Qed.

End Leases.

(** Walks over the statements of an operation; leaves one goal per statement
    that writes. *)
Ltac preserve_step :=
  lazymatch goal with
  | |- preserves _ (void _) => apply preserves_void'
  | |- preserves _ (transaction _) => apply preserves_tx
  | |- preserves _ (withDeadlineWriter _ _) => apply preserves_withDeadlineWriter
  | |- preserves _ (_ ≫= _) => apply preserves_bind; [|intros ?]
  | |- preserves _ (query _) => apply preserves_query
  | |- preserves _ time_now => apply preserves_time
  | |- preserves _ (mret _) => apply preserves_ret
  | |- preserves _ (fail _) => apply preserves_fail
  | |- preserves _ (match ?x with _ => _ end) => destruct x eqn:?
  | |- preserves _ (exec _) => apply preserves_exec; intros ?db
  end.

Section HoldRuns.
Context `{Env, SqlOrder}.

(** The rows other calls update keep the lease, or are other rows. *)
Lemma holds_update_event_ne id owner ms id' p f db :
  id' ≠ id → holds id owner ms db → holds id owner ms (update_event id' p f db).2.
Proof. intros Hne. apply holds_update_other. intros. by rewrite bool_decide_false. Qed.

Lemma holds_update_event_keep id owner ms id' p f db :
  (∀ e, ev_status (f e) = ev_status e ∧ ev_lease_owner (f e) = ev_lease_owner e ∧
        ev_lease_until_ms (f e) = ev_lease_until_ms e) →
  holds id owner ms db → holds id owner ms (update_event id' p f db).2.
Proof. intros Hf. apply holds_update. auto. Qed.

Lemma holds_lease_event id owner ms id' t owner' nowMS db :
  nowMS ≤ ms → holds id owner ms db → holds id owner ms (lease_event id' t owner' nowMS db).2.
Proof.
  intros Hle. apply holds_update_other. intros e He Hs Hu.
  by rewrite (not_claimable_held ms nowMS), andb_false_r.
Qed.

Lemma holds_requeue_expired id owner ms nowMS db :
  nowMS ≤ ms → holds id owner ms db →
  holds id owner ms (requeue_events (λ _ e, status_is "processing" e &&
    (coalesce (ev_lease_until_ms e) 0 <? nowMS)) db).2.
Proof.
  intros Hle. apply holds_update_other. intros e He Hs Hu. rewrite Hu. cbn.
  rewrite (proj2 (Z.ltb_ge _ _) Hle). apply andb_false_r.
Qed.

Lemma holds_requeue_ne id owner ms id' db :
  id' ≠ id → holds id owner ms db →
  holds id owner ms (requeue_events (λ k e, bool_decide (k = id') && status_is "processing" e) db).2.
Proof. intros Hne. apply holds_update_other. intros. by rewrite bool_decide_false. Qed.

Lemma holds_purge_events id owner ms cutoffMS db :
  holds id owner ms db → holds id owner ms (purge_events cutoffMS db).2.
Proof.
  intros (e & He & Hs & Ho & Hu). exists e. split; [|done]. cbn.
  apply delete_where_lookup_Some. split; [done|]. unfold purgeable. rewrite Hs. cbn.
  apply andb_false_r.
Qed.

Lemma holds_replay id owner ms id' reason now :
  preserves (holds id owner ms) (ReplayDeadEvent id' reason now).
Proof.
  apply preserves_transaction. intros c Hc. do 2 wp_step; [|done].
  destruct (events (cn_db c) !! id') as [e|] eqn:He; [|done].
  destruct (negb (status_is "dead" e) && _ && _) eqn:Hs; [done|].
  repeat (wp_step; try done).
  assert (id' ≠ id) as Hne.
  { intros ->. destruct Hc as (e' & He' & Hs' & _). simplify_eq.
    unfold status_is in Hs. by rewrite Hs' in Hs. }
  unfold replay_event. cbn [snd]. apply holds_update_other.
  - intros. by rewrite bool_decide_false.
  - by apply holds_same_events with (cn_db c).
Qed.

#[local] Hint Resolve holds_update_event_ne holds_update_event_keep holds_lease_event
  holds_requeue_expired holds_requeue_ne holds_purge_events holds_insert_event
  holds_replay preserves_void' : webhook.

(** No foreign call takes the event from its holder. *)
Lemma foreign_holds id owner untilMS call :
  foreign id untilMS call → preserves (holds id owner untilMS) (run_call call).
Proof.
  intros Hf. destruct call; cbn [run_call foreign] in *; try destruct expires.
  all: try (by apply preserves_read_only; auto using read_only_void, read_only_HasRecentBodyHash,
    read_only_HasEvent, read_only_GetPayload, read_only_GetEvent, read_only_ListActionLogs,
    read_only_ListActionStates).
  all: try (by auto with webhook).
  all: unfold SavePendingEvent, SavePendingEventGuarded, savePendingEvent, ClaimPending,
    RequeueExpiredLeases, requeueProcessing, RequeueEvent, RenewLease, RetryFailedEvent,
    PrepareEvent, StartAction, CompleteAction, ScheduleActionRetry, DeadAction, updateRunningAction,
    ExpireAction, RefreshEventStatus, UpdateEventStatus, SaveActionAttemptLog, ClearPayload,
    ReadyCheck, PurgeOlderThan.
  all: repeat first [apply holds_insert_actions | apply holds_replay | preserve_step].
  all: try (by apply holds_same_events).
  all: try (by auto with webhook).
  all: try (by apply holds_same_events; unfold insert_guard, insert_action, start_stmt; repeat case_match).
  - (* RenewLease *)
    apply holds_update_other. intros. by rewrite bool_decide_false.
  - (* RefreshEventStatus *)
    unfold refresh_stmt. destruct (refresh_plan _ _) as [[s p] d]. by auto with webhook.
Qed.

Lemma foreign_calls_hold id owner untilMS cs c :
  Forall (foreign id untilMS) cs → holds id owner untilMS (cn_db c) →
  holds id owner untilMS (cn_db (run_calls cs c)).
Proof. intros. eapply run_calls_ind; eauto. intros. by apply foreign_holds. Qed.

(** A held event is not handed out. *)
Lemma claim_not_held id owner untilMS lease now owner' c :
  holds id owner untilMS (cn_db c) → unix_milli now ≤ untilMS →
  wp (ClaimPending lease now owner') (λ r _, ∀ ev, r = Ok (Some ev) → pe_id ev ≠ id) c.
Proof.
  intros (e & He & Hs & Ho & Hu) Hle. eapply wp_mono; [apply ClaimPending_safe|].
  intros r c' Hr ev ->. destruct Hr as (e' & He' & Hc & _). intros <-. simplify_eq.
  by rewrite (not_claimable_held untilMS) in Hc.
Qed.

(** What a claim gives its caller is a hold. *)
Lemma claim_holds lease now owner c :
  wp (ClaimPending lease now owner) (λ r c', ∀ ev, r = Ok (Some ev) →
    holds (pe_id ev) owner (unix_milli (now + effective_lease lease)) (cn_db c')) c.
Proof.
  eapply wp_mono; [apply ClaimPending_safe|]. intros r c' Hr ev ->.
  destruct Hr as (e & He & _ & Hcl & _). eexists. rewrite Hcl, He. cbn.
  by rewrite bool_decide_true.
Qed.

(** Renewing keeps the hold and moves its end. *)
Lemma renew_holds id owner untilMS lease now c :
  holds id owner untilMS (cn_db c) →
  wp (RenewLease id lease now owner) (λ r c', match r with
    | Ok _ => holds id owner (unix_milli (now + effective_lease lease)) (cn_db c')
    | Err e => e = SqlError ∧ cn_db c' = cn_db c
    end) c.
Proof.
  intros (e & He & Hs & Ho & Hu). unfold RenewLease. do 2 wp_step; [|done].
  set (p := λ k e, _). assert (p id e = true) as Hp.
  { unfold p, status_is. rewrite Hs, Ho, (bool_decide_true (id = id)), (bool_decide_true (owner = owner)); done. }
  cbn [fst snd]. assert ((rows_affected p (events (cn_db c)) =? 0) = false) as ->.
  { apply rows_affected_pos. eauto. }
  wp_step. eexists. cbn. rewrite update_where_lookup, He. cbn. rewrite Hp. done.
Qed.

End HoldRuns.

(** ** The replay guard *)

Definition guard_until (source sha : string) (exMS : Z) (db : DB) : Prop :=
  replay_guard db !! (source, sha) = Some exMS.

(** Accepting calls happen before the guard expires. *)
Definition before_expiry (exMS : Z) (c : store_call) : Prop :=
  match c with
  | CallSave _ _ _ _ at_ _ _ _ _ (Some _) => unix_milli at_ < exMS
  | _ => True
  end.

Section Guards.
Context `{Env, SqlOrder}.

Lemma guard_same source sha exMS db db' :
  replay_guard db' = replay_guard db → guard_until source sha exMS db →
  guard_until source sha exMS db'.
Proof. unfold guard_until. by intros ->. Qed.

Lemma guard_drop source sha exMS source' sha' atMS db :
  atMS < exMS → guard_until source sha exMS db →
  guard_until source sha exMS (drop_expired_guard source' sha' atMS db).2.
Proof.
  unfold guard_until, drop_expired_guard. cbn. intros Hlt Hg.
  apply delete_where_lookup_Some. split; [done|].
  rewrite (proj2 (Z.leb_gt _ _) Hlt). apply andb_false_r.
Qed.

Lemma guard_insert source sha exMS source' sha' ex' db :
  guard_until source sha exMS db → guard_until source sha exMS (insert_guard source' sha' ex' db).2.
Proof.
  unfold guard_until, insert_guard. intros Hg.
  destruct (replay_guard db !! (source', sha')) eqn:E; cbn; [done|]. rewrite lookup_insert_ne; [done|]. congruence.
Qed.

Lemma guard_purge source sha exMS nowMS db :
  nowMS ≤ exMS → guard_until source sha exMS db →
  guard_until source sha exMS (purge_guards nowMS db).2.
Proof.
  unfold guard_until. intros Hle Hg. by apply purge_guards_lookup.
Qed.

Lemma guard_insert_actions source sha exMS id i count ms :
  preserves (guard_until source sha exMS) (insert_actions id i count ms).
Proof.
  revert i. induction count as [|count IH]; intros i; [by apply preserves_read_only|].
  apply preserves_bind; [|intros; apply IH]. apply preserves_exec. intros db.
  apply guard_same. unfold insert_action. by case_match.
Qed.

(** time.Now() when every reading of the clock satisfies [P]. *)
Lemma wp_clock (P : Z → Prop) Q (c : conn DB) :
  (∀ n, P (clock n)) → (∀ t n, P t → Q (Ok t) (Conn (cn_db c) n)) → wp time_now Q c.
Proof. intros HP HQ. unfold wp, time_now. cbn. auto. Qed.

(** The retention loop reads the clock itself. *)
Lemma guard_PurgeOlderThan source sha exMS cutoff :
  (∀ n, unix_milli (clock n) ≤ exMS) →
  preserves (guard_until source sha exMS) (PurgeOlderThan cutoff).
Proof.
  intros Hclock. apply preserves_transaction. intros c Hc.
  do 3 (do 2 wp_step; [|done]). apply wp_bind_M, (wp_clock (λ t, unix_milli t ≤ exMS)); [done|].
  intros t n' Ht. cbn [cn_db]. do 2 (do 2 wp_step; [|done]). wp_step.
  apply guard_same with (purge_guards (unix_milli t) (cn_db c)).2; [done|].
  by apply guard_purge.
Qed.

(** No call drops a guard before it expires. *)
Lemma call_keeps_guard source sha exMS call :
  (∀ n, unix_milli (clock n) ≤ exMS) → before_expiry exMS call →
  preserves (guard_until source sha exMS) (run_call call).
Proof.
  intros Hclock Hb. destruct call; cbn [run_call before_expiry] in *; try destruct expires.
  all: try (by apply preserves_read_only; auto using read_only_void, read_only_HasRecentBodyHash,
    read_only_HasEvent, read_only_GetPayload, read_only_GetEvent, read_only_ListActionLogs,
    read_only_ListActionStates).
  all: unfold SavePendingEvent, SavePendingEventGuarded, savePendingEvent, ClaimPending,
    RequeueExpiredLeases, RequeueAllProcessing, requeueProcessing, RequeueEvent, RenewLease,
    RetryFailedEvent, ReplayDeadEvent,
    PrepareEvent, StartAction, CompleteAction, ScheduleActionRetry, DeadAction, updateRunningAction,
    ExpireAction, RefreshEventStatus, UpdateEventStatus, SaveActionAttemptLog, ClearPayload,
    ReadyCheck.
  all: repeat first [apply guard_insert_actions | apply guard_PurgeOlderThan; done | preserve_step].
  all: try (by apply guard_same).
  all: try (by apply guard_drop). all: try apply guard_insert.
  all: apply guard_same.
  all: unfold insert_event, start_stmt, refresh_stmt; repeat case_match; simplify_eq/=; try done.
Qed.

Lemma calls_keep_guard source sha exMS cs c :
  (∀ n, unix_milli (clock n) ≤ exMS) → Forall (before_expiry exMS) cs →
  guard_until source sha exMS (cn_db c) →
  guard_until source sha exMS (cn_db (run_calls cs c)).
Proof. intros. eapply run_calls_ind; eauto. intros. by apply call_keeps_guard. Qed.

(** A held guard refuses the body, whatever the driver does. *)
Lemma guard_refuses id source ip payload at_ d sha cfg actions expires exMS c :
  sha ≠ ""%string → unix_milli at_ < exMS → guard_until source sha exMS (cn_db c) →
  wp (SavePendingEventGuarded id source ip payload at_ d sha cfg actions expires)
     (λ r c', cn_db c' = cn_db c ∧ (r = Err ErrDuplicateBody ∨ r = Err SqlError)) c.
Proof.
  intros Hsha Hlt Hg. unfold SavePendingEventGuarded, savePendingEvent.
  apply wp_transaction; [by auto|intros n]. rewrite bool_decide_false by done. cbv iota.
  do 3 wp_step; [|by auto]. do 2 wp_step; [|by auto].
  rewrite drop_insert_guard_held.
  - change (0 =? 0) with true. cbv iota. wp_step. by auto.
  - unfold guard_held. unfold guard_until in Hg. rewrite Hg. by apply Z.ltb_lt.
Qed.

(** A guarded save that succeeds sets the guard. *)
Lemma save_sets_guard id source ip payload at_ d sha cfg actions expires c :
  sha ≠ ""%string →
  wp (SavePendingEventGuarded id source ip payload at_ d sha cfg actions expires)
     (λ r c', r = Ok tt → guard_until source sha (unix_milli expires) (cn_db c')) c.
Proof.
  intros Hsha. unfold SavePendingEventGuarded, savePendingEvent.
  apply wp_transaction; [done|intros n]. rewrite bool_decide_false by done. cbv iota.
  do 3 wp_step; [|done]. do 2 wp_step; [|done].
  set (db1 := (drop_expired_guard _ _ _ _).2).
  assert (((insert_guard source sha (unix_milli expires) db1).1 =? 0) = false →
    guard_until source sha (unix_milli expires) (insert_guard source sha (unix_milli expires) db1).2) as Hset.
  { unfold insert_guard, guard_until. destruct (replay_guard db1 !! (source, sha)); [done|].
    intros _. cbn. apply lookup_insert_eq. }
  destruct (_ =? 0) eqn:E; [done|]. specialize (Hset eq_refl). do 3 wp_step; [|done].
  set (db2 := (insert_guard _ _ _ _).2) in *.
  assert (∀ row, replay_guard (insert_event id row db2).2 = replay_guard db2) as Hev.
  { intros row. unfold insert_event. by case_match. }
  clear E. destruct (_ =? 0); cbv iota; wp_step; [done|]. intros _ _. unfold guard_until. by rewrite Hev.
Qed.
End Guards.
