(* ===== verification/StorePeers.v ===== *)
(** * What a lease protects

    While a worker holds an event, the calls the rest of the program makes
    leave the event and the rows of its actions alone: the justification of
    the assumption the worker's theorems make on the other goroutines. *)

From S2P Require Import Prelude Sql StoreSchema Store StoreLookup StoreInv StoreCalls StoreSpec StoreSafety.

(** A foreign call that is not one of the holder's own calls on the actions
    of [id] either. *)
Definition peer_call (id : string) (untilMS : Z) (c : store_call) : Prop :=
  foreign id untilMS c ∧
  match c with
  | CallPrepare id' _ _ _ _ | CallStart id' _ _ | CallComplete id' _ _ | CallSchedule id' _ _ _ _
  | CallDead id' _ _ _ | CallExpire id' _ _ => id' ≠ id
  | _ => True
  end.

Section Peers.
Context `{Env, SqlOrder}.
Context (id owner : string) (untilMS : Z) (A : Z → option action_row).

(** The event is held and its actions are [A]. *)
Definition guarded (db : DB) : Prop :=
  holds id owner untilMS db ∧ ∀ j, event_actions db !! (id, j) = A j.

Lemma guarded_events db db' :
  event_actions db' = event_actions db → (holds id owner untilMS db → holds id owner untilMS db') →
  guarded db → guarded db'.
Proof. intros Ha Hh [H1 H2]. split; [auto|]. intros j. by rewrite Ha. Qed.

Lemma guarded_actions p f db :
  (holds id owner untilMS db → ∀ j a, p (id, j) a = false) →
  guarded db → guarded (set_event_actions (update_where p f (event_actions db)) db).
Proof.
  intros Hp [H1 H2]. split; [by eapply holds_same_events|]. intros j. cbn.
  rewrite update_where_lookup, <- H2. destruct (event_actions db !! (id, j)); cbn; [|done].
  by rewrite (Hp H1).
Qed.

Lemma guarded_release q db :
  (holds id owner untilMS db → q id = false) → guarded db → guarded (release_running q db).2.
Proof.
  intros Hq. unfold release_running. cbn [snd]. apply guarded_actions. intros Hh j a. cbn.
  rewrite Hq by done. apply andb_false_r.
Qed.

Lemma guarded_update_action id' j p f db :
  id' ≠ id → guarded db → guarded (update_action id' j p f db).2.
Proof.
  intros Hne. unfold update_action. cbn [snd]. apply guarded_actions. intros _ j' a.
  by rewrite bool_decide_false by congruence.
Qed.

Lemma guarded_insert_action id' j ms db :
  id' ≠ id → guarded db → guarded (insert_action id' j ms db).2.
Proof.
  intros Hne [H1 H2]. split; [by eapply holds_same_events; [apply insert_action_events|]|].
  intros j'. rewrite insert_action_lookup, H2, bool_decide_false by congruence. by destruct (A j').
Qed.

Lemma guarded_insert_actions id' i count ms :
  id' ≠ id → preserves guarded (insert_actions id' i count ms).
Proof.
  intros Hne. revert i. induction count as [|count IH]; intros i; [by apply preserves_read_only|].
  apply preserves_bind; [|intros; apply IH]. apply preserves_exec. intros db.
  by apply guarded_insert_action.
Qed.

(** The event is not purgeable, so its actions stay. *)
Lemma guarded_purge_actions ms db : guarded db → guarded (purge_actions ms db).2.
Proof.
  intros [H1 H2]. split; [by eapply holds_same_events|]. intros j.
  destruct H1 as (e & He & Hs & _).
  assert (event_in (purgeable ms) db id = false) as Hp.
  { unfold event_in, purgeable. rewrite He, Hs. cbn. apply andb_false_r. }
  rewrite <- H2. apply option_eq. intros a. rewrite purge_actions_lookup, Hp. naive_solver.
Qed.

Lemma guarded_claim lease now owner' :
  unix_milli now ≤ untilMS → preserves guarded (ClaimPending lease now owner').
Proof.
  intros Hle c [Hh Ha]. pose proof (foreign_holds id owner untilMS (CallClaim lease now owner') Hle c Hh) as Hh'.
  pose proof (claim_not_held id owner untilMS lease now owner' c Hh Hle) as Hne.
  pose proof (ClaimPending_safe lease now owner' c) as Hs.
  unfold run_call, void, wp, mbind, M_bind in *. destruct (ClaimPending lease now owner' c) as [[[ev|]|e] c'];
    cbn [fst snd] in *.
  - split; [done|]. intros j. destruct Hs as (e & _ & _ & _ & Hac & _). rewrite Hac, <- Ha.
    specialize (Hne ev eq_refl). destruct (event_actions (cn_db c) !! (id, j)); cbn; [|done].
    by rewrite bool_decide_false.
  - split; [done|]. intros j. by rewrite Hs.
  - split; [done|]. intros j. by rewrite Hs.
Qed.

Lemma guarded_replay id' reason now : preserves guarded (ReplayDeadEvent id' reason now).
Proof.
  apply preserves_transaction. intros c Hc. do 2 wp_step; [|done].
  destruct (events (cn_db c) !! id') as [e|] eqn:He; [|done].
  destruct (negb (status_is "dead" e) && _ && _) eqn:Hs; [done|].
  repeat (wp_step; try done).
  assert (id' ≠ id) as Hne.
  { intros ->. destruct Hc as [(e' & He' & Hs' & _) _]. simplify_eq.
    unfold status_is in Hs. by rewrite Hs' in Hs. }
  apply guarded_events with (replay_actions id' (unix_milli now) (cn_db c)).2; [done| |].
  - unfold replay_event. cbn [snd]. apply holds_update_other. intros. by rewrite bool_decide_false.
  - unfold replay_actions. cbn [snd]. apply guarded_actions; [|done]. intros _ j a. cbn.
    by rewrite bool_decide_false.
Qed.

Lemma guarded_requeue_expired nowMS db :
  nowMS ≤ untilMS → guarded db →
  guarded (release_running (event_in (λ e, status_is "processing" e &&
    (coalesce (ev_lease_until_ms e) 0 <? nowMS)) db) db).2.
Proof.
  intros Hle. apply guarded_release. intros (e & He & Hs & Ho & Hu). unfold event_in.
  rewrite He, Hu. cbn. rewrite (proj2 (Z.ltb_ge _ _) Hle). apply andb_false_r.
Qed.

(** One statement of a peer's call. *)
Ltac guarded_stmt :=
  lazymatch goal with
  | |- _ → guarded (update_action _ _ _ _ _).2 => by apply guarded_update_action
  | |- _ → guarded (purge_actions _ _).2 => apply guarded_purge_actions
  | |- _ → guarded (release_running (event_in _ _) _).2 => by apply guarded_requeue_expired
  | |- _ → guarded (release_running _ _).2 =>
      apply guarded_release; intros _; by apply bool_decide_false
  | |- _ → guarded (insert_event _ _ _).2 =>
      apply guarded_events; [unfold insert_event; by case_match|apply holds_insert_event]
  | |- _ → guarded (insert_guard _ _ _ _).2 =>
      apply guarded_events; [unfold insert_guard; by case_match|
        apply holds_same_events; unfold insert_guard; by case_match]
  | |- _ → guarded (requeue_events (λ k _, bool_decide (k = _) && _) _).2 =>
      apply guarded_events; [done|]; by apply holds_requeue_ne
  | |- _ → guarded (requeue_events _ _).2 =>
      apply guarded_events; [done|]; by apply holds_requeue_expired
  | |- _ → guarded (update_event _ _ _ _).2 =>
      apply guarded_events; [done|];
      first [by apply holds_update_event_ne|by apply holds_update_event_keep]
  | |- _ → guarded (purge_events _ _).2 =>
      apply guarded_events; [done|apply holds_purge_events]
  | |- _ → guarded (start_stmt _ _ _ _).2 => rewrite start_stmt_snd; by apply guarded_update_action
  | |- _ → guarded (drop_expired_guard _ _ _ _).2 => apply guarded_events; [done|by apply holds_same_events]
  | |- _ → guarded (insert_action_log _ _ _ _ _ _ _ _ _ _ _).2 => apply guarded_events; [done|by apply holds_same_events]
  | |- _ → guarded (toggle_ready _).2 => apply guarded_events; [done|by apply holds_same_events]
  | |- _ → guarded (purge_action_logs _ _).2 => apply guarded_events; [done|by apply holds_same_events]
  | |- _ → guarded (purge_guards _ _).2 => apply guarded_events; [done|by apply holds_same_events]
  | |- _ → guarded (purge_heartbeats _ _).2 => apply guarded_events; [done|by apply holds_same_events]
  end.

Lemma peer_guarded call : peer_call id untilMS call → preserves guarded (run_call call).
Proof.
  intros [Hf Hp]. destruct call; cbn [run_call foreign] in *; try destruct expires.
  all: try (by apply preserves_read_only; auto using read_only_void, read_only_HasRecentBodyHash,
    read_only_HasEvent, read_only_GetPayload, read_only_GetEvent, read_only_ListActionLogs,
    read_only_ListActionStates).
  all: try (by apply preserves_void', guarded_claim).
  all: unfold SavePendingEvent, SavePendingEventGuarded, savePendingEvent,
    RequeueExpiredLeases, requeueProcessing, RequeueEvent, RenewLease, RetryFailedEvent,
    PrepareEvent, StartAction, CompleteAction, ScheduleActionRetry, DeadAction, updateRunningAction,
    ExpireAction, RefreshEventStatus, UpdateEventStatus, SaveActionAttemptLog, ClearPayload,
    ReadyCheck, PurgeOlderThan.
  all: repeat first [apply guarded_insert_actions; done | apply guarded_replay | preserve_step].
  all: try guarded_stmt.
  - (* RenewLease *)
    apply guarded_events; [done|]. apply holds_update_other. intros. by rewrite bool_decide_false.
  - (* RefreshEventStatus *)
    unfold refresh_stmt. destruct (refresh_plan _ _) as [[s p] d].
    apply guarded_events; [done|]. by apply holds_update_event_ne.
Qed.

Lemma peers_guarded cs c :
  Forall (peer_call id untilMS) cs → guarded (cn_db c) → guarded (cn_db (run_calls cs c)).
Proof. intros. eapply run_calls_ind; eauto. intros. by apply peer_guarded. Qed.

End Peers.

(** ** A completed action is final *)

Section Final.
Context `{Env, SqlOrder}.
Context (k : string * Z) (a : action_row) (Hdone : action_is "done" a = true).
#[local] Set Default Proof Using "Type*".

Definition stays (db : DB) : Prop := event_actions db !! k = Some a.

Lemma stays_same db db' : event_actions db' = event_actions db → stays db → stays db'.
Proof. unfold stays. by intros ->. Qed.

Lemma stays_update p f db :
  (p k a = false) → stays db → stays (set_event_actions (update_where p f (event_actions db)) db).
Proof. intros Hp Ha. unfold stays in *. cbn. by rewrite update_where_lookup, Ha; cbn; rewrite Hp. Qed.

Lemma done_status s : s ≠ "done"%string → action_is s a = false.
Proof.
  intros Hs. unfold action_is in *. bool_simpl. apply bool_decide_eq_false. congruence.
Qed.

Lemma stays_release q db : stays db → stays (release_running q db).2.
Proof. apply stays_update. by rewrite (done_status "running"). Qed.

Lemma stays_running id j f db : stays db → stays (update_action id j (action_is "running") f db).2.
Proof. apply stays_update. rewrite (done_status "running") by done. apply andb_false_r. Qed.

Lemma stays_waiting id j f db : stays db → stays (update_action id j action_waiting f db).2.
Proof.
  apply stays_update. unfold action_waiting.
  rewrite (done_status "pending"), (done_status "retrying") by done. apply andb_false_r.
Qed.

Lemma stays_start id j ms db : stays db → stays (start_stmt id j ms db).2.
Proof.
  rewrite start_stmt_snd. apply stays_update. unfold action_due, action_waiting.
  rewrite (done_status "pending"), (done_status "retrying") by done. apply andb_false_r.
Qed.

Lemma stays_insert id j ms db : stays db → stays (insert_action id j ms db).2.
Proof. unfold stays. intros Ha. by rewrite insert_action_lookup, Ha. Qed.

Lemma stays_replay id ms db : stays db → stays (replay_actions id ms db).2.
Proof. apply stays_update. rewrite (done_status "dead") by done. apply andb_false_r. Qed.

Lemma stays_insert_actions id i count ms : preserves stays (insert_actions id i count ms).
Proof.
  revert i. induction count as [|count IH]; intros i; [by apply preserves_read_only|].
  apply preserves_bind; [|intros; apply IH]. apply preserves_exec. intros db. apply stays_insert.
Qed.

(** Every call but the retention pass. *)
Definition not_purge (c : store_call) : Prop :=
  match c with CallPurge _ => False | _ => True end.

Ltac stays_stmt :=
  lazymatch goal with
  | |- _ → stays (update_action _ _ (action_is "running") _ _).2 => apply stays_running
  | |- _ → stays (update_action _ _ action_waiting _ _).2 => apply stays_waiting
  | |- _ → stays (start_stmt _ _ _ _).2 => apply stays_start
  | |- _ → stays (release_running _ _).2 => apply stays_release
  | |- _ → stays (replay_actions _ _ _).2 => apply stays_replay
  | |- _ → stays (insert_event _ _ _).2 => apply stays_same; unfold insert_event; by case_match
  | |- _ → stays (insert_guard _ _ _ _).2 => apply stays_same; unfold insert_guard; by case_match
  | |- _ → stays (refresh_stmt _ ?p _ _).2 => apply stays_same; by destruct p as [[??]?]
  | |- _ → stays _ => by apply stays_same
  end.

Lemma call_stays call : not_purge call → preserves stays (run_call call).
Proof.
  intros Hf. destruct call; cbn [run_call not_purge] in *; try destruct expires; try done.
  all: try (by apply preserves_read_only; auto using read_only_void, read_only_HasRecentBodyHash,
    read_only_HasEvent, read_only_GetPayload, read_only_GetEvent, read_only_ListActionLogs,
    read_only_ListActionStates).
  all: unfold SavePendingEvent, SavePendingEventGuarded, savePendingEvent, ClaimPending,
    RequeueExpiredLeases, RequeueAllProcessing, requeueProcessing, RequeueEvent, RenewLease,
    RetryFailedEvent, ReplayDeadEvent, PrepareEvent, StartAction, CompleteAction,
    ScheduleActionRetry, DeadAction, updateRunningAction, ExpireAction, RefreshEventStatus,
    UpdateEventStatus, SaveActionAttemptLog, ClearPayload, ReadyCheck.
  all: repeat first [apply stays_insert_actions | preserve_step].
  all: stays_stmt.
Qed.

Lemma calls_stay cs c : Forall not_purge cs → stays (cn_db c) → stays (cn_db (run_calls cs c)).
Proof. intros. eapply run_calls_ind; eauto. intros. by apply call_stays. Qed.

End Final.
