(* ===== verification/StoreProps.v ===== *)
(** * The properties of the durable outbox

    The contract of [internal/store]: what survives every sequence of calls
    and every driver failure, and what each operation does. *)

From S2P Require Import Prelude Sql StoreSchema Store StoreLookup StoreInv StoreCalls StoreSpec StoreLifecycle StoreOutcome StoreSafety.

(** ** Concrete data for the witnesses *)

Module Demo.
#[local] Open Scope string_scope.

(** One event whose second action failed once, one accepted and one dead. *)
Definition base_row : event_row := new_event_row "github" "10.0.0.1" "{}" (5 * Second) "d-1" "ab" "" "".

Definition leased_row : event_row :=
  set_lease_owner (Some "w1") (set_lease_until (Some (200 * Second)) (Some 200000)
    (set_status "processing" base_row)).

Definition dead_event : event_row :=
  set_processed (Some (60 * Second)) (Some 60000) (set_next_attempt None
    (set_status "dead" (new_event_row "gitlab" "10.0.0.2" "{}" (4 * Second) "d-2" "cd" "" ""))).

Definition done_action : action_row := ActionRow "done" 1 None None None (Some 7000).
Definition pending_action : action_row := ActionRow "pending" 0 (Some 5000) None None None.
Definition dead_action : action_row := ActionRow "dead" 3 None (Some "refused") None (Some 60000).

Definition db0 : DB := MkDB
  {["e1" := leased_row; "e2" := dead_event; "e3" := new_event_row "api" "" "{}" (9 * Second) "" "" "" ""]}
  {[("e1", 0) := done_action; ("e1", 1) := pending_action;
    ("e2", 0) := done_action; ("e2", 1) := dead_action]} [] 0 ∅ ∅ [] 0.

#[export] Instance env : Env := calm (100 * Second) Second.

Definition c0 : conn DB := Conn db0 0.

Lemma env_no_faults : no_faults.
Proof. done. Qed.

Lemma db0_ok : db_ok db0.
Proof.
  assert (∀ id e, events db0 !! id = Some e →
    (id = "e1" ∧ e = leased_row) ∨ (id = "e2" ∧ e = dead_event) ∨
    (id = "e3" ∧ e = new_event_row "api" "" "{}" (9 * Second) "" "" "" "")) as Hev.
  { intros id e. cbn [events db0]. rewrite !lookup_insert_Some, lookup_singleton_Some. naive_solver. }
  assert (∀ (k : string * Z) a, event_actions db0 !! k = Some a →
    (a = done_action ∨ a = pending_action ∨ a = dead_action) ∧
    (k.1 = "e1" ∨ k.1 = "e2") ∧ (0 ≤ k.2)%Z) as Hac.
  { intros k a. cbn [event_actions db0]. rewrite !lookup_insert_Some, lookup_singleton_Some.
    naive_solver lia. }
  split.
  - intros id e He. destruct (Hev _ _ He) as [[_ ->]|[[_ ->]|[_ ->]]].
    all: split; vm_compute; intros; try done; eauto.
  - intros k a Ha. destruct (Hac _ _ Ha) as [[->|[->| ->]] _].
    + apply aok_done; vm_compute; eauto; done.
    + apply aok_pending; vm_compute; done.
    + apply aok_dead; vm_compute; eauto; done.
  - intros id i a Ha. destruct (Hac _ _ Ha) as (_ & [Hk|Hk] & _); cbn in Hk; subst; by eexists.
  - intros id i a Ha. by destruct (Hac _ _ Ha) as (_ & _ & ?).
  - intros id1 id2 e1 e2 d He1 He2.
    destruct (Hev _ _ He1) as [[-> ->]|[[-> ->]|[-> ->]]],
      (Hev _ _ He2) as [[-> ->]|[[-> ->]|[-> ->]]]; try done;
      vm_compute; intros; simplify_eq.
Qed.

End Demo.

(** ** What survives every run *)

Section Runs.
Context `{Env, SqlOrder}.

(** C7: whatever sequence of calls the gateway makes on the store, and
    whichever of their driver calls fail, a well-formed database stays well
    formed: leases only on events being processed, end times exactly on the
    finished ones, action columns that fit the action's status, no action
    without its event, no delivery id twice in a source. *)
Theorem store_invariant (calls : list store_call) (c : conn DB) :
  Forall call_ok calls → db_ok (cn_db c) → db_ok (cn_db (run_calls calls c)).
Proof. apply run_calls_db_ok. Qed.


(** C9: without driver failures ClaimPending returns an event whose due
    time is minimal among the claimable ones and leases exactly that event,
    giving back the attempt of its running actions; it returns nothing exactly
    when no event is claimable, and then changes nothing. It never errs. *)
Theorem ClaimPending_spec (lease now : Z) (owner : string) (c c' : conn DB) r :
  no_faults → db_ok (cn_db c) → ClaimPending lease now owner c = (r, c') →
  claim_result lease now owner (cn_db c) r (cn_db c').
Proof. intros Hn Hok Hr. exact (wp_run _ _ _ _ _ (ClaimPending_run lease now owner c Hn Hok) Hr). Qed.

(** C6: an event a worker claimed is not handed to anybody else while the
    lease lasts: after any sequence of other workers' calls made before its
    end, each of which may fail, a claim made before its end returns another
    event or none, and the event still belongs to its worker. *)
Theorem lease_is_exclusive lease now owner ev c c1 (calls : list store_call)
    lease' now' owner' r c2 :
  let untilMS := unix_milli (now + effective_lease lease) in
  ClaimPending lease now owner c = (Ok (Some ev), c1) →
  Forall (foreign (pe_id ev) untilMS) calls → unix_milli now' ≤ untilMS →
  ClaimPending lease' now' owner' (run_calls calls c1) = (r, c2) →
  (∀ ev', r = Ok (Some ev') → pe_id ev' ≠ pe_id ev) ∧
  holds (pe_id ev) owner untilMS (cn_db c2).
Proof.
  intros untilMS Hclaim Hcalls Hnow Hr.
  pose proof (wp_run _ _ _ _ _ (claim_holds lease now owner c) Hclaim ev eq_refl) as Hh.
  apply (foreign_calls_hold _ _ _ calls) in Hh; [|done]. split.
  - exact (wp_run _ _ _ _ _ (claim_not_held _ _ _ lease' now' owner' _ Hh Hnow) Hr).
  - assert (preserves (holds (pe_id ev) owner untilMS) (run_call (CallClaim lease' now' owner')))
      as Hp by (by apply foreign_holds).
    specialize (Hp _ Hh). unfold run_call, void, wp, mbind, M_bind in Hp. rewrite Hr in Hp.
    by destruct r.
Qed.

(** C10: without driver failures savePendingEvent is the decision
    [accept_spec]: a body whose replay guard is still held is refused as a
    duplicate body, an id or delivery id already there as a duplicate event
    with the guard rolled back too, and anything else is stored as a pending
    event due at once, together with its guard. *)
Theorem savePendingEvent_spec id source ip payload at_ d sha cfg actions expires (c c' : conn DB) r :
  no_faults →
  savePendingEvent id source ip payload at_ d sha cfg actions expires c = (r, c') →
  (r, cn_db c') = accept_spec id (new_event_row source ip payload at_ d sha cfg actions) sha
    (unix_milli at_) expires (cn_db c).
Proof.
  intros Hn Hr. symmetry. exact (wp_run _ _ _ _ _ (savePendingEvent_run _ _ _ _ _ _ _ _ _ _ c Hn) Hr).
Qed.

(** C11: once a guarded save of a signed body succeeded, the same
    body of the same source is refused until the guard expires, whatever calls
    happen in between, retention included, and whatever the driver does. *)
Theorem replay_guard_blocks id source ip payload at_ d sha cfg actions expires c c1
    (calls : list store_call) id' ip' payload' at' d' cfg' actions' expires' :
  sha ≠ ""%string →
  SavePendingEventGuarded id source ip payload at_ d sha cfg actions expires c = (Ok tt, c1) →
  (∀ n, unix_milli (clock n) ≤ unix_milli expires) →
  Forall (before_expiry (unix_milli expires)) calls →
  unix_milli at' < unix_milli expires →
  wp (SavePendingEventGuarded id' source ip' payload' at' d' sha cfg' actions' expires')
     (λ r c', cn_db c' = cn_db (run_calls calls c1) ∧ (r = Err ErrDuplicateBody ∨ r = Err SqlError))
     (run_calls calls c1).
Proof.
  intros Hsha Hsave Hclock Hcalls Hat.
  pose proof (wp_run _ _ _ _ _ (save_sets_guard _ _ _ _ _ _ _ _ _ _ c Hsha) Hsave eq_refl) as Hg.
  eapply calls_keep_guard in Hg; [|done..]. by eapply guard_refuses.
Qed.

(** ** The life of an event *)

(** C12: RefreshEventStatus gives the event the verdict its actions
    deserve: done when all are done, dead when all ended and one is dead,
    retrying with the earliest retry as its due time when one waits for a
    retry, pending at once otherwise; it ends the lease and touches neither
    the actions nor any other event. It errs only when there is no action or
    no event, and then changes nothing. *)
Theorem RefreshEventStatus_spec id now (c c' : conn DB) r :
  no_faults → db_ok (cn_db c) → RefreshEventStatus id now c = (r, c') →
  match r with
  | Ok s => verdict id (cn_db c) s ∧ others_same id (cn_db c) (cn_db c') ∧
      event_actions (cn_db c') = event_actions (cn_db c) ∧
      ∃ e', events (cn_db c') !! id = Some e' ∧ refreshed id s (unix_milli now) (cn_db c) e'
  | Err _ => cn_db c' = cn_db c ∧
      ((∀ a, ¬ has_action id (cn_db c) a) ∨ events (cn_db c) !! id = None)
  end.
Proof. intros Hn Hok Hr. exact (wp_run _ _ _ _ _ (RefreshEventStatus_run id now c Hn Hok) Hr). Qed.

(** PrepareEvent stores the variables and creates the missing
    actions 0..n-1 as pending, in the transaction that clears the payload;
    actions that exist (done, dead or waiting for a retry) are untouched, so a
    second pass over the event cannot restart them. It refuses an event that
    is not being processed. *)
Theorem PrepareEvent_spec id vars count clear now (c c' : conn DB) r :
  no_faults → PrepareEvent id vars count clear now c = (r, c') →
  match r with
  | Ok _ => others_same id (cn_db c) (cn_db c') ∧
      (∃ e, events (cn_db c) !! id = Some e ∧ status_is "processing" e = true ∧
            events (cn_db c') !! id = Some (prepared_row vars clear e)) ∧
      prepared_actions id count (unix_milli now) (cn_db c) (cn_db c')
  | Err err => err = ErrEvent id "not processing" ∧ cn_db c' = cn_db c ∧
      ∀ e, events (cn_db c) !! id = Some e → status_is "processing" e = false
  end.
Proof. intros Hn Hr. exact (wp_run _ _ _ _ _ (PrepareEvent_run id vars count clear now c Hn) Hr). Qed.

(** ReplayDeadEvent accepts exactly the dead (or legacy partial or
    error) events that still have a payload or variables: a new replay
    generation, due at once, the dead actions pending with a fresh attempt
    budget, the done ones untouched; otherwise it says why and changes
    nothing. *)
Theorem ReplayDeadEvent_spec id reason now (c c' : conn DB) r :
  no_faults → ReplayDeadEvent id reason now c = (r, c') →
  match r with
  | Ok g => ∃ e, events (cn_db c) !! id = Some e ∧
      replayable_status (ev_status e) = true ∧ has_input e = true ∧
      g = ev_replay_generation e + 1 ∧
      others_same id (cn_db c) (cn_db c') ∧
      events (cn_db c') !! id = Some (replayed_row (unix_milli now) reason e) ∧
      ∀ i, event_actions (cn_db c') !! (id, i) =
        (λ a, if action_is "dead" a then ActionRow "pending" 0 (Some (unix_milli now)) None None None
              else a) <$> event_actions (cn_db c) !! (id, i)
  | Err err => cn_db c' = cn_db c ∧
      ((err = ErrEventNotRetryable ∧
        ∀ e, events (cn_db c) !! id = Some e → replayable_status (ev_status e) = false) ∨
       (err = ErrReplayUnavailable ∧ ∃ e, events (cn_db c) !! id = Some e ∧ has_input e = false))
  end.
Proof. intros Hn Hr. exact (wp_run _ _ _ _ _ (ReplayDeadEvent_run id reason now c Hn) Hr). Qed.

(** PurgeOlderThan deletes exactly the finished events older than
    the cutoff with their actions and logs, and the expired replay guards; no
    pending, processing or retrying event loses anything, whatever its age. *)
Theorem PurgeOlderThan_spec cutoff (c c' : conn DB) r :
  no_faults → PurgeOlderThan cutoff c = (r, c') →
  r = Ok (rows_affected (λ _ e, purgeable (unix_milli cutoff) e) (events (cn_db c))) ∧
  purged (unix_milli cutoff) (cn_db c) (cn_db c') ∧
  ∀ id e, events (cn_db c) !! id = Some e → live_status (ev_status e) = true →
    events (cn_db c') !! id = Some e ∧
    ∀ i, event_actions (cn_db c') !! (id, i) = event_actions (cn_db c) !! (id, i).
Proof.
  intros Hn Hr. pose proof (wp_run _ _ _ _ _ (PurgeOlderThan_run cutoff c Hn) Hr)
    as (now & -> & Hp & _).
  split; [done|]. split; [done|]. intros id e He Hl. destruct Hp as (H1 & H2 & _).
  pose proof (live_not_purgeable (unix_milli cutoff) _ Hl) as Hnp. split; [by apply H1|].
  intros i. apply option_eq. intros a. rewrite H2. unfold event_in. rewrite He. naive_solver.
Qed.

(** The start-up recovery takes back every event left in
    processing, and every waiting event with an action still marked running,
    releases the running actions of all live events with their attempt given
    back, and changes nothing else: afterwards no event is leased and no live
    event has a running action. *)
Theorem RequeueAllProcessing_spec (c c' : conn DB) r :
  no_faults → RequeueAllProcessing c = (r, c') →
  is_ok r = true ∧ recovered (cn_db c) (cn_db c') ∧
  (∀ id e, events (cn_db c') !! id = Some e → status_is "processing" e = false) ∧
  (∀ id e i a, events (cn_db c') !! id = Some e → live_status (ev_status e) = true →
     event_actions (cn_db c') !! (id, i) = Some a → action_is "running" a = false).
Proof.
  intros Hn Hr. destruct (wp_run _ _ _ _ _ (RequeueAllProcessing_run c Hn) Hr) as [Hok Hrec].
  split; [done|]. split; [done|]. by eapply recovered_settled.
Qed.

End Runs.

(** ** The properties on the concrete database *)

Section Witnesses.
#[local] Open Scope string_scope.
Import Demo.

Definition demo_calls : list store_call :=
  [CallClaim 0 (100 * Second) "w2"; CallPrepare "e1" "{}" 3 true (100 * Second);
   CallStart "e1" 1 (101 * Second); CallComplete "e1" 1 (102 * Second);
   CallRefresh "e1" (103 * Second); CallReplay "e2" "operator" (104 * Second);
   CallStatus "e3" "skipped" (105 * Second); CallPurge (150 * Second)].

Lemma store_invariant_witness : db_ok (cn_db (run_calls demo_calls c0)).
Proof. apply (store_invariant demo_calls c0); [repeat constructor|apply db0_ok]. Defined.


Definition claim0 := ClaimPending 0 (100 * Second) "w2" c0.

Lemma ClaimPending_spec_witness :
  claim_result 0 (100 * Second) "w2" db0 claim0.1 (cn_db claim0.2).
Proof.
  apply (ClaimPending_spec 0 (100 * Second) "w2" c0 claim0.2 claim0.1).
  - apply env_no_faults.
  - apply db0_ok.
  - apply surjective_pairing.
Defined.

Definition pending0 : PendingEvent := MkPendingEvent "e3" "api" "" "{}" "" "" (9 * Second) (9 * Second) "" "" 0.

Lemma lease_is_exclusive_witness :
  holds "e3" "w2" 220000 (cn_db (ClaimPending 0 (150 * Second) "w1"
    (run_calls [CallClaim 0 (120 * Second) "w3"; CallRequeueExpired (200 * Second)] claim0.2)).2).
Proof.
  refine (proj2 (lease_is_exclusive 0 (100 * Second) "w2" pending0 c0 claim0.2
    [CallClaim 0 (120 * Second) "w3"; CallRequeueExpired (200 * Second)] 0 (150 * Second) "w1" _ _
    _ _ _ (surjective_pairing _))).
  - vm_compute. reflexivity.
  - repeat constructor; vm_compute; done.
  - vm_compute. done.
Defined.

Lemma savePendingEvent_spec_witness :
  (savePendingEvent "e4" "github" "" "{}" (100 * Second) "d-1" "ef" "" "" None c0).1 =
  Err ErrDuplicateEvent.
Proof.
  pose proof (savePendingEvent_spec "e4" "github" "" "{}" (100 * Second) "d-1" "ef" "" "" None c0
    _ _ env_no_faults (surjective_pairing _)) as Hs.
  apply (f_equal fst) in Hs. cbn [fst] in Hs. rewrite Hs. vm_compute. reflexivity.
Defined.

Lemma RefreshEventStatus_spec_witness :
  (RefreshEventStatus "e2" (100 * Second) c0).1 = Ok "dead" ∧ verdict "e2" db0 "dead".
Proof.
  pose proof (RefreshEventStatus_spec "e2" (100 * Second) c0 _ (Ok "dead") env_no_faults
    db0_ok ltac:(vm_compute; reflexivity)) as (Hv & _).
  split; [by vm_compute|exact Hv].
Defined.

Lemma PrepareEvent_spec_witness :
  let c' := (PrepareEvent "e1" "{}" 3 true (100 * Second) c0).2 in
  prepared_actions "e1" 3 (unix_milli (100 * Second)) db0 (cn_db c').
Proof.
  intros c'.
  pose proof (PrepareEvent_spec "e1" "{}" 3 true (100 * Second) c0 c' (Ok tt) env_no_faults
    ltac:(vm_compute; reflexivity)) as (_ & _ & Hp).
  exact Hp.
Defined.

Lemma ReplayDeadEvent_spec_witness :
  let c' := (ReplayDeadEvent "e2" "operator" (100 * Second) c0).2 in
  event_actions (cn_db c') !! ("e2", 0%Z) = Some done_action ∧
  event_actions (cn_db c') !! ("e2", 1%Z) = Some (ActionRow "pending" 0 (Some 100000%Z) None None None).
Proof.
  intros c'.
  pose proof (ReplayDeadEvent_spec "e2" "operator" (100 * Second) c0 c' (Ok 1%Z) env_no_faults
    ltac:(vm_compute; reflexivity)) as (e & _ & _ & _ & _ & _ & _ & Ha).
  rewrite !Ha. split; vm_compute; reflexivity.
Defined.

Lemma PurgeOlderThan_spec_witness :
  let c' := (PurgeOlderThan (90 * Second) c0).2 in
  (PurgeOlderThan (90 * Second) c0).1 = Ok 1%Z ∧ events (cn_db c') !! "e2" = None ∧
  events (cn_db c') !! "e1" = Some leased_row.
Proof.
  intros c'.
  destruct (PurgeOlderThan_spec (90 * Second) c0 c' (PurgeOlderThan (90 * Second) c0).1
    env_no_faults (surjective_pairing _)) as (Hr & Hp & Hl).
  split; [rewrite Hr; vm_compute; reflexivity|]. split.
  - apply eq_None_not_Some. intros [e He]. apply Hp in He as [He Hn].
    assert (events (cn_db c0) !! "e2" = Some dead_event) as He' by (vm_compute; reflexivity).
    rewrite He' in He. injection He as <-. vm_compute in Hn. done.
  - apply Hl; done.
Defined.

Lemma RequeueAllProcessing_spec_witness :
  events (cn_db (RequeueAllProcessing c0).2) !! "e1" = Some (requeue_row leased_row).
Proof.
  destruct (RequeueAllProcessing_spec c0 _ _ env_no_faults (surjective_pairing _))
    as (_ & (Hev & _) & _).
  rewrite Hev. vm_compute. reflexivity.
Defined.

(** A clock that stands still: the guard does not expire. *)
#[local] Instance frozen : Env := calm (100 * Second) 0.

Lemma replay_guard_blocks_witness :
  let c1 := (SavePendingEventGuarded "e4" "github" "" "{}" (100 * Second) "" "ef" "" ""
    (400 * Second) c0).2 in
  wp (SavePendingEventGuarded "e5" "github" "" "{}" (300 * Second) "" "ef" "" "" (700 * Second))
    (λ r c', cn_db c' = cn_db (run_calls [CallPurge (90 * Second)] c1) ∧
       (r = Err ErrDuplicateBody ∨ r = Err SqlError)) (run_calls [CallPurge (90 * Second)] c1).
Proof.
  intros c1.
  apply (replay_guard_blocks "e4" "github" "" "{}" (100 * Second) "" "ef" "" "" (400 * Second) c0 c1
    [CallPurge (90 * Second)]).
  - done.
  - vm_compute. reflexivity.
  - intros n. cbn. rewrite Z.mul_0_r. vm_compute. done.
  - repeat constructor.
  - vm_compute. done.
Defined.

End Witnesses.
