(* ===== verification/Snapshots.v ===== *)
(** * Rewriting stored snapshots: [internal/store/snapshots.go]

    The startup migration that replaces credentials in the stored execution
    plans: a keyset pagination over [events] with batches bounded in rows and
    bytes. The callback is a function on strings that may fail. *)

From S2P Require Import Prelude Sql StoreSchema Store.

Definition snapshotRewriteBatchRows : nat := 128.
Definition snapshotRewriteBatchBytes : Z := 2 ^ 20.

(** How the migration ends when it does not return nil. *)
Inductive rewrite_err (E : Type) : Type :=
| StoreFailed (e : store_err)
| ContextDone
| RewriteFailed (id : string) (e : E).
Arguments StoreFailed {E} e.
Arguments ContextDone {E}.
Arguments RewriteFailed {E} id e.

(** actions_json IS NOT NULL AND actions_json != '' *)
Definition has_snapshot (e : event_row) : bool :=
  match ev_actions_json e with None => false | Some j => negb (bool_decide (j = ""%string)) end.

Definition snapshot_raw (e : event_row) : string := coalesce (ev_actions_json e) ""%string.

(** [id > ?] when there is a cursor; text compares bytewise. *)
Definition beyond (after : option string) (id : string) : bool :=
  match after with None => true | Some a => String.ltb a id end.

(** len(row.id) + len(row.raw) *)
Definition snapshot_size (row : string * string) : Z :=
  Z.of_nat (String.length row.1) + Z.of_nat (String.length row.2).

(** The loop over [rows.Next()]: [bytes] were taken so far, [started] when the
    batch is not empty. *)
Fixpoint take_batch (started : bool) (bytes : Z) (rs : list (string * string)) :
    list (string * string) :=
  match rs with
  | [] => []
  | row :: rs' =>
      let size := snapshot_size row in
      if started && (snapshotRewriteBatchBytes - bytes <? size) then []
      else
        let bytes' := bytes + size in
        row :: (if snapshotRewriteBatchBytes <=? bytes' then []
                else take_batch true bytes' rs')
  end.

Section Rewrite.
Context `{Env, SqlOrder} {E : Type} (rewrite : string → result E string).
#[local] Abbreviation SM := (M (conn DB) store_err).
#[local] Abbreviation W := (St (conn DB)).

(** SELECT id, actions_json FROM events WHERE ... ORDER BY id LIMIT 128 *)
Definition snapshot_rows (after : option string) (db : DB) : list (string * string) :=
  (λ r : string * event_row, (r.1, snapshot_raw r.2)) <$>
    order_by (λ x y, String.leb x.1 y.1)
      (rows (λ id e, has_snapshot e && beyond after id) (events db)).

Definition actionSnapshotBatch (after : option string) : SM (list (string * string)) :=
  query (λ db, take_batch false 0 (take snapshotRewriteBatchRows (snapshot_rows after db))).

(** ctx.Err() != nil *)
Definition ctx_done : W bool := λ c, (canceled (cn_tick c), Conn (cn_db c) (S (cn_tick c))).

(** UPDATE events SET actions_json = ? WHERE id = ? AND actions_json = ? *)
Definition swap_snapshot (id raw updated : string) : DB → Z * DB :=
  update_event id (λ e, bool_decide (ev_actions_json e = Some raw))
    (set_actions_json (Some updated)).

(** The loop over one batch: the rows changed so far, and the error if any. *)
Fixpoint rewrite_rows (changed : Z) (batch : list (string * string)) :
    W (Z * option (rewrite_err E)) :=
  match batch with
  | [] => mret (changed, None)
  | (id, raw) :: batch' =>
      stop ← ctx_done;
      if stop : bool then mret (changed, Some ContextDone) else
      match rewrite raw with
      | Err e => mret (changed, Some (RewriteFailed id e))
      | Ok updated =>
          if bool_decide (updated = raw) then rewrite_rows changed batch'
          else
            r ← (exec (swap_snapshot id raw updated) : W (result store_err Z));
            match r with
            | Err e => mret (changed, Some (StoreFailed e))
            | Ok n => rewrite_rows (changed + n) batch'
            end
      end
  end.

(** The outer loop; [None] when the fuel runs out. *)
Fixpoint rewrite_loop (fuel : nat) (changed : Z) (after : option string) :
    W (option (Z * option (rewrite_err E))) :=
  match fuel with
  | O => mret None
  | S fuel' =>
      r ← (actionSnapshotBatch after : W (result store_err (list (string * string))));
      match r with
      | Err e => mret (Some (changed, Some (StoreFailed e)))
      | Ok batch =>
          match last batch with
          | None => mret (Some (changed, None))
          | Some lst =>
              r ← rewrite_rows changed batch;
              match r.2 with
              | Some _ => mret (Some r)
              | None => rewrite_loop fuel' r.1 (Some lst.1)
              end
          end
      end
  end.

(** Each round but the last passes at least one event. *)
Definition RewriteActionSnapshots : W (option (Z * option (rewrite_err E))) := λ c,
  rewrite_loop (S (size (events (cn_db c)))) 0 None c.

End Rewrite.
