(* ===== verification/SnapshotProps.v ===== *)
(** * The snapshot migration terminates, is complete and resumable

    The pages of [RewriteActionSnapshots] visit the stored snapshots in the
    order of their ids; at every point a prefix of the ids is rewritten and the
    rest of the database is untouched. *)

From S2P Require Import Prelude Sql StoreSchema Store StoreLookup Snapshots.

Section Rewriting.
Context `{Env, SqlOrder} {E : Type} (rewrite : string → result E string).

(** The row after its snapshot went through the callback. *)
Definition rewritten (e : event_row) : event_row :=
  if has_snapshot e
  then match rewrite (snapshot_raw e) with
       | Ok u => set_actions_json (Some u) e
       | Err _ => e
       end
  else e.

Definition changes (e : event_row) : bool := negb (bool_decide (rewritten e = e)).

(** The ids the cursor has passed. *)
Definition passed (after : option string) (id : string) : bool := negb (beyond after id).

(** The database when the rows [p] of [db0] are rewritten, and their count. *)
Definition rewritten_db (p : string → bool) (db0 : DB) : DB :=
  set_events (update_where (λ id _, p id) rewritten (events db0)) db0.

Definition changed_rows (p : string → bool) (db0 : DB) : Z :=
  rows_affected (λ id e, p id && changes e) (events db0).

Definition accepted (p : string → bool) (db0 : DB) : Prop := ∀ id e,
  events db0 !! id = Some e → has_snapshot e = true → p id = true →
  is_ok (rewrite (snapshot_raw e)) = true.

Definition progress (after : option string) (db0 db : DB) (n : Z) : Prop :=
  db = rewritten_db (passed after) db0 ∧ n = changed_rows (passed after) db0 ∧
  accepted (passed after) db0.

(** ** The pages *)

(** [batch] lists the next stored snapshots beyond [after], in order. *)
Fixpoint next_rows (db0 : DB) (after : option string) (batch : list (string * string)) : Prop :=
  match batch with
  | [] => True
  | (id, raw) :: batch' =>
      (∃ e, events db0 !! id = Some e ∧ has_snapshot e = true ∧ raw = snapshot_raw e) ∧
      beyond after id = true ∧
      (∀ id' e', events db0 !! id' = Some e' → has_snapshot e' = true →
         beyond after id' = true → String.leb id id' = true) ∧
      next_rows db0 (Some id) batch'
  end.

Lemma beyond_trans after id id' :
  beyond after id = true → beyond (Some id) id' = true → beyond after id' = true.
Proof.
  destruct after as [a|]; [|done]. cbn. intros H1 H2.
  eapply str_ltb_leb_trans; [done|by apply str_ltb_weak].
Qed.

Lemma next_rows_prefix db0 after batch batch' :
  next_rows db0 after (batch ++ batch') → next_rows db0 after batch.
Proof.
  revert after. induction batch as [|[id raw] batch IH]; intros after; [done|].
  cbn. intros (? & ? & ? & ?). by eauto.
Qed.

Lemma sorted_next_rows db0 after (l : list (string * event_row)) :
  StronglySorted (λ x y, String.leb x.1 y.1 = true) l → NoDup l.*1 →
  (∀ id e, (id, e) ∈ l ↔
     events db0 !! id = Some e ∧ has_snapshot e = true ∧ beyond after id = true) →
  next_rows db0 after ((λ r : string * event_row, (r.1, snapshot_raw r.2)) <$> l).
Proof.
  intros Hs. revert after. induction Hs as [|[id e] l Hs IH Hall]; intros after Hnd Hl; [done|].
  apply NoDup_cons in Hnd as [Hni Hnd]. cbn [fst] in *.
  rewrite Forall_forall in Hall.
  destruct (proj1 (Hl id e) (list_elem_of_here _ _)) as (He & Hsn & Hb).
  split; [by eauto|]. split; [done|]. split.
  - intros id' e' He' Hsn' Hb'.
    assert ((id', e') ∈ (id, e) :: l) as [Heq|Hin]%elem_of_cons by (by apply Hl).
    + simplify_eq. apply str_leb_refl.
    + by apply (Hall (id', e')).
  - apply IH; [done|]. intros id' e'. split.
    + intros Hin. destruct (proj1 (Hl id' e') ltac:(by apply list_elem_of_further)) as (He' & Hsn' & _).
      split_and!; [done..|]. cbn. apply str_leb_ne_ltb; [by apply (Hall (id', e'))|].
      intros ->. apply Hni. by apply (list_elem_of_fmap_2 fst) in Hin.
    + intros (He' & Hsn' & Hb').
      assert ((id', e') ∈ (id, e) :: l) as [Heq|Hin]%elem_of_cons.
      { apply Hl. split_and!; [done..|]. by eapply beyond_trans. }
      * simplify_eq. cbn in Hb'. by rewrite str_ltb_leb, str_leb_refl in Hb'.
      * done.
Qed.

(** The rows a page query sees. *)
Definition pending_rows (after : option string) (db : DB) : gmap string event_row :=
  select (λ id e, has_snapshot e && beyond after id) (events db).

Lemma snapshot_rows_next after db : next_rows db after (snapshot_rows after db).
Proof.
  unfold snapshot_rows, rows.
  set (l := map_to_list _). set (le := λ x y : string * event_row, String.leb x.1 y.1).
  pose proof (order_by_perm le l) as Hp.
  apply sorted_next_rows.
  - apply order_by_sorted.
    + intros x y. apply String.leb_total.
    + intros x y z. apply str_leb_trans.
  - rewrite Hp. apply NoDup_fst_map_to_list.
  - intros id e. rewrite Hp. unfold l. rewrite elem_of_map_to_list, select_lookup_Some.
    by rewrite andb_true_iff.
Qed.

Lemma snapshot_rows_nil after db :
  snapshot_rows after db = [] → pending_rows after db = ∅.
Proof.
  unfold snapshot_rows, rows, pending_rows. intros Hl%fmap_nil_inv.
  set (m := select _ _) in *. apply map_to_list_empty_iff.
  apply Permutation_nil. by rewrite <- Hl, order_by_perm.
Qed.

Lemma take_batch_prefix started bytes rs : ∃ rs', rs = take_batch started bytes rs ++ rs'.
Proof.
  revert started bytes. induction rs as [|row rs IH]; intros started bytes; [by exists []|].
  cbn [take_batch]. destruct (_ && _); [by eexists (_ :: _)|].
  destruct (_ <=? _); [by exists rs|].
  destruct (IH true (bytes + snapshot_size row)) as [rs' E']. exists rs'. cbn. by f_equal.
Qed.

Lemma take_batch_nonempty rs : take_batch false 0 rs = [] → rs = [].
Proof. by destruct rs. Qed.

Lemma page_prefix after db :
  ∃ rest, snapshot_rows after db =
    take_batch false 0 (take snapshotRewriteBatchRows (snapshot_rows after db)) ++ rest.
Proof.
  destruct (take_batch_prefix false 0 (take snapshotRewriteBatchRows (snapshot_rows after db)))
    as [r1 E1].
  exists (r1 ++ list.drop snapshotRewriteBatchRows (snapshot_rows after db)).
  rewrite app_assoc, <- E1. by rewrite take_drop.
Qed.

(** ** Progress of the cursor *)

Lemma rewritten_lookup p db0 id :
  events (rewritten_db p db0) !! id =
    (λ e, if p id then rewritten e else e) <$> events db0 !! id.
Proof. unfold rewritten_db. cbn. apply update_where_lookup. Qed.

Lemma rewritten_none e : has_snapshot e = false → rewritten e = e.
Proof. unfold rewritten. by intros ->. Qed.

Lemma changes_none e : has_snapshot e = false → changes e = false.
Proof. intros Hn. unfold changes. by rewrite rewritten_none, bool_decide_true. Qed.

(** The cursor moves from [after] to the next stored snapshot [id]. *)
Lemma passed_next db0 after id raw batch id' e' :
  next_rows db0 after ((id, raw) :: batch) →
  events db0 !! id' = Some e' → has_snapshot e' = true →
  passed (Some id) id' = passed after id' || bool_decide (id' = id).
Proof.
  intros (_ & Hb & Hmin & _) He' Hsn'. unfold passed. cbn [beyond].
  case_bool_decide as Hid.
  - subst. by rewrite str_ltb_leb, str_leb_refl, orb_true_r.
  - rewrite orb_false_r. f_equal. destruct (beyond after id') eqn:Hb'.
    + specialize (Hmin _ _ He' Hsn' Hb'). apply str_leb_ne_ltb; [done|congruence].
    + apply not_true_iff_false. intros Hlt. rewrite (beyond_trans after id id') in Hb'; done.
Qed.

Lemma rewritten_next db0 after id raw batch e :
  next_rows db0 after ((id, raw) :: batch) → events db0 !! id = Some e →
  rewritten_db (passed (Some id)) db0 =
    set_events (<[id := rewritten e]> (events (rewritten_db (passed after) db0))) db0.
Proof.
  intros Hn He. unfold rewritten_db. f_equal. cbn [events set_events]. apply map_eq. intros id'.
  rewrite update_where_lookup. destruct (decide (id' = id)) as [->|Hid].
  - rewrite lookup_insert_eq, He. cbn. unfold passed. cbn.
    by rewrite str_ltb_leb, str_leb_refl.
  - rewrite lookup_insert_ne by done. rewrite update_where_lookup.
    destruct (events db0 !! id') as [e'|] eqn:He'; cbn; [|done]. f_equal.
    destruct (has_snapshot e') eqn:Hsn'.
    + rewrite (passed_next _ _ _ _ _ _ _ Hn He' Hsn').
      by rewrite bool_decide_false, orb_false_r by done.
    + rewrite rewritten_none by done. by destruct (passed _ _), (passed _ _).
Qed.

Lemma changed_next db0 after id raw batch e :
  next_rows db0 after ((id, raw) :: batch) → events db0 !! id = Some e →
  changed_rows (passed (Some id)) db0 =
    changed_rows (passed after) db0 + (if changes e then 1 else 0).
Proof.
  intros Hn He. unfold changed_rows.
  assert (rows_affected (λ id' e', bool_decide (id' = id) && changes e') (events db0) =
          (if changes e then 1 else 0)) as <-.
  { by rewrite (rows_affected_key id (λ _ e', changes e') (events db0)), He. }
  rewrite rows_affected_or.
  - apply rows_affected_ext. intros id' e' He'. destruct (changes e') eqn:Hc.
    + assert (has_snapshot e' = true) as Hsn'.
      { apply not_false_iff_true. intros Hf. by rewrite changes_none in Hc. }
      rewrite (passed_next _ _ _ _ _ _ _ Hn He' Hsn'). by rewrite !andb_true_r.
    + by rewrite !andb_false_r.
  - intros id' e' Hp Hq. bool_simpl. subst. destruct Hn as (_ & Hb & _).
    unfold passed in *. rewrite Hb in *. done.
Qed.

Lemma accepted_next db0 after id raw batch e :
  next_rows db0 after ((id, raw) :: batch) → events db0 !! id = Some e →
  accepted (passed after) db0 → is_ok (rewrite (snapshot_raw e)) = true →
  accepted (passed (Some id)) db0.
Proof.
  intros Hn He Hacc Hok id' e' He' Hsn' Hp.
  rewrite (passed_next _ _ _ _ _ _ _ Hn He' Hsn') in Hp. bool_simpl.
  destruct Hp as [Hp|Hid]; [by eapply Hacc|]. bool_simpl. by simplify_eq.
Qed.

(** ** The loops *)

Lemma rewritten_id e u :
  has_snapshot e = true → rewrite (snapshot_raw e) = Ok u → u = snapshot_raw e → rewritten e = e.
Proof.
  intros Hsn Hu ->. unfold rewritten. rewrite Hsn, Hu. unfold has_snapshot, snapshot_raw in *.
  destruct e as [? ? ? ? ? ? ? ? ? ? ? j]. cbn in *. destruct j; [done|discriminate].
Qed.

Lemma rewritten_changes e u :
  has_snapshot e = true → rewrite (snapshot_raw e) = Ok u → u ≠ snapshot_raw e →
  rewritten e = set_actions_json (Some u) e ∧ changes e = true.
Proof.
  intros Hsn Hu Hne. assert (rewritten e = set_actions_json (Some u) e) as Er.
  { unfold rewritten. by rewrite Hsn, Hu. }
  split; [done|]. unfold changes. rewrite Er, negb_true_iff. apply bool_decide_false.
  intros He. apply Hne. unfold snapshot_raw. rewrite <- He. done.
Qed.

(** The UPDATE of a row that is still as it was read. *)
Lemma swap_snapshot_current db0 after id raw batch e u :
  next_rows db0 after ((id, raw) :: batch) → events db0 !! id = Some e →
  has_snapshot e = true → raw = snapshot_raw e → rewrite raw = Ok u → u ≠ raw →
  swap_snapshot id raw u (rewritten_db (passed after) db0) =
    (1, rewritten_db (passed (Some id)) db0).
Proof.
  intros Hn He Hsn -> Hu Hne. rewrite (rewritten_next _ _ _ _ _ _ Hn He).
  destruct (rewritten_changes e u Hsn Hu Hne) as [-> _].
  assert (events (rewritten_db (passed after) db0) !! id = Some e) as Hl.
  { rewrite rewritten_lookup, He. cbn. destruct Hn as (_ & Hb & _).
    unfold passed. by rewrite Hb. }
  assert (ev_actions_json e = Some (snapshot_raw e)) as Hj.
  { unfold has_snapshot, snapshot_raw in *. by destruct (ev_actions_json e). }
  unfold swap_snapshot, update_event. f_equal.
  - etrans; [apply (rows_affected_key id
      (λ _ row, bool_decide (ev_actions_json row = Some (snapshot_raw e))))|].
    cbn [events set_events]. fold (rewritten_db (passed after) db0).
    rewrite Hl, Hj. by rewrite bool_decide_true.
  - match goal with |- set_events ?t _ = _ => change (set_events t db0 = set_events
      (<[id := set_actions_json (Some u) e]> (events (rewritten_db (passed after) db0))) db0) end.
    f_equal. apply map_eq. intros id'. rewrite update_where_lookup.
    destruct (decide (id' = id)) as [->|Hid].
    + rewrite lookup_insert_eq, Hl. cbn. by rewrite !bool_decide_true.
    + rewrite lookup_insert_ne by done. rewrite bool_decide_false by done. cbn.
      apply option_fmap_id.
Qed.

(** What an error of the migration says about the data. *)
Definition blames (db0 : DB) (err : rewrite_err E) : Prop :=
  match err with
  | RewriteFailed id e => ∃ row, events db0 !! id = Some row ∧ has_snapshot row = true ∧
      rewrite (snapshot_raw row) = Err e
  | StoreFailed e => e = SqlError
  | ContextDone => True
  end.

Definition cursor_after (after : option string) (batch : list (string * string)) : option string :=
  match last batch with Some lst => Some lst.1 | None => after end.

Lemma cursor_after_cons after id raw batch :
  cursor_after after ((id, raw) :: batch) = cursor_after (Some id) batch.
Proof. unfold cursor_after. rewrite last_cons. by destruct (last batch). Qed.

Lemma rewrite_rows_run db0 after n batch c :
  progress after db0 (cn_db c) n → next_rows db0 after batch →
  wp (rewrite_rows rewrite n batch) (λ r c', match r.2 with
    | None => progress (cursor_after after batch) db0 (cn_db c') r.1
    | Some err => (∃ after', progress after' db0 (cn_db c') r.1) ∧ blames db0 err
    end) c.
Proof.
  revert after n c. induction batch as [|[id raw] batch IH]; intros after n c Hp Hn; [done|].
  cbn [rewrite_rows]. rewrite cursor_after_cons.
  pose proof Hn as ((e & He & Hsn & Hraw) & _ & _ & Hn').
  destruct Hp as (Hdb & Hcount & Hacc).
  apply wp_bind_St. unfold wp at 1, ctx_done. cbn [fst snd].
  destruct (canceled _).
  { apply wp_ret_St. cbn. split; [|done]. by exists after. }
  destruct (rewrite raw) as [u|err] eqn:Hu.
  2:{ apply wp_ret_St. cbn. split; [by exists after|]. exists e. by rewrite <- Hraw. }
  assert (accepted (passed (Some id)) db0) as Hacc'.
  { eapply accepted_next; [done..|]. by rewrite <- Hraw, Hu. }
  case_bool_decide as Hsame.
  - assert (rewritten e = e) as Hid by (eapply rewritten_id; [done|by rewrite <- Hraw|congruence]).
    apply IH; [|done]. cbn. split_and!; [|by rewrite (changed_next _ _ _ _ _ _ Hn He); unfold changes; rewrite Hid, bool_decide_true, Z.add_0_r|done].
    rewrite Hdb, (rewritten_next _ _ _ _ _ _ Hn He), Hid.
    destruct Hn as (_ & Hb & _). rewrite insert_id; [done|].
    rewrite rewritten_lookup, He. cbn. unfold passed. by rewrite Hb.
  - apply wp_bind_St, wp_exec; intros t; cbn [cn_db].
    + rewrite Hdb, (swap_snapshot_current _ _ _ _ _ _ _ Hn He Hsn Hraw Hu Hsame).
      cbn [fst snd]. apply IH; [|done]. cbn. split_and!; [done| |done].
      rewrite (changed_next _ _ _ _ _ _ Hn He), Hcount.
      destruct (rewritten_changes e u Hsn) as [_ ->]; [by rewrite <- Hraw|congruence|done].
    + apply wp_ret_St. cbn. split; [by exists after|done].
Qed.

Lemma progress_rows after db0 db n :
  progress after db0 db n → snapshot_rows after db = snapshot_rows after db0.
Proof.
  intros (-> & _). unfold snapshot_rows, rows. do 3 f_equal.
  apply map_eq. intros id. apply option_eq. intros e.
  rewrite !select_lookup_Some, rewritten_lookup, !andb_true_iff, fmap_Some. unfold passed.
  split.
  - intros [(e0 & He0 & ->) [Hsn Hb]]. by rewrite Hb in *.
  - intros [He [Hsn Hb]]. split; [|done]. exists e. by rewrite Hb.
Qed.

Lemma progress_start db0 : progress None db0 db0 0.
Proof.
  assert (rewritten_db (passed None) db0 = db0) as E0.
  { unfold rewritten_db. rewrite update_where_none by done. by destruct db0. }
  split_and!; [done| |intros ????; done].
  symmetry. unfold changed_rows. apply Z.eqb_eq. by apply rows_affected_zero.
Qed.

(** A page that is not empty moves the cursor past one of the rows left. *)
Lemma pending_rows_decrease db0 after id raw batch :
  next_rows db0 after ((id, raw) :: batch) →
  (size (pending_rows (cursor_after after ((id, raw) :: batch)) db0)
     < size (pending_rows after db0))%nat.
Proof.
  intros Hn. rewrite cursor_after_cons.
  assert (∀ batch cur, next_rows db0 (Some cur) batch → String.leb id cur = true →
    ∃ a, cursor_after (Some cur) batch = Some a ∧ String.leb id a = true) as Hcur.
  { clear. induction batch as [|[id' raw'] batch IH]; intros cur Hn Hle; [by exists cur|].
    rewrite cursor_after_cons. destruct Hn as (_ & Hb & _ & Hn). apply IH; [done|].
    eapply str_leb_trans; [done|by apply str_ltb_weak]. }
  pose proof Hn as ((e & He & Hsn & _) & Hb & _ & Hn').
  destruct (Hcur batch id Hn' (str_leb_refl id)) as (a & -> & Ha).
  apply map_subset_size. split.
  - apply map_subseteq_spec. intros id' e'. unfold pending_rows. rewrite !select_lookup_Some.
    intros [He' Hc]. split; [done|]. bool_simpl. rewrite H1. cbn.
    eapply beyond_trans; [done|]. cbn in *. rewrite str_ltb_leb, negb_true_iff in *.
    apply not_true_iff_false. intros Hle. apply not_true_iff_false in H2. apply H2.
    by eapply str_leb_trans.
  - intros Hsub.
    assert (pending_rows after db0 !! id = Some e) as Hin.
    { apply select_lookup_Some. by rewrite Hsn, Hb. }
    apply (lookup_weaken _ _ _ _ Hin), select_lookup_Some in Hsub as [_ Hf]. bool_simpl. cbn in H2.
    by rewrite str_ltb_leb, Ha in H2.
Qed.

Definition all_snapshots (p : string → bool) (db0 : DB) : Prop := ∀ id e,
  events db0 !! id = Some e → has_snapshot e = true → p id = true.

(** What the migration may leave behind. *)
Definition rewrite_end (db0 : DB) (r : option (Z * option (rewrite_err E))) (db : DB) : Prop :=
  match r with
  | None => False
  | Some (n, o) => ∃ p, db = rewritten_db p db0 ∧ n = changed_rows p db0 ∧ accepted p db0 ∧
      match o with
      | None => all_snapshots p db0
      | Some err => blames db0 err
      end
  end.

Lemma rewrite_loop_run db0 fuel n after c :
  (size (pending_rows after db0) < fuel)%nat → progress after db0 (cn_db c) n →
  wp (rewrite_loop rewrite fuel n after) (λ r c', rewrite_end db0 r (cn_db c')) c.
Proof.
  revert n after c. induction fuel as [|fuel IH]; intros n after c Hf Hp; [lia|].
  cbn [rewrite_loop]. apply wp_bind_St, wp_query; intros t; cbn [cn_db].
  2:{ apply wp_ret_St. destruct Hp as (? & ? & ?). cbn. eauto 6. }
  rewrite (progress_rows _ _ _ _ Hp).
  destruct (page_prefix after db0) as [rest Hpage].
  pose proof (snapshot_rows_next after db0) as Hn. rewrite Hpage in Hn.
  apply next_rows_prefix in Hn.
  set (page := take_batch _ _ _) in *.
  destruct page as [|[id raw] page'] eqn:Epage.
  - apply wp_ret_St. destruct Hp as (Hdb & Hc & Hacc). exists (passed after).
    split_and!; [done..|]. intros id e He Hsn.
    assert (snapshot_rows after db0 = []) as Hnil%snapshot_rows_nil.
    { apply take_batch_nonempty in Epage. by destruct (snapshot_rows after db0). }
    apply not_false_iff_true. unfold passed. rewrite negb_false_iff. intros Hb.
    assert (pending_rows after db0 !! id = Some e) as Hin.
    { apply select_lookup_Some. by rewrite Hsn, Hb. }
    by rewrite Hnil, lookup_empty in Hin.
  - destruct (last ((id, raw) :: page')) as [lst|] eqn:Hlast; [|by apply last_None in Hlast].
    assert (cursor_after after ((id, raw) :: page') = Some lst.1) as Hcur.
    { unfold cursor_after. by rewrite Hlast. }
    apply wp_bind_St. eapply wp_mono; [by apply (rewrite_rows_run db0 after)|].
    intros [n' [err|]] c' Hr; cbn [fst snd] in Hr; cbn beta iota.
    + apply wp_ret_St. destruct Hr as [(after' & Hd & Hcn & Ha) Hbl]. cbn. eauto 6.
    + rewrite Hcur in Hr. apply IH; [|done].
      pose proof (pending_rows_decrease _ _ _ _ _ Hn) as Hdec. rewrite Hcur in Hdec. lia.
Qed.

Lemma RewriteActionSnapshots_run c :
  wp (RewriteActionSnapshots rewrite) (λ r c', rewrite_end (cn_db c) r (cn_db c')) c.
Proof.
  apply (rewrite_loop_run (cn_db c)); [|apply progress_start].
  apply Nat.lt_succ_r, map_subseteq_size. apply map_subseteq_spec.
  intros id e. unfold pending_rows. rewrite select_lookup_Some. by intros [].
Qed.

(** ** The properties *)

(** C21: the migration always ends, whatever the driver and the context do:
    the stored snapshots it rewrote are exactly those of the rows it reports,
    every other column, row and table is as before, and without an error every
    stored snapshot went through the callback; a callback error names a row
    whose snapshot the callback refuses. *)
Theorem RewriteActionSnapshots_spec (c c' : conn DB) r :
  RewriteActionSnapshots rewrite c = (r, c') → rewrite_end (cn_db c) r (cn_db c').
Proof. intros Hr. exact (wp_run _ _ _ _ _ (RewriteActionSnapshots_run c) Hr). Qed.

Lemma rewritten_twice e :
  (∀ raw u, rewrite raw = Ok u → rewrite u = Ok u) → rewritten (rewritten e) = rewritten e.
Proof.
  intros Hst. unfold rewritten at 2. destruct (has_snapshot e) eqn:Hsn.
  - destruct (rewrite (snapshot_raw e)) as [u|] eqn:Hu.
    + unfold rewritten at 2. rewrite Hsn, Hu. unfold rewritten.
      destruct (has_snapshot (set_actions_json _ _)); [|done].
      change (snapshot_raw (set_actions_json (Some u) e)) with u. by rewrite (Hst _ _ Hu).
    + done.
  - done.
Qed.

(** An interrupted migration is resumed by running it again: whatever the
    first run did before its error, a second run without an error leaves the
    database of a single complete one, when the callback leaves its own output
    alone. *)
Theorem RewriteActionSnapshots_resumes (c c1 c2 : conn DB) r1 n2 :
  (∀ raw u, rewrite raw = Ok u → rewrite u = Ok u) →
  RewriteActionSnapshots rewrite c = (r1, c1) →
  RewriteActionSnapshots rewrite c1 = (Some (n2, None), c2) →
  cn_db c2 = rewritten_db (λ _, true) (cn_db c).
Proof.
  intros Hst H1 H2. apply (wp_run _ _ _ _ _ (RewriteActionSnapshots_run c)) in H1.
  apply (wp_run _ _ _ _ _ (RewriteActionSnapshots_run c1)) in H2.
  destruct r1 as [[n1 o1]|]; [|done]. destruct H1 as (p1 & Hdb1 & _).
  destruct H2 as (p2 & -> & _ & _ & Hall).
  assert (∀ id e, events (cn_db c) !! id = Some e →
    (if p2 id then rewritten (if p1 id then rewritten e else e)
     else if p1 id then rewritten e else e) = rewritten e) as Hrow.
  { intros id e He. destruct (p1 id) eqn:Hp1, (p2 id) eqn:Hp2; try done.
    - by apply rewritten_twice.
    - assert (has_snapshot e = false) as Hsn; [|by rewrite rewritten_none].
      apply not_true_iff_false. intros Hsn. rewrite (Hall id e) in Hp2; [done| |done].
      rewrite Hdb1, rewritten_lookup, He. cbn. by rewrite Hp1. }
  rewrite Hdb1. unfold rewritten_db. cbn. unfold set_events. cbn. f_equal.
  apply map_eq. intros id. rewrite !update_where_lookup.
  destruct (events (cn_db c) !! id) as [e|] eqn:He; cbn; [|done]. f_equal. by apply Hrow.
Qed.

End Rewriting.

(** ** A concrete run: the driver fails at the second update *)

Module Demo.
#[local] Open Scope string_scope.

Program Definition flaky : Env := {|
  fault n := Nat.eqb n 4;
  clock n := 0%Z;
  canceled _ := false;
  rand_int64n _ _ := 0%Z;
|}.
Next Obligation. intros; simpl; lia. Qed.
#[export] Existing Instance flaky.

Definition scrub (raw : string) : result string string :=
  if bool_decide (raw = "token=hunter2") then Ok "token=${secret:T}" else Ok raw.

Definition row (actions : string) : event_row :=
  new_event_row "github" "10.0.0.1" "{}" (5 * Second) "" "" "" actions.

Definition c0 : conn DB := Conn (set_events
  {["e1" := row "token=hunter2"; "e2" := row ""; "e3" := row "token=hunter2"]} empty_db) 0.

Definition c1 : conn DB := (RewriteActionSnapshots scrub c0).2.

Lemma scrub_stable raw u : scrub raw = Ok u → scrub u = Ok u.
Proof. unfold scrub. case_bool_decide; intros; simplify_eq; by repeat case_bool_decide. Qed.

End Demo.
#[local] Existing Instance Demo.flaky.

Lemma RewriteActionSnapshots_resumes_witness :
  (RewriteActionSnapshots Demo.scrub Demo.c0).1 = Some (1, Some (StoreFailed SqlError)) ∧
  cn_db (RewriteActionSnapshots Demo.scrub Demo.c1).2 =
    rewritten_db Demo.scrub (λ _, true) (cn_db Demo.c0).
Proof.
  split; [vm_compute; reflexivity|].
  apply (RewriteActionSnapshots_resumes Demo.scrub Demo.c0 Demo.c1 _
    (Some (1, Some (StoreFailed SqlError))) 1 Demo.scrub_stable); vm_compute; reflexivity.
Defined.

Lemma RewriteActionSnapshots_spec_witness :
  rewrite_end Demo.scrub (cn_db Demo.c0) (Some (1, Some (StoreFailed SqlError))) (cn_db Demo.c1).
Proof. apply (RewriteActionSnapshots_spec Demo.scrub Demo.c0). vm_compute. reflexivity. Defined.
