(* ===== verification/GoLib.v ===== *)
(** * What the program uses of Go's library

    Strings are byte strings. The functions of [strings] and [strconv] the
    program calls are defined here; [regexp], [encoding/json] and [net/url]
    are interfaces with the laws the program relies on. *)

From Stdlib Require Import Ascii.
From stdpp Require Import pretty.
From S2P Require Import Prelude.

#[local] Open Scope string_scope.

(** The order in which Go ranges over a map may differ on every loop: loop [k]
    of the run at a tick. *)
Class MapOrder : Type := {
  range : nat → nat → gmap string string → list (string * string);
  range_perm : ∀ tick k m, range tick k m ≡ₚ map_to_list m;
}.

(** ** strings *)

Fixpoint has_prefix (s p : string) : bool :=
  match p, s with
  | "", _ => true
  | String a p', String b s' => Ascii.eqb a b && has_prefix s' p'
  | _, "" => false
  end.

Fixpoint drop (n : nat) (s : string) : string :=
  match n, s with
  | S n', String _ s' => drop n' s'
  | _, _ => s
  end.

(** strings.TrimPrefix *)
Definition TrimPrefix (s p : string) : string :=
  if has_prefix s p then drop (String.length p) s else s.

Definition bytes (l : list nat) : string :=
  foldr (λ n s, String (Ascii.ascii_of_nat n) s) "" l.

(** The UTF-8 encodings of the runes of [unicode.IsSpace]. *)
Definition space_runes : list string :=
  bytes <$> [[9]; [10]; [11]; [12]; [13]; [32]; [194; 133]; [194; 160]; [225; 154; 128];
    [226; 128; 128]; [226; 128; 129]; [226; 128; 130]; [226; 128; 131]; [226; 128; 132];
    [226; 128; 133]; [226; 128; 134]; [226; 128; 135]; [226; 128; 136]; [226; 128; 137];
    [226; 128; 138]; [226; 128; 168]; [226; 128; 169]; [226; 128; 175]; [226; 129; 159];
    [227; 128; 128]]%nat.

Fixpoint str_rev (s acc : string) : string :=
  match s with "" => acc | String a s' => str_rev s' (String a acc) end.

(** Drop the prefixes of [s] that belong to [runes]; every step drops at least
    one byte, so the length of [s] is enough fuel. *)
Fixpoint trim_left (runes : list string) (fuel : nat) (s : string) : string :=
  match fuel with
  | O => s
  | S fuel' =>
      match List.find (has_prefix s) runes with
      | Some r => trim_left runes fuel' (drop (String.length r) s)
      | None => s
      end
  end.

(** strings.TrimSpace *)
Definition TrimSpace (s : string) : string :=
  let l := trim_left space_runes (String.length s) s in
  let r := trim_left ((λ r, str_rev r "") <$> space_runes) (String.length l) (str_rev l "") in
  str_rev r "".

(** strings.Join *)
Definition Join (l : list string) (sep : string) : string := String.concat sep l.

(** A set of ASCII letters; the [range] of a Go string visits runes, and every
    rune that is not ASCII starts with a byte above 127. *)
Fixpoint all_bytes (p : nat → bool) (s : string) : bool :=
  match s with "" => true | String a s' => p (Ascii.nat_of_ascii a) && all_bytes p s' end.

Definition in_range (lo hi n : nat) : bool := Nat.leb lo n && Nat.leb n hi.

(** strings.ToLower, as far as ASCII letters can tell: the letters A to Z and
    the two other runes whose lower case is ASCII, U+0130 and U+212A. *)
Fixpoint ToLower (s : string) : string :=
  match s with
  | "" => ""
  | String a s1 =>
      let n := Ascii.nat_of_ascii a in
      if in_range 65 90 n then String (Ascii.ascii_of_nat (n + 32)) (ToLower s1)
      else match s1 with
           | String b s2 =>
               let m := Ascii.nat_of_ascii b in
               if Nat.eqb n 196 && Nat.eqb m 176 then String (Ascii.ascii_of_nat 105) (ToLower s2)
               else match s2 with
                    | String c s3 =>
                        if Nat.eqb n 226 && Nat.eqb m 132 && Nat.eqb (Ascii.nat_of_ascii c) 170
                        then String (Ascii.ascii_of_nat 107) (ToLower s3)
                        else String a (ToLower s1)
                    | "" => String a (ToLower s1)
                    end
           | "" => String a (ToLower s1)
           end
  end.

(** strings.ToUpper likewise: a to z, and U+0131 and U+017F. *)
Fixpoint ToUpper (s : string) : string :=
  match s with
  | "" => ""
  | String a s1 =>
      let n := Ascii.nat_of_ascii a in
      if in_range 97 122 n then String (Ascii.ascii_of_nat (n - 32)) (ToUpper s1)
      else match s1 with
           | String b s2 =>
               let m := Ascii.nat_of_ascii b in
               if Nat.eqb n 196 && Nat.eqb m 177 then String (Ascii.ascii_of_nat 73) (ToUpper s2)
               else if Nat.eqb n 197 && Nat.eqb m 191 then String (Ascii.ascii_of_nat 83) (ToUpper s2)
               else String a (ToUpper s1)
           | "" => String a (ToUpper s1)
           end
  end.

(** ASCII case: the letters A to Z become a to z. *)
Definition lower_byte (a : ascii) : ascii :=
  if in_range 65 90 (Ascii.nat_of_ascii a)
  then Ascii.ascii_of_nat (Ascii.nat_of_ascii a + 32) else a.
Definition upper_byte (a : ascii) : ascii :=
  if in_range 97 122 (Ascii.nat_of_ascii a)
  then Ascii.ascii_of_nat (Ascii.nat_of_ascii a - 32) else a.

(** The simple case folding as far as ASCII letters can tell: A to Z, and the
    two other runes that fold to an ASCII letter, U+017F and U+212A. *)
Fixpoint fold_case (s : string) : string :=
  match s with
  | "" => ""
  | String a s1 =>
      let n := Ascii.nat_of_ascii a in
      match s1 with
      | "" => String (lower_byte a) ""
      | String b s2 =>
          let m := Ascii.nat_of_ascii b in
          if Nat.eqb n 197 && Nat.eqb m 191 then String (Ascii.ascii_of_nat 115) (fold_case s2)
          else match s2 with
               | String c s3 =>
                   if Nat.eqb n 226 && Nat.eqb m 132 && Nat.eqb (Ascii.nat_of_ascii c) 170
                   then String (Ascii.ascii_of_nat 107) (fold_case s3)
                   else String (lower_byte a) (fold_case s1)
               | "" => String (lower_byte a) (fold_case s1)
               end
      end
  end.

(** strings.EqualFold *)
Definition EqualFold (s t : string) : bool := bool_decide (fold_case s = fold_case t).

(** strings.HasSuffix *)
Definition HasSuffix (s suffix : string) : bool := has_prefix (str_rev s "") (str_rev suffix "").

(** strings.TrimSuffix *)
Definition TrimSuffix (s suffix : string) : string :=
  if HasSuffix s suffix then str_rev (drop (String.length suffix) (str_rev s "")) "" else s.

(** strings.TrimRight with one character *)
Fixpoint drop_while (c : ascii) (s : string) : string :=
  match s with String a s' => if Ascii.eqb a c then drop_while c s' else s | "" => "" end.
Definition TrimRight (s : string) (c : ascii) : string := str_rev (drop_while c (str_rev s "")) "".

(** strings.Contains *)
Fixpoint contains (s p : string) : bool :=
  has_prefix s p || match s with "" => false | String _ s' => contains s' p end.

(** strings.Split with a separator of one byte *)
Fixpoint Split (s : string) (sep : ascii) : list string :=
  match s with
  | "" => [""]
  | String a s' =>
      if Ascii.eqb a sep then "" :: Split s' sep
      else match Split s' sep with
           | [] => [String a ""]
           | x :: l => String a x :: l
           end
  end.

(** strings.Fields: the maximal parts without white space. [cur] is the part
    being read, reversed; a step drops at least one byte. *)
Definition end_field (cur : string) : list string :=
  if bool_decide (cur = "") then [] else [str_rev cur ""].

Fixpoint fields (fuel : nat) (cur s : string) : list string :=
  match fuel, s with
  | O, _ | _, "" => end_field cur
  | S fuel', String a s' =>
      match List.find (has_prefix s) space_runes with
      | Some r => end_field cur ++ fields fuel' "" (drop (String.length r) s)
      | None => fields fuel' (String a cur) s'
      end
  end.

Definition Fields (s : string) : list string := fields (String.length s) "" s.

(** ** strconv *)

(** strconv.Itoa, strconv.FormatUint and the verb [%d] *)
Definition Itoa (z : Z) : string := pretty z.

Definition digit (n : nat) : bool := in_range 48 57 n.

(** The digits of [s] as a number; [None] at the first other byte. *)
Fixpoint parse_digits (s : string) (acc : Z) : option Z :=
  match s with
  | "" => Some acc
  | String a s' =>
      let n := Ascii.nat_of_ascii a in
      if digit n then parse_digits s' (acc * 10 + (Z.of_nat n - 48)) else None
  end.

(** strconv.ParseInt(s, 10, 64): an optional sign and digits, within int64. *)
Definition ParseInt (s : string) : option Z :=
  let '(neg, ds) := match s with
    | String "-"%char t => (true, t)
    | String "+"%char t => (false, t)
    | _ => (false, s)
    end in
  if bool_decide (ds = "") then None else
  v ← parse_digits ds 0;
  let v := (if neg : bool then - v else v)%Z in
  if ((- 2^63 <=? v) && (v <? 2^63))%Z then Some v else None.

(** ** regexp *)

(** Compiled expressions and the methods the program calls on them. *)
Class Regexp : Type := {
  regexp : Type;
  Compile : string → option regexp;
  MatchString : regexp → string → bool;
  ReplaceAllString : regexp → string → string → string;
  ReplaceAllStringFunc : regexp → string → (string → string) → string;
  MustCompile : string → regexp;
  MustCompile_Compile : ∀ p r, Compile p = Some r → MustCompile p = r;
}.

(** ** net/url *)

(** url.PathUnescape: a percent sign stands with two hexadecimal digits. *)
Definition unhex (a : ascii) : option nat :=
  let n := Ascii.nat_of_ascii a in
  if in_range 48 57 n then Some (n - 48)%nat else if in_range 97 102 n then Some (n - 87)%nat
  else if in_range 65 70 n then Some (n - 55)%nat else None.

Fixpoint PathUnescape (s : string) : option string :=
  match s with
  | "" => Some ""
  | String a s1 =>
      if Ascii.eqb a "%" then
        match s1 with
        | String h1 (String h2 s3) =>
            n1 ← unhex h1; n2 ← unhex h2; t ← PathUnescape s3;
            Some (String (Ascii.ascii_of_nat (n1 * 16 + n2)) t)
        | _ => None
        end
      else t ← PathUnescape s1; Some (String a t)
  end.

(** Parsed URLs: the fields and methods the program reads, and the ones it
    sets. [u_has_user] is [u.User != nil], [set_raw_path] sets RawPath and
    Path. *)
Class Url : Type := {
  url : Type;
  ParseURL : string → option url;
  u_scheme : url → string;
  u_host : url → string;
  u_path : url → string;
  u_raw_query : url → string;
  u_fragment : url → string;
  u_opaque : url → string;
  u_has_user : url → bool;
  Hostname : url → string;
  Port : url → string;
  EscapedPath : url → string;
  Query : url → gmap string (list string);
  Encode : gmap string (list string) → string;
  ParseQuery : string → option (gmap string (list string));
  set_raw_query : string → url → url;
  set_scheme : string → url → url;
  set_raw_path : string → string → url → url;
  set_path : string → url → url;
  url_string : url → string;
}.

(** ** Facts *)

Lemma has_prefix_length s p : has_prefix s p = true → (String.length p ≤ String.length s)%nat.
Proof.
  revert p. induction s as [|a s IH]; intros [|b p]; cbn; try lia; try done.
  intros H. bool_simpl. specialize (IH p ltac:(done)). lia.
Qed.

Lemma drop_length n s : String.length (drop n s) = (String.length s - n)%nat.
Proof. revert s. induction n as [|n IH]; intros [|a s]; cbn; try done; by rewrite ?IH. Qed.

Lemma str_app_cons a s t : String a s +:+ t = String a (s +:+ t).
Proof. done. Qed.

Lemma str_app_assoc s t u : (s +:+ t) +:+ u = s +:+ (t +:+ u).
Proof. induction s as [|a s IH]; [done|]. by rewrite !str_app_cons, IH. Qed.

Lemma str_app_nil s : s +:+ "" = s.
Proof. induction s as [|a s IH]; [done|]. by rewrite str_app_cons, IH. Qed.

Lemma str_app_length s t : String.length (s +:+ t) = (String.length s + String.length t)%nat.
Proof. induction s as [|a s IH]; [done|]. rewrite str_app_cons. cbn. by rewrite IH. Qed.

Lemma has_prefix_app s t : has_prefix (s +:+ t) s = true.
Proof.
  induction s as [|a s IH]; [by destruct t|]. rewrite str_app_cons. cbn.
  by rewrite Ascii.eqb_refl.
Qed.

Lemma drop_app s t : drop (String.length s) (s +:+ t) = t.
Proof. induction s as [|a s IH]; [by destruct t|]. exact IH. Qed.

Lemma Split_nonempty s sep : ∃ x l, Split s sep = x :: l.
Proof.
  destruct s as [|a s]; cbn; [by eexists _, _|].
  destruct (Ascii.eqb a sep); [by eexists _, _|]. by destruct (Split s sep); eexists _, _.
Qed.

Lemma Split_concat s t sep :
  Split (s +:+ String sep t) sep = (Split s sep ++ Split t sep)%list.
Proof.
  induction s as [|a s IH].
  - change (Split (String sep t) sep = "" :: Split t sep). cbn. by rewrite Ascii.eqb_refl.
  - change (String a s +:+ String sep t) with (String a (s +:+ String sep t)). cbn [Split].
    rewrite IH. destruct (Ascii.eqb a sep); [done|].
    by destruct (Split_nonempty s sep) as (x & l & ->).
Qed.

Lemma str_rev_acc s acc : str_rev s acc = str_rev s "" +:+ acc.
Proof.
  revert acc. induction s as [|a s IH]; intros acc; [done|]. cbn [str_rev].
  rewrite IH, (IH (String a "")), str_app_assoc. done.
Qed.

Lemma str_rev_app s t : str_rev (s +:+ t) "" = str_rev t "" +:+ str_rev s "".
Proof.
  induction s as [|a s IH]; [by rewrite str_app_nil|].
  rewrite str_app_cons. cbn [str_rev]. rewrite str_rev_acc, (str_rev_acc s), IH.
  by rewrite str_app_assoc.
Qed.

Lemma str_rev_involutive s : str_rev (str_rev s "") "" = s.
Proof.
  induction s as [|a s IH]; [done|]. cbn [str_rev].
  by rewrite (str_rev_acc s (String a "")), str_rev_app, IH.
Qed.

Lemma substring_all s n : (String.length s ≤ n)%nat → String.substring 0 n s = s.
Proof.
  revert n. induction s as [|a s IH]; intros [|n] Hn; cbn in *; try done; try lia.
  rewrite IH; [done|lia].
Qed.

Lemma substring_app s t n :
  String.substring 0 n (s +:+ t) =
    String.substring 0 n s +:+ String.substring 0 (n - String.length s) t.
Proof.
  revert n. induction s as [|a s IH]; intros n.
  - change (String.length "") with 0%nat. rewrite Nat.sub_0_r. by destruct n.
  - destruct n as [|n]; [by destruct t|]. rewrite str_app_cons. cbn [String.substring String.length].
    rewrite IH. done.
Qed.

Lemma substring_length s n : String.length (String.substring 0 n s) = Nat.min n (String.length s).
Proof.
  revert n. induction s as [|a s IH]; intros [|n]; try done. cbn. by rewrite IH.
Qed.

(** An expression matches exactly the strings that contain it: the instance
    the concrete runs use. *)
Program Definition literal_regexp : Regexp := {|
  regexp := string;
  Compile p := if bool_decide (p = "(") then None else Some p;
  MatchString r s := contains s r;
  ReplaceAllString r s t := if bool_decide (s = r) then t else s;
  ReplaceAllStringFunc r s f := if bool_decide (s = r) then f s else s;
  MustCompile p := p;
|}.
Next Obligation. intros p r. cbn. case_bool_decide; naive_solver. Qed.

(** URLs whose only part is their text, for runs that use no URL. *)
Definition plain_url : Url := {|
  url := string; ParseURL s := Some s; u_scheme _ := ""; u_host u := u; u_path u := u;
  u_raw_query _ := ""; u_fragment _ := ""; u_opaque _ := ""; u_has_user _ := false;
  Hostname u := u; Port _ := ""; EscapedPath u := u; Query _ := ∅; Encode _ := "";
  ParseQuery _ := Some ∅; set_raw_query _ u := u; set_scheme _ u := u; set_raw_path _ p _ := p;
  set_path p _ := p; url_string u := u;
|}.
