(* ===== verification/Float64.v ===== *)
(** * float64: Go's binary64 arithmetic

    The operations of [float64] the rate limiter uses, as the executable
    specification of IEEE 754 in the Standard Library, and the fact that
    counting down small integers is exact. *)

From Stdlib Require Import SpecFloat.
From S2P Require Import Prelude.

Definition float64 : Type := spec_float.

Definition f64_add : float64 → float64 → float64 := SFadd 53 1024.
Definition f64_sub : float64 → float64 → float64 := SFsub 53 1024.
Definition f64_mul : float64 → float64 → float64 := SFmul 53 1024.
Definition f64_div : float64 → float64 → float64 := SFdiv 53 1024.
Definition f64_ltb : float64 → float64 → bool := SFltb.
Definition f64_leb : float64 → float64 → bool := SFleb.

(** float64(n) for an integer n *)
Definition f64_of_Z (n : Z) : float64 := binary_normalize 53 1024 n 0 false.

(** time.Duration.Seconds *)
Definition Seconds (d : Z) : float64 :=
  f64_add (f64_of_Z (Z.quot d Second)) (f64_div (f64_of_Z (Z.rem d Second)) (f64_of_Z Second)).

(** ** Integers below 2^53 are exact. *)

Definition pos_shift (k : nat) (p : positive) : positive := Nat.iter k xO p.

Lemma pos_shift_S k p : pos_shift (S k) p = xO (pos_shift k p).
Proof. done. Qed.

Lemma pos_shift_Z k p : Z.pos (pos_shift k p) = Z.pos p * 2 ^ Z.of_nat k.
Proof.
  induction k as [|k IH]; [cbn; lia|]. rewrite pos_shift_S.
  rewrite Pos2Z.inj_xO, IH, Nat2Z.inj_succ, Z.pow_succ_r by lia. lia.
Qed.

Lemma pos_shift_add j k p : pos_shift j (pos_shift k p) = pos_shift (j + k) p.
Proof. unfold pos_shift. by rewrite <- Nat.iter_add. Qed.

Lemma digits_shift k p :
  Z.pos (digits2_pos (pos_shift k p)) = Z.pos (digits2_pos p) + Z.of_nat k.
Proof.
  induction k as [|k IH]; [cbn; lia|]. rewrite pos_shift_S.
  cbn [digits2_pos]. rewrite Pos2Z.inj_succ, IH. lia.
Qed.

Lemma shl_align_up m e e' : e ≤ e' → shl_align m e e' = (m, e).
Proof. intros Hk. unfold shl_align. destruct (e' - e) eqn:E; [done..|lia]. Qed.

Lemma shl_align_down m e e' :
  e' ≤ e → shl_align m e e' = (pos_shift (Z.to_nat (e - e')) m, e').
Proof.
  intros Hk. unfold shl_align. destruct (e' - e) as [|d|d] eqn:E; [|lia|].
  - replace (e - e') with 0 by lia. f_equal. lia.
  - f_equal. unfold pos_shift. replace (Z.to_nat (e - e')) with (Pos.to_nat d) by lia.
    apply Pos2Nat.inj_iter.
Qed.

Lemma iter_pos_nat {A} (f : A → A) n x : SpecFloat.iter_pos f n x = Nat.iter (Pos.to_nat n) f x.
Proof.
  revert x. induction n as [n IH|n IH|]; intros x; cbn [SpecFloat.iter_pos]; [..|done]; rewrite !IH.
  - rewrite <- Nat.iter_add, <- Nat.iter_succ_r. f_equal. lia.
  - rewrite <- Nat.iter_add. f_equal. lia.
Qed.

(** Shifting out zeros loses nothing. *)
Lemma shr_exact m e k :
  shr (Build_shr_record (Z.pos (pos_shift k m)) false false) e (Z.of_nat k) =
    (Build_shr_record (Z.pos m) false false, e + Z.of_nat k).
Proof.
  assert (∀ j, Nat.iter j shr_1 (Build_shr_record (Z.pos (pos_shift j m)) false false) =
               Build_shr_record (Z.pos m) false false) as Hit.
  { induction j as [|j IH]; [done|]. rewrite Nat.iter_succ_r. exact IH. }
  unfold shr. destruct k as [|k]; [by rewrite Z.add_0_r|].
  change (Z.of_nat (S k)) with (Z.pos (Pos.of_succ_nat k)). cbv iota.
  by rewrite iter_pos_nat, SuccNat2Pos.id_succ, Hit.
Qed.

Lemma fexp_normal e : -1021 ≤ e → fexp 53 1024 e = e - 53.
Proof. unfold fexp, emin. lia. Qed.

(** A mantissa of 53 bits followed by [k] zeros rounds to itself. *)
Lemma round_aux_exact q e k :
  Z.pos (digits2_pos q) = 53 → -1000 ≤ e + Z.of_nat k ≤ 900 →
  binary_round_aux 53 1024 false (Z.pos (pos_shift k q)) e loc_Exact =
    S754_finite false q (e + Z.of_nat k).
Proof.
  intros Hq He. unfold binary_round_aux, shr_fexp. cbn [shr_record_of_loc Zdigits2].
  rewrite digits_shift, Hq, fexp_normal by lia.
  replace (53 + Z.of_nat k + e - 53 - e) with (Z.of_nat k) by lia. rewrite shr_exact.
  cbn [shr_m loc_of_shr_record round_nearest_even Zdigits2].
  rewrite Hq, fexp_normal by lia.
  replace (53 + (e + Z.of_nat k) - 53 - (e + Z.of_nat k)) with 0 by lia. cbn [shr shr_m].
  change (1024 - 53) with 971. destruct (_ <=? _) eqn:E; bool_simpl; [done|lia].
Qed.

(** The float64 of a positive integer of at most 53 bits. *)
Definition canon (p : positive) : float64 :=
  let d := Z.pos (digits2_pos p) in
  S754_finite false (pos_shift (Z.to_nat (53 - d)) p) (d - 53).

Lemma round_canon p k :
  Z.pos (digits2_pos p) ≤ 53 → (k ≤ 52)%nat →
  binary_round 53 1024 false (pos_shift k p) (- Z.of_nat k) = canon p.
Proof.
  intros Hp Hk. unfold binary_round, canon. set (d := Z.pos (digits2_pos p)) in *.
  assert (1 ≤ d) by (unfold d; lia).
  rewrite digits_shift. fold d. rewrite fexp_normal by lia.
  replace (d + Z.of_nat k + - Z.of_nat k - 53) with (d - 53) by lia.
  destruct (decide (d - 53 ≤ - Z.of_nat k)) as [Hle|Hgt].
  - rewrite shl_align_down, pos_shift_add by lia.
    replace (Z.to_nat _ + k)%nat with (0 + Z.to_nat (53 - d))%nat by lia.
    change (pos_shift (0 + Z.to_nat (53 - d)) p)
      with (pos_shift 0 (pos_shift (Z.to_nat (53 - d)) p)).
    rewrite round_aux_exact; [f_equal; cbn; lia| |cbn; lia].
    rewrite digits_shift. fold d. lia.
  - rewrite shl_align_up by lia.
    replace k with (Z.to_nat (d - 53 + Z.of_nat k) + Z.to_nat (53 - d))%nat at 1 by lia.
    rewrite <- pos_shift_add, round_aux_exact; [f_equal; lia| |lia].
    rewrite digits_shift. fold d. lia.
Qed.

Lemma digits_bound p n : Z.pos p < 2 ^ Z.of_nat n → Z.pos (digits2_pos p) ≤ Z.of_nat n.
Proof.
  revert n. induction p as [p IH|p IH|]; intros n Hp; cbn [digits2_pos].
  1-2: destruct n as [|n]; [cbn in Hp; lia|];
    rewrite Nat2Z.inj_succ, Z.pow_succ_r in Hp by lia;
    rewrite Pos2Z.inj_succ; specialize (IH n); lia.
  destruct n as [|n]; [cbn in Hp; lia|lia].
Qed.

Lemma f64_of_Z_canon p : Z.pos p < 2 ^ 53 → f64_of_Z (Z.pos p) = canon p.
Proof. intros Hp. apply (round_canon p 0); [by apply (digits_bound p 53)|lia]. Qed.

(** Counting down by one is exact. *)
Lemma f64_pred n : 1 ≤ n < 2 ^ 53 → f64_sub (f64_of_Z n) (f64_of_Z 1) = f64_of_Z (n - 1).
Proof.
  intros Hn. destruct n as [|p|p]; [lia| |lia].
  rewrite !f64_of_Z_canon by lia. unfold f64_sub, canon. cbn [SFsub].
  set (d := Z.pos (digits2_pos p)). assert (1 ≤ d) by (unfold d; lia).
  assert (d ≤ 53) by (apply (digits_bound p 53); lia).
  change (Z.pos (digits2_pos 1) - 53) with (-52).
  replace (Z.min (d - 53) (-52)) with (-52) by lia.
  rewrite !shl_align_down, pos_shift_add by lia. cbn [fst cond_Zopp].
  replace (Z.to_nat _ + Z.to_nat (53 - d))%nat with 52%nat by lia.
  change (pos_shift (Z.to_nat (-52 - -52)) _) with (pos_shift 52 1).
  rewrite !pos_shift_Z. change (Z.of_nat 52) with 52.
  replace (Z.pos p * 2 ^ 52 - 1 * 2 ^ 52) with ((Z.pos p - 1) * 2 ^ 52) by lia.
  destruct (Z.pos p - 1) as [|q|q] eqn:E; [done| |lia].
  assert (Z.pos q * 2 ^ 52 = Z.pos (pos_shift 52 q)) as -> by (by rewrite pos_shift_Z).
  rewrite f64_of_Z_canon by lia. cbn [binary_normalize].
  apply (round_canon q 52); [apply (digits_bound q 53); lia|lia].
Qed.

Lemma f64_lt_one n : 0 ≤ n < 2 ^ 53 → f64_ltb (f64_of_Z n) (f64_of_Z 1) = (n <? 1).
Proof.
  intros Hn. destruct n as [|p|p]; [done| |lia].
  rewrite !f64_of_Z_canon by lia. unfold f64_ltb, SFltb, canon. cbn [SFcompare].
  assert ((Z.pos p <? 1) = false) as -> by (apply Z.ltb_ge; lia).
  destruct (decide (p = 1%positive)) as [->|Hne]; [done|].
  assert (Z.pos (digits2_pos 1) - 53 < Z.pos (digits2_pos p) - 53) as Hlt.
  { destruct p; cbn [digits2_pos]; lia. }
  by rewrite (proj2 (Z.compare_gt_iff _ _)) by lia.
Qed.
