(* ===== verification/StoreStats.v ===== *)
(** * Queue statistics: [Stats] of [internal/store/store.go]

    The counters the operational endpoints, the metrics and the heartbeat
    payload report, as queries on the tables. *)

From S2P Require Import Prelude Sql StoreSchema Store StoreLookup StoreInv Float64.

Record QueueStats : Type := MkStats {
  qs_pending : Z; qs_processing : Z; qs_retrying : Z; qs_dead : Z;
  qs_partial : Z; qs_error : Z; qs_done : Z; qs_skipped : Z;
  qs_actions_retrying : Z; qs_actions_dead : Z;
  qs_attempts_5m : Z; qs_failures_5m : Z; qs_rate_5m : float64;
  qs_attempts_1h : Z; qs_failures_1h : Z; qs_rate_1h : float64;
  qs_oldest_age_ms : Z;
}.

(** SELECT status, COUNT( * ) FROM events GROUP BY status *)
Definition count_status (s : string) (db : DB) : Z :=
  rows_affected (λ (_ : string) e, bool_decide (ev_status e = s)) (events db).

(** SUM(status = s) over event_actions *)
Definition actions_in (s : string) (db : DB) : Z :=
  rows_affected (λ (_ : string * Z) a, bool_decide (ac_status a = s)) (event_actions db).

(** The action logs since a time, NULL times never, and the failed ones *)
Definition logged_since (ms : Z) (r : action_log_row) : bool :=
  match al_created_at_ms r with Some t => ms <=? t | None => false end.

Definition attempts_since (ms : Z) (db : DB) : Z :=
  Z.of_nat (length (filter (λ r, logged_since ms r = true) (action_logs db))).
Definition failures_since (ms : Z) (db : DB) : Z :=
  Z.of_nat (length (filter (λ r, logged_since ms r = true ∧ al_success r = 0) (action_logs db))).

Definition failure_rate (failures attempts : Z) : float64 :=
  if 0 <? attempts then f64_div (f64_of_Z failures) (f64_of_Z attempts) else f64_of_Z 0.

(** SELECT MIN(received_at_ms) FROM events WHERE the event is live *)
Definition min_opt (x y : option Z) : option Z :=
  match x, y with
  | Some a, Some b => Some (Z.min a b)
  | Some a, None | None, Some a => Some a
  | None, None => None
  end.

Definition oldest_live (db : DB) : option Z :=
  map_fold (λ _ e acc, if live_status (ev_status e) then min_opt (ev_received_at_ms e) acc else acc)
    None (events db).

Section Stats.
Context `{Env}.
#[local] Abbreviation SM := (M (conn DB) store_err).

Definition Stats (now : Z) : SM QueueStats :=
  st ← query (λ db, λ s, count_status s db);
  acts ← query (λ db, (actions_in "retrying" db, actions_in "dead" db));
  let five := unix_milli (now - 5 * Minute) in
  let hour := unix_milli (now - Hour) in
  logs ← query (λ db, (attempts_since five db, failures_since five db,
                       attempts_since hour db, failures_since hour db));
  let '(a5, f5, a1, f1) := logs in
  oldest ← query oldest_live;
  mret {|
    qs_pending := st "pending"%string; qs_processing := st "processing"%string;
    qs_retrying := st "retrying"%string; qs_dead := st "dead"%string;
    qs_partial := st "partial"%string; qs_error := st "error"%string;
    qs_done := st "done"%string; qs_skipped := st "skipped"%string;
    qs_actions_retrying := acts.1; qs_actions_dead := acts.2;
    qs_attempts_5m := a5; qs_failures_5m := f5; qs_rate_5m := failure_rate f5 a5;
    qs_attempts_1h := a1; qs_failures_1h := f1; qs_rate_1h := failure_rate f1 a1;
    qs_oldest_age_ms := match oldest with
      | Some t => if t <? unix_milli now then unix_milli now - t else 0
      | None => 0
      end |}.

End Stats.

(** ** Counting by status *)

Lemma rows_affected_one_of {K V} `{Countable K} (status : V → string) (l : list string) (m : gmap K V) :
  NoDup l →
  foldr Z.add 0 ((λ s, rows_affected (λ _ v, bool_decide (status v = s)) m) <$> l) =
    rows_affected (λ _ v, one_of (status v) l) m.
Proof.
  induction 1 as [|s l Hs Hl IH]; cbn [fmap list_fmap foldr].
  { symmetry. apply Z.eqb_eq, rows_affected_zero. done. }
  rewrite IH, rows_affected_or.
  - apply rows_affected_ext. intros k v _. unfold one_of. cbn [existsb]. f_equal.
    apply Bool.eq_iff_eq_true. by rewrite bool_decide_eq_true, String.eqb_eq.
  - intros k v Hv Hin. bool_simpl. subst. apply Hs. unfold one_of in Hin.
    apply existsb_exists in Hin as (x & Hx & ->%String.eqb_eq). by apply list_elem_of_In.
Qed.

Lemma rows_affected_true {K V} `{Countable K} (p : K → V → bool) (m : gmap K V) :
  (∀ k v, m !! k = Some v → p k v = true) → rows_affected p m = Z.of_nat (size m).
Proof.
  intros Hp. unfold rows_affected. do 2 f_equal. apply map_eq. intros k. apply option_eq.
  intros v. rewrite select_lookup_Some. naive_solver.
Qed.

(** ** The oldest live event *)

Lemma min_opt_le_l x y a : x = Some a → ∃ m, min_opt x y = Some m ∧ m ≤ a.
Proof. intros ->. destruct y as [b|]; cbn; eexists; (split; [done|]); lia. Qed.

Lemma min_opt_le_r x y b : y = Some b → ∃ m, min_opt x y = Some m ∧ m ≤ b.
Proof. intros ->. destruct x as [a|]; cbn; eexists; (split; [done|]); lia. Qed.

Lemma min_opt_from x y m : min_opt x y = Some m → x = Some m ∨ y = Some m.
Proof. destruct x, y; cbn; intros [= <-]; auto. destruct (Z.min_spec z z0) as [[? ->]|[? ->]]; auto. Qed.

Lemma oldest_live_spec db :
  (∀ id e t, events db !! id = Some e → live_status (ev_status e) = true →
     ev_received_at_ms e = Some t → ∃ m, oldest_live db = Some m ∧ m ≤ t) ∧
  (∀ m, oldest_live db = Some m → ∃ id e, events db !! id = Some e ∧
     live_status (ev_status e) = true ∧ ev_received_at_ms e = Some m).
Proof.
  unfold oldest_live. generalize (events db) as t. intros t.
  apply (map_fold_weak_ind (λ r (t : gmap string event_row),
    (∀ id e x, t !! id = Some e → live_status (ev_status e) = true →
       ev_received_at_ms e = Some x → ∃ m, r = Some m ∧ m ≤ x) ∧
    (∀ m, r = Some m → ∃ id e, t !! id = Some e ∧ live_status (ev_status e) = true ∧
       ev_received_at_ms e = Some m))).
  { split; [intros id e x Hi; by rewrite lookup_empty in Hi|done]. }
  intros id e t' r Hni [IH1 IH2]. split.
  - intros id' e' x [[<- <-]|[Hne Hi]]%lookup_insert_Some Hl Hx.
    + rewrite Hl. by apply min_opt_le_l.
    + destruct (IH1 _ _ _ Hi Hl Hx) as (m & -> & Hm).
      destruct (live_status (ev_status e)); [|by exists m].
      destruct (min_opt_le_r (ev_received_at_ms e) (Some m) m eq_refl) as (m' & Hm' & ?).
      exists m'. split; [done|lia].
  - intros m. destruct (live_status (ev_status e)) eqn:El.
    + intros [Hm|Hm]%min_opt_from.
      * exists id, e. by rewrite lookup_insert_eq.
      * destruct (IH2 _ Hm) as (id' & e' & Hi & ?). exists id', e'.
        rewrite lookup_insert_ne; [done|]. congruence.
    + intros Hm. destruct (IH2 _ Hm) as (id' & e' & Hi & ?). exists id', e'.
      rewrite lookup_insert_ne; [done|]. congruence.
Qed.

(** ** What [Stats] reports *)

Record stats_of (now : Z) (db : DB) (st : QueueStats) : Prop := {
  so_total : qs_pending st + (qs_processing st + (qs_retrying st + (qs_done st + (qs_dead st +
    (qs_skipped st + (qs_partial st + (qs_error st + 0))))))) = Z.of_nat (size (events db));
  so_counts : qs_pending st = count_status "pending" db ∧ qs_dead st = count_status "dead" db;
  so_5m : 0 ≤ qs_failures_5m st ≤ qs_attempts_5m st;
  so_1h : 0 ≤ qs_failures_1h st ≤ qs_attempts_1h st;
  so_window : qs_attempts_5m st ≤ qs_attempts_1h st ∧ qs_failures_5m st ≤ qs_failures_1h st;
  so_age : 0 ≤ qs_oldest_age_ms st;
  so_oldest : ∀ id e t, events db !! id = Some e → live_status (ev_status e) = true →
    ev_received_at_ms e = Some t → unix_milli now - t ≤ qs_oldest_age_ms st;
  so_attained : qs_oldest_age_ms st ≠ 0 → ∃ id e t, events db !! id = Some e ∧
    live_status (ev_status e) = true ∧ ev_received_at_ms e = Some t ∧
    qs_oldest_age_ms st = unix_milli now - t;
}.

Lemma filter_length_le {A} (P Q : A → Prop) `{∀ x, Decision (P x), ∀ x, Decision (Q x)} l :
  (∀ x, P x → Q x) → (length (filter P l) ≤ length (filter Q l))%nat.
Proof.
  intros HPQ. induction l as [|x l IH]; [done|]. rewrite !filter_cons.
  destruct (decide (P x)) as [HP|HP].
  - rewrite decide_True by auto. cbn. lia.
  - destruct (decide (Q x)); cbn; lia.
Qed.

Section Spec.
Context `{Env}.

(** The report of one reading of the tables *)
Definition report (now : Z) (db : DB) : QueueStats :=
  let five := unix_milli (now - 5 * Minute) in
  let hour := unix_milli (now - Hour) in
  {| qs_pending := count_status "pending" db; qs_processing := count_status "processing" db;
     qs_retrying := count_status "retrying" db; qs_dead := count_status "dead" db;
     qs_partial := count_status "partial" db; qs_error := count_status "error" db;
     qs_done := count_status "done" db; qs_skipped := count_status "skipped" db;
     qs_actions_retrying := actions_in "retrying" db;
     qs_actions_dead := actions_in "dead" db;
     qs_attempts_5m := attempts_since five db; qs_failures_5m := failures_since five db;
     qs_rate_5m := failure_rate (failures_since five db) (attempts_since five db);
     qs_attempts_1h := attempts_since hour db; qs_failures_1h := failures_since hour db;
     qs_rate_1h := failure_rate (failures_since hour db) (attempts_since hour db);
     qs_oldest_age_ms := match oldest_live db with
       | Some t => if t <? unix_milli now then unix_milli now - t else 0
       | None => 0
       end |}.

Definition event_statuses : list string :=
  ["pending"; "processing"; "retrying"; "done"; "dead"; "skipped"; "partial"; "error"]%string.

Lemma event_statuses_nodup : NoDup event_statuses.
Proof. apply (bool_decide_eq_true_1 (NoDup event_statuses)). vm_compute. reflexivity. Qed.

Lemma report_stats now db : db_ok db → stats_of now db (report now db).
Proof.
  intros Hok. destruct (oldest_live_spec db) as [Hle Hfrom].
  assert (unix_milli (now - Hour) ≤ unix_milli (now - 5 * Minute)) as Hms
    by (apply unix_milli_mono; unfold Hour, Minute, Second, Millisecond; lia).
  split; cbn [report qs_pending qs_processing qs_retrying qs_dead qs_partial qs_error qs_done qs_skipped
    qs_attempts_5m qs_failures_5m qs_attempts_1h qs_failures_1h qs_oldest_age_ms].
  - rewrite <-(rows_affected_true (λ _ e, known_status (ev_status e))).
    + rewrite <-(rows_affected_one_of ev_status
        event_statuses); [done|apply event_statuses_nodup].
    + intros id e He. by apply eok_status, (dok_events _ Hok id).
  - done.
  - unfold failures_since, attempts_since. split; [lia|]. apply inj_le, filter_length_le. by intros x [? _].
  - unfold failures_since, attempts_since. split; [lia|]. apply inj_le, filter_length_le. by intros x [? _].
  - unfold failures_since, attempts_since, logged_since.
    split; apply inj_le, filter_length_le; intros x; cbn beta;
      (destruct (al_created_at_ms x); [|naive_solver]); rewrite !Z.leb_le; [lia|].
    intros [? ?]. split; [lia|done].
  - destruct (oldest_live db) as [t|]; [|lia]. destruct (Z.ltb_spec t (unix_milli now)); lia.
  - intros id e t He Hl Ht. destruct (Hle _ _ _ He Hl Ht) as (m & -> & Hm).
    destruct (Z.ltb_spec m (unix_milli now)); lia.
  - destruct (oldest_live db) as [t|]; [|done].
    destruct (Z.ltb_spec t (unix_milli now)); [|done]. intros _.
    destruct (Hfrom t eq_refl) as (id & e & ? & ? & ?). by exists id, e, t.
Qed.

Lemma Stats_run (now : Z) (c : conn DB) :
  wp (Stats now) (λ r c', cn_db c' = cn_db c ∧ ∀ st, r = Ok st → st = report now (cn_db c)) c.
Proof.
  unfold Stats. repeat wp_step; simplify_eq/=; (split; [done|]); by intros ? [=].
Qed.

Lemma Stats_total now c : no_faults → wp (Stats now) (λ r _, is_ok r = true) c.
Proof. intros Hnf. unfold Stats. by repeat wp_step_ok; simplify_eq/=. Qed.

(** The statistics describe the database: the eight event counters add up to
    the number of events, failures never exceed attempts nor the last five
    minutes the last hour, and the reported age is that of the oldest event
    that still waits (0 when none does); the database is not changed, and
    without a driver failure there is always a report. *)
Theorem Stats_spec (now : Z) (c : conn DB) :
  db_ok (cn_db c) →
  cn_db (Stats now c).2 = cn_db c ∧
  (∀ st, (Stats now c).1 = Ok st → stats_of now (cn_db c) st) ∧
  (no_faults → is_ok (Stats now c).1 = true).
Proof.
  intros Hok. destruct (Stats_run now c) as [Hc Hr]. split; [done|]. split.
  - intros st Hst. rewrite (Hr st Hst). by apply report_stats.
  - apply (Stats_total now c).
Qed.

End Spec.

(** ** Two events and four attempts *)

Module Demo.
#[local] Open Scope string_scope.

#[export] Instance env : Env := calm (100 * Second) Second.

Definition event (status : string) (received : Z) (processed : option Z) : event_row :=
  EventRow "github" None None status received processed None None None None None None None
    (Some received) processed None None 0 None None.

Definition log (id success at_ms : Z) : action_log_row :=
  ActionLog id "e1" "http" 0 0 None 1 success None None at_ms (Some at_ms).

Definition db : DB :=
  MkDB {["e1" := event "pending" 5000 None; "e2" := event "done" 1000 (Some 2000)]} ∅
    [log 1 0 10; log 2 1 9999000; log 3 0 9999500; log 4 1 9000000] 4 ∅ ∅ [] 0.

Definition at_ : Z := of_unix_milli 10000000.

Lemma db_ok_db : db_ok db.
Proof.
  split; unfold delivery_unique, db; cbn [events event_actions].
  - intros id e [[_ <-]|[_ [_ <-]%lookup_singleton_Some]]%lookup_insert_Some;
      (split; cbn; try done; by eexists).
  - by intros k a.
  - by intros k i a.
  - by intros k i a.
  - intros id id' e e' d He He' Hd.
    apply lookup_insert_Some in He as [[_ <-]|[_ [_ <-]%lookup_singleton_Some]]; by cbn in *.
Qed.

End Demo.
#[local] Existing Instance Demo.env.

Lemma Stats_spec_witness :
  match (Stats Demo.at_ (Conn Demo.db 0)).1 with
  | Ok st => stats_of Demo.at_ Demo.db st ∧ qs_pending st = 1 ∧ qs_done st = 1 ∧
      qs_attempts_5m st = 2 ∧ qs_failures_5m st = 1 ∧ qs_attempts_1h st = 3 ∧
      qs_oldest_age_ms st = 9995000
  | Err _ => False
  end.
Proof.
  destruct (Stats_spec Demo.at_ (Conn Demo.db 0) Demo.db_ok_db) as (_ & Hst & _).
  destruct (Stats Demo.at_ (Conn Demo.db 0)).1 as [st|e] eqn:E; [|vm_compute in E; discriminate].
  split; [by apply Hst|]. vm_compute in E. injection E as <-. done.
Defined.
