(* ===== verification/Sha256.v ===== *)
(** * SHA-256, HMAC-SHA256 and hexadecimal text

    [crypto/sha256], [crypto/hmac] and [encoding/hex], executable, as the
    authentication of webhooks and the body hash use them: FIPS 180-4 on byte
    strings, words are 32-bit integers. *)

From Stdlib Require Import Ascii.
From S2P Require Import Prelude GoLib.

#[local] Open Scope string_scope.
#[local] Open Scope Z_scope.

Definition w32 (z : Z) : Z := Z.land z (2^32 - 1).

Definition rotr (n x : Z) : Z := Z.lor (Z.shiftr x n) (w32 (Z.shiftl x (32 - n))).

(** The initial state and the round constants are the first 32 bits of the
    fractional parts of the square roots of the first 8 primes and of the cube
    roots of the first 64. *)
Definition is_prime (n : Z) : bool :=
  forallb (λ d, negb (n mod Z.of_nat d =? 0)) (seq 2 (Z.to_nat (n - 2))).

Definition primes (upto : nat) : list Z :=
  filter (λ n, is_prime n = true) (Z.of_nat <$> seq 2 (upto - 1)).

(** The largest [r] below [2^bits] with [r^3 <= n], bit by bit. *)
Fixpoint cube_root (bits : nat) (r n : Z) : Z :=
  match bits with
  | O => r
  | S b =>
      let r' := r + 2 ^ Z.of_nat b in
      cube_root b (if r' * r' * r' <=? n then r' else r) n
  end.

Definition sha_k : list Z :=
  Eval vm_compute in (λ p, w32 (cube_root 35 0 (p * 2 ^ 96))) <$> primes 311.

Definition sha_h0 : list Z :=
  Eval vm_compute in (λ p, w32 (Z.sqrt (p * 2 ^ 64))) <$> primes 19.

(** The next word of the message schedule; [ws] holds the latest word first. *)
Definition next_word (ws : list Z) : Z :=
  let w i := List.nth i ws 0 in
  let s0 := Z.lxor (Z.lxor (rotr 7 (w 14%nat)) (rotr 18 (w 14%nat))) (Z.shiftr (w 14%nat) 3) in
  let s1 := Z.lxor (Z.lxor (rotr 17 (w 1%nat)) (rotr 19 (w 1%nat))) (Z.shiftr (w 1%nat) 10) in
  w32 (w 15%nat + s0 + w 6%nat + s1).

Fixpoint extend_words (n : nat) (ws : list Z) : list Z :=
  match n with O => ws | S n' => extend_words n' (next_word ws :: ws) end.

Definition sha_round (st : list Z) (kw : Z * Z) : list Z :=
  match st with
  | [a; b; c; d; e; f; g; h] =>
      let s1 := Z.lxor (Z.lxor (rotr 6 e) (rotr 11 e)) (rotr 25 e) in
      let ch := Z.lxor (Z.land e f) (Z.land (Z.lxor e (2^32 - 1)) g) in
      let t1 := h + s1 + ch + kw.1 + kw.2 in
      let s0 := Z.lxor (Z.lxor (rotr 2 a) (rotr 13 a)) (rotr 22 a) in
      let maj := Z.lxor (Z.lxor (Z.land a b) (Z.land a c)) (Z.land b c) in
      [w32 (t1 + s0 + maj); a; b; c; w32 (d + t1); e; f; g]
  | _ => st
  end.

Definition sha_block (st ws : list Z) : list Z :=
  let schedule := reverse (extend_words 48 (reverse ws)) in
  zip_with (λ x y, w32 (x + y)) st (foldl sha_round st (zip sha_k schedule)).

(** Bytes and big-endian words *)
Fixpoint to_bytes (s : string) : list Z :=
  match s with "" => [] | String a s' => Z.of_N (Ascii.N_of_ascii a) :: to_bytes s' end%string.

Fixpoint of_bytes (l : list Z) : string :=
  match l with [] => "" | b :: l' => String (Ascii.ascii_of_N (Z.to_N b)) (of_bytes l') end%string.

Definition be_bytes (n : nat) (z : Z) : list Z :=
  reverse ((λ i, Z.land (Z.shiftr z (8 * Z.of_nat i)) 255) <$> seq 0 n).

Fixpoint words (l : list Z) : list Z :=
  match l with
  | a :: b :: c :: d :: l' => (((a * 256 + b) * 256 + c) * 256 + d) :: words l'
  | _ => []
  end.

(** A one bit, zeros, and the length in bits: a multiple of 64 bytes. *)
Definition sha_pad (l : list Z) : list Z :=
  let n := Z.of_nat (length l) in
  l ++ [128] ++ replicate (Z.to_nat ((55 - n) mod 64)) 0 ++ be_bytes 8 (8 * n).

Fixpoint sha_blocks (fuel : nat) (st ws : list Z) : list Z :=
  match fuel, ws with
  | O, _ | _, [] => st
  | S fuel', _ => sha_blocks fuel' (sha_block st (take 16 ws)) (list.drop 16 ws)
  end.

Definition sha256_bytes (l : list Z) : list Z :=
  let ws := words (sha_pad l) in
  (sha_blocks (length ws) sha_h0 ws) ≫= be_bytes 4.

(** sha256.Sum256 *)
Definition Sum256 (s : string) : string := of_bytes (sha256_bytes (to_bytes s)).

(** hmac.New(sha256.New, key), Write, Sum(nil) *)
Definition hmac_sha256 (key msg : string) : string :=
  let k := to_bytes key in
  let k := if Nat.ltb 64 (length k) then sha256_bytes k else k in
  let k := (k ++ replicate (64 - length k) 0)%list in
  let inner := sha256_bytes ((Z.lxor 0x36 <$> k) ++ to_bytes msg)%list in
  of_bytes (sha256_bytes ((Z.lxor 0x5c <$> k) ++ inner)%list).

(** hex.EncodeToString *)
Definition hex_digit (z : Z) : ascii :=
  Ascii.ascii_of_N (Z.to_N (if z <? 10 then 48 + z else 87 + z)).

Fixpoint EncodeToString (s : string) : string :=
  match s with
  | "" => ""
  | String a s' =>
      let b := Z.of_N (Ascii.N_of_ascii a) in
      String (hex_digit (Z.shiftr b 4)) (String (hex_digit (Z.land b 15)) (EncodeToString s'))
  end%string.

(** ** A digest is not empty *)

Lemma sha_round_length st kw : length st = 8%nat → length (sha_round st kw) = 8%nat.
Proof. intros Hst. do 9 (destruct st as [|? st]; [try discriminate|]); done. Qed.

Lemma sha_block_length st ws : length st = 8%nat → length (sha_block st ws) = 8%nat.
Proof.
  intros Hst. unfold sha_block. rewrite length_zip_with, Hst.
  assert (∀ kws st, length st = 8%nat → length (foldl sha_round st kws) = 8%nat) as ->; [|done..].
  clear. induction kws as [|kw kws IH]; intros st Hst; [done|]. by apply IH, sha_round_length.
Qed.

Lemma sha_blocks_length fuel st ws :
  length st = 8%nat → length (sha_blocks fuel st ws) = 8%nat.
Proof.
  revert st ws. induction fuel as [|fuel IH]; intros st ws Hst; [by destruct ws|].
  destruct ws as [|w ws]; [done|]. cbn [sha_blocks]. by apply IH, sha_block_length.
Qed.

Lemma sha256_nonempty l : sha256_bytes l ≠ [].
Proof.
  unfold sha256_bytes. set (ws := words _).
  pose proof (sha_blocks_length (length ws) sha_h0 ws eq_refl) as Hl.
  by destruct (sha_blocks _ _ _) as [|x ?].
Qed.

Lemma hmac_nonempty key msg : hmac_sha256 key msg ≠ ""%string.
Proof.
  unfold hmac_sha256. cbv zeta.
  match goal with |- of_bytes (sha256_bytes ?l) ≠ _ => pose proof (sha256_nonempty l) as Hne end.
  by destruct (sha256_bytes _).
Qed.

(** The test vectors of FIPS 180-4 and RFC 4231. *)
Example sha_abc : EncodeToString (Sum256 "abc") =
  "ba7816bf8f01cfea414140de5dae2223b00361a396177a9cb410ff61f20015ad"%string.
Proof. vm_compute. reflexivity. Qed.

Example sha_two_blocks :
  EncodeToString (Sum256 "abcdbcdecdefdefgefghfghighijhijkijkljklmklmnlmnomnopnopq") =
  "248d6a61d20638b8e5c026930c3e6039a33ce45964ff2167f6ecedd419db06c1"%string.
Proof. vm_compute. reflexivity. Qed.

Example hmac_jefe : EncodeToString (hmac_sha256 "Jefe" "what do ya want for nothing?") =
  "5bdcc146bf60754e6a042426089575c75a003f089d2739839dec58b964ec3843"%string.
Proof. vm_compute. reflexivity. Qed.
