(* ===== verification/Http.v ===== *)
(** * HTTP requests and addresses

    What the gateway reads of a request of [net/http], and the interface of
    [net] and [net/url] it uses to read addresses. *)

From Stdlib Require Import Ascii.
From S2P Require Import Prelude GoLib.

#[local] Open Scope string_scope.

(** A request: the header is a map from canonical names to values; the body is
    what the client sends, [rq_body_fails] when reading it fails. *)
Record Request : Type := MkRequest {
  rq_source : string;
  rq_remote_addr : string;
  rq_header : gmap string (list string);
  rq_content_length : Z;
  rq_body : string;
  rq_body_fails : bool;
}.

(** textproto.CanonicalMIMEHeaderKey: words between hyphens are capitalised;
    a name with another byte than those of a token is left alone. *)
Definition token_byte (n : nat) : bool :=
  in_range 48 57 n || in_range 65 90 n || in_range 97 122 n
  || existsb (Nat.eqb n) [33; 35; 36; 37; 38; 39; 42; 43; 45; 46; 94; 95; 96; 124; 126]%nat.

Fixpoint capitalise (upper : bool) (s : string) : string :=
  match s with
  | "" => ""
  | String a s' =>
      let a := if upper then upper_byte a else lower_byte a in
      String a (capitalise (Ascii.eqb a "-") s')
  end.

Definition CanonicalMIMEHeaderKey (name : string) : string :=
  if all_bytes token_byte name then capitalise true name else name.

(** r.Header.Get *)
Definition Header_Get (r : Request) (name : string) : string :=
  match rq_header r !! CanonicalMIMEHeaderKey name with
  | Some (v :: _) => v
  | _ => ""
  end.

(** io.ReadAll(io.LimitReader(r.Body, n)) *)
Definition ReadLimited (n : nat) (r : Request) : option string :=
  if rq_body_fails r then None else Some (String.substring 0 n (rq_body r)).

(** net/http refuses header values with a line break. *)
Definition no_newline (s : string) : bool := all_bytes (λ n, negb (Nat.eqb n 10)) s.

Definition header_clean (r : Request) : Prop := ∀ name values,
  rq_header r !! name = Some values → Forall (λ v, no_newline v = true) values.

(** [net]: addresses, networks and the host of an address. [IP_bytes] are the
    bytes of an address, of which [net.IP] is the slice. *)
Class Net : Type := {
  IP : Type;
  IPNet : Type;
  ParseIP : string → option IP;
  ParseCIDR : string → option IPNet;
  IP_bytes : IP → list Z;
  IP_Equal : IP → IP → bool;
  IPNet_Contains : IPNet → IP → bool;
  SplitHost : string → option string;
}.

(** ** Facts *)

Lemma header_clean_get r name : header_clean r → no_newline (Header_Get r name) = true.
Proof.
  intros Hc. unfold Header_Get. destruct (_ !! _) as [[|v vs]|] eqn:E; try done.
  apply Hc in E. by apply Forall_cons in E as [? _].
Qed.

Lemma all_bytes_drop p n s : all_bytes p s = true → all_bytes p (drop n s) = true.
Proof.
  revert s. induction n as [|n IH]; intros [|a s]; cbn; try done.
  intros Hs. bool_simpl. by apply IH.
Qed.

Lemma all_bytes_rev p s acc :
  all_bytes p s = true → all_bytes p acc = true → all_bytes p (str_rev s acc) = true.
Proof.
  revert acc. induction s as [|a s IH]; intros acc; cbn; [done|].
  intros Hs Ha. bool_simpl. apply IH; [done|]. cbn. by apply andb_true_iff.
Qed.

Lemma all_bytes_trim_left p runes fuel s :
  all_bytes p s = true → all_bytes p (trim_left runes fuel s) = true.
Proof.
  revert s. induction fuel as [|fuel IH]; intros s Hs; cbn; [done|].
  destruct (List.find _ _); [|done]. by apply IH, all_bytes_drop.
Qed.

Lemma all_bytes_TrimSpace p s : all_bytes p s = true → all_bytes p (TrimSpace s) = true.
Proof.
  intros Hs. unfold TrimSpace.
  apply all_bytes_rev; [|done]. apply all_bytes_trim_left, all_bytes_rev; [|done].
  by apply all_bytes_trim_left.
Qed.
