(* ===== verification/Placeholders.v ===== *)
(** * Placeholders: environment expansion and interpolation

    The three expressions the program scans texts with, as executable
    matchers: configEnvRe and explicitSecretRefRe of [internal/config] and
    varRe of [internal/handler/handler.go]. None of them can match in two ways
    at one position, so a matcher returns the groups and the rest. *)

From Stdlib Require Import Ascii.
From S2P Require Import Prelude GoLib.

#[local] Open Scope string_scope.

(** ** Matchers *)

(** [A-Za-z_] and [A-Za-z0-9_] *)
Definition ident_start (n : nat) : bool :=
  in_range 65 90 n || in_range 97 122 n || Nat.eqb n 95.
Definition ident_byte (n : nat) : bool := ident_start n || digit n.

Fixpoint take_while (p : nat → bool) (s : string) : string * string :=
  match s with
  | "" => ("", "")
  | String a s' =>
      if p (Ascii.nat_of_ascii a)
      then let '(x, rest) := take_while p s' in (String a x, rest)
      else ("", s)
  end.

(** [A-Za-z_][A-Za-z0-9_]* *)
Definition match_ident (s : string) : option (string * string) :=
  match s with
  | String a s' =>
      if ident_start (Ascii.nat_of_ascii a)
      then let '(x, rest) := take_while ident_byte s' in Some (String a x, rest)
      else None
  | "" => None
  end.

Definition match_text (t s : string) : option string :=
  if has_prefix s t then Some (drop (String.length t) s) else None.

(** ident followed by a closing brace *)
Definition match_key (s : string) : option (string * string) :=
  '(key, rest) ← match_ident s; rest ← match_text "}" rest; Some (key, rest).

Definition orelse {A} (x y : option A) : option A := match x with Some _ => x | None => y end.

(** A matched placeholder: its namespace ("" without one), and its key. *)
Definition placeholder : Type := string * string.

(** After the opening "${": one of the namespaces and a colon, or none. *)
Fixpoint match_spaces (spaces : list string) (s : string) : option (placeholder * string) :=
  match spaces with
  | [] => '(key, rest) ← match_key s; Some (("", key), rest)
  | ns :: spaces' =>
      orelse (rest ← match_text (ns +:+ ":") s; '(key, rest) ← match_key rest;
              Some ((ns, key), rest))
             (match_spaces spaces' s)
  end.

(** varRe *)
Definition varRe (s : string) : option (placeholder * string) :=
  rest ← match_text "${" s; match_spaces ["event"; "secret"] rest.

(** explicitSecretRefRe *)
Definition explicitSecretRefRe (s : string) : option (placeholder * string) :=
  rest ← match_text "${secret:" s; '(key, rest) ← match_key rest; Some (("secret", key), rest).

(** configEnvRe: the braced alternative first *)
Definition configEnvRe (s : string) : option (placeholder * string) :=
  orelse (rest ← match_text "${" s; match_spaces ["ENV"] rest)
         (rest ← match_text "$" s; '(key, rest) ← match_ident rest; Some (("", key), rest)).

(** ** Scanning a text: the leftmost matches, none overlapping *)

(** [Inl] is a byte outside a match; a match keeps its text. *)
Fixpoint scan (m : string → option (placeholder * string)) (fuel : nat) (s : string) :
    list (ascii + placeholder * string) :=
  match fuel, s with
  | O, _ | _, "" => []
  | S fuel', String a s' =>
      match m s with
      | Some (p, rest) =>
          inr (p, String.substring 0 (String.length s - String.length rest) s) :: scan m fuel' rest
      | None => inl a :: scan m fuel' s'
      end
  end.

Definition matches (m : string → option (placeholder * string)) (s : string) :
    list (ascii + placeholder * string) := scan m (String.length s) s.

Fixpoint render (f : placeholder → string → string) (l : list (ascii + placeholder * string)) :
    string :=
  match l with
  | [] => ""
  | inl a :: l' => String a (render f l')
  | inr (p, text) :: l' => f p text +:+ render f l'
  end.

(** ReplaceAllStringFunc; the function gets the groups and the text. *)
Definition replace_all (m : string → option (placeholder * string))
    (f : placeholder → string → string) (s : string) : string := render f (matches m s).

(** FindAllStringSubmatch(s, -1): the groups of all matches. *)
Definition find_all (m : string → option (placeholder * string)) (s : string) : list placeholder :=
  matches m s ≫= λ x, match x with inl _ => [] | inr (p, _) => [p] end.

(** ** The functions of the program *)

Section Environment.
(** os.LookupEnv *)
Context (LookupEnv : string → option string).

Definition expandConfigEnv (s : string) (requireSet : bool) : string :=
  replace_all configEnvRe (λ '(_, key) text,
    match LookupEnv key with
    | Some v => v
    | None => if requireSet then "" else text
    end) s.

Definition interpolateWith (s : string) (vars : gmap string string) (escape : string → string) :
    string :=
  replace_all varRe (λ '(namespace, key) _,
    let from_env :=
      if bool_decide (namespace = "event") then None else LookupEnv key in
    let from_vars := if bool_decide (namespace = "secret") then None else vars !! key in
    match from_vars with
    | Some v => escape v
    | None => match from_env with Some v => escape v | None => "" end
    end) s.

Definition interpolate (s : string) (vars : gmap string string) : string :=
  interpolateWith s vars (λ v, v).

(** The first explicit secret without a value, or "". *)
Definition missingExplicitSecret (values : list string) : string :=
  default "" (head (values ≫= λ value, find_all varRe value ≫= λ '(namespace, key),
    if bool_decide (namespace = "secret") && bool_decide (default "" (LookupEnv key) = "")
    then [key] else [])).

End Environment.

Example expand_ex : expandConfigEnv (λ k, if bool_decide (k = "A") then Some "$B" else None)
  "x=${ENV:A};$A;${Z}$1$" true = "x=$B;$B;$1$".
Proof. vm_compute. reflexivity. Qed.

Example interpolate_ex : interpolate (λ k, if bool_decide (k = "A") then Some "env" else None)
  "${a}-${secret:A}-${event:A}-${A}-${secret:a}-${ a}" {["a" := "${secret:A}"]} =
  "${secret:A}-env--env--${ a}".
Proof. vm_compute. reflexivity. Qed.

(** ** Templates *)

(** A template as its author means it: literal text and references. *)
Inductive piece : Type :=
| Lit (text : string)
| Ref (namespace key : string).

Definition no_dollar (s : string) : bool := all_bytes (λ n, negb (Nat.eqb n 36)) s.

Definition valid_key (key : string) : bool :=
  match key with
  | "" => false
  | String a key' => ident_start (Ascii.nat_of_ascii a) && all_bytes ident_byte key'
  end.

Definition piece_ok (p : piece) : bool :=
  match p with
  | Lit text => no_dollar text
  | Ref namespace key =>
      existsb (String.eqb namespace) [""; "event"; "secret"] && valid_key key
  end.

Definition print_piece (p : piece) : string :=
  match p with
  | Lit text => text
  | Ref namespace key =>
      "${" +:+ (if bool_decide (namespace = "") then "" else namespace +:+ ":") +:+ key +:+ "}"
  end.

Definition print (ps : list piece) : string := foldr (λ p s, print_piece p +:+ s) "" ps.

(** What a reference stands for: event data first and the environment second;
    "event" excludes the environment, "secret" the event data. *)
Definition ref_value (LookupEnv : string → option string) (vars : gmap string string)
    (escape : string → string) (namespace key : string) : string :=
  let from_vars := if bool_decide (namespace = "secret") then None else vars !! key in
  let from_env := if bool_decide (namespace = "event") then None else LookupEnv key in
  match from_vars, from_env with
  | Some v, _ | None, Some v => escape v
  | None, None => ""
  end.

Definition piece_value LookupEnv vars escape (p : piece) : string :=
  match p with
  | Lit text => text
  | Ref namespace key => ref_value LookupEnv vars escape namespace key
  end.

Definition value LookupEnv vars escape (ps : list piece) : string :=
  foldr (λ p s, piece_value LookupEnv vars escape p +:+ s) "" ps.

(** ** Reading a printed reference back *)

Lemma match_text_app t s : match_text t (t +:+ s) = Some s.
Proof. unfold match_text. by rewrite has_prefix_app, drop_app. Qed.

Lemma take_while_app p s b rest :
  all_bytes p s = true → p (Ascii.nat_of_ascii b) = false →
  take_while p (s +:+ String b rest) = (s, String b rest).
Proof.
  intros Hs Hb. induction s as [|a s IH].
  - change ("" +:+ String b rest) with (String b rest). cbn. by rewrite Hb.
  - cbn in Hs. apply andb_true_iff in Hs as [Ha Hs]. rewrite str_app_cons. cbn. by rewrite Ha, IH.
Qed.

Lemma match_key_app key rest :
  valid_key key = true → match_key (key +:+ "}" +:+ rest) = Some (key, rest).
Proof.
  destruct key as [|a key]; [done|]. cbn [valid_key]. intros [Ha Hk]%andb_true_iff.
  unfold match_key, match_ident. rewrite str_app_cons, Ha.
  change ("}" +:+ rest) with (String "}" rest). rewrite take_while_app by done.
  cbn [mbind option_bind]. by rewrite (match_text_app "}" rest : match_text "}" (String "}" rest) = Some rest).
Qed.

(** A key does not look like a namespace and a colon. *)
Lemma key_not_space key ns rest :
  all_bytes ident_byte key = true → all_bytes ident_byte ns = true →
  match_text (ns +:+ ":") (key +:+ "}" +:+ rest) = None.
Proof.
  intros Hk Hn. unfold match_text.
  assert (has_prefix (key +:+ "}" +:+ rest) (ns +:+ ":") = false) as ->; [|done].
  revert ns Hn. induction key as [|a key IH]; intros [|b ns] Hn; try done.
  - change (("" +:+ "}" +:+ rest)) with (String "}" rest). rewrite str_app_cons. cbn in Hn |- *.
    destruct (Ascii.eqb b "}") eqn:E; [|done]. apply Ascii.eqb_eq in E as ->. done.
  - cbn in Hk. apply andb_true_iff in Hk as [Ha Hk]. rewrite str_app_cons.
    change ("" +:+ ":") with ":". cbn [has_prefix].
    destruct (Ascii.eqb ":" a) eqn:E; [|done]. by apply Ascii.eqb_eq in E as <-.
  - cbn [all_bytes] in Hk, Hn. apply andb_true_iff in Hk as [Ha Hk], Hn as [Hb Hn].
    specialize (IH Hk ns Hn).
    change (Ascii.eqb b a && has_prefix (key +:+ "}" +:+ rest) (ns +:+ ":") = false).
    rewrite IH. by destruct (Ascii.eqb b a).
Qed.

Lemma varRe_print ns key rest :
  existsb (String.eqb ns) [""; "event"; "secret"] = true → valid_key key = true →
  varRe (print_piece (Ref ns key) +:+ rest) = Some ((ns, key), rest).
Proof.
  intros Hns Hk. unfold print_piece. rewrite str_app_assoc. unfold varRe.
  rewrite match_text_app. cbn [mbind option_bind].
  rewrite !str_app_assoc.
  assert (all_bytes ident_byte key = true) as Hall.
  { destruct key as [|a key]; [done|]. cbn [valid_key all_bytes] in *.
    apply andb_true_iff in Hk as [Ha Hk]. unfold ident_byte at 1. by rewrite Ha, Hk. }
  cbn [existsb] in Hns. rewrite !orb_true_iff, !String.eqb_eq in Hns.
  destruct Hns as [->|[->|[->|?]]]; [..|done].
  - rewrite bool_decide_true by done. change ("" +:+ key +:+ "}" +:+ rest) with (key +:+ "}" +:+ rest).
    cbn [match_spaces]. rewrite !key_not_space by done. cbn [mbind option_bind orelse].
    by rewrite match_key_app.
  - rewrite bool_decide_false by done. rewrite !str_app_assoc.
    change ("event" +:+ ":" +:+ key +:+ "}" +:+ rest) with (("event" +:+ ":") +:+ key +:+ "}" +:+ rest).
    cbn [match_spaces]. rewrite match_text_app. cbn [mbind option_bind].
    rewrite match_key_app by done. done.
  - rewrite bool_decide_false by done. rewrite !str_app_assoc.
    change ("secret" +:+ ":" +:+ key +:+ "}" +:+ rest) with (("secret" +:+ ":") +:+ key +:+ "}" +:+ rest).
    cbn [match_spaces].
    assert (match_text ("event" +:+ ":") (("secret" +:+ ":") +:+ key +:+ "}" +:+ rest) = None) as ->
      by done.
    rewrite match_text_app. cbn [mbind option_bind orelse].
    rewrite match_key_app by done. done.
Qed.

(** ** Scanning a printed template *)

Lemma scan_fuel m fuel fuel' s :
  (∀ s p rest, m s = Some (p, rest) → String.length rest < String.length s)%nat →
  (String.length s ≤ fuel)%nat → (String.length s ≤ fuel')%nat → scan m fuel s = scan m fuel' s.
Proof.
  intros Hm. revert fuel' s. induction fuel as [|fuel IH]; intros fuel' [|a s] Hf Hf'; cbn in *;
    try (by destruct fuel'); try lia.
  destruct fuel' as [|fuel']; [lia|]. cbn.
  destruct (m (String a s)) as [[p rest]|] eqn:E.
  - apply Hm in E. cbn in E. f_equal. apply IH; lia.
  - f_equal. apply IH; lia.
Qed.

Lemma take_while_length p s : (String.length (take_while p s).2 ≤ String.length s)%nat.
Proof.
  induction s as [|a s IH]; [done|]. cbn. destruct (p _); [|done].
  destruct (take_while p s). cbn in *. lia.
Qed.

Lemma match_text_length t s rest :
  match_text t s = Some rest → (String.length rest + String.length t = String.length s)%nat.
Proof.
  unfold match_text. destruct (has_prefix s t) eqn:E; [|done]. intros [= <-].
  apply has_prefix_length in E. rewrite drop_length. lia.
Qed.

Lemma match_key_length s key rest :
  match_key s = Some (key, rest) → (String.length rest < String.length s)%nat.
Proof.
  unfold match_key. destruct (match_ident s) as [[k r]|] eqn:E; [|done]. cbn [mbind option_bind].
  destruct (match_text "}" r) as [r'|] eqn:Er; [|done]. cbn. intros [= <- <-].
  apply match_text_length in Er. destruct s as [|a s]; [done|]. cbn in E.
  destruct (ident_start _); [|done]. pose proof (take_while_length ident_byte s) as Ht.
  destruct (take_while ident_byte s). simplify_eq. cbn in *. lia.
Qed.

Lemma match_spaces_length spaces s p rest :
  match_spaces spaces s = Some (p, rest) → (String.length rest < String.length s)%nat.
Proof.
  revert p rest. induction spaces as [|ns spaces IH]; intros p rest; cbn [match_spaces].
  - destruct (match_key s) as [[k r]|] eqn:E; [|done]. cbn. intros [= <- <-].
    by eapply match_key_length.
  - destruct (match_text (ns +:+ ":") s) as [r|] eqn:Et; cbn [mbind option_bind orelse]; [|by apply IH].
    destruct (match_key r) as [[k r']|] eqn:E; cbn; [|by apply IH]. intros [= <- <-].
    apply match_text_length in Et. apply match_key_length in E. lia.
Qed.

Lemma varRe_length s p rest : varRe s = Some (p, rest) → (String.length rest < String.length s)%nat.
Proof.
  unfold varRe. destruct (match_text "${" s) as [r|] eqn:Et; [|done]. cbn [mbind option_bind].
  intros Hm%match_spaces_length. apply match_text_length in Et. cbn in Et. lia.
Qed.

Lemma replace_all_ref f ns key rest :
  existsb (String.eqb ns) [""; "event"; "secret"] = true → valid_key key = true →
  (∀ text, f (ns, key) text = f (ns, key) "") →
  replace_all varRe f (print_piece (Ref ns key) +:+ rest) = f (ns, key) "" +:+ replace_all varRe f rest.
Proof.
  intros Hns Hk Hf. unfold replace_all, matches.
  pose proof (varRe_print ns key rest Hns Hk) as Hm.
  set (s := print_piece (Ref ns key) +:+ rest) in *.
  assert (∃ a s', s = String a s') as (a & s' & Hs) by (by eexists _, _).
  pose proof (varRe_length _ _ _ Hm) as Hlt. rewrite Hs in *. cbn [String.length scan] in *.
  rewrite Hm. cbn [render]. rewrite Hf. f_equal. f_equal.
  apply scan_fuel; [apply varRe_length|lia|done].
Qed.

Lemma replace_all_lit f text rest :
  no_dollar text = true → replace_all varRe f (text +:+ rest) = text +:+ replace_all varRe f rest.
Proof.
  intros Ht. induction text as [|a text IH]; [done|].
  cbn in Ht. apply andb_true_iff in Ht as [Ha Ht]. rewrite !str_app_cons, <- (IH Ht).
  unfold replace_all, matches. cbn [String.length scan].
  assert (varRe (String a (text +:+ rest)) = None) as ->; [|done].
  unfold varRe, match_text. cbn [has_prefix]. destruct (Ascii.eqb "$" a) eqn:E; [|done].
  by apply Ascii.eqb_eq in E as <-.
Qed.

Lemma interpolateWith_print (LookupEnv : string → option string) (vars : gmap string string)
    (escape : string → string) (ps : list piece) :
  forallb piece_ok ps = true →
  interpolateWith LookupEnv (print ps) vars escape = value LookupEnv vars escape ps.
Proof.
  intros Hok. induction ps as [|p ps IH]; [done|].
  cbn [forallb] in Hok. apply andb_true_iff in Hok as [Hp Hps]. specialize (IH Hps).
  unfold interpolateWith in *. cbn [print foldr value]. fold (print ps).
  fold (value LookupEnv vars escape ps). rewrite <- IH.
  destruct p as [text|ns key]; cbn [piece_ok print_piece piece_value] in *.
  - by apply replace_all_lit.
  - apply andb_true_iff in Hp as [Hns Hk].
    by rewrite (replace_all_ref _ ns key) by done.
Qed.

(** C17: interpolation fills in every reference of a template once, each with
    the value its namespace allows, and keeps the text in between: what is
    filled in is never read again as a template, so event data cannot name a
    secret, an "event:" reference never shows the environment and a "secret:"
    reference never shows event data. *)
Theorem interpolate_pieces (LookupEnv : string → option string) (vars : gmap string string)
    (escape : string → string) (ps : list piece) :
  forallb piece_ok ps = true →
  interpolateWith LookupEnv (print ps) vars escape = value LookupEnv vars escape ps.
Proof. apply interpolateWith_print. Qed.

Lemma interpolate_pieces_witness :
  interpolate (λ k, if bool_decide (k = "TOKEN") then Some "t0p" else None)
    "user=${name}&auth=${secret:TOKEN}" {["name" := "${secret:TOKEN}"]} =
  "user=${secret:TOKEN}&auth=t0p".
Proof.
  exact (interpolate_pieces (λ k, if bool_decide (k = "TOKEN") then Some "t0p" else None)
    {["name" := "${secret:TOKEN}"]} (λ v, v)
    [Lit "user="; Ref "" "name"; Lit "&auth="; Ref "secret" "TOKEN"] eq_refl).
Defined.
