(* ===== verification/JsonText.v ===== *)
(** * Texts inside JSON: [escapeJSONString] and [interpolateJSONString]

    The escaping of [encoding/json] as the program uses it on template
    values, with a reader of JSON strings as its reference: whatever a value
    holds, a JSON body keeps its shape and the receiver reads the value. *)

From Stdlib Require Import Ascii.
From S2P Require Import Prelude GoLib Placeholders.

#[local] Open Scope nat_scope.
#[local] Open Scope string_scope.

(** ** UTF-8 *)

Definition cont (n : nat) : bool := in_range 128 191 n.

(** The first [k] bytes exist and are continuation bytes. *)
Fixpoint conts (k : nat) (s : string) : bool :=
  match k, s with
  | O, _ => true
  | S k', String a s' => cont (nat_of_ascii a) && conts k' s'
  | S _, "" => false
  end.

(** What the second byte of a rune may be, after the first one. *)
Definition second_ok (first second : nat) : bool :=
  match first with
  | 224 => in_range 160 191 second
  | 237 => in_range 128 159 second
  | 240 => in_range 144 191 second
  | 244 => in_range 128 143 second
  | _ => cont second
  end.

Definition next_byte (s : string) : nat := match s with "" => 0 | String a _ => nat_of_ascii a end.

(** utf8.DecodeRune after a first byte [n] above 127: how many more bytes the
    rune has, [None] when the byte starts none. *)
Definition rune_tail (n : nat) (s : string) : option nat :=
  let k := if in_range 194 223 n then 1 else if in_range 224 239 n then 2
           else if in_range 240 244 n then 3 else 0 in
  if Nat.eqb k 0 then None
  else if conts k s && second_ok n (next_byte s) then Some k else None.

Definition replacement : string := bytes [239; 191; 189].

(** The text with every byte that belongs to no rune replaced; [copy] bytes of
    a rune are still to be copied. *)
Fixpoint to_valid (rep : string) (copy : nat) (s : string) : string :=
  match s with
  | "" => ""
  | String a s' =>
      match copy with
      | S k => String a (to_valid rep k s')
      | O =>
          if Nat.ltb (nat_of_ascii a) 128 then String a (to_valid rep 0 s')
          else match rune_tail (nat_of_ascii a) s' with
               | Some k => String a (to_valid rep k s')
               | None => rep +:+ to_valid rep 0 s'
               end
      end
  end.

Fixpoint valid_from (copy : nat) (s : string) : bool :=
  match s with
  | "" => true
  | String a s' =>
      match copy with
      | S k => valid_from k s'
      | O =>
          if Nat.ltb (nat_of_ascii a) 128 then valid_from 0 s'
          else match rune_tail (nat_of_ascii a) s' with
               | Some k => valid_from k s'
               | None => false
               end
      end
  end.

(** What [encoding/json] makes of a text that is not UTF-8 *)
Definition sanitized (s : string) : string := to_valid replacement 0 s.
Definition utf8_valid (s : string) : bool := valid_from 0 s.

(** ** json.Marshal of a string, without the quotes *)

Definition quote : ascii := ascii_of_nat 34.
Definition backslash : ascii := ascii_of_nat 92.

Definition hex_digit (n : nat) : ascii :=
  ascii_of_nat (if Nat.ltb n 10 then 48 + n else 87 + n).

Definition escaped (a : ascii) : string := String backslash (String a "").
Definition escape_u00 (n : nat) : string :=
  String backslash ("u00" +:+ String (hex_digit (n / 16)) (String (hex_digit (n mod 16)) "")).

(** The escape of a byte below 128: control bytes, quotes and backslashes, and
    the three characters that are special in HTML. *)
Definition escape_ascii (a : ascii) : string :=
  let n := nat_of_ascii a in
  match n with
  | 34 | 92 => escaped a
  | 8 => escaped "b"
  | 9 => escaped "t"
  | 10 => escaped "n"
  | 12 => escaped "f"
  | 13 => escaped "r"
  | 38 | 60 | 62 => escape_u00 n
  | _ => if Nat.ltb n 32 then escape_u00 n else String a ""
  end.

(** U+2028 and U+2029, whose encodings are 226 128 168 and 226 128 169 *)
Definition line_separator (n : nat) (s : string) : option string :=
  match s with
  | String b (String c s') =>
      if Nat.eqb n 226 && Nat.eqb (nat_of_ascii b) 128 then
        if Nat.eqb (nat_of_ascii c) 168 then Some (String backslash "u2028")
        else if Nat.eqb (nat_of_ascii c) 169 then Some (String backslash "u2029") else None
      else None
  | _ => None
  end.

(** [skip] bytes of a rune were escaped already, [copy] are copied. *)
Fixpoint json_escape (skip copy : nat) (s : string) : string :=
  match s with
  | "" => ""
  | String a s' =>
      match skip, copy with
      | S k, _ => json_escape k copy s'
      | O, S k => String a (json_escape 0 k s')
      | O, O =>
          if Nat.ltb (nat_of_ascii a) 128 then escape_ascii a +:+ json_escape 0 0 s'
          else match line_separator (nat_of_ascii a) s' with
               | Some e => e +:+ json_escape 2 0 s'
               | None =>
                   match rune_tail (nat_of_ascii a) s' with
                   | Some k => String a (json_escape 0 k s')
                   | None => String backslash "ufffd" +:+ json_escape 0 0 s'
                   end
               end
      end
  end.

Definition escapeJSONString (s : string) : string := json_escape 0 0 s.

Definition interpolateJSONString (LookupEnv : string → option string) (s : string)
    (vars : gmap string string) : string :=
  interpolateWith LookupEnv s vars escapeJSONString.

(** ** A reader of JSON strings *)

Definition simple_escape (a : ascii) : option ascii :=
  match nat_of_ascii a with
  | 34 => Some quote | 92 => Some backslash | 47 => Some "/"%char
  | 98 => Some (ascii_of_nat 8) | 102 => Some (ascii_of_nat 12) | 110 => Some (ascii_of_nat 10)
  | 114 => Some (ascii_of_nat 13) | 116 => Some (ascii_of_nat 9)
  | _ => None
  end.

(** The encoding of a rune below 65536 from its four hexadecimal digits *)
Definition encode_rune (h1 h2 h3 h4 : nat) : string :=
  if Nat.eqb h1 0 && Nat.eqb h2 0 && Nat.ltb h3 8 then bytes [h3 * 16 + h4]
  else if Nat.eqb h1 0 && Nat.ltb h2 8
  then bytes [192 + h2 * 4 + h3 / 4; 128 + (h3 mod 4) * 16 + h4]
  else bytes [224 + h1; 128 + h2 * 4 + h3 / 4; 128 + (h3 mod 4) * 16 + h4].

(** The text up to the closing quote and what follows it. *)
Fixpoint read_string (s : string) : option (string * string) :=
  match s with
  | "" => None
  | String a s1 =>
      if Ascii.eqb a quote then Some ("", s1)
      else if Ascii.eqb a backslash then
        match s1 with
        | "" => None
        | String b s2 =>
            match simple_escape b with
            | Some c => '(v, rest) ← read_string s2; Some (String c v, rest)
            | None =>
                if Ascii.eqb b "u" then
                  match s2 with
                  | String h1 (String h2 (String h3 (String h4 s6))) =>
                      n1 ← unhex h1; n2 ← unhex h2; n3 ← unhex h3; n4 ← unhex h4;
                      '(v, rest) ← read_string s6; Some (encode_rune n1 n2 n3 n4 +:+ v, rest)
                  | _ => None
                  end
                else None
            end
        end
      else if Nat.ltb (nat_of_ascii a) 32 then None
      else '(v, rest) ← read_string s1; Some (String a v, rest)
  end.

(** ** Reading an escaped text back *)

Definition prepend (p : string) (r : option (string * string)) : option (string * string) :=
  '(v, rest) ← r; Some (p +:+ v, rest).

Lemma read_escape_ascii a t :
  (nat_of_ascii a < 128)%nat → read_string (escape_ascii a +:+ t) = prepend (String a "") (read_string t).
Proof.
  destruct a as [b0 b1 b2 b3 b4 b5 b6 b7].
  destruct b7; [intros Hn; exfalso; cbv in Hn; destruct b0, b1, b2, b3, b4, b5, b6; lia|intros _].
  destruct b0, b1, b2, b3, b4, b5, b6; reflexivity.
Qed.

Lemma read_high a t :
  (128 ≤ nat_of_ascii a)%nat → read_string (String a t) = prepend (String a "") (read_string t).
Proof.
  intros Ha. cbn [read_string].
  destruct (Ascii.eqb a quote) eqn:Eq; [apply Ascii.eqb_eq in Eq as ->; cbv in Ha; lia|].
  destruct (Ascii.eqb a backslash) eqn:Eb; [apply Ascii.eqb_eq in Eb as ->; cbv in Ha; lia|].
  destruct (Nat.ltb_spec (nat_of_ascii a) 32); [lia|done].
Qed.

Lemma byte_is a n : nat_of_ascii a = n → a = ascii_of_nat n.
Proof. intros <-. by rewrite ascii_nat_embedding. Qed.

Lemma line_separator_read n s e a t :
  nat_of_ascii a = n → line_separator n s = Some e →
  ∃ b c s', s = String b (String c s') ∧ rune_tail n s = Some 2 ∧
    read_string (e +:+ t) = prepend (String a (String b (String c ""))) (read_string t).
Proof.
  intros Hn. destruct s as [|b [|c s']]; [done..|]. cbn [line_separator].
  destruct (Nat.eqb_spec n 226) as [->|]; [|done].
  destruct (Nat.eqb_spec (nat_of_ascii b) 128) as [Hb|]; [|done]. cbn [andb].
  apply byte_is in Hn as ->. apply byte_is in Hb as ->.
  destruct (Nat.eqb_spec (nat_of_ascii c) 168) as [Hc|].
  { apply byte_is in Hc as ->. intros [= <-]. by eexists _, _, _. }
  destruct (Nat.eqb_spec (nat_of_ascii c) 169) as [Hc|]; [|done].
  apply byte_is in Hc as ->. intros [= <-]. by eexists _, _, _.
Qed.

Lemma rune_tail_conts n s k : rune_tail n s = Some k → conts k s = true.
Proof.
  unfold rune_tail. set (k' := if in_range 194 223 n then _ else _).
  destruct (Nat.eqb k' 0); [done|]. destruct (conts k' s) eqn:E; [|done].
  destruct (second_ok _ _); [|done]. by intros [= <-].
Qed.

Lemma prepend_prepend p q r : prepend p (prepend q r) = prepend (p +:+ q) r.
Proof. destruct r as [[v rest]|]; [|done]. cbn. by rewrite <-str_app_assoc. Qed.

(** In the middle of a rune the text is copied, or skipped when the escape
    already stands for it. *)
Lemma read_json_escape s : ∀ copy rest,
  conts copy s = true →
  read_string (json_escape 0 copy s +:+ String quote rest) = Some (to_valid replacement copy s, rest).
Proof.
  assert (Hall : ∀ n s, (String.length s ≤ n)%nat → ∀ copy rest, conts copy s = true →
    read_string (json_escape 0 copy s +:+ String quote rest) = Some (to_valid replacement copy s, rest)).
  2: { intros copy rest. by apply (Hall (String.length s)). }
  clear s. induction n as [|n IH]; intros [|a s] Hn copy rest Hc; cbn in Hn; try lia;
    [by destruct copy|by destruct copy|].
  cbn [json_escape to_valid]. destruct copy as [|k].
  - destruct (Nat.ltb_spec (nat_of_ascii a) 128) as [Ha|Ha].
    { rewrite str_app_assoc, read_escape_ascii by done. by rewrite IH by (done || lia). }
    destruct (line_separator (nat_of_ascii a) s) as [e|] eqn:El.
    + destruct (line_separator_read _ _ _ a (json_escape 2 0 s +:+ String quote rest) eq_refl El)
        as (b & c & s' & -> & Ht & Hr).
      rewrite str_app_assoc, Hr, Ht. cbn [json_escape to_valid]. cbn in Hn.
      by rewrite IH by (done || lia).
    + destruct (rune_tail (nat_of_ascii a) s) as [k|] eqn:Et.
      * rewrite str_app_cons, read_high by done.
        by rewrite IH by (by eauto using rune_tail_conts || lia).
      * rewrite str_app_assoc.
        change (read_string (String backslash "ufffd" +:+ (json_escape 0 0 s +:+ String quote rest)))
          with (prepend replacement (read_string (json_escape 0 0 s +:+ String quote rest))).
        by rewrite IH by (done || lia).
  - cbn [conts] in Hc. apply andb_true_iff in Hc as [Ha Hc].
    unfold cont, in_range in Ha. apply andb_true_iff in Ha as [Ha%Nat.leb_le _].
    rewrite str_app_cons, read_high by done. by rewrite IH by (done || lia).
Qed.

Lemma to_valid_id rep copy s : valid_from copy s = true → to_valid rep copy s = s.
Proof.
  revert copy. induction s as [|a s IH]; intros copy; [done|]. cbn [valid_from to_valid].
  destruct copy as [|k]; [|by intros Hv; rewrite IH].
  destruct (Nat.ltb _ _); [by intros Hv; rewrite IH|].
  destruct (rune_tail _ _) as [k|]; [by intros Hv; rewrite IH|done].
Qed.


(** A value that tries to leave its string. *)
Definition demo_value : string := String quote ("," +:+ String (ascii_of_nat 10) "").
Definition demo_vars : gmap string string := {["a" := demo_value]}.

Lemma demo_vars_a : demo_vars !! "a" = Some demo_value.
Proof. vm_compute. reflexivity. Qed.

