(* ===== verification/UrlPath.v ===== *)
(** * URL paths of [internal/handler/urlpolicy.go]

    [path.Clean] and the reading of a URL path as its segments: the decoding
    is the same whether it happens before or after the path is cut at its
    slashes, and the prefix test compares whole segments. *)

From Stdlib Require Import Ascii.
From S2P Require Import Prelude GoLib Http.

#[local] Open Scope string_scope.

Definition slash : ascii := "/".
Definition no_slash (s : string) : bool := all_bytes (λ n, negb (Nat.eqb n 47)) s.

(** ** path.Clean *)

(** The segments after empty ones, "." and ".." are processed, the last one
    first in [out]; ".." at the root stays there. *)
Fixpoint clean_segs (rooted : bool) (out segs : list string) : list string :=
  match segs with
  | [] => rev out
  | s :: segs' =>
      if bool_decide (s = "") || bool_decide (s = ".") then clean_segs rooted out segs'
      else if bool_decide (s = "..") then
        match out with
        | x :: out' =>
            if bool_decide (x = "..") then clean_segs rooted (s :: out) segs'
            else clean_segs rooted out' segs'
        | [] => if rooted then clean_segs rooted [] segs' else clean_segs rooted [s] segs'
        end
      else clean_segs rooted (s :: out) segs'
  end.

Definition path_Clean (p : string) : string :=
  let rooted := has_prefix p "/" in
  let body := Join (clean_segs rooted [] (Split p slash)) "/" in
  if rooted then "/" +:+ body else if bool_decide (body = "") then "." else body.

(** ** The functions of the policy *)

Definition isHexDigit (n : nat) : bool := in_range 48 57 n || in_range 97 102 n || in_range 65 70 n.

Fixpoint containsPercentEscape (s : string) : bool :=
  match s with
  | String a (String b (String c _) as s') =>
      Ascii.eqb a "%" && isHexDigit (nat_of_ascii b) && isHexDigit (nat_of_ascii c)
      || containsPercentEscape s'
  | _ => false
  end.

Definition pathPrefixMatch (got prefix : string) : bool :=
  if bool_decide (prefix = "") || bool_decide (prefix = "/") then true
  else
    let got := path_Clean ("/" +:+ TrimPrefix got "/") in
    let prefix := path_Clean ("/" +:+ TrimPrefix prefix "/") in
    bool_decide (got = prefix) || has_prefix got (TrimSuffix prefix "/" +:+ "/").

(** The loop of [canonicalURLPath] over the segments *)
Fixpoint check_segments (segs : list string) : result string unit :=
  match segs with
  | [] => Ok tt
  | segment :: segs' =>
      match PathUnescape segment with
      | None => Err "invalid url path encoding"
      | Some value =>
          if contains value "/"
             || (bool_decide (value = ".") || bool_decide (value = ".."))
                && negb (bool_decide (segment = value))
          then Err "encoded path separators or dot segments are not allowed"
          else check_segments segs'
      end
  end.

Section Paths.
Context `{Url}.

Definition canonicalURLPath (u : url) : result string string :=
  let escaped := EscapedPath u in
  match PathUnescape escaped with
  | None => Err "invalid url path encoding"
  | Some decoded =>
      if contains decoded (String (ascii_of_nat 92) "") || containsPercentEscape decoded
      then Err "ambiguous url path encoding is not allowed"
      else match check_segments (Split escaped slash) with
           | Err e => Err e
           | Ok _ => Ok (path_Clean ("/" +:+ TrimPrefix decoded "/"))
           end
  end.

End Paths.

Example clean_ex : List.map path_Clean ["/a/./b//../c/"; "/../x"; "a/../.."; ""; "/"] =
  ["/a/c"; "/x"; ".."; "."; "/"].
Proof. vm_compute. reflexivity. Qed.

(** ** Cutting and joining *)

Lemma Split_no_slash s : no_slash s = true → Split s slash = [s].
Proof.
  induction s as [|a s IH]; [done|]. unfold no_slash. cbn [all_bytes Split].
  intros [Ha Hs]%andb_true_iff. destruct (Ascii.eqb a slash) eqn:E.
  - apply Ascii.eqb_eq in E as ->. done.
  - by rewrite IH.
Qed.

Lemma Split_segs s : Forall (λ x, no_slash x = true) (Split s slash).
Proof.
  induction s as [|a s IH]; [by repeat constructor|]. cbn [Split].
  destruct (Ascii.eqb a slash) eqn:E; [by constructor|].
  assert (no_slash (String a "") = true) as Ha.
  { unfold no_slash. cbn. rewrite andb_true_r, negb_true_iff. apply Nat.eqb_neq. intros Hn.
    apply Ascii.eqb_neq in E. apply E. by rewrite <-(ascii_nat_embedding a), Hn. }
  unfold no_slash in *. cbn [all_bytes] in Ha. rewrite andb_true_r in Ha.
  destruct (Split s slash) as [|x l]; [by repeat constructor; cbn; rewrite Ha|].
  inversion_clear IH as [|?? Hx Hl]. constructor; [|done]. cbn. by rewrite Ha.
Qed.

Lemma Join_cons x y l sep : Join (x :: y :: l) sep = x +:+ sep +:+ Join (y :: l) sep.
Proof. done. Qed.

Lemma Join_app l l' :
  l ≠ [] → l' ≠ [] → Join (l ++ l')%list "/" = Join l "/" +:+ String slash (Join l' "/").
Proof.
  intros Hl Hl'. induction l as [|x l IH]; [done|]. destruct l as [|y l].
  - destruct l' as [|z l']; done.
  - change ((x :: y :: l) ++ l')%list with (x :: y :: (l ++ l'))%list.
    rewrite !Join_cons, !str_app_assoc. f_equal. f_equal. by apply IH.
Qed.

Lemma Split_Join l :
  l ≠ [] → Forall (λ x, no_slash x = true) l → Split (Join l "/") slash = l.
Proof.
  intros Hne Hl. induction Hl as [|x l Hx Hl IH]; [done|].
  destruct l as [|y l]; [by apply Split_no_slash|]. rewrite Join_cons.
  change (x +:+ "/" +:+ Join (y :: l) "/") with (x +:+ String slash (Join (y :: l) "/")).
  rewrite Split_concat, Split_no_slash, IH by done. done.
Qed.

Lemma has_prefix_split s p : has_prefix s p = true → ∃ t, s = p +:+ t.
Proof.
  revert s. induction p as [|b p IH]; intros s; [by exists s|].
  destruct s as [|a s]; [done|]. cbn. intros [->%Ascii.eqb_eq Hp]%andb_true_iff.
  destruct (IH _ Hp) as [t ->]. by exists t.
Qed.

(** ** Resolved paths *)

Record plain_seg (s : string) : Prop := {
  pl_slash : no_slash s = true;
  pl_name : s ≠ "" ∧ s ≠ "." ∧ s ≠ "..";
}.

Lemma clean_segs_plain out segs :
  Forall plain_seg out → Forall (λ x, no_slash x = true) segs →
  Forall plain_seg (clean_segs true out segs).
Proof.
  intros Ho Hs. revert out Ho. induction Hs as [|s segs Hs _ IH]; intros out Ho; cbn [clean_segs].
  { by apply Forall_rev. }
  case_bool_decide as He; [by apply IH|]. case_bool_decide as Hd; [by apply IH|]. cbn [orb].
  case_bool_decide as Hdd; [|by apply IH; constructor].
  destruct Ho as [|x out Hx Ho]; [by apply IH|].
  rewrite bool_decide_false by apply (pl_name x Hx). by apply IH.
Qed.

Lemma clean_segs_id out segs :
  Forall plain_seg segs → clean_segs true out segs = (rev out ++ segs)%list.
Proof.
  intros Hs. revert out. induction Hs as [|s segs [_ (H1 & H2 & H3)] _ IH]; intros out; cbn [clean_segs].
  { by rewrite app_nil_r. }
  rewrite !bool_decide_false by done. cbn [orb]. rewrite IH. cbn [rev]. by rewrite <-app_assoc.
Qed.

(** The segments a path stands for. *)
Definition segs_of (p : string) : list string := clean_segs true [] (Split p slash).

Lemma segs_of_plain p : Forall plain_seg (segs_of p).
Proof. apply clean_segs_plain; [done|]. apply Split_segs. Qed.

Lemma segs_of_slash p : segs_of (String slash p) = segs_of p.
Proof. done. Qed.

Lemma segs_of_trim p : segs_of (TrimPrefix p "/") = segs_of p.
Proof.
  unfold TrimPrefix. destruct (has_prefix p "/") eqn:E; [|done].
  apply has_prefix_split in E as [t ->]. by rewrite drop_app.
Qed.

Lemma path_Clean_rooted p : path_Clean ("/" +:+ p) = String slash (Join (segs_of p) "/").
Proof. by destruct p. Qed.

Lemma plain_no_slash l : Forall plain_seg l → Forall (λ x, no_slash x = true) l.
Proof. intros Hl. eapply Forall_impl; [done|]. by intros x [? _]. Qed.

Lemma segs_of_Join l : Forall plain_seg l → segs_of (Join l "/") = l.
Proof.
  intros Hl. unfold segs_of. destruct l as [|x l]; [done|].
  rewrite Split_Join by (done || by apply plain_no_slash). by rewrite clean_segs_id.
Qed.

Lemma segs_of_Clean p : segs_of (path_Clean ("/" +:+ p)) = segs_of p.
Proof. rewrite path_Clean_rooted, segs_of_slash. apply segs_of_Join, segs_of_plain. Qed.

(** ** The prefix test *)

(** A text that ends in a plain segment does not end in a slash. *)
Lemma no_slash_suffix s x : no_slash x = true → x ≠ "" → HasSuffix (s +:+ x) "/" = false.
Proof.
  intros Hx Hne. unfold HasSuffix. rewrite str_rev_app.
  assert (no_slash (str_rev x "") = true) as Hr
    by (unfold no_slash in *; by apply all_bytes_rev).
  assert (String.length (str_rev x "") = String.length x) as Hl.
  { clear. assert (∀ acc, String.length (str_rev x acc) = String.length x + String.length acc)%nat as ->.
    { induction x as [|a x IH]; intros acc; [done|]. cbn. rewrite IH. cbn. lia. }
    cbn. lia. }
  destruct (str_rev x "") as [|a y]; [by destruct x|].
  rewrite str_app_cons. change (str_rev "/" "") with (String slash ""). cbn [has_prefix].
  destruct (Ascii.eqb slash a) eqn:E; [|done]. apply Ascii.eqb_eq in E as <-. done.
Qed.

Lemma Join_last l x : ∃ s, Join (l ++ [x])%list "/" = s +:+ x.
Proof.
  destruct l as [|y l]; [by exists ""|]. rewrite Join_app by done.
  exists (Join (y :: l) "/" +:+ "/"). by rewrite str_app_assoc.
Qed.

Lemma TrimSuffix_Join l :
  Forall plain_seg l →
  TrimSuffix (String slash (Join l "/")) "/" = if bool_decide (l = []) then "" else String slash (Join l "/").
Proof.
  intros Hl. case_bool_decide as E; [by subst|]. unfold TrimSuffix.
  destruct (exists_last E) as (l' & x & ->). destruct (Join_last l' x) as [s Hs]. rewrite Hs.
  apply Forall_app in Hl as [_ [[Hx (Hne & _)] _]%Forall_cons].
  change (String slash (s +:+ x)) with (String slash s +:+ x). by rewrite no_slash_suffix.
Qed.

Lemma Join_inj l l' : Forall plain_seg l → Forall plain_seg l' → Join l "/" = Join l' "/" → l = l'.
Proof. intros Hl Hl' E. by rewrite <-(segs_of_Join l), <-(segs_of_Join l'), E. Qed.

Lemma Join_prefix p g :
  Forall plain_seg p → Forall plain_seg g → p ≠ [] →
  has_prefix (Join g "/") (Join p "/" +:+ "/") = true → p `prefix_of` g.
Proof.
  intros Hp Hg Hne [u Hu]%has_prefix_split. rewrite str_app_assoc in Hu.
  assert (g ≠ []) as Hg0.
  { intros ->. destruct (exists_last Hne) as (p' & x & ->), (Join_last p' x) as [s Hs].
    rewrite Hs in Hu. by destruct s, x. }
  exists (Split u slash).
  rewrite <-(Split_Join g), Hu by (done || by apply plain_no_slash).
  change (Join p "/" +:+ "/" +:+ u) with (Join p "/" +:+ String slash u).
  rewrite Split_concat. f_equal. by rewrite Split_Join by (done || by apply plain_no_slash).
Qed.

(** One path is below another exactly when it has the other's segments first. *)
Lemma pathPrefixMatch_segs got prefix :
  pathPrefixMatch got prefix = true ↔ segs_of prefix `prefix_of` segs_of got.
Proof.
  unfold pathPrefixMatch.
  destruct (bool_decide (prefix = "")) eqn:E1;
    [apply bool_decide_eq_true_1 in E1 as ->; split; [intros _; apply prefix_nil|done]|].
  destruct (bool_decide (prefix = "/")) eqn:E2;
    [apply bool_decide_eq_true_1 in E2 as ->; split; [intros _; apply prefix_nil|done]|].
  clear E1 E2. cbn [orb]. rewrite !path_Clean_rooted, !segs_of_trim.
  pose proof (segs_of_plain got) as Hg. pose proof (segs_of_plain prefix) as Hp.
  revert Hg Hp. generalize (segs_of got) as g, (segs_of prefix) as p. intros g p Hg Hp.
  rewrite TrimSuffix_Join by done. rewrite orb_true_iff, bool_decide_eq_true.
  case_bool_decide as Hne.
  { subst. split; [intros _; apply prefix_nil|]. intros _. right. exact (has_prefix_app "/" (Join g "/")). }
  split.
  - intros [[= E]|Hpre]; [by rewrite (Join_inj g p)|]. by apply Join_prefix.
  - intros [t ->]. destruct t as [|x t]; [left; by rewrite app_nil_r|right].
    rewrite Join_app by done.
    change (String slash (Join p "/" +:+ String slash (Join (x :: t) "/")))
      with (String slash (Join p "/" +:+ ("/" +:+ Join (x :: t) "/"))).
    rewrite <-str_app_assoc. exact (has_prefix_app (String slash (Join p "/" +:+ "/")) _).
Qed.

(** ** Decoding *)

Lemma contains_byte c s :
  contains s (String c "") = false → all_bytes (λ n, negb (Nat.eqb n (nat_of_ascii c))) s = true.
Proof.
  induction s as [|a s IH]; [done|]. cbn [contains all_bytes has_prefix].
  destruct (Ascii.eqb_spec c a) as [->|Hne]; [by destruct s|]. cbn [andb orb]. intros Hs.
  rewrite IH, andb_true_r by done. apply negb_true_iff, Nat.eqb_neq. intros E. apply Hne.
  by rewrite <-(ascii_nat_embedding c), <-E, ascii_nat_embedding.
Qed.

Lemma unhex_slash : unhex slash = None.
Proof. done. Qed.

(** Decoding the whole path and cutting it is cutting it and decoding the
    segments, when no segment hides a slash. *)
Lemma PathUnescape_segments e : ∀ d dec,
  PathUnescape e = Some d → mapM PathUnescape (Split e slash) = Some dec →
  Forall (λ v, no_slash v = true) dec → Split d slash = dec.
Proof.
  assert (Hall : ∀ n e, (String.length e ≤ n)%nat → ∀ d dec,
    PathUnescape e = Some d → mapM PathUnescape (Split e slash) = Some dec →
    Forall (λ v, no_slash v = true) dec → Split d slash = dec); [|by eauto].
  clear e. induction n as [|n IH]; intros [|a e] Hn d dec Hd Hm Hf; cbn in Hn; try lia.
  1-2: injection Hd as <-; injection Hm as <-; reflexivity.
  cbn [PathUnescape] in Hd. cbn [Split] in Hm. destruct (Ascii.eqb_spec a "%") as [->|Hne].
  - destruct e as [|h1 [|h2 e]]; [done..|].
    destruct (unhex h1) as [n1|] eqn:E1; [|done]. destruct (unhex h2) as [n2|] eqn:E2; [|done].
    cbn [mbind option_bind] in Hd. destruct (PathUnescape e) as [d'|] eqn:Ed; [|done].
    injection Hd as <-. cbn [Ascii.eqb Bool.eqb andb] in Hm.
    change (Ascii.eqb "%" slash) with false in Hm. cbn [Split] in Hm.
    destruct (Ascii.eqb_spec h1 slash) as [->|_]; [done|].
    destruct (Ascii.eqb_spec h2 slash) as [->|_]; [done|].
    destruct (Split_nonempty e slash) as (x & l & Hx). rewrite Hx in Hm. cbn iota in Hm.
    apply mapM_Some in Hm. inversion Hm as [|? v ? vs Hv Hvs]; subst.
    cbn [PathUnescape] in Hv. change (Ascii.eqb "%" "%") with true in Hv. cbn iota in Hv.
    rewrite E1, E2 in Hv. cbn [mbind option_bind] in Hv.
    destruct (PathUnescape x) as [tx|] eqn:Etx; [|done]. injection Hv as <-.
    apply Forall_cons in Hf as [Hf Hfs].
    unfold no_slash in Hf. cbn [all_bytes] in Hf. apply andb_true_iff in Hf as [Hc Hf].
    assert (Split d' slash = tx :: vs) as Hs.
    { apply (IH e); [cbn in Hn; lia|done| |by constructor].
      rewrite Hx. apply mapM_Some. by constructor. }
    cbn [Split]. rewrite Hs. destruct (Ascii.eqb_spec (ascii_of_nat (n1 * 16 + n2)) slash) as [E|]; [|done].
    rewrite E in Hc. done.
  - destruct (PathUnescape e) as [d'|] eqn:Ed; [|done]. injection Hd as <-.
    destruct (Ascii.eqb_spec a slash) as [->|Hns].
    + apply mapM_Some in Hm. inversion Hm as [|? v ? vs Hv Hvs]; subst. cbn in Hv. simplify_eq.
      apply Forall_cons in Hf as [_ Hf]. cbn [Split]. change (Ascii.eqb slash slash) with true. cbn iota.
      f_equal. apply (IH e); [lia|done| |done]. by apply mapM_Some.
    + destruct (Split_nonempty e slash) as (x & l & Hx). rewrite Hx in Hm. cbn iota in Hm.
      apply mapM_Some in Hm. inversion Hm as [|? v ? vs Hv Hvs]; subst.
      cbn [PathUnescape] in Hv. rewrite (proj2 (Ascii.eqb_neq a "%")) in Hv by done.
      destruct (PathUnescape x) as [tx|] eqn:Etx; [|done]. injection Hv as <-.
      apply Forall_cons in Hf as [Hf Hfs].
      unfold no_slash in Hf. cbn [all_bytes] in Hf. apply andb_true_iff in Hf as [Hc Hf].
      assert (Split d' slash = tx :: vs) as Hs.
      { apply (IH e); [lia|done| |by constructor]. rewrite Hx. apply mapM_Some. by constructor. }
      cbn [Split]. rewrite Hs. by rewrite (proj2 (Ascii.eqb_neq a slash)).
Qed.

Lemma check_segments_Ok segs : check_segments segs = Ok tt →
  ∃ dec, Forall2 (λ raw v, PathUnescape raw = Some v ∧ no_slash v = true ∧
    (v = "." ∨ v = ".." → raw = v)) segs dec.
Proof.
  induction segs as [|s segs IH]; cbn [check_segments]; [by exists []|].
  destruct (PathUnescape s) as [v|] eqn:Ev; [|done].
  destruct (contains v "/" || _) eqn:Eb; [done|]. intros Hc. destruct (IH Hc) as [dec Hdec].
  apply orb_false_iff in Eb as [Hsl Hdot]. exists (v :: dec). constructor; [|done].
  split; [done|]. split; [exact (contains_byte slash v Hsl)|].
  intros Hv. apply andb_false_iff in Hdot as [Hdot|Hdot].
  - apply orb_false_iff in Hdot as [H1 H2].
    apply bool_decide_eq_false_1 in H1, H2. naive_solver.
  - by apply negb_false_iff, bool_decide_eq_true_1 in Hdot.
Qed.

(** What an accepted path means: its segments, decoded one by one, hide no
    separator and no dot segment, and the canonical path resolves them. *)
Lemma canonicalURLPath_Ok `{Url} u p :
  canonicalURLPath u = Ok p →
  ∃ dec, Forall2 (λ raw v, PathUnescape raw = Some v ∧ no_slash v = true ∧
      (v = "." ∨ v = ".." → raw = v)) (Split (EscapedPath u) slash) dec ∧
    PathUnescape (EscapedPath u) = Some (Join dec "/") ∧
    contains (Join dec "/") (String (ascii_of_nat 92) "") = false ∧
    containsPercentEscape (Join dec "/") = false ∧
    segs_of p = clean_segs true [] dec.
Proof.
  unfold canonicalURLPath. destruct (PathUnescape (EscapedPath u)) as [d|] eqn:Ed; [|done].
  destruct (contains d _ || _) eqn:Eb; [done|]. apply orb_false_iff in Eb as [Hb Hp].
  destruct (check_segments _) as [[]|] eqn:Ec; [|done]. intros [= <-].
  apply check_segments_Ok in Ec as [dec Hdec]. exists dec.
  assert (Forall (λ v, no_slash v = true) dec) as Hns.
  { eapply Forall2_Forall_r; [done|]. apply Forall_true. by intros ? ? (_ & ? & _). }
  assert (Split d slash = dec) as Hs.
  { apply (PathUnescape_segments (EscapedPath u)); [done| |done]. apply mapM_Some.
    eapply Forall2_impl; [done|]. by intros ?? [? _]. }
  assert (Join dec "/" = d) as ->.
  { rewrite <-Hs. clear. induction d as [|a d IH]; [done|]. cbn [Split].
    destruct (Split_nonempty d slash) as (x & l & Hx). rewrite Hx in *.
    destruct (Ascii.eqb_spec a slash) as [->|_].
    - rewrite Join_cons, IH. done.
    - destruct l as [|y l]; [cbn in *; by rewrite IH|]. rewrite Join_cons in *. by rewrite <-IH. }
  split_and!; try done. change ("/" +:+ TrimPrefix d "/") with (String slash (TrimPrefix d "/")).
  rewrite <-Hs. fold (segs_of d).
  change (String slash (TrimPrefix d "/")) with ("/" +:+ TrimPrefix d "/").
  by rewrite segs_of_Clean, segs_of_trim.
Qed.
