(* ===== verification/UrlPolicy.v ===== *)
(** * Which destinations an action may reach: [internal/handler/urlpolicy.go]

    The structural policy on URLs and on the addresses they resolve to. An
    error is the format string of its [fmt.Errorf]. *)

From Stdlib Require Import Ascii.
From S2P Require Import Prelude GoLib Http UrlPath.

#[local] Open Scope string_scope.

(** ** Addresses: the methods of [net.IP] on its bytes *)

Definition v4_prefix : list Z := [0; 0; 0; 0; 0; 0; 0; 0; 0; 0; 255; 255].

Definition To4 (ip : list Z) : option (list Z) :=
  if Nat.eqb (length ip) 4 then Some ip
  else if Nat.eqb (length ip) 16 && bool_decide (take 12 ip = v4_prefix) then Some (list.drop 12 ip)
  else None.

Definition byte_at (ip : list Z) (i : nat) : Z := nth i ip 0.
Definition is_v6 (ip : list Z) : bool := Nat.eqb (length ip) 16.

Definition IsUnspecified (ip : list Z) : bool :=
  match To4 ip with
  | Some v4 => bool_decide (v4 = [0; 0; 0; 0])
  | None => bool_decide (ip = replicate 16 0)
  end.

Definition IsLoopback (ip : list Z) : bool :=
  match To4 ip with
  | Some v4 => (byte_at v4 0 =? 127)%Z
  | None => bool_decide (ip = (replicate 15 0 ++ [1])%list)
  end.

Definition IsPrivate (ip : list Z) : bool :=
  match To4 ip with
  | Some v4 =>
      (byte_at v4 0 =? 10)%Z
      || (byte_at v4 0 =? 172)%Z && (Z.land (byte_at v4 1) 240 =? 16)%Z
      || (byte_at v4 0 =? 192)%Z && (byte_at v4 1 =? 168)%Z
  | None => is_v6 ip && (Z.land (byte_at ip 0) 254 =? 252)%Z
  end.

Definition IsMulticast (ip : list Z) : bool :=
  match To4 ip with
  | Some v4 => (Z.land (byte_at v4 0) 240 =? 224)%Z
  | None => is_v6 ip && (byte_at ip 0 =? 255)%Z
  end.

Definition IsLinkLocalMulticast (ip : list Z) : bool :=
  match To4 ip with
  | Some v4 => (byte_at v4 0 =? 224)%Z && (byte_at v4 1 =? 0)%Z && (byte_at v4 2 =? 0)%Z
  | None => is_v6 ip && (byte_at ip 0 =? 255)%Z && (Z.land (byte_at ip 1) 15 =? 2)%Z
  end.

Definition IsLinkLocalUnicast (ip : list Z) : bool :=
  match To4 ip with
  | Some v4 => (byte_at v4 0 =? 169)%Z && (byte_at v4 1 =? 254)%Z
  | None => is_v6 ip && (byte_at ip 0 =? 254)%Z && (Z.land (byte_at ip 1) 192 =? 128)%Z
  end.

(** A nil address is the empty slice. *)
Definition validateDestinationIP (ip : list Z) (allowPrivate : bool) : result string unit :=
  if bool_decide (ip = []) then Err "invalid destination ip"
  else if IsLoopback ip || IsLinkLocalUnicast ip || IsLinkLocalMulticast ip || IsUnspecified ip
          || IsMulticast ip
  then Err "destination ip blocked: %s"
  else if IsPrivate ip && negb allowPrivate
  then Err "private destination ip requires allow_private: %s"
  else Ok tt.

(** ** Hosts *)

Definition normalizeHostname (host : string) : string := TrimSuffix (ToLower (TrimSpace host)) ".".

Definition isBlockedHostname (host : string) : bool :=
  let h := normalizeHostname host in
  existsb (String.eqb h) ["localhost"; "metadata.google.internal"; "metadata.azure.internal"]
  || HasSuffix h ".localhost".

Section Policy.
Context `{Net, Url}.

Definition effectivePort (u : url) : string :=
  if negb (bool_decide (Port u = "")) then Port u
  else
    let scheme := ToLower (u_scheme u) in
    if bool_decide (scheme = "https") then "443"
    else if bool_decide (scheme = "http") then "80" else "".

(** An entry that is the text of a URL *)
Definition match_url_entry (u : url) (canonicalPath entry : string) : bool :=
  match ParseURL entry with
  | None => false
  | Some allowed =>
      if bool_decide (u_scheme allowed = "") || bool_decide (u_host allowed = "")
         || u_has_user allowed || negb (bool_decide (u_raw_query allowed = ""))
         || negb (bool_decide (u_fragment allowed = ""))
      then false
      else if negb (EqualFold (u_scheme u) (u_scheme allowed))
              || negb (bool_decide (normalizeHostname (Hostname u) = normalizeHostname (Hostname allowed)))
      then false
      else if negb (bool_decide (effectivePort u = effectivePort allowed)) then false
      else match canonicalURLPath allowed with
           | Ok allowedPath => pathPrefixMatch canonicalPath allowedPath
           | Err _ => false
           end
  end.

Definition matchAllowlistEntry (u : url) (canonicalPath entry : string) : bool :=
  if bool_decide (entry = "") then false
  else match ParseCIDR entry with
  | Some network =>
      match ParseIP (Hostname u) with Some ip => IPNet_Contains network ip | None => false end
  | None =>
      if contains entry "://" then match_url_entry u canonicalPath entry
      else if EqualFold (u_host u) entry then true
      else negb (contains entry ":")
           && bool_decide (normalizeHostname (Hostname u) = normalizeHostname entry)
           && bool_decide (Port u = "")
  end.

Definition check_literal_ip (host : string) (allowPrivate : bool) : result string unit :=
  match ParseIP host with
  | Some ip => validateDestinationIP (IP_bytes ip) allowPrivate
  | None => Ok tt
  end.

Definition check_allowlist (u : url) (scheme canonicalPath : string) (allowlist : list string) :
    result string unit :=
  match allowlist with
  | [] =>
      if negb (bool_decide (scheme = "https"))
      then Err "url scheme %q not allowed without allowlist (https only)" else Ok tt
  | _ =>
      if existsb (λ entry, matchAllowlistEntry u canonicalPath (TrimSpace entry)) allowlist
      then Ok tt else Err "destination not in url_allowlist"
  end.

Definition ValidateURLDestinationWithPolicy (raw : string) (allowlist : list string)
    (allowPrivate : bool) : result string unit :=
  match ParseURL raw with
  | None => Err "invalid url"
  | Some u =>
      if bool_decide (u_scheme u = "") || bool_decide (u_host u = "") then Err "invalid url"
      else if u_has_user u then Err "url userinfo is not allowed"
      else
        let scheme := ToLower (u_scheme u) in
        if negb (bool_decide (scheme = "http")) && negb (bool_decide (scheme = "https"))
        then Err "url scheme %q not allowed"
        else match canonicalURLPath u with
        | Err e => Err e
        | Ok canonicalPath =>
            let host := normalizeHostname (Hostname u) in
            if bool_decide (host = "") then Err "invalid url host"
            else if isBlockedHostname host then Err "destination host blocked: %s"
            else match check_literal_ip host (allowPrivate && negb (bool_decide (allowlist = []))) with
            | Err e => Err e
            | Ok _ => check_allowlist u scheme canonicalPath allowlist
            end
        end
  end.

Definition ValidateURLDestination (raw : string) (allowlist : list string) : result string unit :=
  ValidateURLDestinationWithPolicy raw allowlist false.

End Policy.

(** ** What the address checks exclude *)

(** Bytes of an address *)
Definition ip_bytes_ok (ip : list Z) : Prop :=
  (length ip = 4%nat ∨ length ip = 16%nat) ∧ Forall (λ b, 0 ≤ b < 256)%Z ip.

(** The IPv4 address of four or of sixteen bytes, or the IPv6 address *)
Definition v4_of (ip : list Z) (a b c d : Z) : Prop :=
  ip = [a; b; c; d] ∨ ip = (v4_prefix ++ [a; b; c; d])%list.

Definition public_v4 (allowPrivate : bool) (a b c d : Z) : Prop :=
  (a ≠ 127 ∧ ¬ (a = 169 ∧ b = 254) ∧ ¬ (224 ≤ a < 240) ∧ [a; b; c; d] ≠ [0; 0; 0; 0])%Z ∧
  (allowPrivate = false →
   a ≠ 10 ∧ ¬ (a = 172 ∧ 16 ≤ b < 32) ∧ ¬ (a = 192 ∧ b = 168))%Z.

Definition public_v6 (allowPrivate : bool) (ip : list Z) : Prop :=
  ip ≠ replicate 16 0%Z ∧ ip ≠ (replicate 15 0 ++ [1])%list%Z ∧
  (byte_at ip 0 ≠ 255 ∧ ¬ (byte_at ip 0 = 254 ∧ 128 ≤ byte_at ip 1 < 192))%Z ∧
  (allowPrivate = false → ¬ (252 ≤ byte_at ip 0 < 254)%Z).

(** A claim about one byte is checked on all of them. *)
Lemma byte_forall (P : Z → bool) :
  forallb P (seqZ 0 256) = true → ∀ b, (0 ≤ b < 256)%Z → P b = true.
Proof.
  intros Hall b Hb. rewrite forallb_forall in Hall. apply Hall.
  apply list_elem_of_In, elem_of_seqZ. lia.
Qed.

Lemma mask_240 b m : (0 ≤ b < 256)%Z → m = 224%Z ∨ m = 16%Z →
  (Z.land b 240 =? m)%Z = ((m <=? b) && (b <? m + 16))%Z.
Proof.
  intros Hb [->| ->]; apply Bool.eqb_prop;
    [exact (byte_forall (λ b, Bool.eqb (Z.land b 240 =? 224)%Z ((224 <=? b) && (b <? 224 + 16))%Z)
       eq_refl b Hb)
    |exact (byte_forall (λ b, Bool.eqb (Z.land b 240 =? 16)%Z ((16 <=? b) && (b <? 16 + 16))%Z)
       eq_refl b Hb)].
Qed.

Lemma mask_254 b : (0 ≤ b < 256)%Z → (Z.land b 254 =? 252)%Z = ((252 <=? b) && (b <? 254))%Z.
Proof.
  intros Hb. apply Bool.eqb_prop.
  exact (byte_forall (λ b, Bool.eqb (Z.land b 254 =? 252)%Z ((252 <=? b) && (b <? 254))%Z) eq_refl b Hb).
Qed.

Lemma mask_192 b : (0 ≤ b < 256)%Z → (Z.land b 192 =? 128)%Z = ((128 <=? b) && (b <? 192))%Z.
Proof.
  intros Hb. apply Bool.eqb_prop.
  exact (byte_forall (λ b, Bool.eqb (Z.land b 192 =? 128)%Z ((128 <=? b) && (b <? 192))%Z) eq_refl b Hb).
Qed.

Lemma To4_v4 ip a b c d : v4_of ip a b c d → To4 ip = Some [a; b; c; d].
Proof. by intros [->| ->]. Qed.

Lemma validateDestinationIP_v4 ip a b c d allowPrivate :
  v4_of ip a b c d → (0 ≤ a < 256)%Z → (0 ≤ b < 256)%Z →
  validateDestinationIP ip allowPrivate = Ok tt ↔ public_v4 allowPrivate a b c d.
Proof.
  intros Hip Ha Hb. pose proof (To4_v4 _ _ _ _ _ Hip) as H4. unfold validateDestinationIP.
  rewrite bool_decide_false by (by destruct Hip as [->| ->]).
  unfold IsLoopback, IsLinkLocalUnicast, IsLinkLocalMulticast, IsUnspecified, IsMulticast, IsPrivate.
  rewrite H4. cbn [byte_at nth]. rewrite !mask_240 by auto.
  unfold public_v4. destruct (_ || _) eqn:E1.
  - split; [done|]. intros [(H1 & H2 & H3 & H5) _]. exfalso.
    rewrite !orb_true_iff, !andb_true_iff, bool_decide_eq_true in E1.
    repeat destruct E1 as [E1|E1]; (lia || tauto).
  - rewrite !orb_false_iff, !andb_false_iff, bool_decide_eq_false in E1.
    destruct allowPrivate; [rewrite andb_false_r|rewrite andb_true_r].
    + split; [|done]. intros _. split; [|done]. split_and!; (lia || tauto).
    + destruct (_ || _) eqn:E2.
      * rewrite !orb_true_iff, !andb_true_iff in E2. split; [done|]. intros [_ Hp].
        specialize (Hp eq_refl). lia.
      * rewrite !orb_false_iff, !andb_false_iff in E2. split; [|done]. intros _.
        split; [split_and!; (lia || tauto)|lia].
Qed.

Lemma validateDestinationIP_v6 ip allowPrivate :
  length ip = 16%nat → Forall (λ b, 0 ≤ b < 256)%Z ip → To4 ip = None →
  validateDestinationIP ip allowPrivate = Ok tt ↔ public_v6 allowPrivate ip.
Proof.
  intros Hl Hb H4. unfold validateDestinationIP. rewrite bool_decide_false by (by destruct ip).
  unfold IsLoopback, IsLinkLocalUnicast, IsLinkLocalMulticast, IsUnspecified, IsMulticast, IsPrivate.
  rewrite H4. unfold is_v6. rewrite Hl. change (Nat.eqb 16 16) with true. cbn [andb].
  assert (∀ i, 0 ≤ byte_at ip i < 256)%Z as Hbi.
  { intros i. unfold byte_at. destruct (decide (i < length ip)%nat) as [Hi|Hi].
    - rewrite Forall_forall in Hb. apply Hb, list_elem_of_In, nth_In. lia.
    - rewrite nth_overflow by lia. lia. }
  pose proof (Hbi 0%nat). pose proof (Hbi 1%nat).
  rewrite mask_254, mask_192 by done. unfold public_v6. destruct (_ || _) eqn:E1.
  - split; [done|]. intros (H1 & H2 & H3 & _). exfalso.
    rewrite !orb_true_iff, !andb_true_iff, !bool_decide_eq_true in E1.
    repeat destruct E1 as [E1|E1]; (lia || tauto).
  - rewrite !orb_false_iff, !andb_false_iff, !bool_decide_eq_false in E1.
    destruct allowPrivate; [rewrite andb_false_r|rewrite andb_true_r].
    + split; [|done]. intros _. split_and!; (lia || tauto).
    + destruct (_ && _) eqn:E2.
      * rewrite andb_true_iff in E2. split; [done|]. intros (_ & _ & _ & Hp). specialize (Hp eq_refl). lia.
      * rewrite andb_false_iff in E2. split; [|done]. intros _. split_and!; (lia || tauto).
Qed.

(** ** What an accepted destination is *)

Section Accepted.
Context `{Net, Url}.

(** The path of a URL, read segment by segment without ambiguity, leads to
    these segments. *)
Definition path_segments (u : url) (segs : list string) : Prop :=
  ∃ dec, Forall2 (λ raw v, PathUnescape raw = Some v ∧ no_slash v = true ∧
      (v = "." ∨ v = ".." → raw = v)) (Split (EscapedPath u) slash) dec ∧
    contains (Join dec "/") (String (ascii_of_nat 92) "") = false ∧
    containsPercentEscape (Join dec "/") = false ∧
    segs = clean_segs true [] dec.

Lemma canonical_segments u p : canonicalURLPath u = Ok p → path_segments u (segs_of p).
Proof.
  intros (dec & Hdec & _ & Hb & Hp & Hs)%canonicalURLPath_Ok. by exists dec.
Qed.

Record url_entry_allows (u allowed : url) (segs : list string) : Prop := {
  ua_exact : u_has_user allowed = false ∧ u_raw_query allowed = "" ∧ u_fragment allowed = "";
  ua_scheme : fold_case (u_scheme u) = fold_case (u_scheme allowed);
  ua_host : normalizeHostname (Hostname u) = normalizeHostname (Hostname allowed);
  ua_port : effectivePort u = effectivePort allowed;
  ua_path : ∃ prefix, path_segments allowed prefix ∧ prefix `prefix_of` segs;
}.

(** A CIDR entry allows the literal addresses in it, a URL entry the paths
    below it, any other entry one host. *)
Definition entry_allows (u : url) (segs : list string) (entry : string) : Prop :=
  (∃ network ip, ParseCIDR entry = Some network ∧ ParseIP (Hostname u) = Some ip ∧
     IPNet_Contains network ip = true) ∨
  (∃ allowed, ParseURL entry = Some allowed ∧ url_entry_allows u allowed segs) ∨
  fold_case (u_host u) = fold_case entry ∨
  normalizeHostname (Hostname u) = normalizeHostname entry ∧ Port u = "".

Lemma match_url_entry_allows u p entry :
  match_url_entry u p entry = true →
  ∃ allowed, ParseURL entry = Some allowed ∧ url_entry_allows u allowed (segs_of p).
Proof.
  unfold match_url_entry. destruct (ParseURL entry) as [al|]; [|done].
  destruct (_ || negb (bool_decide (u_fragment al = ""))) eqn:E1; [done|].
  destruct (negb (EqualFold _ _) || _) eqn:E2; [done|].
  destruct (negb (bool_decide (effectivePort u = _))) eqn:E3; [done|].
  destruct (canonicalURLPath al) as [ap|] eqn:Ep; [|done]. intros Hm.
  unfold EqualFold in E2. guards. exists al. split; [done|]. split; try done.
  exists (segs_of ap). split; [by apply canonical_segments|]. by apply pathPrefixMatch_segs.
Qed.

Lemma matchAllowlistEntry_allows u p entry :
  matchAllowlistEntry u p entry = true → entry_allows u (segs_of p) entry.
Proof.
  unfold matchAllowlistEntry. case_bool_decide; [done|].
  destruct (ParseCIDR entry) as [network|] eqn:Ec.
  { destruct (ParseIP (Hostname u)) as [ip|] eqn:Ei; [|done]. intros Hc. left. by exists network, ip. }
  destruct (contains entry "://").
  { intros Hm%match_url_entry_allows. right. by left. }
  unfold EqualFold. case_bool_decide as Hf; [intros _; right; right; by left|].
  intros Hm. bool_simpl. right; right; right. done.
Qed.

Record destination_ok (allowlist : list string) (allowPrivate : bool) (u : url) : Prop := {
  do_scheme : ToLower (u_scheme u) = "http" ∨ ToLower (u_scheme u) = "https";
  do_user : u_has_user u = false;
  do_host : normalizeHostname (Hostname u) ≠ "" ∧
    isBlockedHostname (normalizeHostname (Hostname u)) = false;
  do_ip : ∀ ip, ParseIP (normalizeHostname (Hostname u)) = Some ip →
    ip_bytes_ok (IP_bytes ip) →
    let private := allowPrivate && negb (bool_decide (allowlist = [])) in
    (∀ a b c d, v4_of (IP_bytes ip) a b c d → public_v4 private a b c d) ∧
    (To4 (IP_bytes ip) = None → public_v6 private (IP_bytes ip));
  do_path : ∃ segs, path_segments u segs ∧
    (allowlist = [] ∧ ToLower (u_scheme u) = "https" ∨
     ∃ entry, entry ∈ allowlist ∧ entry_allows u segs (TrimSpace entry));
}.

Lemma validateDestinationIP_ok ip private :
  validateDestinationIP ip private = Ok tt → ip_bytes_ok ip →
  (∀ a b c d, v4_of ip a b c d → public_v4 private a b c d) ∧
  (To4 ip = None → public_v6 private ip).
Proof.
  intros Hv [Hl Hb]. split.
  - intros a b c d Hip. apply (validateDestinationIP_v4 _ _ _ _ _ _ Hip); [..|done].
    all: rewrite Forall_forall in Hb; apply Hb; destruct Hip as [->| ->]; set_solver.
  - intros H4. apply validateDestinationIP_v6; try done. destruct Hl as [Hl|Hl]; [|done].
    unfold To4 in H4. by rewrite Hl in H4.
Qed.

Lemma check_allowlist_ok u p allowlist :
  check_allowlist u (ToLower (u_scheme u)) p allowlist = Ok tt →
  allowlist = [] ∧ ToLower (u_scheme u) = "https" ∨
  ∃ entry, entry ∈ allowlist ∧ entry_allows u (segs_of p) (TrimSpace entry).
Proof.
  unfold check_allowlist. destruct allowlist as [|x l].
  - case_bool_decide; [|done]. by left.
  - destruct (existsb _ _) eqn:E; [|done]. intros _. right.
    apply existsb_exists in E as (entry & Hin & Hm). exists entry.
    split; [by apply list_elem_of_In|]. by apply matchAllowlistEntry_allows.
Qed.

Lemma policy_ok raw allowlist allowPrivate :
  ValidateURLDestinationWithPolicy raw allowlist allowPrivate = Ok tt →
  ∃ u, ParseURL raw = Some u ∧ destination_ok allowlist allowPrivate u.
Proof.
  unfold ValidateURLDestinationWithPolicy. destruct (ParseURL raw) as [u|]; [|done].
  destruct (bool_decide (u_scheme u = "") || _); [done|].
  destruct (u_has_user u) eqn:Eu; [done|].
  destruct (negb _ && _) eqn:Es; [done|].
  destruct (canonicalURLPath u) as [p|] eqn:Ep; [|done].
  destruct (bool_decide (normalizeHostname (Hostname u) = "")) eqn:Eh; [done|].
  destruct (isBlockedHostname _) eqn:Eb; [done|].
  destruct (check_literal_ip _ _) as [[]|] eqn:Ei; [|done]. intros Ha.
  exists u. split; [done|]. apply bool_decide_eq_false_1 in Eh. split; try done.
  - apply andb_false_iff in Es as [Es|Es]; apply negb_false_iff, bool_decide_eq_true_1 in Es; auto.
  - intros ip Hip Hb. unfold check_literal_ip in Ei. rewrite Hip in Ei.
    by apply validateDestinationIP_ok.
  - exists (segs_of p). split; [by apply canonical_segments|]. by apply check_allowlist_ok.
Qed.

(** C23: a destination the policy accepts is what the operator allowed: http or
    https without credentials, to a host that is not a local or metadata
    name, to no loopback, link-local, multicast or unspecified address and to
    a private one only with the opt-in and an allowlist; its path can be read
    in one way only; and without an allowlist it is https, with one an entry
    allows it, a URL entry only for paths below its own, segment by segment
    after dots are resolved. *)
Theorem accepted_destination (raw : string) (allowlist : list string) (allowPrivate : bool) :
  ValidateURLDestinationWithPolicy raw allowlist allowPrivate = Ok tt →
  ∃ u, ParseURL raw = Some u ∧ destination_ok allowlist allowPrivate u.
Proof. apply policy_ok. Qed.

End Accepted.

(** ** URLs of the form scheme://host:port/path *)

Module Demo.

Record web : Type := MkWeb { w_scheme : string; w_host : string; w_path : string }.

Fixpoint cut_at (sep s : string) : option (string * string) :=
  if has_prefix s sep then Some ("", drop (String.length sep) s)
  else match s with
       | "" => None
       | String a s' => '(x, y) ← cut_at sep s'; Some (String a x, y)
       end.

Definition parse (s : string) : option web :=
  '(scheme, rest) ← cut_at "://" s;
  Some match cut_at "/" rest with
       | Some (host, path) => MkWeb scheme host (String slash path)
       | None => MkWeb scheme rest ""
       end.

Definition show (u : web) : string := w_scheme u +:+ "://" +:+ w_host u +:+ w_path u.

#[export] Instance web_url : Url := {|
  url := web; ParseURL := parse; u_scheme := w_scheme; u_host := w_host; u_path := w_path;
  u_raw_query _ := ""; u_fragment _ := ""; u_opaque _ := ""; u_has_user u := contains (w_host u) "@";
  Hostname u := match cut_at ":" (w_host u) with Some (h, _) => h | None => w_host u end;
  Port u := match cut_at ":" (w_host u) with Some (_, p) => p | None => "" end;
  EscapedPath := w_path; Query _ := ∅; Encode _ := ""; ParseQuery _ := Some ∅;
  set_raw_query _ u := u; set_scheme s u := MkWeb s (w_host u) (w_path u);
  set_raw_path r _ u := MkWeb (w_scheme u) (w_host u) r;
  set_path p u := MkWeb (w_scheme u) (w_host u) p; url_string := show;
|}.

(** Addresses are four decimal bytes, networks are not used. *)
Definition dotted (s : string) : option (list Z) :=
  l ← mapM ParseInt (Split s "."); if Nat.eqb (length l) 4 then Some l else None.

#[export] Instance dotted_net : Net := {|
  IP := list Z; IPNet := unit; ParseIP := dotted; ParseCIDR _ := None; IP_bytes ip := ip;
  IP_Equal a b := bool_decide (a = b); IPNet_Contains _ _ := false;
  SplitHost s := head (Split s ":");
|}.

End Demo.
#[local] Existing Instance Demo.web_url.
#[local] Existing Instance Demo.dotted_net.

Example policy_refuses : map (λ raw, is_ok (ValidateURLDestinationWithPolicy raw ["https://hooks.example/hooks"] false))
  ["https://hooks.example/hooks/%2e%2e/admin"; "https://hooks.example/hooks/../admin";
   "https://hooks.example/hooks-evil"; "https://u@hooks.example/hooks"; "http://hooks.example/hooks";
   "https://hooks.example/hooks/a/../b"] = [false; false; false; false; false; true].
Proof. vm_compute. reflexivity. Qed.

Example policy_addresses : map (λ raw, is_ok (ValidateURLDestination raw []))
  ["https://127.0.0.1/"; "https://10.1.2.3/"; "https://169.254.169.254/"; "https://LOCALHOST./";
   "https://8.8.8.8/"] = [false; false; false; false; true].
Proof. vm_compute. reflexivity. Qed.

Lemma accepted_destination_witness :
  ∃ u, ParseURL "https://hooks.example/hooks/a/../b" = Some u ∧
    destination_ok ["https://hooks.example/hooks"] false u.
Proof.
  refine (accepted_destination "https://hooks.example/hooks/a/../b" ["https://hooks.example/hooks"] false _).
  vm_compute. reflexivity.
Defined.
