(* ===== verification/HeartbeatLogs.v ===== *)
(** * Heartbeat audit records: [internal/store/heartbeat_logs.go]

    The texts of a record are bounded and cleaned before they reach SQLite;
    the newest records are listed first. *)

From Stdlib Require Import Ascii.
From S2P Require Import Prelude Sql StoreSchema Store GoLib Placeholders JsonText.

#[local] Open Scope string_scope.

Definition heartbeatTargetMaxBytes : nat := 128.
Definition heartbeatOriginMaxBytes : nat := 512.
Definition heartbeatErrorMaxBytes : nat := 2048.
Definition heartbeatLogDefault : Z := 50.
Definition heartbeatLogMax : Z := 100.

(** ** Texts *)

(** strings.ToValidUTF8(s, "") *)
Definition drop_invalid (s : string) : string := to_valid "" 0 s.

Definition truncateHeartbeatText (raw : string) (limit : nat) : string :=
  drop_invalid (if Nat.ltb limit (String.length raw) then String.substring 0 limit raw else raw).

(** The text [t] in any case, and what follows it *)
Fixpoint match_fold (t s : string) : option string :=
  match t, s with
  | "", _ => Some s
  | String c t', String a s' => if Ascii.eqb c (lower_byte a) then match_fold t' s' else None
  | String _ _, "" => None
  end.

(** https?:// in any case, where U+017F is a case of s *)
Definition url_heads : list string := ["http://"; "https://"; "http" +:+ bytes [197; 191]%nat +:+ "://"].

(** A byte of a URL: no white space, angle bracket or quote *)
Definition url_byte (n : nat) : bool :=
  negb (existsb (Nat.eqb n) [9; 10; 12; 13; 32; 60; 62; 34; 39])%nat.

(** [heartbeatLogURL]: the rest after a URL at the start of the text; there are
    no groups. *)
Definition heartbeatLogURL (s : string) : option (placeholder * string) :=
  head (omap (λ t,
    match match_fold t s with
    | Some (String a _ as r) =>
        if url_byte (nat_of_ascii a) then Some (("", ""), (take_while url_byte r).2) else None
    | _ => None
    end) url_heads).

(** strings.Map with unicode.IsControl on a valid text: the bytes below 32,
    127, and the runes from U+0080 to U+009F *)
Fixpoint map_control (s : string) : string :=
  match s with
  | "" => ""
  | String a s1 =>
      let n := nat_of_ascii a in
      if Nat.ltb n 32 || Nat.eqb n 127 then String " " (map_control s1)
      else match s1 with
           | String b s2 =>
               if Nat.eqb n 194 && in_range 128 159 (nat_of_ascii b)
               then String " " (map_control s2) else String a (map_control s1)
           | "" => String a (map_control s1)
           end
  end.

Definition heartbeatAuditText (raw : string) (limit : nat) : string :=
  let raw := truncateHeartbeatText raw (limit * 4) in
  let raw := replace_all heartbeatLogURL (λ _ _, "[url]") raw in
  let raw := map_control raw in
  truncateHeartbeatText (TrimSpace raw) limit.

(** ** Records *)

(** A [HeartbeatLog]; [None] is the zero time. *)
Record HeartbeatLog : Type := MkHeartbeatLog {
  hl_target : string;
  hl_origin : string;
  hl_mode : string;
  hl_health : string;
  hl_error : string;
  hl_http_status : Z;
  hl_duration_ms : Z;
  hl_created_at : option Z;
}.

Section HeartbeatLogs.
Context `{Env, SqlOrder, Url}.
(** (&url.URL{Scheme: scheme, Host: host}).String() *)
Context (origin_url : string → string → string).
#[local] Abbreviation SM := (M (conn DB) store_err).

Definition heartbeatAuditOrigin (raw : string) : string :=
  if Nat.ltb (Z.to_nat 8192) (String.length raw) then ""
  else match ParseURL (TrimSpace raw) with
  | None => ""
  | Some u =>
      if bool_decide (u_host u = "") || negb (bool_decide (u_opaque u = ""))
         || negb (bool_decide (u_scheme u = "http")) && negb (bool_decide (u_scheme u = "https"))
      then ""
      else
        let origin := origin_url (u_scheme u) (u_host u) in
        if Nat.ltb heartbeatOriginMaxBytes (String.length origin) then "" else origin
  end.

(** INSERT INTO heartbeat_logs *)
Definition insert_heartbeat (row : Z → heartbeat_log_row) (db : DB) : unit * DB :=
  let id := (heartbeat_logs_seq db + 1)%Z in
  (tt, set_heartbeat_logs (heartbeat_logs db ++ [row id]) id db).

Definition audit_row (entry : HeartbeatLog) (created : Z) (id : Z) : heartbeat_log_row :=
  HeartbeatLogRow id (heartbeatAuditText (hl_target entry) heartbeatTargetMaxBytes)
    (heartbeatAuditOrigin (hl_origin entry)) (heartbeatAuditText (hl_mode entry) 32)
    (heartbeatAuditText (hl_health entry) 32)
    (heartbeatAuditText (hl_error entry) heartbeatErrorMaxBytes)
    (if (hl_http_status entry <? 100)%Z || (599 <? hl_http_status entry)%Z then 0
     else hl_http_status entry)
    (if (hl_duration_ms entry <? 0)%Z then 0 else hl_duration_ms entry)
    created (unix_milli created).

Definition SaveHeartbeatError (deadline : option Z) (entry : HeartbeatLog) : SM unit :=
  created ← match hl_created_at entry with Some t => mret t | None => time_now end;
  withDeadlineWriter deadline (exec (insert_heartbeat (audit_row entry created))).

(** ORDER BY created_at_ms DESC, id DESC *)
Definition newer_first (x y : heartbeat_log_row) : bool :=
  if (hb_created_at_ms x =? hb_created_at_ms y)%Z then (hb_id y <=? hb_id x)%Z
  else (hb_created_at_ms y <? hb_created_at_ms x)%Z.

Definition list_limit (limit : Z) : Z :=
  let limit := if (limit <=? 0)%Z then heartbeatLogDefault else limit in
  if (heartbeatLogMax <? limit)%Z then heartbeatLogMax else limit.

(** A record as it is read back: its time is that of the milliseconds. *)
Definition read_row (r : heartbeat_log_row) : heartbeat_log_row :=
  HeartbeatLogRow (hb_id r) (hb_target r) (hb_origin r) (hb_mode r) (hb_health r) (hb_error r)
    (hb_http_status r) (hb_duration_ms r) (of_unix_milli (hb_created_at_ms r)) (hb_created_at_ms r).

Definition ListHeartbeatErrors (limit : Z) : SM (list heartbeat_log_row) :=
  query (λ db, read_row <$>
    take (Z.to_nat (list_limit limit)) (order_by newer_first (heartbeat_logs db))).

End HeartbeatLogs.

Example audit_ex : heartbeatAuditText ("dial " +:+ "HTTPS://u:p@h/t?k=1" +:+ bytes [9; 255; 10]%nat +:+ " failed") 64 =
  "dial [url]   failed".
Proof. vm_compute. reflexivity. Qed.
