(* ===== verification/HeartbeatLogProps.v ===== *)
(** * What a heartbeat audit record may hold

    The texts of a record are bounded, have no control bytes and no URL; a
    record that was saved is read back as it was cleaned, newest first. *)

From Stdlib Require Import Ascii.
From S2P Require Import Prelude Sql StoreSchema Store GoLib Http Placeholders JsonText UrlPath UrlPolicy HeartbeatLogs.

#[local] Open Scope string_scope.

(** ** Texts without URLs *)

Definition no_url (s : string) : Prop :=
  ∀ pre rest, s = pre +:+ rest → heartbeatLogURL rest = None.

(** The bytes a URL starts with, in any case *)
Definition head_byte (n : nat) : bool :=
  existsb (Nat.eqb n) [104; 116; 112; 115; 72; 84; 80; 83; 58; 47; 197; 191]%nat.

Lemma heartbeatLogURL_None s :
  heartbeatLogURL s = None ↔
  ∀ t a r, t ∈ url_heads → match_fold t s = Some (String a r) → url_byte (nat_of_ascii a) = false.
Proof.
  unfold heartbeatLogURL. set (f := λ t, _). split.
  - intros Hn t a r Ht Hm. destruct (url_byte (nat_of_ascii a)) eqn:Ea; [|done].
    assert (∃ x, f t = Some x) as [x Hx] by (unfold f; rewrite Hm, Ea; by eexists).
    assert (x ∈ omap f url_heads) as Hin by (apply list_elem_of_omap; eauto).
    by destruct (omap f url_heads); [apply elem_of_nil in Hin|].
  - intros Hall. destruct (omap f url_heads) as [|x l] eqn:E; [done|].
    assert (x ∈ omap f url_heads) as Hin by (rewrite E; by left).
    apply list_elem_of_omap in Hin as (t & Ht & Hx). unfold f in Hx.
    destruct (match_fold t s) as [[|a r]|] eqn:Em; [done| |done].
    by rewrite (Hall t a r Ht Em) in Hx.
Qed.

(** A text that was copied byte by byte, except where something was replaced
    by text without a byte a URL starts with. *)
Inductive cleaned : string → string → Prop :=
| cl_nil : cleaned "" ""
| cl_copy a s out :
    heartbeatLogURL (String a s) = None → cleaned s out → cleaned (String a s) (String a out)
| cl_repl b x s c w out :
    all_bytes (λ n, negb (head_byte n)) (String c w) = true →
    (url_byte (nat_of_ascii c) = true → url_byte (nat_of_ascii b) = true) →
    cleaned s out → cleaned (String b (x +:+ s)) (String c (w +:+ out)).

Lemma lower_head_byte a c :
  lower_byte a = c → head_byte (nat_of_ascii c) = true → head_byte (nat_of_ascii a) = true.
Proof.
  intros <-. destruct a as [[] [] [] [] [] [] [] []]; vm_compute; done.
Qed.

(** A URL start in the result is one in the original. *)
Lemma cleaned_match t s out a r :
  all_bytes head_byte t = true → cleaned s out → match_fold t out = Some (String a r) →
  url_byte (nat_of_ascii a) = true →
  ∃ b r0, match_fold t s = Some (String b r0) ∧ url_byte (nat_of_ascii b) = true.
Proof.
  revert s out. induction t as [|c t IH]; intros s out Ht Hc Hm Ha.
  - cbn in Hm. destruct Hc as [|x s out Hn Hc|b x s c w out Hw Hb Hc].
    + done.
    + exists x, s. injection Hm as <- _. done.
    + injection Hm as <- _. exists b, (x +:+ s). auto.
  - cbn [all_bytes] in Ht. apply andb_true_iff in Ht as [Hhead Ht]. destruct Hc as [|x s out Hn Hc|b x s c' w out Hw Hb Hc].
    + done.
    + cbn in Hm |- *. destruct (Ascii.eqb c (lower_byte x)); [|done]. by eapply IH.
    + exfalso. cbn [match_fold] in Hm. destruct (Ascii.eqb_spec c (lower_byte c')) as [E|]; [|done].
      cbn [all_bytes] in Hw. apply andb_true_iff in Hw as [Hw _]. apply negb_true_iff in Hw.
      by rewrite (lower_head_byte c' c) in Hw.
Qed.

Lemma url_heads_bytes t : t ∈ url_heads → all_bytes head_byte t = true ∧ t ≠ "".
Proof.
  unfold url_heads. rewrite !elem_of_cons, elem_of_nil. intros [->|[->|[->|[]]]];
    (split; [vm_compute; reflexivity|done]).
Qed.

(** What starts with another byte does not start with a URL. *)
Lemma no_match_head c w :
  head_byte (nat_of_ascii c) = false → heartbeatLogURL (String c w) = None.
Proof.
  intros Hc. apply heartbeatLogURL_None. intros t a r Ht Hm.
  destruct (url_heads_bytes t Ht) as [Hb Hne]. destruct t as [|x t]; [done|].
  cbn [match_fold] in Hm. cbn [all_bytes] in Hb. apply andb_true_iff in Hb as [Hb _].
  destruct (Ascii.eqb_spec x (lower_byte c)) as [E|]; [|done].
  by rewrite (lower_head_byte c x) in Hc.
Qed.

Lemma cleaned_no_url s out : cleaned s out → no_url out.
Proof.
  induction 1 as [|a s out Hn Hc IH|b x s c w out Hw Hb Hc IH]; intros pre rest E.
  - destruct pre; [|done]. change ("" = rest) in E. by subst.
  - destruct pre as [|p pre].
    + change (String a out = rest) in E. subst rest. apply heartbeatLogURL_None. intros t a' r Ht Hm.
      destruct (url_byte (nat_of_ascii a')) eqn:Ea; [|done].
      destruct (cleaned_match t (String a s) (String a out) a' r) as (b & r0 & Hm' & Hb); try done.
      * by apply url_heads_bytes.
      * by constructor.
      * rewrite heartbeatLogURL_None in Hn. by rewrite (Hn t b r0) in Hb.
    + rewrite str_app_cons in E. injection E as -> E. by eapply IH.
  - change (String c (w +:+ out)) with (String c w +:+ out) in E.
    revert E Hw. generalize (String c w) as v. clear -IH. intros v. revert pre.
    induction v as [|c v IHv]; intros pre E Hv; [by eapply IH|].
    cbn [all_bytes] in Hv. apply andb_true_iff in Hv as [Hc Hv]. apply negb_true_iff in Hc.
    rewrite str_app_cons in E. destruct pre as [|p pre].
    + change (String c (v +:+ out) = rest) in E. subst rest. by apply no_match_head.
    + rewrite str_app_cons in E. injection E as <- E. by apply (IHv pre).
Qed.

(** ** The steps of [heartbeatAuditText] *)

Lemma take_while_split p s : s = (take_while p s).1 +:+ (take_while p s).2.
Proof.
  induction s as [|a s IH]; [done|]. cbn [take_while]. destruct (p _); [|done].
  destruct (take_while p s) as [x rest]. cbn [fst snd] in *. by rewrite IH at 1.
Qed.

Lemma match_fold_split t s r : match_fold t s = Some r → ∃ x, s = x +:+ r.
Proof.
  revert s. induction t as [|c t IH]; intros s; cbn [match_fold].
  { intros [= ->]. by exists "". }
  destruct s as [|a s]; [done|]. destruct (Ascii.eqb _ _); [|done].
  intros (x & ->)%IH. by exists (String a x).
Qed.

Lemma match_fold_length t s r :
  match_fold t s = Some r → (String.length r + String.length t = String.length s)%nat.
Proof.
  revert s. induction t as [|c t IH]; intros s; cbn [match_fold]; [intros [= ->]; cbn; lia|].
  destruct s as [|a s]; [done|]. destruct (Ascii.eqb _ _); [|done]. intros ?%IH. cbn. lia.
Qed.

Lemma heartbeatLogURL_Some s p rest :
  heartbeatLogURL s = Some (p, rest) →
  ∃ b x, s = String b (x +:+ rest) ∧ url_byte (nat_of_ascii b) = true.
Proof.
  unfold heartbeatLogURL. set (f := λ t, _). intros Hh.
  destruct (omap f url_heads) as [|y l] eqn:E; [done|]. injection Hh as ->.
  assert ((p, rest) ∈ omap f url_heads) as Hin by (rewrite E; by left).
  apply list_elem_of_omap in Hin as (t & Ht & Hx). unfold f in Hx.
  destruct (match_fold t s) as [[|a r]|] eqn:Em; [done| |done].
  destruct (match_fold_split _ _ _ Em) as [y Hy].
  pose proof (take_while_split url_byte (String a r)) as Hs.
  set (tw := take_while url_byte (String a r)) in *.
  destruct (url_byte (nat_of_ascii a)); [|done]. injection Hx as <- <-.
  destruct (url_heads_bytes t Ht) as [_ Hne].
  destruct y as [|b y].
  { (* a head is not empty *)
    exfalso. change (s = String a r) in Hy. apply match_fold_length in Em. rewrite Hy in Em.
    destruct t; [done|]. cbn in Em. lia. }
  exists b, (y +:+ tw.1). split.
  - rewrite Hy. rewrite Hs at 1. by rewrite str_app_cons, !str_app_assoc.
  - subst s. rewrite str_app_cons in Em. destruct t as [|c t]; [done|]. cbn [match_fold] in Em.
    destruct (Ascii.eqb_spec c (lower_byte b)) as [E'|]; [|done].
    assert (c = ascii_of_nat 104) as ->.
    { unfold url_heads in Ht. rewrite !elem_of_cons, elem_of_nil in Ht.
      destruct Ht as [[= -> _]|[[= -> _]|[[= -> _]|[]]]]; done. }
    destruct b as [[] [] [] [] [] [] [] []]; (discriminate E' || reflexivity).
Qed.

Lemma replace_cleaned s : cleaned s (replace_all heartbeatLogURL (λ _ _, "[url]") s).
Proof.
  unfold replace_all, matches.
  assert (∀ fuel, (String.length s ≤ fuel)%nat →
    cleaned s (render (λ _ _, "[url]") (scan heartbeatLogURL fuel s))) as Hall; [|by apply Hall].
  intros fuel. revert s. induction fuel as [|fuel IH]; intros [|a s] Hf; cbn [scan];
    try constructor; [cbn in Hf; lia|].
  destruct (heartbeatLogURL (String a s)) as [[p rest]|] eqn:Em.
  - destruct (heartbeatLogURL_Some _ _ _ Em) as (b & x & [= -> ->] & Hb). cbn [render].
    destruct p as [ns key].
    change ("[url]" +:+ ?o) with (String "[" ("url]" +:+ o)).
    apply (cl_repl b x rest "[" "url]"); [done|done|].
    apply IH. cbn in Hf. rewrite str_app_length in Hf. lia.
  - cbn [render]. constructor; [done|]. apply IH. cbn in Hf. lia.
Qed.

Lemma no_url_tail a s : no_url (String a s) → no_url s.
Proof. intros Hn pre rest ->. by apply (Hn (String a pre) rest). Qed.

Lemma map_control_cleaned s : no_url s → cleaned s (map_control s).
Proof.
  assert (∀ n s, (String.length s ≤ n)%nat → no_url s → cleaned s (map_control s)) as Hall;
    [|by apply (Hall (String.length s))].
  clear s. induction n as [|n IH]; intros [|a s] Hl Hn; try constructor; [cbn in Hl; lia|].
  cbn in Hl. pose proof (Hn "" _ eq_refl) as Ha. pose proof (no_url_tail _ _ Hn) as Hs.
  cbn [map_control]. destruct (_ || _).
  { apply (cl_repl a "" s " " ""); [done|done|]. apply IH; [lia|done]. }
  destruct s as [|b s]; [by repeat constructor|].
  destruct (_ && _).
  - apply (cl_repl a (String b "") s " " ""); [done|done|].
    apply IH; [cbn in Hl; lia|]. by apply no_url_tail in Hs.
  - constructor; [done|]. apply IH; [lia|done].
Qed.

(** [t] occurs in [s] *)
Definition infix (t s : string) : Prop := ∃ x y, s = x +:+ t +:+ y.

Lemma match_fold_app t s r u : match_fold t s = Some r → match_fold t (s +:+ u) = Some (r +:+ u).
Proof.
  revert s. induction t as [|c t IH]; intros s; cbn [match_fold]; [by intros [= ->]|].
  destruct s as [|a s]; [done|]. rewrite str_app_cons. destruct (Ascii.eqb _ _); [by apply IH|done].
Qed.

Lemma no_url_infix s t : infix t s → no_url s → no_url t.
Proof.
  intros (x & y & ->) Hn pre rest ->.
  specialize (Hn (x +:+ pre) (rest +:+ y)). rewrite heartbeatLogURL_None in Hn |- *.
  intros h a r Hh Hm. apply (Hn ltac:(by rewrite !str_app_assoc) h a (r +:+ y)); [done|].
  by rewrite (match_fold_app _ _ _ _ Hm).
Qed.

Lemma substring_infix n s : infix (String.substring 0 n s) s.
Proof.
  assert (∃ y, s = String.substring 0 n s +:+ y) as [y Hy]; [|by exists "", y].
  revert n. induction s as [|a s IH]; intros [|n]; cbn [String.substring];
    [by exists ""|by exists ""|by exists (String a s)|].
  destruct (IH n) as [y Hy]. exists y. by rewrite str_app_cons, <-Hy.
Qed.

Lemma drop_suffix n s : ∃ x, s = x +:+ drop n s.
Proof.
  revert s. induction n as [|n IH]; intros [|a s]; cbn [drop]; try by exists "".
  destruct (IH s) as [x Hx]. exists (String a x). by rewrite str_app_cons, <-Hx.
Qed.

Lemma trim_left_suffix runes fuel s : ∃ x, s = x +:+ trim_left runes fuel s.
Proof.
  revert s. induction fuel as [|fuel IH]; intros s; cbn [trim_left]; [by exists ""|].
  destruct (List.find _ _) as [r|]; [|by exists ""].
  destruct (drop_suffix (String.length r) s) as [x Hx], (IH (drop (String.length r) s)) as [y Hy].
  exists (x +:+ y). by rewrite str_app_assoc, <-Hy.
Qed.

Lemma TrimSpace_infix s : infix (TrimSpace s) s.
Proof.
  unfold TrimSpace. set (l := trim_left _ _ s).
  destruct (trim_left_suffix space_runes (String.length s) s) as [x Hx]. fold l in Hx.
  destruct (trim_left_suffix ((λ r, str_rev r "") <$> space_runes) (String.length l) (str_rev l ""))
    as [y Hy]. set (r := trim_left _ _ (str_rev l "")) in *.
  exists x, (str_rev y ""). rewrite Hx at 1. f_equal.
  rewrite <-(str_rev_involutive l), Hy at 1. apply str_rev_app.
Qed.

(** ** Bytes *)

Lemma to_valid_length copy s : (String.length (to_valid "" copy s) ≤ String.length s)%nat.
Proof.
  revert copy. induction s as [|a s IH]; intros copy; [done|]. cbn [to_valid].
  destruct copy as [|k]; [|cbn; specialize (IH k); lia].
  destruct (Nat.ltb _ _); [cbn; specialize (IH 0%nat); lia|].
  destruct (rune_tail _ _) as [k|]; [cbn; specialize (IH k); lia|].
  change ("" +:+ ?x) with x. specialize (IH 0%nat). cbn. lia.
Qed.

Lemma all_bytes_to_valid p copy s : all_bytes p s = true → all_bytes p (to_valid "" copy s) = true.
Proof.
  revert copy. induction s as [|a s IH]; intros copy; [done|]. cbn [all_bytes].
  intros [Ha Hs]%andb_true_iff. cbn [to_valid].
  destruct copy as [|k]; [|cbn; by rewrite Ha, IH].
  destruct (Nat.ltb _ _); [cbn; by rewrite Ha, IH|].
  destruct (rune_tail _ _) as [k|]; [cbn; by rewrite Ha, IH|]. by apply IH.
Qed.

Definition ascii_text (s : string) : Prop := all_bytes (λ n, Nat.ltb n 128) s = true.

Lemma to_valid_ascii rep s : ascii_text s → to_valid rep 0 s = s.
Proof.
  unfold ascii_text. induction s as [|a s IH]; [done|]. cbn [all_bytes to_valid].
  intros [Ha Hs]%andb_true_iff. by rewrite Ha, IH.
Qed.

Lemma all_bytes_app p s t : all_bytes p (s +:+ t) = all_bytes p s && all_bytes p t.
Proof.
  induction s as [|a s IH]; [done|]. rewrite str_app_cons. cbn [all_bytes].
  by rewrite IH, andb_assoc.
Qed.

Lemma all_bytes_infix p t s : infix t s → all_bytes p s = true → all_bytes p t = true.
Proof. intros (x & y & ->). rewrite !all_bytes_app. intros H. by bool_simpl. Qed.

Lemma replace_ascii s : ascii_text s → ascii_text (replace_all heartbeatLogURL (λ _ _, "[url]") s).
Proof.
  unfold replace_all, matches. generalize (String.length s) as fuel. intros fuel.
  revert s. induction fuel as [|fuel IH]; intros [|a s] Hs; cbn [scan]; try done.
  destruct (heartbeatLogURL (String a s)) as [[[ns key] rest]|] eqn:Em.
  - destruct (heartbeatLogURL_Some _ _ _ Em) as (b & x & E & _). cbn [render].
    unfold ascii_text. rewrite all_bytes_app. apply IH. apply (all_bytes_infix _ rest (String a s)); [|done].
    exists (String b x), "". by rewrite E, str_app_nil, str_app_cons.
  - unfold ascii_text in *. cbn [render all_bytes] in *. apply andb_true_iff in Hs as [Ha Hs].
    by rewrite Ha, IH.
Qed.

(** No control byte *)
Definition printable (s : string) : Prop :=
  all_bytes (λ n, negb (Nat.ltb n 32 || Nat.eqb n 127)) s = true.

Lemma map_control_bytes s :
  printable (map_control s) ∧ (ascii_text s → ascii_text (map_control s)).
Proof.
  unfold printable, ascii_text.
  assert (∀ n s, (String.length s ≤ n)%nat →
    all_bytes (λ n, negb (Nat.ltb n 32 || Nat.eqb n 127)) (map_control s) = true ∧
    (all_bytes (λ n, Nat.ltb n 128) s = true → all_bytes (λ n, Nat.ltb n 128) (map_control s) = true))
    as Hall; [|by apply (Hall (String.length s))].
  clear s. induction n as [|n IH]; intros [|a s] Hl; cbn in Hl; try (by split); try lia.
  cbn [map_control]. destruct (_ || _) eqn:Ec.
  { destruct (IH s) as [H1 H2]; [lia|]. split; [done|]. cbn [all_bytes].
    intros [_ Hs]%andb_true_iff. by apply H2. }
  destruct s as [|b s]; [by cbn [all_bytes]; rewrite Ec|].
  destruct (_ && _) eqn:Eb.
  - destruct (IH s) as [H1 H2]; [cbn in Hl; lia|]. split; [done|]. cbn [all_bytes].
    intros Hs. bool_simpl. by apply H2.
  - destruct (IH (String b s)) as [H1 H2]; [lia|]. cbn [all_bytes] in H2 |- *. rewrite Ec. split; [done|].
    intros [Ha Hs]%andb_true_iff. rewrite Ha. by apply H2.
Qed.

Lemma truncate_bytes raw limit :
  (String.length (truncateHeartbeatText raw limit) ≤ limit)%nat ∧
  (∀ p, all_bytes p raw = true → all_bytes p (truncateHeartbeatText raw limit) = true) ∧
  (ascii_text raw → infix (truncateHeartbeatText raw limit) raw).
Proof.
  unfold truncateHeartbeatText, drop_invalid.
  set (t := if Nat.ltb limit (String.length raw) then _ else _).
  assert (infix t raw) as Ht.
  { unfold t. destruct (Nat.ltb _ _); [apply substring_infix|]. exists "", "". by rewrite str_app_nil. }
  split; [|split].
  - etrans; [apply to_valid_length|]. unfold t.
    destruct (Nat.ltb_spec limit (String.length raw)); [|lia]. rewrite substring_length. lia.
  - intros p Hp. apply all_bytes_to_valid. by eapply all_bytes_infix.
  - intros Ha. rewrite to_valid_ascii; [done|]. by eapply all_bytes_infix.
Qed.

(** A cleaned text is bounded, printable, and for ASCII input free of URLs. *)
Lemma heartbeatAuditText_safe raw limit :
  (String.length (heartbeatAuditText raw limit) ≤ limit)%nat ∧
  printable (heartbeatAuditText raw limit) ∧
  (ascii_text raw → no_url (heartbeatAuditText raw limit)).
Proof.
  unfold heartbeatAuditText. set (raw' := truncateHeartbeatText raw _).
  set (s := replace_all _ _ raw').
  destruct (map_control_bytes s) as [Hp Ha].
  destruct (truncate_bytes (TrimSpace (map_control s)) limit) as (Hl & Hb & Hi).
  split; [done|]. split; [by apply Hb, all_bytes_TrimSpace|]. intros Hraw.
  assert (ascii_text s) as Hs.
  { apply replace_ascii. by apply (truncate_bytes raw (limit * 4)). }
  eapply no_url_infix; [apply Hi; by apply all_bytes_TrimSpace, Ha|].
  eapply no_url_infix; [apply TrimSpace_infix|].
  apply (cleaned_no_url s), map_control_cleaned, (cleaned_no_url raw'), replace_cleaned.
Qed.

(** ** Saving and listing *)

Lemma newer_first_total x y : newer_first x y = true ∨ newer_first y x = true.
Proof.
  unfold newer_first. destruct (Z.eqb_spec (hb_created_at_ms x) (hb_created_at_ms y)) as [E|E].
  - rewrite E, Z.eqb_refl, !Z.leb_le. lia.
  - rewrite (proj2 (Z.eqb_neq (hb_created_at_ms y) (hb_created_at_ms x))), !Z.ltb_lt by done. lia.
Qed.

Lemma newer_first_spec x y : newer_first x y = true ↔
  (hb_created_at_ms y < hb_created_at_ms x ∨
   hb_created_at_ms y = hb_created_at_ms x ∧ hb_id y ≤ hb_id x)%Z.
Proof.
  unfold newer_first. destruct (Z.eqb_spec (hb_created_at_ms x) (hb_created_at_ms y));
    rewrite ?Z.leb_le, ?Z.ltb_lt; lia.
Qed.

Lemma newer_first_trans x y z :
  newer_first x y = true → newer_first y z = true → newer_first x z = true.
Proof. rewrite !newer_first_spec. lia. Qed.

(** The ids come from SQLite's sequence. *)
Definition logs_ok (db : DB) : Prop :=
  Forall (λ r, hb_id r ≤ heartbeat_logs_seq db)%Z (heartbeat_logs db).

Record audit_ok (entry : HeartbeatLog) (r : heartbeat_log_row) : Prop := {
  ao_lengths : (String.length (hb_target r) ≤ 128)%nat ∧ (String.length (hb_origin r) ≤ 512)%nat ∧
    (String.length (hb_mode r) ≤ 32)%nat ∧ (String.length (hb_health r) ≤ 32)%nat ∧
    (String.length (hb_error r) ≤ 2048)%nat;
  ao_printable : printable (hb_target r) ∧ printable (hb_mode r) ∧ printable (hb_health r) ∧
    printable (hb_error r);
  ao_no_url : (ascii_text (hl_target entry) → no_url (hb_target r)) ∧
    (ascii_text (hl_error entry) → no_url (hb_error r));
  ao_status : (hb_http_status r = 0 ∨ 100 ≤ hb_http_status r ≤ 599)%Z;
  ao_duration : (0 ≤ hb_duration_ms r)%Z;
  ao_time : hb_created_at r = of_unix_milli (hb_created_at_ms r);
}.

Lemma list_limit_range limit : (1 ≤ list_limit limit ≤ 100)%Z.
Proof.
  unfold list_limit, heartbeatLogMax, heartbeatLogDefault.
  destruct (Z.leb_spec limit 0); cbn zeta; [done|]. destruct (Z.ltb_spec 100 limit); lia.
Qed.

(** The first rows of a sorted table: the row with the greatest id comes first
    when no other is newer. *)
Lemma listed_first `{SqlOrder} logs row limit :
  Forall (λ x, hb_id x < hb_id row)%Z logs →
  let rows := read_row <$> take (Z.to_nat (list_limit limit)) (order_by newer_first (logs ++ [row])) in
  (length rows ≤ 100)%nat ∧ StronglySorted (λ x y, newer_first x y = true) rows ∧
  (Forall (λ x, hb_created_at_ms x ≤ hb_created_at_ms row)%Z logs → head rows = Some (read_row row)).
Proof.
  intros Hid. pose proof (list_limit_range limit) as Hlim. cbv zeta.
  pose proof (order_by_perm newer_first (logs ++ [row])) as Hperm.
  pose proof (order_by_sorted newer_first (logs ++ [row]) newer_first_total newer_first_trans) as Hs.
  revert Hperm Hs. generalize (order_by newer_first (logs ++ [row])) as l. intros l Hperm Hs.
  split; [|split].
  - rewrite length_fmap, length_take. lia.
  - assert (StronglySorted (λ x y, newer_first x y = true) (take (Z.to_nat (list_limit limit)) l)) as Ht.
    { rewrite <-(take_drop (Z.to_nat (list_limit limit)) l) in Hs. by eapply StronglySorted_app_1_l. }
    revert Ht. generalize (take (Z.to_nat (list_limit limit)) l). intros t Ht.
    induction Ht as [|x t Ht IH Hx]; cbn; constructor; [done|].
    apply Forall_fmap. eapply Forall_impl; [exact Hx|]. done.
  - intros Hmax. destruct l as [|x l]; [by apply Permutation_nil in Hperm; destruct logs|].
    assert (x = row) as ->.
    { assert (row ∈ x :: l) as Hin by (rewrite Hperm; apply elem_of_app; right; by left).
      apply elem_of_cons in Hin as [->|Hin]; [done|].
      apply StronglySorted_inv in Hs as [_ Hx]. rewrite Forall_forall in Hx.
      specialize (Hx row Hin). apply newer_first_spec in Hx.
      assert (x ∈ (logs ++ [row])%list) as Hxl by (rewrite <-Hperm; by left).
      apply elem_of_app in Hxl as [Hxl|Hxl%list_elem_of_singleton]; [|done].
      rewrite Forall_forall in Hid, Hmax. specialize (Hid x Hxl). specialize (Hmax x Hxl). lia. }
    destruct (Z.to_nat (list_limit limit)) eqn:E; [lia|done].
Qed.

Section Records.
Context `{Env, SqlOrder, Url}.
Context (origin_url : string → string → string).

Lemma audit_row_ok entry created id :
  audit_ok entry (read_row (audit_row origin_url entry created id)).
Proof.
  pose proof (heartbeatAuditText_safe (hl_target entry) heartbeatTargetMaxBytes) as (?&?&?).
  pose proof (heartbeatAuditText_safe (hl_mode entry) 32) as (?&?&_).
  pose proof (heartbeatAuditText_safe (hl_health entry) 32) as (?&?&_).
  pose proof (heartbeatAuditText_safe (hl_error entry) heartbeatErrorMaxBytes) as (?&?&?).
  split; cbn [read_row audit_row hb_target hb_origin hb_mode hb_health hb_error hb_http_status
    hb_duration_ms hb_created_at hb_created_at_ms]; try done.
  - split_and!; try done. unfold heartbeatAuditOrigin.
    destruct (Nat.ltb _ _); [cbn; lia|]. destruct (ParseURL _) as [u|]; [|cbn; lia].
    destruct (_ || _ || _); [cbn; lia|].
    destruct (Nat.ltb_spec heartbeatOriginMaxBytes (String.length (origin_url (u_scheme u) (u_host u))));
      [cbn; lia|done].
  - destruct (Z.ltb_spec (hl_http_status entry) 100), (Z.ltb_spec 599 (hl_http_status entry)); cbn; lia.
  - destruct (Z.ltb_spec (hl_duration_ms entry) 0); lia.
Qed.

(** Either nothing was written, or one cleaned row. *)
Lemma SaveHeartbeatError_run deadline entry c :
  wp (SaveHeartbeatError origin_url deadline entry) (λ r c',
    match r with
    | Err _ => cn_db c' = cn_db c
    | Ok _ => ∃ created, (hl_created_at entry = None ∨ hl_created_at entry = Some created) ∧
        let id := (heartbeat_logs_seq (cn_db c) + 1)%Z in
        cn_db c' = set_heartbeat_logs
          (heartbeat_logs (cn_db c) ++ [audit_row origin_url entry created id]) id (cn_db c)
    end) c.
Proof.
  unfold SaveHeartbeatError. apply wp_bind_M.
  set (Q := λ (r : result store_err Z) (c1 : conn DB), cn_db c1 = cn_db c ∧
    match r with Ok created => hl_created_at entry = None ∨ hl_created_at entry = Some created
    | Err _ => True end).
  apply (wp_mono _ Q).
  { unfold Q. destruct (hl_created_at entry); [by apply wp_ret_M; auto|].
    apply wp_time_now. auto. }
  intros [created|e] c1 [Hc1 Hcr]; [|done].
  apply wp_withDeadlineWriter; intros n; [by cbn|].
  apply wp_exec; intros n' n''; cbn [cn_db]; [|done].
  exists created. split; [done|]. cbn. by rewrite Hc1.
Qed.

(** A failed push leaves an audit record that is safe to keep and to show, and
    that is found again: a saved record changes nothing else in the
    database, its texts are bounded, printable and without URLs, and when no
    record is newer, listing with any limit returns it first, in the form it
    was cleaned to, followed by at most 99 others, newest first; a failed
    save changes nothing. *)
Theorem heartbeat_log_roundtrip deadline entry c limit :
  logs_ok (cn_db c) →
  let '(r, c') := SaveHeartbeatError origin_url deadline entry c in
  match r with
  | Err _ => cn_db c' = cn_db c
  | Ok _ => ∃ row, audit_ok entry (read_row row) ∧ hb_target row = heartbeatAuditText (hl_target entry) 128 ∧
      cn_db c' = set_heartbeat_logs (heartbeat_logs (cn_db c) ++ [row]) (hb_id row) (cn_db c) ∧
      logs_ok (cn_db c') ∧
      ∀ rows, (ListHeartbeatErrors limit c').1 = Ok rows →
        (length rows ≤ 100)%nat ∧ StronglySorted (λ x y, newer_first x y = true) rows ∧
        (Forall (λ x, hb_created_at_ms x ≤ hb_created_at_ms row)%Z (heartbeat_logs (cn_db c)) →
         head rows = Some (read_row row))
  end.
Proof.
  intros Hok. pose proof (SaveHeartbeatError_run deadline entry c) as Hrun. unfold wp in Hrun.
  destruct (SaveHeartbeatError _ _ _ _) as [[u|e] c']; cbn [fst snd] in Hrun; [|done].
  destruct Hrun as (created & _ & Hc'). cbv zeta in Hc'.
  set (id := (heartbeat_logs_seq (cn_db c) + 1)%Z) in *. set (row := audit_row _ _ _ _) in *.
  exists row. split; [apply audit_row_ok|]. split; [done|]. split; [done|].
  split.
  { rewrite Hc'. unfold logs_ok. cbn. apply Forall_app. split; [|by repeat constructor; cbn; lia].
    eapply Forall_impl; [exact Hok|]. intros x Hx. cbn beta in Hx. unfold id. lia. }
  intros rows Hrows.
  assert (rows = read_row <$> take (Z.to_nat (list_limit limit))
    (order_by newer_first (heartbeat_logs (cn_db c) ++ [row]))) as ->.
  { assert (wp (ListHeartbeatErrors limit) (λ r _, ∀ l, r = Ok l → l = read_row <$>
      take (Z.to_nat (list_limit limit)) (order_by newer_first (heartbeat_logs (cn_db c')))) c') as Hl.
    { apply wp_query; [by intros n l [= <-]|by intros n l]. }
    rewrite (Hl rows Hrows), Hc'. done. }
  apply (listed_first (heartbeat_logs (cn_db c)) row limit).
  eapply Forall_impl; [exact Hok|]. intros x Hx. cbn in Hx |- *. unfold id. lia.
Qed.

End Records.

(** ** A push that timed out *)

Module Demo.

#[export] Instance env : Env := calm (100 * Second) Second.
#[export] Instance urls : Url := UrlPolicy.Demo.web_url.

Definition origin (scheme host : string) : string := scheme +:+ "://" +:+ host.

Definition entry : HeartbeatLog :=
  MkHeartbeatLog "kuma" "https://kuma.example/api/push/t0k3n" "kuma" "fail"
    "Post https://kuma.example/api/push/t0k3n failed" 0 (-5) (Some (7 * Second)).

Definition row : heartbeat_log_row :=
  HeartbeatLogRow 1 "kuma" "https://kuma.example" "kuma" "fail" "Post [url] failed" 0 0 (7 * Second) 7000.

End Demo.
#[local] Existing Instance Demo.env.
#[local] Existing Instance Demo.urls.

Lemma heartbeat_log_roundtrip_witness :
  ∃ c', SaveHeartbeatError Demo.origin (Some (102 * Second)) Demo.entry (Conn empty_db 0) = (Ok tt, c') ∧
    heartbeat_logs (cn_db c') = [Demo.row] ∧
    (ListHeartbeatErrors 10 c').1 = Ok [Demo.row].
Proof.
  assert (logs_ok (cn_db (Conn empty_db 0))) as Hok by constructor.
  pose proof (heartbeat_log_roundtrip Demo.origin (Some (102 * Second)) Demo.entry (Conn empty_db 0) 10 Hok) as Hr.
  destruct (SaveHeartbeatError _ _ _ _) as [[[]|e] c'] eqn:E; [|vm_compute in E; discriminate].
  exists c'. split; [done|]. destruct Hr as (row & _ & _ & Hc' & _).
  assert (c' = Conn (set_heartbeat_logs [Demo.row] 1 empty_db) 3) as ->.
  { vm_compute in E. injection E as <-. vm_compute. reflexivity. }
  split; [reflexivity|]. vm_compute. reflexivity.
Defined.
