(* ===== verification/Config.v ===== *)
(** * Configuration: [internal/config]

    The configuration values as the YAML decoder produces them, their look-up
    and validation helpers, and the durable snapshot of a source. A [Duration]
    is its number of nanoseconds; a pointer that may be nil is an option. *)

From S2P Require Import Prelude GoLib Float64 Sha256.

#[local] Open Scope string_scope.

Record LogPolicyConfig : Type := MkLogPolicy {
  lp_mode : string;
  lp_field : string;
  lp_services : list string;
  lp_on_reject : string;
}.

Record AuthConfig : Type := MkAuth {
  au_type : string;
  au_header : string;
  au_secret : string;
  au_signed_headers : list string;
}.

Record Rule : Type := MkRule { ru_var : string; ru_regex : string }.

Record ActionConfig : Type := MkAction {
  ac_type : string;
  ac_url : string;
  ac_method : string;
  ac_headers : gmap string string;
  ac_body : string;
  ac_url_allowlist : list string;
  ac_allow_private : bool;
  ac_command : string;
  ac_args : list string;
  ac_timeout : Z;
}.

#[global] Instance LogPolicyConfig_eq_dec : EqDecision LogPolicyConfig.
Proof. solve_decision. Defined.
#[global] Instance Rule_eq_dec : EqDecision Rule.
Proof. solve_decision. Defined.
#[global] Instance ActionConfig_eq_dec : EqDecision ActionConfig.
Proof. solve_decision. Defined.

Section Sources.
Context `{Regexp}.

Record RedactionConfig : Type := MkRedaction {
  re_patterns : list string;
  re_compiled : list regexp;
}.

Record Source : Type := MkSource {
  so_name : string;
  so_auth : AuthConfig;
  so_extract : gmap string string;
  so_rules : list Rule;
  so_actions : list ActionConfig;
  so_log_policy : option LogPolicyConfig;
  so_redaction : option RedactionConfig;
}.

(** ** The server, admin, log, store, queue and heartbeat sections *)

Record RateLimitConfig : Type := MkRate { rt_burst : Z; rt_per_second : float64 }.

Definition no_rate : RateLimitConfig := MkRate 0 (f64_of_Z 0).

Record RateLimitsConfig : Type := MkRates {
  rt_pre_auth_per_ip : RateLimitConfig;
  rt_global : RateLimitConfig;
  rt_source_per_ip : RateLimitConfig;
  rt_admin_per_ip : RateLimitConfig;
}.

Record ServerConfig : Type := MkServerConfig {
  sv_addr : string;
  sv_trusted_proxies : list string;
  sv_max_in_flight : Z;
  sv_max_in_flight_bytes : Z;
  sv_rate_limit : RateLimitsConfig;
}.

Record AdminConfig : Type := MkAdmin { ad_header : string; ad_token : string }.

Record LogConfig : Type := MkLogConfig { lo_level : string }.

Record HeartbeatTarget : Type := MkHbTarget {
  ht_name : string;
  ht_url : string;
  ht_token : string;
  ht_mode : string;
  ht_allow_http : bool;
}.

Record HeartbeatConfig : Type := MkHbConfig {
  hc_interval : Z;
  hc_timeout : Z;
  hc_host : string;
  hc_targets : list HeartbeatTarget;
}.

Record StoreConfig : Type := MkStoreConfig {
  st_path : string;
  st_retention : Z;
  st_retain_payload : option bool;
}.

Record QueueConfig : Type := MkQueueConfig {
  qc_workers : Z;
  qc_buffer : Z;
  qc_max_retries : Z;
  qc_retry_base : Z;
  qc_max_retry_delay : Z;
  qc_max_retry_age : Z;
}.

Record Config : Type := MkConfig {
  cf_server : ServerConfig;
  cf_admin : AdminConfig;
  cf_log : LogConfig;
  cf_store : StoreConfig;
  cf_queue : QueueConfig;
  cf_heartbeat : HeartbeatConfig;
  cf_sources : list Source;
}.

Definition SourceByName (c : Config) (name : string) : option Source :=
  List.find (λ s, bool_decide (so_name s = name)) (cf_sources c).

(** The error is the text up to the wrapped error of [regexp.Compile]. *)
Fixpoint compile_patterns (i : Z) (ps : list string) : result string (list regexp) :=
  match ps with
  | [] => Ok []
  | p :: ps' =>
      if bool_decide (TrimSpace p = "")
      then Err ("redaction.patterns[" +:+ Itoa i +:+ "] is empty")
      else match Compile p with
           | None => Err ("redaction.patterns[" +:+ Itoa i +:+ "]: ")
           | Some re =>
               match compile_patterns (i + 1) ps' with
               | Ok l => Ok (re :: l)
               | Err e => Err e
               end
           end
  end.

Definition compileRedaction (r : RedactionConfig) : result string RedactionConfig :=
  match compile_patterns 0 (re_patterns r) with
  | Ok l => Ok (MkRedaction (re_patterns r) l)
  | Err e => Err e
  end.

(** The runes of a source name. *)
Definition name_byte (n : nat) : bool :=
  in_range 97 122 n || in_range 65 90 n || digit n || Nat.eqb n 95 || Nat.eqb n 45.

Definition validSourceName (name : string) : bool :=
  if Nat.eqb (String.length name) 0 || Nat.ltb 64 (String.length name) then false
  else all_bytes name_byte name.

(** ** Snapshots *)

(** [SourceSnapshot]; [Compiled] is not serialized ([json:"-"]). *)
Record SourceSnapshot : Type := MkSnapshot {
  sn_name : string;
  sn_extract : gmap string string;
  sn_rules : list Rule;
  sn_actions : list ActionConfig;
  sn_log_policy : option LogPolicyConfig;
  sn_redaction : option (list string);
}.

(** encoding/json on the values the program stores: the snapshot of a source
    and the execution variables. A decoded [null] leaves a nil map. Encoding
    fails on no string; decoding gives back what was encoded when every string
    is valid UTF-8 ([json.Marshal] replaces other bytes), which [json_safe]
    stands for. *)
Class Json : Type := {
  snapshot_marshal : SourceSnapshot → option string;
  snapshot_unmarshal : string → option SourceSnapshot;
  vars_marshal : gmap string string → option string;
  vars_unmarshal : string → option (option (gmap string string));
  plans_marshal : list SourceSnapshot → option string;
  json_valid : string → bool;
  json_safe : string → bool;
  snapshot_roundtrip : ∀ s raw, snapshot_marshal s = Some raw → json_safe raw = true →
    snapshot_unmarshal raw = Some s;
  vars_roundtrip : ∀ m raw, vars_marshal m = Some raw → json_safe raw = true →
    vars_unmarshal raw = Some (Some m);
  snapshot_nonempty : ∀ s raw, snapshot_marshal s = Some raw → raw ≠ "";
}.

Context `{Json}.

Definition snapshot_of (src : Source) : SourceSnapshot :=
  {| sn_name := so_name src; sn_extract := so_extract src;
     sn_rules := so_rules src; sn_actions := so_actions src;
     sn_log_policy := so_log_policy src;
     sn_redaction := re_patterns <$> so_redaction src |}.

Definition SnapshotSource (src : Source) : result string string :=
  match snapshot_marshal (snapshot_of src) with
  | Some b => Ok b
  | None => Err "json"
  end.

(** [ConfigHash] of a configuration that is not nil: the plans are encoded with
    the fields of a snapshot. *)
Definition ConfigHash (c : Config) : string :=
  match plans_marshal (snapshot_of <$> cf_sources c) with
  | Some b => EncodeToString (Sum256 b)
  | None => ""
  end.

(** The defaults of a parsed log policy. *)
Definition policy_defaults (lp : LogPolicyConfig) : LogPolicyConfig :=
  MkLogPolicy (lp_mode lp)
    (if bool_decide (lp_field lp = "") then "service" else lp_field lp)
    (lp_services lp)
    (if bool_decide (lp_on_reject lp = "") then "drop_and_count" else lp_on_reject lp).

Definition no_auth : AuthConfig := MkAuth "" "" "" [].

Definition ParseSourceSnapshot (raw : string) : result string Source :=
  if bool_decide (raw = "") then Err "empty snapshot"
  else match snapshot_unmarshal raw with
  | None => Err "json"
  | Some snap =>
      match (match sn_redaction snap with
             | None => Ok None
             | Some ps =>
                 match compileRedaction (MkRedaction ps []) with
                 | Ok r => Ok (Some r)
                 | Err e => Err ("snapshot redaction: " +:+ e)
                 end
             end) with
      | Err e => Err e
      | Ok red => Ok
          {| so_name := sn_name snap; so_auth := no_auth; so_extract := sn_extract snap;
             so_rules := sn_rules snap; so_actions := sn_actions snap;
             so_log_policy := policy_defaults <$> sn_log_policy snap;
             so_redaction := red |}
      end
  end.

(** ** Facts *)

Lemma SourceByName_Some c name s :
  SourceByName c name = Some s → s ∈ cf_sources c ∧ so_name s = name.
Proof.
  intros Hf. apply List.find_some in Hf as [Hin Hn]. bool_simpl.
  split; [by apply list_elem_of_In|done].
Qed.

Lemma compile_patterns_spec i ps l :
  compile_patterns i ps = Ok l →
  Forall2 (λ p re, Compile p = Some re) ps l ∧ Forall (λ p, TrimSpace p ≠ "") ps.
Proof.
  revert i l. induction ps as [|p ps IH]; intros i l; cbn.
  { intros. simplify_eq. by split. }
  case_bool_decide as Hb; [done|]. destruct (Compile p) as [re|] eqn:Hc; [|done].
  destruct (compile_patterns (i + 1) ps) as [l'|] eqn:E; [|done].
  intros. simplify_eq. destruct (IH _ _ E) as [H1 H2]. by split; constructor.
Qed.

Lemma compile_patterns_total i ps :
  Forall (λ p, TrimSpace p ≠ "" ∧ is_Some (Compile p)) ps → is_ok (compile_patterns i ps) = true.
Proof.
  intros Hp. revert i. induction Hp as [|p ps [Hne [re Hc]] _ IH]; intros i; cbn; [done|].
  rewrite bool_decide_false, Hc by done. specialize (IH (i + 1)).
  by destruct (compile_patterns (i + 1) ps).
Qed.

End Sources.
