(* ===== verification/ConfigLoad.v ===== *)
(** * Loading a configuration: defaults and validation of [internal/config]

    [Load] on the decoded YAML: environment expansion, the heartbeat targets
    that are configured, the defaults, and every check of [validate] in its
    order. An error is the format string of its [fmt.Errorf]. *)

From S2P Require Import Prelude GoLib Float64 Sha256 Http Config Placeholders.

#[local] Open Scope string_scope.

Definition minSecretLen : nat := 16.
Definition maxWorkers : Z := 64.
Definition maxBuffer : Z := 10000.
Definition maxRetriesBound : Z := 20.
Definition maxActionTimeout : Z := (15 * Minute)%Z.
Definition defaultMaxInFlight : Z := 16.
Definition defaultMaxInFlightBytes : Z := (32 * 2 ^ 20)%Z.
Definition defaultMaxRetries : Z := 2.
Definition defaultRetryBase : Z := Second.
Definition defaultMaxRetryDelay : Z := (15 * Minute)%Z.
Definition defaultMaxRetryAge : Z := (24 * Hour)%Z.

(** A check: the error when the condition holds, or the rest. *)
#[local] Notation "'if_err' b 'then' e ; rest" := (if b then Err e else rest)
  (at level 10, b at level 200, e at level 200, rest at level 200).

(** [err := check; if err != nil { return err }] *)
Definition and_then {E A B} (r : result E A) (k : A → result E B) : result E B :=
  match r with Ok a => k a | Err e => Err e end.

(** The first error of the checks on the elements of a list. *)
Fixpoint check_each {A} (check : A → result string unit) (l : list A) : result string unit :=
  match l with [] => Ok tt | x :: l' => and_then (check x) (λ _, check_each check l') end.

(** ** Rate limits, [ratelimit.go] *)

Definition rate_default (d c : RateLimitConfig) : RateLimitConfig :=
  MkRate (if (rt_burst c =? 0)%Z then rt_burst d else rt_burst c)
    (if SpecFloat.SFeqb (rt_per_second c) (f64_of_Z 0) then rt_per_second d else rt_per_second c).

Definition WithDefaults (c : RateLimitsConfig) : RateLimitsConfig :=
  {| rt_pre_auth_per_ip := rate_default (MkRate 120 (f64_of_Z 20)) (rt_pre_auth_per_ip c);
     rt_global := rate_default (MkRate 120 (f64_of_Z 2)) (rt_global c);
     rt_source_per_ip := rate_default (MkRate 30 (f64_div (f64_of_Z 1) (f64_of_Z 2))) (rt_source_per_ip c);
     rt_admin_per_ip := rate_default (MkRate 60 (f64_of_Z 1)) (rt_admin_per_ip c) |}.

Definition is_nan (f : float64) : bool := match f with SpecFloat.S754_nan => true | _ => false end.
Definition is_inf (f : float64) : bool :=
  match f with SpecFloat.S754_infinity _ => true | _ => false end.

Definition validate_rate (c : RateLimitConfig) : result string unit :=
  let rate := rt_per_second c in
  if_err (rt_burst c <? 1)%Z || (100000 <? rt_burst c)%Z
    then "server.rate_limit.%s.burst must be 1..100000";
  if_err is_nan rate || is_inf rate || f64_ltb rate (f64_div (f64_of_Z 1) (f64_of_Z 100))
         || f64_ltb (f64_of_Z 100000) rate
    then "server.rate_limit.%s.per_second must be 0.01..100000";
  Ok tt.

Definition validate_rates (c : RateLimitsConfig) : result string unit :=
  check_each validate_rate
    [rt_pre_auth_per_ip c; rt_global c; rt_source_per_ip c; rt_admin_per_ip c].

Section Load.
Context `{Regexp, Net, Url}.
(** os.LookupEnv *)
Context (LookupEnv : string → option string).

(** ** Defaults *)

Definition or_default {A} (use_default : bool) (d x : A) : A := if use_default then d else x.

Definition applyDefaults (c : Config) : Config :=
  let sv := cf_server c in let st := cf_store c in let q := cf_queue c in
  let hb := cf_heartbeat c in
  {| cf_server := MkServerConfig
       (or_default (bool_decide (sv_addr sv = "")) ":8080" (sv_addr sv))
       (sv_trusted_proxies sv)
       (or_default (sv_max_in_flight sv <=? 0)%Z defaultMaxInFlight (sv_max_in_flight sv))
       (or_default (sv_max_in_flight_bytes sv <=? 0)%Z defaultMaxInFlightBytes
          (sv_max_in_flight_bytes sv))
       (WithDefaults (sv_rate_limit sv));
     cf_admin := MkAdmin
       (or_default (bool_decide (ad_header (cf_admin c) = "")) "Authorization" (ad_header (cf_admin c)))
       (ad_token (cf_admin c));
     cf_log := MkLogConfig
       (or_default (bool_decide (lo_level (cf_log c) = "")) "info" (lo_level (cf_log c)));
     cf_store := MkStoreConfig
       (or_default (bool_decide (st_path st = "")) "data/webhook.db" (st_path st))
       (or_default (st_retention st <=? 0)%Z (30 * 24 * Hour)%Z (st_retention st))
       (Some (default false (st_retain_payload st)));
     cf_queue := MkQueueConfig
       (or_default (qc_workers q <=? 0)%Z 4%Z (qc_workers q))
       (or_default (qc_buffer q <=? 0)%Z 256%Z (qc_buffer q))
       (qc_max_retries q)
       (or_default (qc_retry_base q <=? 0)%Z defaultRetryBase (qc_retry_base q))
       (or_default (qc_max_retry_delay q <=? 0)%Z defaultMaxRetryDelay (qc_max_retry_delay q))
       (or_default (qc_max_retry_age q <=? 0)%Z defaultMaxRetryAge (qc_max_retry_age q));
     cf_heartbeat := MkHbConfig
       (or_default (hc_interval hb <=? 0)%Z Minute (hc_interval hb))
       (or_default (hc_timeout hb <=? 0)%Z (10 * Second)%Z (hc_timeout hb))
       (or_default (bool_decide (hc_host hb = "")) "general-webhook" (hc_host hb))
       ((λ t, MkHbTarget (ht_name t) (ht_url t) (ht_token t)
          (or_default (bool_decide (TrimSpace (ht_mode t) = "")) "kuma" (ht_mode t))
          (ht_allow_http t)) <$> hc_targets hb);
     cf_sources := cf_sources c |}.

(** ** Validation *)

Definition validate_proxy (cidr : string) : result string unit :=
  match ParseCIDR cidr, ParseIP cidr with
  | None, None => Err "server.trusted_proxies: invalid entry %q"
  | _, _ => Ok tt
  end.

Definition one_of_modes (mode : string) : bool :=
  existsb (String.eqb mode) ["kuma"; "healthchecks"; "push"; "json"].

Definition control_byte (n : nat) : bool := Nat.ltb n 32 || Nat.eqb n 127.

Definition validate_target (t : HeartbeatTarget) : result string unit :=
  match ParseURL (ht_url t) with
  | None => Err "heartbeat.targets[%d]: invalid url"
  | Some u =>
      if_err bool_decide (u_scheme u = "") || bool_decide (u_host u = "")
        then "heartbeat.targets[%d]: invalid url";
      if_err Nat.ltb 4096 (String.length (ht_url t)) || negb (bool_decide (u_fragment u = ""))
             || negb (bool_decide (u_opaque u = ""))
        then "heartbeat.targets[%d]: url must be at most 4096 bytes without a fragment or opaque path";
      let scheme := ToLower (u_scheme u) in
      if_err negb (bool_decide (scheme = "https"))
             && negb (bool_decide (scheme = "http") && ht_allow_http t)
        then "heartbeat.targets[%d]: url must be https (or http with allow_http: true)";
      if_err u_has_user u then "heartbeat.targets[%d]: url must not contain userinfo";
      if_err negb (one_of_modes (ht_mode t))
        then "heartbeat.targets[%d]: unknown mode (use kuma, healthchecks, push or json)";
      Ok tt
  end.

Fixpoint validate_targets (seen : list string) (ts : list HeartbeatTarget) : result string unit :=
  match ts with
  | [] => Ok tt
  | t :: ts' =>
      if_err bool_decide (ht_name t = "") then "heartbeat.targets[%d]: name is required";
      if_err negb (validSourceName (ht_name t)) then "heartbeat.targets[%d]: name %q invalid (use [a-zA-Z0-9_-]{1,64})";
      if_err bool_decide (ht_name t ∈ seen) then "heartbeat.targets: duplicate target name %q";
      and_then (validate_target t) (λ _, validate_targets (ht_name t :: seen) ts')
  end.

Definition validateHeartbeat (hb : HeartbeatConfig) : result string unit :=
  if_err (hc_interval hb <? 10 * Second)%Z || (Hour <? hc_interval hb)%Z
    then "heartbeat.interval must be 10s..1h";
  if_err (hc_timeout hb <? Second)%Z || (30 * Second <? hc_timeout hb)%Z
    then "heartbeat.timeout must be 1s..30s";
  if_err (hc_interval hb <? hc_timeout hb)%Z
    then "heartbeat.timeout must not exceed heartbeat.interval";
  if_err bool_decide (TrimSpace (hc_host hb) = "") || Nat.ltb 128 (String.length (hc_host hb))
    then "heartbeat.host must contain 1..128 bytes";
  if_err negb (all_bytes (λ n, negb (control_byte n)) (hc_host hb))
    then "heartbeat.host contains control characters";
  if_err Nat.ltb 16 (length (hc_targets hb))
    then "heartbeat.targets must contain at most 16 targets";
  validate_targets [] (hc_targets hb).

(** *** Sources *)

Definition known_auth (t : string) : bool := existsb (String.eqb t) ["hmac"; "token"; "none"].
Definition with_secret (t : string) : bool := existsb (String.eqb t) ["hmac"; "token"].
Definition signed_entry (h : string) : string := ToLower (TrimSpace h).
Definition signed_wanted : list string := ["timestamp"; "delivery_id"; "body"].

Fixpoint validate_signed (seen : list string) (hs : list string) : result string unit :=
  match hs with
  | [] => Ok tt
  | h :: hs' =>
      let h := signed_entry h in
      if_err negb (existsb (String.eqb (signed_entry h)) signed_wanted)
        then "source %q: auth.signed_headers unknown entry %q";
      if_err bool_decide (h ∈ seen) then "source %q: auth.signed_headers duplicate entry %q";
      validate_signed (h :: seen) hs'
  end.

Definition validate_auth (a : AuthConfig) : result string unit :=
  if_err bool_decide (au_type a = "") then "source %q: auth.type is required (hmac/token/none)";
  if_err negb (known_auth (au_type a)) then "source %q: unknown auth.type %q";
  if_err with_secret (au_type a) && bool_decide (au_secret a = "")
    then "source %q: auth.type=%s requires non-empty secret";
  if_err with_secret (au_type a) && Nat.ltb (String.length (au_secret a)) minSecretLen
    then "source %q: auth.secret must be at least %d bytes";
  and_then (validate_signed [] (au_signed_headers a)) (λ _,
    match au_signed_headers a with
    | [] => Ok tt
    | _ =>
        if_err negb (bool_decide (au_type a = "hmac"))
          then "source %q: auth.signed_headers requires auth.type=hmac";
        if_err negb (bool_decide (signed_entry <$> au_signed_headers a = signed_wanted))
          then "source %q: auth.signed_headers must be [timestamp, delivery_id, body]";
        Ok tt
    end).

Definition validate_rule (r : Rule) : result string unit :=
  if_err bool_decide (ru_var r = "") then "source %q: rule[%d] has empty var";
  if_err bool_decide (ru_regex r = "") then "source %q: rule[%d] has empty regex";
  match Compile (ru_regex r) with
  | None => Err "source %q: rule[%d] invalid regex %q: %w"
  | Some _ => Ok tt
  end.

(** The checks set the defaults of the policy. *)
Definition validate_policy (lp : LogPolicyConfig) : result string LogPolicyConfig :=
  if_err negb (bool_decide (lp_mode lp = "allowlist"))
    then "source %q: log_policy.mode must be allowlist";
  if_err bool_decide (lp_services lp = []) then "source %q: log_policy.services must be non-empty";
  if_err existsb (λ svc, bool_decide (TrimSpace svc = "")) (lp_services lp)
    then "source %q: log_policy.services[%d] is empty";
  if_err negb (bool_decide (lp_on_reject lp = "")) && negb (bool_decide (lp_on_reject lp = "drop_and_count"))
    then "source %q: log_policy.on_reject must be drop_and_count";
  Ok (policy_defaults lp).

Definition validate_redaction (r : RedactionConfig) : result string RedactionConfig :=
  match compileRedaction r with Err _ => Err "source %q: %w" | Ok r' => Ok r' end.

(** [actionStrings]: the texts of an action, its headers in any order. *)
Definition actionStrings (a : ActionConfig) : list string :=
  ([ac_url a; ac_command a; ac_body a] ++ ac_args a
    ++ (map_to_list (ac_headers a) ≫= λ kv, [kv.1; kv.2]))%list.

Definition check_secret (p : placeholder) : result string unit :=
  if bool_decide (default "" (LookupEnv p.2) = "")
  then Err "source %q: action[%d] requires environment secret %s" else Ok tt.

Definition known_method (m : string) : bool :=
  existsb (String.eqb m) [""; "GET"; "POST"; "PUT"; "PATCH"; "DELETE"].

Definition validate_action_type (a : ActionConfig) : result string unit :=
  if bool_decide (ac_type a = "http") then
    if_err bool_decide (ac_url a = "") then "source %q: action[%d] type=http requires url";
    if_err negb (known_method (ToUpper (ac_method a))) then "source %q: action[%d] invalid method %q";
    Ok tt
  else if bool_decide (ac_type a = "exec") then
    if_err bool_decide (ac_command a = "") then "source %q: action[%d] type=exec requires command";
    if_err (ac_timeout a <? 0)%Z then "source %q: action[%d] timeout must be >= 0";
    if_err (maxActionTimeout <? ac_timeout a)%Z then "source %q: action[%d] timeout must be <= %s";
    Ok tt
  else Err "source %q: action[%d] unknown type %q (http/exec)".

Definition validate_action (a : ActionConfig) : result string unit :=
  if_err bool_decide (ac_type a = "") then "source %q: action[%d] with empty type";
  and_then (validate_action_type a) (λ _,
    check_each check_secret (actionStrings a ≫= find_all explicitSecretRefRe)).

Definition opt_check {A B} (check : A → result string B) (x : option A) : result string (option B) :=
  match x with
  | None => Ok None
  | Some a => and_then (check a) (λ b, Ok (Some b))
  end.

Definition validate_source (seen : list string) (s : Source) : result string Source :=
  if_err bool_decide (so_name s = "") then "source with empty name";
  if_err negb (validSourceName (so_name s)) then "source name %q invalid (use [a-zA-Z0-9_-]{1,64})";
  if_err bool_decide (so_name s ∈ seen) then "duplicate source name %q";
  and_then (validate_auth (so_auth s)) (λ _,
  and_then (check_each validate_rule (so_rules s)) (λ _,
  and_then (opt_check validate_policy (so_log_policy s)) (λ lp,
  and_then (opt_check validate_redaction (so_redaction s)) (λ red,
  if_err bool_decide (so_actions s = []) then "source %q: no actions defined";
  and_then (check_each validate_action (so_actions s)) (λ _,
  Ok (MkSource (so_name s) (so_auth s) (so_extract s) (so_rules s) (so_actions s) lp red)))))).

Fixpoint validate_sources (seen : list string) (ss : list Source) : result string (list Source) :=
  match ss with
  | [] => Ok []
  | s :: ss' =>
      and_then (validate_source seen s) (λ s',
      and_then (validate_sources (so_name s :: seen) ss') (λ l, Ok (s' :: l)))
  end.

Definition validate (c : Config) : result string Config :=
  let sv := cf_server c in let q := cf_queue c in
  and_then (validate_rates (sv_rate_limit sv)) (λ _,
  if_err negb (bool_decide (ad_token (cf_admin c) = ""))
         && Nat.ltb (String.length (ad_token (cf_admin c))) minSecretLen
    then "admin.token must be at least %d bytes";
  if_err bool_decide (TrimSpace (ad_header (cf_admin c)) = "") then "admin.header must not be empty";
  and_then (check_each validate_proxy (sv_trusted_proxies sv)) (λ _,
  if_err (sv_max_in_flight sv <? 1)%Z || (256 <? sv_max_in_flight sv)%Z
    then "server.max_in_flight must be 1..256";
  if_err (sv_max_in_flight_bytes sv <? 2 ^ 20)%Z || (256 * 2 ^ 20 <? sv_max_in_flight_bytes sv)%Z
    then "server.max_in_flight_bytes must be 1MiB..256MiB";
  if_err (qc_workers q <? 1)%Z || (maxWorkers <? qc_workers q)%Z
    then "queue.workers must be 1..%d";
  if_err (qc_buffer q <? 1)%Z || (maxBuffer <? qc_buffer q)%Z then "queue.buffer must be 1..%d";
  if_err (qc_max_retries q <? 0)%Z || (maxRetriesBound <? qc_max_retries q)%Z
    then "queue.max_retries must be 0..%d";
  if_err (qc_retry_base q <? 100 * Millisecond)%Z || (Hour <? qc_retry_base q)%Z
    then "queue.retry_base must be 100ms..1h";
  if_err (qc_max_retry_delay q <? qc_retry_base q)%Z || (7 * 24 * Hour <? qc_max_retry_delay q)%Z
    then "queue.max_retry_delay must be >= retry_base and <= 168h";
  if_err (qc_max_retry_age q <? qc_retry_base q)%Z || (30 * 24 * Hour <? qc_max_retry_age q)%Z
    then "queue.max_retry_age must be >= retry_base and <= 720h";
  and_then (validateHeartbeat (cf_heartbeat c)) (λ _,
  and_then (validate_sources [] (cf_sources c)) (λ sources,
  Ok (MkConfig sv (cf_admin c) (cf_log c) (cf_store c) q (cf_heartbeat c) sources))))).

(** ** Load on the decoded file *)

Definition expand (s : string) : string := expandConfigEnv LookupEnv s true.

Definition expand_source (s : Source) : Source :=
  let a := so_auth s in
  MkSource (so_name s) (MkAuth (au_type a) (au_header a) (expand (au_secret a)) (au_signed_headers a))
    (so_extract s) (so_rules s) (so_actions s) (so_log_policy s) (so_redaction s).

Definition expand_target (t : HeartbeatTarget) : HeartbeatTarget :=
  MkHbTarget (ht_name t) (expand (ht_url t)) (expand (ht_token t)) (ht_mode t) (ht_allow_http t).

Definition expand_config (c : Config) : Config :=
  let hb := cf_heartbeat c in
  MkConfig (cf_server c)
    (MkAdmin (ad_header (cf_admin c)) (expand (ad_token (cf_admin c))))
    (cf_log c) (cf_store c) (cf_queue c)
    (MkHbConfig (hc_interval hb) (hc_timeout hb) (expand (hc_host hb))
       (filter (λ t, TrimSpace (ht_url t) ≠ "") (expand_target <$> hc_targets hb)))
    (expand_source <$> cf_sources c).

(** The result of yaml.Decode is the argument: [None] when it fails. *)
Definition Load (decoded : option Config) : result string Config :=
  match decoded with
  | None => Err "parse config: %w"
  | Some c => validate (applyDefaults (expand_config c))
  end.

End Load.
