(* ===== verification/Handler.v ===== *)
(** * Actions: [internal/handler/errors.go] and the registry of [handler.go]

    How the outcome of an action is classified: which errors are permanent,
    which delay a server asked for. A Go error is a tree: a sentinel, an
    HTTPError, an error that wraps others (an [fmt.Errorf] with %w verbs),
    or a plain text. *)

From S2P Require Import Prelude GoLib Config.

#[local] Open Scope string_scope.

Record HTTPError : Type := MkHTTPError {
  he_status : Z;
  he_body : string;
  he_retry_after : Z;
}.

#[local] Set Warnings "-register-all".

Inductive go_error : Type :=
| ErrNonRetryable
| ErrCanceled
| ErrHTTP (e : HTTPError)
| ErrText (msg : string)
| ErrWrap (msg : string) (inner : list go_error).

(** The method [retryable] of an HTTPError *)
Definition retryable (e : HTTPError) : bool :=
  if (he_status e =? 408)%Z || (he_status e =? 429)%Z then true else (500 <=? he_status e)%Z.

(** [Error] of an HTTPError, and the texts of the other errors *)
Definition error_text (e : go_error) : string :=
  match e with
  | ErrNonRetryable => "non-retryable"
  | ErrCanceled => "context canceled"
  | ErrHTTP h => "http status " +:+ Itoa (he_status h) +:+ ": " +:+ he_body h
  | ErrText msg | ErrWrap msg _ => msg
  end.

(** errors.Is(err, ErrNonRetryable): the error itself, its [Is] method, or one
    of the errors it wraps, depth first. *)
Fixpoint is_non_retryable (e : go_error) : bool :=
  match e with
  | ErrNonRetryable => true
  | ErrHTTP h => negb (retryable h)
  | ErrWrap _ inner => existsb is_non_retryable inner
  | ErrCanceled | ErrText _ => false
  end.

(** errors.Is(err, context.Canceled) *)
Fixpoint is_canceled_error (e : go_error) : bool :=
  match e with
  | ErrCanceled => true
  | ErrWrap _ inner => existsb is_canceled_error inner
  | ErrNonRetryable | ErrHTTP _ | ErrText _ => false
  end.

(** errors.As(err, &he): the first HTTPError, depth first. *)
Fixpoint as_http (e : go_error) : option HTTPError :=
  match e with
  | ErrHTTP h => Some h
  | ErrWrap _ inner =>
      (fix first (l : list go_error) : option HTTPError :=
         match l with
         | [] => None
         | x :: l' => match as_http x with Some h => Some h | None => first l' end
         end) inner
  | ErrNonRetryable | ErrCanceled | ErrText _ => None
  end.

(** [err] is nil for a success. *)
Definition IsNonRetryable (err : option go_error) : bool :=
  match err with
  | None => false
  | Some e =>
      if is_non_retryable e then true
      else match as_http e with Some he => negb (retryable he) | None => false end
  end.

Definition RetryAfter (err : option go_error) : Z :=
  match err with
  | None => 0
  | Some e =>
      match as_http e with
      | Some he => if (0 <? he_retry_after he)%Z then he_retry_after he else 0
      | None => 0
      end
  end.

(** ** Retry-After *)

#[local] Open Scope Z_scope.

Section RetryAfterHeader.
(** [http.ParseTime], in nanoseconds since the epoch *)
Context (ParseTime : string → option Z).

Definition maxSeconds : Z := (2^63 - 1) / Second.

Definition ParseRetryAfter (raw : string) (now : Z) : Z :=
  let raw := TrimSpace raw in
  if bool_decide (raw = ""%string) then 0
  else match ParseInt raw with
  | Some sec =>
      if sec <=? 0 then 0
      else if maxSeconds <? sec then 2^63 - 1
      else wrap64 (sec * Second)
  | None =>
      match ParseTime raw with
      | Some t => let d := time_sub t now in if d <=? 0 then 0 else d
      | None => 0
      end
  end.

End RetryAfterHeader.

(** ** Handlers and the registry *)

(** [Result], the audit data of an attempt *)
Record Result : Type := MkResult { rs_target : string; rs_detail : string }.

(** [ExecutionMetadata], the delivery identity in the context of an attempt *)
Record ExecutionMetadata : Type := MkMeta {
  md_event_id : string;
  md_action_index : Z;
  md_attempt : Z;
}.

(** A [Handler]: its type and its [Handle] method. What an attempt returns
    depends on the outside world, so [Handle] also takes the tick of the run. *)
Record handler : Type := MkHandler {
  h_type : string;
  h_handle : nat → ExecutionMetadata → ActionConfig → gmap string string →
             Result * option go_error;
}.

(** [Registry]: later handlers of the same type replace earlier ones. *)
Definition Registry : Type := gmap string handler.

Definition NewRegistry (hs : list handler) : Registry :=
  foldl (λ m h, <[h_type h := h]> m) ∅ hs.

Definition Get (r : Registry) (typ : string) : option handler := r !! typ.

(** ** Facts *)

Lemma NewRegistry_lookup hs (m : Registry) typ h :
  foldl (λ (m : Registry) h, <[h_type h := h]> m) m hs !! typ = Some h →
  (h ∈ hs ∧ h_type h = typ) ∨ m !! typ = Some h.
Proof.
  revert m. induction hs as [|x hs IH]; intros m; cbn; [auto|].
  intros [[Hin Ht]|Hm]%IH; [left; split; [by right|done]|].
  apply (lookup_insert_Some (M := gmap string)) in Hm as [[<- <-]|[_ Hm]]; [|by right].
  left. split; [by left|done].
Qed.

(** A permanent error stays permanent however it is wrapped. *)
Lemma is_non_retryable_wrap msg inner e :
  e ∈ inner → is_non_retryable e = true → is_non_retryable (ErrWrap msg inner) = true.
Proof.
  intros Hin He. cbn. apply existsb_exists. exists e. by rewrite <- list_elem_of_In.
Qed.

Lemma time_sub_ok t u : int64_ok (time_sub t u).
Proof. unfold int64_ok, time_sub. repeat case_match; bool_simpl; lia. Qed.

Lemma RetryAfter_nonneg err : 0 ≤ RetryAfter err.
Proof.
  unfold RetryAfter. destruct err as [e|]; [|done]. destruct (as_http e) as [he|]; [|done].
  destruct (0 <? he_retry_after he) eqn:E; bool_simpl; lia.
Qed.
