(* ===== verification/HttpAction.v ===== *)
(** * HTTP actions: [internal/handler/http.go]

    The request an action builds, the redirects it follows, the addresses it
    dials and how an answer becomes the outcome of the attempt. The network
    is a parameter: what a request returns may depend on everything that was
    sent before. *)

From Stdlib Require Import Ascii.
From S2P Require Import Prelude GoLib Http Placeholders JsonText Config Handler UrlPath UrlPolicy.

#[local] Open Scope string_scope.

(** An outgoing request and an answer of the network *)
Record OutRequest : Type := MkOut {
  or_method : string;
  or_url : string;
  or_header : gmap string (list string);
  or_body : string;
}.

Record Response : Type := MkResponse {
  rp_status : Z;
  rp_location : option string;
  rp_retry_after : string;
  rp_body : string;
}.

(** [Header.Set] and [Header.Get] on the header of the request *)
Definition header_set (name v : string) (h : gmap string (list string)) : gmap string (list string) :=
  <[CanonicalMIMEHeaderKey name := [v]]> h.
Definition header_get (name : string) (h : gmap string (list string)) : string :=
  match h !! CanonicalMIMEHeaderKey name with Some (v :: _) => v | _ => "" end.

Section HttpAction.
Context `{Net, Url, MapOrder}.
Context (LookupEnv : string → option string).
(** json.Valid, http.ParseTime, URL.Parse relative to a URL, time.Now *)
Context (json_Valid : string → bool) (ParseTime : string → option Z).
Context (resolve_reference : url → string → option url).
Context (now : nat → Z).

Definition auditURLTarget (raw : string) : string :=
  match ParseURL raw with
  | None => "invalid-url"
  | Some u =>
      if bool_decide (u_scheme u = "") || bool_decide (u_host u = "") then "invalid-url"
      else ToLower (u_scheme u) +:+ "://" +:+ u_host u
  end.

(** ** Preparing the request *)

Definition content_type_hint (headers : list (string * string)) (vars : gmap string string) : string :=
  match List.find (λ kv, EqualFold (interpolate LookupEnv kv.1 vars) "Content-Type") headers with
  | Some kv => interpolate LookupEnv kv.2 vars
  | None => ""
  end.

Definition set_headers (headers : list (string * string)) (vars : gmap string string)
    (h : gmap string (list string)) : gmap string (list string) :=
  foldl (λ h kv,
    let key := interpolate LookupEnv kv.1 vars in
    if bool_decide (key = "") then h else header_set key (interpolate LookupEnv kv.2 vars) h) h headers.

Definition var_of (vars : gmap string string) (name : string) : string := default "" (vars !! name).

Definition set_identity (meta : option ExecutionMetadata) (vars : gmap string string)
    (h : gmap string (list string)) : gmap string (list string) :=
  match meta with
  | Some m =>
      let h := header_set "Idempotency-Key" (md_event_id m +:+ ":" +:+ Itoa (md_action_index m)) h in
      let h := header_set "X-Webhook-Event-ID" (md_event_id m) h in
      header_set "X-Webhook-Attempt" (Itoa (md_attempt m)) h
  | None =>
      let h :=
        if bool_decide (header_get "Idempotency-Key" h = "")
           && negb (bool_decide (var_of vars "event_id" = ""))
        then header_set "Idempotency-Key"
               (if bool_decide (var_of vars "action_index" = "") then var_of vars "event_id"
                else var_of vars "event_id" +:+ ":" +:+ var_of vars "action_index") h
        else h in
      let h :=
        if bool_decide (header_get "X-Webhook-Event-ID" h = "")
           && negb (bool_decide (var_of vars "event_id" = ""))
        then header_set "X-Webhook-Event-ID" (var_of vars "event_id") h else h in
      if bool_decide (header_get "X-Webhook-Attempt" h = "")
         && negb (bool_decide (var_of vars "attempt" = ""))
      then header_set "X-Webhook-Attempt" (var_of vars "attempt") h else h
  end.

Definition non_retryable (msg : string) : go_error :=
  ErrWrap ("non-retryable: " +:+ msg) [ErrNonRetryable].

Definition secret_fields (tick : nat) (ac : ActionConfig) : list string :=
  (ac_url ac :: ac_body ac :: (range tick 0 (ac_headers ac) ≫= λ kv, [kv.1; kv.2]))%list.

(** [Handle] up to the request: the outcome when it is refused. *)
Definition prepare (tick : nat) (meta : option ExecutionMetadata) (ac : ActionConfig)
    (vars : gmap string string) : result (Result * go_error) (OutRequest * url * string) :=
  let missing := missingExplicitSecret LookupEnv (secret_fields tick ac) in
  if negb (bool_decide (missing = ""))
  then Err (MkResult "" "", non_retryable ("required action secret " +:+ missing +:+ " is not set"))
  else
  let rawURL := interpolate LookupEnv (ac_url ac) vars in
  let auditTarget := auditURLTarget rawURL in
  match ValidateURLDestinationWithPolicy rawURL (ac_url_allowlist ac) (ac_allow_private ac) with
  | Err e => Err (MkResult auditTarget "", non_retryable e)
  | Ok _ =>
      let method := if bool_decide (ac_method ac = "") then "POST" else ToUpper (ac_method ac) in
      let ctHint := content_type_hint (range tick 1 (ac_headers ac)) vars in
      let isJSON := bool_decide (ctHint = "") || contains (ToLower ctHint) "json" in
      let body := if isJSON then interpolateJSONString LookupEnv (ac_body ac) vars
                  else interpolate LookupEnv (ac_body ac) vars in
      if isJSON && negb (bool_decide (body = "")) && negb (json_Valid body)
      then Err (MkResult auditTarget "",
                non_retryable "http body is not valid JSON after interpolation")
      else
        (* http.NewRequestWithContext: a token as the method, and the URL *)
        match (if negb (bool_decide (method = "")) && all_bytes token_byte method
               then ParseURL rawURL else None) with
        | None => Err (MkResult auditTarget "", ErrText "net/http: invalid method or URL")
        | Some u =>
            let h : gmap string (list string) :=
              if negb (bool_decide (body = ""))
              then header_set "Content-Type" "application/json" ∅ else ∅ in
            let h := set_headers (range tick 2 (ac_headers ac)) vars h in
            let h := set_identity meta vars h in
            Ok (MkOut method rawURL h body, u, auditTarget)
        end
  end.

(** ** Redirects *)

Definition sameAuthority (a b : url) : bool :=
  EqualFold (normalizeHostname (Hostname a)) (normalizeHostname (Hostname b))
  && bool_decide (effectivePort a = effectivePort b).

(** The CheckRedirect that [clientFor] installs, for the URL of the next
    request and the ones already made. *)
Definition CheckRedirect (ac : ActionConfig) (initial next : url) (via : list url) : result string unit :=
  if Nat.leb 3 (length via) then Err "redirect limit exceeded"
  else match ValidateURLDestinationWithPolicy (url_string next) (ac_url_allowlist ac)
               (ac_allow_private ac) with
  | Err e => Err ("redirect destination: " +:+ e)
  | Ok _ =>
      let previous := List.last via initial in
      if negb (sameAuthority previous next) then Err "cross-host redirect blocked" else Ok tt
  end.

(** What the network answers to the request for a URL after others. *)
Context (roundtrip : nat → OutRequest → list url → url → result go_error Response).

Definition is_redirect (status : Z) : bool :=
  existsb (Z.eqb status) [301; 302; 303; 307; 308]%Z.

(** client.Do: the answer and the URLs requested. [CheckRedirect] refuses a
    third redirect, so the fuel of [Do] is never used up. *)
Fixpoint follow (fuel : nat) (tick : nat) (ac : ActionConfig) (initial : url) (req : OutRequest)
    (via : list url) (u : url) : result go_error Response * list url :=
  match roundtrip tick req via u with
  | Err e => (Err e, [u])
  | Ok resp =>
      match (if is_redirect (rp_status resp) then rp_location resp else None) with
      | None => (Ok resp, [u])
      | Some location =>
          match resolve_reference u location with
          | None => (Err (ErrText "failed to parse Location header"), [u])
          | Some next =>
              match CheckRedirect ac initial next (via ++ [u])%list with
              | Err e => (Err (ErrText e), [u])
              | Ok _ =>
                  match fuel with
                  | O => (Err (ErrText "out of fuel"), [u])
                  | S fuel' =>
                      let '(r, sent) := follow fuel' tick ac initial req (via ++ [u])%list next in
                      (r, (u :: sent)%list)
                  end
              end
          end
      end
  end.

Definition Do (tick : nat) (ac : ActionConfig) (req : OutRequest) (u : url) :
    result go_error Response * list url := follow 3 tick ac u req [] u.

(** ** The handler *)

Definition outcome (tick : nat) (target : string) (r : result go_error Response) :
    Result * option go_error :=
  match r with
  | Err e => (MkResult target "", Some (ErrWrap "http request: %w" [e]))
  | Ok resp =>
      if (200 <=? rp_status resp)%Z && (rp_status resp <? 300)%Z
      then (MkResult target ("status=" +:+ Itoa (rp_status resp)), None)
      else (MkResult target "", Some (ErrHTTP {|
              he_status := rp_status resp;
              he_body := String.substring 0 (8 * 1024) (rp_body resp);
              he_retry_after := ParseRetryAfter ParseTime (rp_retry_after resp) (now tick) |}))
  end.

(** [Handle], with the URLs it requested *)
Definition http_run (tick : nat) (meta : option ExecutionMetadata) (ac : ActionConfig)
    (vars : gmap string string) : (Result * option go_error) * list url :=
  match prepare tick meta ac vars with
  | Err (res, e) => ((res, Some e), [])
  | Ok (req, u, target) =>
      let '(r, sent) := Do tick ac req u in (outcome tick target r, sent)
  end.

Definition http_Handle (tick : nat) (meta : ExecutionMetadata) (ac : ActionConfig)
    (vars : gmap string string) : Result * option go_error := (http_run tick (Some meta) ac vars).1.

Definition HTTP : handler := MkHandler "http" http_Handle.

(** ** Dialling: the DialContext of the transport *)

(** net.SplitHostPort, the resolver, and a connection attempt *)
Context (SplitHostPort : string → option (string * string)).
Context (LookupIPAddr : string → option (list IP)).
Context (dial : IP → string → bool).

(** The addresses tried in order, and the one that connected. *)
Fixpoint dial_first (ips : list IP) (port : string) : option IP * list IP :=
  match ips with
  | [] => (None, [])
  | ip :: ips' =>
      if dial ip port then (Some ip, [ip])
      else let '(r, tried) := dial_first ips' port in (r, (ip :: tried)%list)
  end.

Fixpoint all_allowed (ips : list IP) (allowPrivate : bool) : result string unit :=
  match ips with
  | [] => Ok tt
  | ip :: ips' =>
      match validateDestinationIP (IP_bytes ip) allowPrivate with
      | Err e => Err e
      | Ok _ => all_allowed ips' allowPrivate
      end
  end.

Definition secureDialContext (allowPrivate : bool) (address : string) :
    result string IP * list IP :=
  match SplitHostPort address with
  | None => (Err "invalid dial address: %w", [])
  | Some (host, port) =>
      if isBlockedHostname host then (Err "destination host blocked: %s", [])
      else match LookupIPAddr host with
      | None => (Err "resolve destination: %w", [])
      | Some [] => (Err "destination resolved to no addresses", [])
      | Some ips =>
          match all_allowed ips allowPrivate with
          | Err e => (Err e, [])
          | Ok _ =>
              match dial_first ips port with
              | (Some ip, tried) => (Ok ip, tried)
              | (None, tried) => (Err "dial destination: %w", tried)
              end
          end
      end
  end.

(** The transport of a client: none, one of net/http with its proxy and the
    [allowPrivate] of its dialler (the default dialler has none), or another. *)
Inductive RoundTripper : Type :=
| NilTransport
| HTTPTransport (proxied : bool) (secure : option bool)
| OtherTransport.

(** [clientFor], of the transport; its redirect check is [CheckRedirect]. *)
Definition clientFor (ac : ActionConfig) (transport : RoundTripper) : RoundTripper :=
  let allowPrivate := ac_allow_private ac && Nat.ltb 0 (length (ac_url_allowlist ac)) in
  match transport with
  | NilTransport | HTTPTransport _ _ => HTTPTransport false (Some allowPrivate)
  | OtherTransport => OtherTransport
  end.

End HttpAction.
