(* ===== verification/HttpProps.v ===== *)
(** * What HTTP actions send and how their outcome is classified

    Every request of an action, redirects included, stays within the policy
    and on one authority; dialling reaches public addresses only; refused
    actions are permanent failures and were never sent. *)

From Stdlib Require Import Ascii.
From S2P Require Import Prelude GoLib Http Placeholders JsonText Config Handler UrlPath UrlPolicy HttpAction.

#[local] Open Scope string_scope.

Lemma ToUpper_nonempty s : s ≠ "" → ToUpper s ≠ "".
Proof.
  destruct s as [|a s]; [done|]. intros _. cbn [ToUpper]. destruct (in_range _ _ _); [done|].
  destruct s as [|b s]; [done|]. destruct (_ && _); [done|]. by destruct (_ && _).
Qed.

(** ** Secrets *)

Lemma match_key_nonempty s key rest : match_key s = Some (key, rest) → key ≠ "".
Proof.
  unfold match_key, match_ident. destruct s as [|a s]; [done|]. destruct (ident_start _); [|done].
  destruct (take_while ident_byte s). cbn. destruct (match_text "}" _); [|done]. by intros [= <- _].
Qed.

Lemma varRe_key s ns key rest : varRe s = Some ((ns, key), rest) → key ≠ "".
Proof.
  unfold varRe. destruct (match_text "${" s) as [r|]; [|done]. cbn [mbind option_bind].
  generalize ["event"; "secret"]%list as spaces. intros spaces. revert r.
  induction spaces as [|x spaces IH]; intros r; cbn [match_spaces].
  - destruct (match_key r) as [[k r']|] eqn:E; [|done]. cbn. intros [= <- <- <-].
    by eapply match_key_nonempty.
  - destruct (match_text (x +:+ ":") r) as [r1|]; cbn [mbind option_bind orelse]; [|by apply IH].
    destruct (match_key r1) as [[k r']|] eqn:E; cbn; [|by apply IH]. intros [= <- <- <-].
    by eapply match_key_nonempty.
Qed.

(** A match of the expression has a key. *)
Lemma find_all_key ns key text : (ns, key) ∈ find_all varRe text → key ≠ "".
Proof.
  unfold find_all, matches. generalize (String.length text) as fuel. intros fuel.
  revert text. induction fuel as [|fuel IH]; intros [|a text]; cbn [scan];
    try (by intros ?%elem_of_nil).
  destruct (varRe (String a text)) as [[[ns' k'] rest]|] eqn:Ev.
  - intros Hin. cbn in Hin. apply elem_of_cons in Hin as [[= <- <-]|Hin]; [|by eapply IH].
    by eapply varRe_key.
  - intros Hin. by eapply IH.
Qed.

Lemma missingExplicitSecret_none LookupEnv values :
  missingExplicitSecret LookupEnv values = "" →
  ∀ v key, v ∈ values → ("secret", key) ∈ find_all varRe v → key ≠ "" →
  default "" (LookupEnv key) ≠ "".
Proof.
  unfold missingExplicitSecret. intros Hm v key Hv Hk Hne Hempty.
  set (l := values ≫= _) in Hm.
  assert (key ∈ l) as Hin.
  { apply list_elem_of_bind. exists v. split; [|done]. apply list_elem_of_bind.
    exists ("secret", key). split; [|done]. cbn. rewrite Hempty. cbn. by left. }
  assert (∀ k, k ∈ l → k ≠ "") as Hl.
  { intros k (v' & Hk' & _)%list_elem_of_bind. apply list_elem_of_bind in Hk' as ([ns k'] & Hk' & Hf).
    destruct (bool_decide (ns = "secret") && _); [|by apply elem_of_nil in Hk'].
    apply list_elem_of_singleton in Hk' as ->. by apply find_all_key in Hf. }
  destruct l as [|k l']; [by apply elem_of_nil in Hin|]. cbn in Hm. subst.
  by apply (Hl ""); [left|].
Qed.

Section Sends.
Context `{Net, Url, MapOrder}.
Context (LookupEnv : string → option string).
Context (json_Valid : string → bool) (ParseTime : string → option Z).
Context (resolve_reference : url → string → option url) (now : nat → Z).
Context (roundtrip : nat → OutRequest → list url → url → result go_error Response).

#[local] Abbreviation prepare := (prepare LookupEnv json_Valid).
#[local] Abbreviation follow := (follow resolve_reference roundtrip).
#[local] Abbreviation http_run := (http_run LookupEnv json_Valid ParseTime resolve_reference now roundtrip).

(** ** The request *)

Lemma prepare_Ok tick meta ac vars req u target :
  prepare tick meta ac vars = Ok (req, u, target) →
  or_url req = interpolate LookupEnv (ac_url ac) vars ∧
  ParseURL (or_url req) = Some u ∧
  ValidateURLDestinationWithPolicy (or_url req) (ac_url_allowlist ac) (ac_allow_private ac) = Ok tt ∧
  missingExplicitSecret LookupEnv (secret_fields tick ac) = "" ∧
  (or_body req = "" ∨ json_Valid (or_body req) = true ∨
   let hint := content_type_hint LookupEnv (range tick 1 (ac_headers ac)) vars in
   hint ≠ "" ∧ contains (ToLower hint) "json" = false) ∧
  ∃ h, or_header req = set_identity meta vars h.
Proof.
  unfold HttpAction.prepare. destruct (bool_decide (missingExplicitSecret _ _ = "")) eqn:Em; [|done].
  cbn [negb]. set (raw := interpolate LookupEnv (ac_url ac) vars).
  set (hint := content_type_hint _ _ vars).
  destruct (ValidateURLDestinationWithPolicy _ _ _) as [[]|] eqn:Ev; [|done].
  set (json := bool_decide (hint = "") || _). set (body := if json then interpolateJSONString _ _ _ else _).
  destruct (json && _ && _) eqn:Ej; [done|].
  destruct (negb _ && all_bytes token_byte _); [|done].
  destruct (ParseURL raw) as [u'|] eqn:Eu; [|done].
  intros [= <- <- <-]. cbn [or_url or_body or_header].
  split_and!; try done; [by apply bool_decide_eq_true_1 in Em| |by eexists].
  apply andb_false_iff in Ej as [Ej|Ej]; [apply andb_false_iff in Ej as [Ej|Ej]|].
  - right; right. unfold json in Ej. apply orb_false_iff in Ej as [E1 E2].
    by apply bool_decide_eq_false_1 in E1.
  - left. by apply negb_false_iff, bool_decide_eq_true_1 in Ej.
  - right; left. by apply negb_false_iff in Ej.
Qed.

Lemma set_identity_meta m vars h :
  let h' := set_identity (Some m) vars h in
  h' !! "Idempotency-Key" = Some [md_event_id m +:+ ":" +:+ Itoa (md_action_index m)] ∧
  h' !! "X-Webhook-Event-Id" = Some [md_event_id m] ∧
  h' !! "X-Webhook-Attempt" = Some [Itoa (md_attempt m)].
Proof.
  cbn -[Itoa]. unfold header_set.
  change (CanonicalMIMEHeaderKey "Idempotency-Key") with "Idempotency-Key".
  change (CanonicalMIMEHeaderKey "X-Webhook-Event-ID") with "X-Webhook-Event-Id".
  change (CanonicalMIMEHeaderKey "X-Webhook-Attempt") with "X-Webhook-Attempt".
  split_and!.
  - by rewrite !lookup_insert_ne, lookup_insert_eq by done.
  - by rewrite lookup_insert_ne, lookup_insert_eq by done.
  - by rewrite lookup_insert_eq.
Qed.

(** The methods [validate_action_type] lets through, as in a loaded file *)
Definition known_method_ok (ac : ActionConfig) : Prop :=
  ToUpper (ac_method ac) ∈ [""; "GET"; "POST"; "PUT"; "PATCH"; "DELETE"].

Lemma IsNonRetryable_status he :
  IsNonRetryable (Some (ErrHTTP he)) = true ↔
  (he_status he ≠ 408 ∧ he_status he ≠ 429 ∧ he_status he < 500)%Z.
Proof.
  unfold IsNonRetryable. cbn [is_non_retryable as_http]. unfold retryable.
  destruct (Z.eqb_spec (he_status he) 408); [cbn; naive_solver|].
  destruct (Z.eqb_spec (he_status he) 429); [cbn; naive_solver|]. cbn [orb].
  destruct (Z.leb_spec 500 (he_status he)); cbn; [split; [done|lia]|split; [lia|done]].
Qed.

(** A request that is refused is refused for good. *)
Lemma prepare_Err tick meta ac vars res e :
  known_method_ok ac → prepare tick meta ac vars = Err (res, e) →
  ∃ msg, e = non_retryable msg.
Proof.
  intros Hm. unfold HttpAction.prepare. destruct (negb (bool_decide (missingExplicitSecret _ _ = ""))).
  { intros [= <- <-]. by eexists. }
  set (raw := interpolate LookupEnv (ac_url ac) vars).
  destruct (ValidateURLDestinationWithPolicy _ _ _) as [[]|] eqn:Ev; [|intros [= <- <-]; by eexists].
  apply policy_ok in Ev as (u & Hu & _). rewrite Hu.
  destruct (_ && negb _ && _); [intros [= <- <-]; by eexists|].
  assert ((negb (bool_decide ((if bool_decide (ac_method ac = "") then "POST" else ToUpper (ac_method ac)) = ""))
    && all_bytes token_byte (if bool_decide (ac_method ac = "") then "POST" else ToUpper (ac_method ac))) = true)
    as ->; [|done].
  destruct (decide (ac_method ac = "")) as [E|E];
    [by rewrite (bool_decide_true (ac_method ac = "")) by done|].
  rewrite (bool_decide_false (ac_method ac = "")) by done.
  assert (ToUpper (ac_method ac) ≠ "") as Hne by exact (ToUpper_nonempty _ E).
  unfold known_method_ok in Hm. rewrite !elem_of_cons in Hm.
  destruct Hm as [?|[->|[->|[->|[->|[->|?%elem_of_nil]]]]]]; done.
Qed.

(** ** Redirects *)

Lemma sameAuthority_iff u v :
  sameAuthority u v = true ↔
  fold_case (normalizeHostname (Hostname u)) = fold_case (normalizeHostname (Hostname v)) ∧
  effectivePort u = effectivePort v.
Proof. unfold sameAuthority, EqualFold. by rewrite andb_true_iff, !bool_decide_eq_true. Qed.

Lemma CheckRedirect_Ok ac initial next via :
  CheckRedirect ac initial next via = Ok tt →
  (length via < 3)%nat ∧
  ValidateURLDestinationWithPolicy (url_string next) (ac_url_allowlist ac) (ac_allow_private ac) = Ok tt ∧
  sameAuthority (List.last via initial) next = true.
Proof.
  unfold CheckRedirect. destruct (Nat.leb_spec 3 (length via)); [done|].
  destruct (ValidateURLDestinationWithPolicy _ _ _) as [[]|]; [|done].
  destruct (sameAuthority _ _); [|done]. done.
Qed.

(** A requested URL: the first one, or one the redirect check let through *)
Definition checked (ac : ActionConfig) (initial v : url) : Prop :=
  v = initial ∨
  ValidateURLDestinationWithPolicy (url_string v) (ac_url_allowlist ac) (ac_allow_private ac) = Ok tt.

Lemma follow_sent fuel tick ac initial req via u :
  checked ac initial u → sameAuthority initial u = true → (length via < 3)%nat →
  let sent := (follow fuel tick ac initial req via u).2 in
  (length via + length sent ≤ 3)%nat ∧
  ∀ v, v ∈ sent → checked ac initial v ∧ sameAuthority initial v = true.
Proof.
  revert via u. induction fuel as [|fuel IH]; intros via u Hc Ha Hv; cbn [HttpAction.follow].
  all: assert (∀ v : url, v ∈ [u] → checked ac initial v ∧ sameAuthority initial v = true) as Hone
    by (intros v ->%list_elem_of_singleton; done).
  all: destruct (roundtrip _ _ _ _) as [resp|]; [|cbn; split; [lia|done]].
  all: destruct (if is_redirect _ then _ else _) as [loc|]; [|cbn; split; [lia|done]].
  all: destruct (resolve_reference u loc) as [next|]; [|cbn; split; [lia|done]].
  all: destruct (CheckRedirect _ _ _ _) as [[]|] eqn:Ec; cbn [snd]; [|split; [cbn; lia|done]].
  - split; [cbn; lia|done].
  - apply CheckRedirect_Ok in Ec as (Hl & Hp & Hs). rewrite last_last in Hs.
    rewrite length_app in Hl. cbn in Hl.
    specialize (IH (via ++ [u])%list next).
    destruct IH as [IHl IHs].
    + by right.
    + apply sameAuthority_iff in Ha as [??], Hs as [??]. apply sameAuthority_iff. split; congruence.
    + rewrite length_app. cbn. lia.
    + destruct (follow fuel _ _ _ _ _ _) as [r sent]. cbn [snd] in *.
      rewrite length_app in IHl. cbn in IHl |- *. split; [lia|].
      intros v [->|Hin]%elem_of_cons; [by apply Hone; left|by apply IHs].
Qed.

Lemma follow_head fuel tick ac initial req via u r sent :
  follow fuel tick ac initial req via u = (r, sent) → head sent = Some u.
Proof.
  destruct fuel; cbn [HttpAction.follow]; destruct (roundtrip _ _ _ _) as [resp|];
    repeat (case_match || (intros [= <- <-]; done)); by intros [= <- <-].
Qed.


(** ** The outcome *)

(** The loop never runs out of fuel: a third redirect is refused first. *)
Lemma follow_fuel fuel fuel' tick ac initial req via u :
  (3 ≤ length via + fuel)%nat → (3 ≤ length via + fuel')%nat →
  follow fuel tick ac initial req via u = follow fuel' tick ac initial req via u.
Proof.
  revert fuel' via u. induction fuel as [|fuel IH]; intros [|fuel'] via u Hf Hf';
    cbn [HttpAction.follow]; [done|..].
  1-2: destruct (roundtrip _ _ _ _) as [resp|]; [|done].
  1-2: destruct (if is_redirect _ then _ else _) as [loc|]; [|done].
  1-2: destruct (resolve_reference u loc) as [next|]; [|done].
  1-2: unfold CheckRedirect; rewrite length_app; cbn [length].
  1-2: by rewrite (proj2 (Nat.leb_le 3 (length via + 1))) by lia.
  destruct (roundtrip _ _ _ _) as [resp|]; [|done].
  destruct (if is_redirect _ then _ else _) as [loc|]; [|done].
  destruct (resolve_reference u loc) as [next|]; [|done].
  destruct (CheckRedirect _ _ _ _); [|done].
  rewrite (IH fuel'); [done|..]; rewrite length_app; cbn; lia.
Qed.

(** Every answer the loop returns came from the network. *)
Lemma follow_answer fuel tick ac initial req via u resp :
  (follow fuel tick ac initial req via u).1 = Ok resp →
  ∃ via' v, roundtrip tick req via' v = Ok resp ∧ v ∈ (follow fuel tick ac initial req via u).2.
Proof.
  revert via u. induction fuel as [|fuel IH]; intros via u; cbn [HttpAction.follow].
  all: destruct (roundtrip tick req via u) as [resp'|] eqn:Er; [|done].
  all: destruct (if is_redirect _ then _ else _) as [loc|];
    [|cbn; intros [= <-]; exists via, u; split; [done|by left]].
  all: destruct (resolve_reference u loc) as [next|]; [|done].
  all: destruct (CheckRedirect _ _ _ _); [|done].
  - done.
  - specialize (IH (via ++ [u])%list next). destruct (follow fuel _ _ _ _ _ _) as [r sent].
    cbn [fst snd] in *. intros Hr. destruct (IH Hr) as (via' & v & Hv & Hin).
    exists via', v. split; [done|by right].
Qed.

(** An attempt succeeds exactly on a final answer with a 2xx status; any
    other answer is an error with its status and Retry-After, permanent
    exactly when it is neither 408, 429 nor 5xx; and an action refused before
    anything was sent (a missing secret, a forbidden destination, a body that
    is not JSON) fails for good, so that it is never retried. *)
Theorem http_outcome tick meta ac vars :
  known_method_ok ac →
  let '((res, err), sent) := http_run tick meta ac vars in
  match err with
  | None => ∃ via v resp req, roundtrip tick req via v = Ok resp ∧ v ∈ sent ∧
      (200 ≤ rp_status resp < 300)%Z ∧ rs_detail res = "status=" +:+ Itoa (rp_status resp)
  | Some e =>
      (sent = [] → IsNonRetryable err = true) ∧
      (∀ he, e = ErrHTTP he →
         ¬ (200 ≤ he_status he < 300)%Z ∧
         (IsNonRetryable err = true ↔ he_status he ≠ 408 ∧ he_status he ≠ 429 ∧ he_status he < 500)%Z)
  end.
Proof.
  intros Hm. unfold HttpAction.http_run.
  destruct (prepare tick meta ac vars) as [[[req u] target]|[res e]] eqn:Ep.
  - unfold Do. pose proof (follow_answer 3 tick ac u req [] u) as Hans.
    destruct (follow 3 tick ac u req [] u) as [r sent] eqn:Ef.
    apply follow_head in Ef as Hhead. cbn [fst snd] in Hans.
    unfold outcome. destruct r as [resp|e]; cbn [rs_detail].
    + destruct (Z.leb_spec 200 (rp_status resp)), (Z.ltb_spec (rp_status resp) 300); cbn [andb].
      1: { destruct (Hans resp eq_refl) as (via & v & Hv & Hin). by exists via, v, resp, req. }
      all: split; [intros ->; done|]; intros he [= <-]; cbn [he_status].
      all: split; [lia|]; apply IsNonRetryable_status.
    + split; [intros ->; done|done].
  - apply prepare_Err in Ep as [msg ->]; [|done]. split; [done|]. by intros he ?.
Qed.

End Sends.

(** ** Dialling *)

Section Dial.
Context `{Net}.
Context (SplitHostPort : string → option (string * string)).
Context (LookupIPAddr : string → option (list IP)) (dial : IP → string → bool).

Lemma dial_first_tried ips port :
  (∀ ip, ip ∈ (dial_first dial ips port).2 → ip ∈ ips) ∧
  (∀ ip, (dial_first dial ips port).1 = Some ip → ip ∈ (dial_first dial ips port).2 ∧ dial ip port = true).
Proof.
  induction ips as [|x ips [IH1 IH2]]; cbn; [split; [by intros ??|done]|].
  destruct (dial x port) eqn:E; cbn.
  - split; [intros ip ->%list_elem_of_singleton; by left|]. intros ip [= <-]. split; [by left|done].
  - destruct (dial_first dial ips port) as [r tried]. cbn in *. split.
    + intros ip [->|Hin]%elem_of_cons; [by left|right; by apply IH1].
    + intros ip Hip. destruct (IH2 ip Hip). split; [by right|done].
Qed.

Lemma all_allowed_each ips allowPrivate :
  all_allowed ips allowPrivate = Ok tt →
  ∀ ip, ip ∈ ips → validateDestinationIP (IP_bytes ip) allowPrivate = Ok tt.
Proof.
  induction ips as [|x ips IH]; cbn; [by intros _ ip ?%elem_of_nil|].
  destruct (validateDestinationIP _ _) as [[]|] eqn:E; [|done].
  intros Ha ip [->|Hin]%elem_of_cons; [done|by apply IH].
Qed.

(** The client of an action, made from one with a transport of net/http or
    none, never uses a proxy, and its dialler lets private addresses through
    only for an action that asks for them and has an allowlist. *)
Lemma clientFor_secure ac transport : transport ≠ OtherTransport →
  ∃ p, clientFor ac transport = HTTPTransport false (Some p) ∧
    (p = true → ac_allow_private ac = true ∧ ac_url_allowlist ac ≠ []).
Proof.
  intros Ht. exists (ac_allow_private ac && Nat.ltb 0 (length (ac_url_allowlist ac))). split; [by destruct transport|].
  intros [Hp Hl]%andb_true_iff. split; [done|]. intros Hnil. by rewrite Hnil in Hl.
Qed.


End Dial.

(** ** A hook that redirects once, then answers 503 *)

Module Demo.

#[export] Instance net : Net := UrlPolicy.Demo.dotted_net.
#[export] Instance urls : Url := UrlPolicy.Demo.web_url.
#[export] Program Instance order : MapOrder := {| range _ _ m := map_to_list m |}.
Next Obligation. done. Qed.

Definition LookupEnv (name : string) : option string :=
  if bool_decide (name = "TOKEN") then Some "t0p" else None.

Definition action : ActionConfig :=
  MkAction "http" "https://hooks.example/hooks/${route}" "post" {["Authorization" := "Bearer ${secret:TOKEN}"]}
    "{}" ["https://hooks.example/hooks"] false "" [] 0.

Definition absolute (_ : url) (location : string) : option url := ParseURL location.

Definition answer (location : string) (_ : nat) (_ : OutRequest) (via : list url) (_ : url) :
    result go_error Response :=
  match via with
  | [] => Ok (MkResponse 307 (Some location) "" "")
  | _ => Ok (MkResponse 503 None "30" "busy")
  end.

Definition run (route location : string) : (Result * option go_error) * list url :=
  http_run LookupEnv (λ b, bool_decide (b = "{}")) (λ _, None) absolute (λ _, 0%Z) (answer location) 0
    (Some (MkMeta "e1" 0 1)) action {["route" := route]}.

End Demo.
#[local] Existing Instance Demo.net.
#[local] Existing Instance Demo.urls.
#[local] Existing Instance Demo.order.

(** A redirect within the policy is followed, one out of it is not, and a
    path that leaves the prefix is not even requested. *)
Example http_runs :
  (map u_path (Demo.run "a" "https://hooks.example/hooks/b").2 = ["/hooks/a"; "/hooks/b"]) ∧
  (map u_path (Demo.run "a" "https://hooks.example/admin").2 = ["/hooks/a"]) ∧
  (Demo.run "%2e%2e/admin" "https://hooks.example/hooks/b").2 = [].
Proof. vm_compute. done. Qed.

Lemma http_outcome_witness :
  (Demo.run "a" "https://hooks.example/hooks/b").1.2 =
    Some (ErrHTTP (MkHTTPError 503 "busy" (30 * Second))) ∧
  IsNonRetryable (Demo.run "a" "https://hooks.example/hooks/b").1.2 = false ∧
  IsNonRetryable (Demo.run "%2e%2e/admin" "").1.2 = true.
Proof.
  split; [vm_compute; reflexivity|]. split; [vm_compute; reflexivity|].
  assert (known_method_ok Demo.action) as Hm by (vm_compute; right; right; by left).
  pose proof (http_outcome Demo.LookupEnv (λ b, bool_decide (b = "{}")) (λ _, None) Demo.absolute
    (λ _, 0%Z) (Demo.answer "") 0 (Some (MkMeta "e1" 0 1)) Demo.action
    {["route" := "%2e%2e/admin"]} Hm) as Ho.
  change (http_run _ _ _ _ _ _ _ _ _ _) with (Demo.run "%2e%2e/admin" "") in Ho.
  assert ((Demo.run "%2e%2e/admin" "").2 = []) as Hs by (vm_compute; reflexivity).
  destruct (Demo.run "%2e%2e/admin" "") as [[res [e|]] sent]; cbn [fst snd] in *.
  - by apply Ho.
  - subst sent. destruct Ho as (? & ? & ? & ? & _ & Hin & _). by apply elem_of_nil in Hin.
Defined.
