(* ===== verification/ExecAction.v ===== *)
(** * Exec actions: [internal/handler/exec.go]

    The command an exec action runs, the environment it gets, the bounded
    writer for its output and the outcome of the attempt. The process is a
    parameter: whether it starts, what it writes and how it ends. *)

From S2P Require Import Prelude GoLib Placeholders Config Handler HttpAction.

#[local] Open Scope string_scope.

(** ** The bounded writer *)

Definition maxExecOutput : Z := 8 * 2 ^ 10.

Record cappedWriter : Type := MkWriter { cw_limit : Z; cw_buf : string; cw_n : Z }.

Definition length_z (s : string) : Z := Z.of_nat (String.length s).

(** [Write] returns the length of the text in every case. *)
Definition Write (p : string) (w : cappedWriter) : Z * cappedWriter :=
  let orig := length_z p in
  let n := wrap64 (cw_n w + orig) in
  let remain := (cw_limit w - length_z (cw_buf w))%Z in
  if (remain <=? 0)%Z then (orig, MkWriter (cw_limit w) (cw_buf w) n)
  else
    let p := if (remain <? length_z p)%Z then String.substring 0 (Z.to_nat remain) p else p in
    (orig, MkWriter (cw_limit w) (cw_buf w +:+ p) n).

(** [String] of a writer *)
Definition written (w : cappedWriter) : string :=
  if (cw_limit w <? cw_n w)%Z then cw_buf w +:+ "...(truncated)" else cw_buf w.

Definition write_all (ps : list string) (w : cappedWriter) : cappedWriter :=
  foldl (λ w p, (Write p w).2) w ps.

(** ** The process *)

Inductive ctx_err : Type := DeadlineExceeded | Canceled.

(** What a started command does: what it writes to both outputs, the error of
    [Wait], and the error of its context when it ended. *)
Record process_run : Type := MkProcess {
  ps_writes : list string;
  ps_wait : option go_error;
  ps_ctx : option ctx_err;
}.

Record command : Type := MkCommand {
  cmd_path : string;
  cmd_args : list string;
  cmd_env : list string;
  cmd_timeout : Z;
}.

(** The answer of kill(2) *)
Inductive kill_result : Type := KillOk | ESRCH | KillErr (msg : string).

(** [killProcessGroup]: of no process, or of a group that is gone, it says that
    the process is done. *)
Definition killProcessGroup (pid : option Z) (kill : Z → kill_result) : option go_error :=
  match pid with
  | None => Some (ErrText "os: process already finished")
  | Some pid =>
      match kill (- pid)%Z with
      | KillOk => None
      | ESRCH => Some (ErrText "os: process already finished")
      | KillErr msg => Some (ErrText msg)
      end
  end.

Section Exec.
Context (LookupEnv : string → option string).
(** cmd.Start and what follows *)
Context (start : nat → command → result go_error process_run).

Definition exec_env_keys : list string := ["PATH"; "LANG"; "LC_ALL"; "HOME"; "TMPDIR"; "TZ"].

Definition minimalExecEnv : list string :=
  let env := omap (λ k, v ← LookupEnv k; Some (k +:+ "=" +:+ v)) exec_env_keys in
  if Nat.eqb (length env) 0 then ["PATH=/usr/bin:/bin"] else env.

Definition exec_defaultTimeout : Z := 60 * Second.

Definition exec_command (ac : ActionConfig) (vars : gmap string string) : command :=
  {| cmd_path := ac_command ac;
     cmd_args := (λ a, interpolate LookupEnv a vars) <$> ac_args ac;
     cmd_env := minimalExecEnv;
     cmd_timeout := if (ac_timeout ac <=? 0)%Z then exec_defaultTimeout else ac_timeout ac |}.

(** [Handle], with the command it started *)
Definition exec_run (tick : nat) (ac : ActionConfig) (vars : gmap string string) :
    (Result * option go_error) * option command :=
  let missing := missingExplicitSecret LookupEnv (ac_command ac :: ac_args ac) in
  if negb (bool_decide (missing = ""))
  then ((MkResult "" "",
         Some (non_retryable ("required action secret " +:+ missing +:+ " is not set"))), None)
  else if bool_decide (ac_command ac = "")
  then ((MkResult "" "", Some (ErrText "exec: empty command")), None)
  else
    let cmd := exec_command ac vars in
    match start tick cmd with
    | Err e => ((MkResult (ac_command ac) "", Some (ErrWrap "exec start: %w" [e])), Some cmd)
    | Ok p =>
        let out := write_all (ps_writes p) (MkWriter maxExecOutput "" 0) in
        let res := MkResult (ac_command ac) (written out) in
        let err :=
          match ps_ctx p with
          | Some DeadlineExceeded =>
              Some (ErrWrap "exec timeout after %s: %w" [ErrText "context deadline exceeded"])
          | Some Canceled => Some (ErrWrap "exec canceled: %w" [ErrCanceled])
          | None =>
              match ps_wait p with
              | Some e => Some (ErrWrap "exec failed: %w" [e])
              | None => None
              end
          end in
        ((res, err), Some cmd)
    end.

Definition exec_Handle (tick : nat) (_ : ExecutionMetadata) (ac : ActionConfig)
    (vars : gmap string string) : Result * option go_error := (exec_run tick ac vars).1.

Definition Exec : handler := MkHandler "exec" exec_Handle.

End Exec.

(** ** The writer keeps a prefix *)

Definition concat_all (ps : list string) : string := foldr (λ p s, p +:+ s) "" ps.

(** The writer after some text: its first bytes, and how much there was *)
Definition holds (limit : Z) (text : string) (w : cappedWriter) : Prop :=
  w = MkWriter limit (String.substring 0 (Z.to_nat limit) text) (length_z text).

Lemma Write_holds limit text p w :
  (0 ≤ limit)%Z → holds limit text w → (length_z (text +:+ p) < 2 ^ 63)%Z →
  (Write p w).1 = length_z p ∧ holds limit (text +:+ p) (Write p w).2.
Proof.
  intros Hl -> Hn. unfold Write, holds. cbn [cw_limit cw_buf cw_n].
  assert (length_z (text +:+ p) = length_z text + length_z p)%Z as Hadd
    by (unfold length_z; rewrite str_app_length; lia).
  rewrite wrap64_id by (unfold int64_ok, length_z in *; lia).
  rewrite substring_app, Hadd.
  assert (length_z (String.substring 0 (Z.to_nat limit) text) = Z.min limit (length_z text))%Z as ->
    by (unfold length_z; rewrite substring_length; lia).
  destruct (Z.leb_spec (limit - Z.min limit (length_z text)) 0) as [Hr|Hr]; (split; [done|]); cbn [snd].
  - replace (Z.to_nat limit - String.length text)%nat with 0%nat by (unfold length_z in *; lia).
    assert (String.substring 0 0 p = "") as -> by by destruct p. by rewrite str_app_nil.
  - assert (length_z text < limit)%Z by lia. f_equal.
    replace (Z.to_nat limit - String.length text)%nat
      with (Z.to_nat (limit - Z.min limit (length_z text)))%nat by (unfold length_z in *; lia).
    destruct (Z.ltb_spec (limit - Z.min limit (length_z text)) (length_z p)); [done|].
    rewrite (substring_all p); [done|]. unfold length_z in *; lia.
Qed.

Lemma write_all_holds limit text ps w :
  (0 ≤ limit)%Z → holds limit text w → (length_z (text +:+ concat_all ps) < 2 ^ 63)%Z →
  holds limit (text +:+ concat_all ps) (write_all ps w).
Proof.
  intros Hl. revert text w. induction ps as [|p ps IH]; intros text w Hw Hn.
  { cbn. by rewrite str_app_nil. }
  cbn [write_all foldl concat_all foldr] in *. fold (concat_all ps) in *.
  rewrite <-str_app_assoc in *. apply IH; [|done].
  apply Write_holds; [done..|]. unfold length_z in *. rewrite !str_app_length in *. lia.
Qed.

Lemma holds_nil limit : holds limit "" (MkWriter limit "" 0).
Proof. unfold holds. by destruct (Z.to_nat limit). Qed.

Lemma written_holds limit text w :
  holds limit text w →
  written w = if (limit <? length_z text)%Z
    then String.substring 0 (Z.to_nat limit) text +:+ "...(truncated)" else text.
Proof.
  intros ->. unfold written. cbn [cw_limit cw_n cw_buf].
  destruct (Z.ltb_spec limit (length_z text)); [done|].
  apply substring_all. unfold length_z in *. lia.
Qed.

(** ** Guarantees *)

Section Guarantees.
Context (LookupEnv : string → option string).
Context (start : nat → command → result go_error process_run).

Lemma minimalExecEnv_spec :
  minimalExecEnv LookupEnv ≠ [] ∧
  ∀ entry, entry ∈ minimalExecEnv LookupEnv → entry = "PATH=/usr/bin:/bin" ∨
    ∃ k v, k ∈ exec_env_keys ∧ LookupEnv k = Some v ∧ entry = k +:+ "=" +:+ v.
Proof.
  unfold minimalExecEnv. set (env := omap _ exec_env_keys).
  destruct (Nat.eqb_spec (length env) 0) as [E|E].
  { split; [done|]. intros entry ->%list_elem_of_singleton. by left. }
  split; [by intros ->|]. intros entry (k & Hk & Hv)%list_elem_of_omap. right.
  destruct (LookupEnv k) as [v|] eqn:Ev; [|done]. cbn in Hv. injection Hv as <-. by exists k, v.
Qed.


End Guarantees.

Example exec_ex :
  let start (_ : nat) (c : command) := Ok (MkProcess [Join (cmd_args c) "|"; " done"] None None) in
  exec_run (λ _, None) start 0
    (MkAction "exec" "" "" ∅ "" [] false "/bin/echo" ["${a}"; "x"] 0) {["a" := "1; rm -rf /"]} =
  ((MkResult "/bin/echo" "1; rm -rf /|x done", None),
   Some (MkCommand "/bin/echo" ["1; rm -rf /"; "x"] ["PATH=/usr/bin:/bin"] (60 * Second))).
Proof. vm_compute. reflexivity. Qed.
