(* ===== verification/Heartbeat.v ===== *)
(** * The heartbeat monitor: [internal/heartbeat/heartbeat.go]

    Sampling readiness, the request a target gets, the metrics of its
    delivery and the audit record of a failure. The network, the readiness
    callback and the contexts are parameters of a run. *)

From Stdlib Require Import Ascii.
From S2P Require Import Prelude Sql StoreSchema Store StoreStats Float64 GoLib Http Config Handler HeartbeatLogs.

#[local] Open Scope string_scope.

Definition maxResponseBytes : nat := 4096.

(** ** Payloads and metrics *)

Inductive Status : Type := StatusPass | StatusFail.

Definition status_text (s : Status) : string :=
  match s with StatusPass => "pass" | StatusFail => "fail" end.

Record Payload : Type := MkPayload {
  pl_host : string;
  pl_status : Status;
  pl_exit_code : Z;
  pl_timestamp : Z;
  pl_uptime : Z;
  pl_revision : string;
  pl_stats : option QueueStats;
  pl_drop_summary : string;
}.

Record TargetMetrics : Type := MkMetrics {
  tm_name : string;
  tm_mode : string;
  tm_attempts : Z;
  tm_failures : Z;
  tm_log_failures : Z;
  tm_last_attempt : Z;
  tm_last_success : Z;
  tm_last_failure : Z;
  tm_last_duration_ms : Z;
  tm_last_http_status : Z;
  tm_last_health : option Status;
}.

(** The assignments [deliver] makes to the metrics of a target; a counter would
    need 2^64 pushes to wrap around. *)
Definition count_attempt (at_ : Z) (health : Status) (m : TargetMetrics) : TargetMetrics :=
  MkMetrics (tm_name m) (tm_mode m) (tm_attempts m + 1) (tm_failures m) (tm_log_failures m)
    at_ (tm_last_success m) (tm_last_failure m) (tm_last_duration_ms m) (tm_last_http_status m)
    (Some health).
Definition set_outcome (duration http_status : Z) (m : TargetMetrics) : TargetMetrics :=
  MkMetrics (tm_name m) (tm_mode m) (tm_attempts m) (tm_failures m) (tm_log_failures m)
    (tm_last_attempt m) (tm_last_success m) (tm_last_failure m) duration http_status
    (tm_last_health m).
Definition set_success (at_ : Z) (m : TargetMetrics) : TargetMetrics :=
  MkMetrics (tm_name m) (tm_mode m) (tm_attempts m) (tm_failures m) (tm_log_failures m)
    (tm_last_attempt m) at_ (tm_last_failure m) (tm_last_duration_ms m) (tm_last_http_status m)
    (tm_last_health m).
Definition count_failure (at_ : Z) (m : TargetMetrics) : TargetMetrics :=
  MkMetrics (tm_name m) (tm_mode m) (tm_attempts m) (tm_failures m + 1) (tm_log_failures m)
    (tm_last_attempt m) (tm_last_success m) at_ (tm_last_duration_ms m) (tm_last_http_status m)
    (tm_last_health m).
Definition count_log_failure (m : TargetMetrics) : TargetMetrics :=
  MkMetrics (tm_name m) (tm_mode m) (tm_attempts m) (tm_failures m) (tm_log_failures m + 1)
    (tm_last_attempt m) (tm_last_success m) (tm_last_failure m) (tm_last_duration_ms m)
    (tm_last_http_status m) (tm_last_health m).

(** Time.Unix: whole seconds since the epoch, rounded down *)
Definition unix (t : Z) : Z := t / Second.

(** int64(f): the whole part *)
Definition f64_trunc (f : float64) : Z :=
  match f with
  | SpecFloat.S754_finite s m e =>
      let v := if (0 <=? e)%Z then (Z.pos m * 2 ^ e)%Z else (Z.pos m / 2 ^ (- e))%Z in
      if s then (- v)%Z else v
  | _ => 0%Z
  end.

(** ** Errors of the transport *)

(** What errors.Is and errors.As find in an error; its text may hold secrets. *)
Record transport_err : Type := MkTransportErr {
  te_deadline : bool;
  te_canceled : bool;
  te_net_timeout : bool;
  te_dns : bool;
  te_tls : bool;
  te_refused : bool;
  te_text : string;
}.

Definition safeErrorClass (e : transport_err) : string :=
  if te_deadline e then "timeout"
  else if te_canceled e then "canceled"
  else if te_net_timeout e then "timeout"
  else if te_dns e then "DNS lookup failed"
  else if te_tls e then "TLS verification failed"
  else if te_refused e then "connection refused"
  else "operation failed".

Section Endpoint.
Context `{Url}.

Definition auditURLTarget (raw : string) : string :=
  match ParseURL raw with
  | None => "invalid-url"
  | Some u =>
      if bool_decide (Hostname u = "") || negb (bool_decide (u_opaque u = "")) then "invalid-url"
      else
        let scheme := ToLower (u_scheme u) in
        if negb (bool_decide (scheme = "http")) && negb (bool_decide (scheme = "https"))
        then "invalid-url" else scheme +:+ "://" +:+ u_host u
  end.

Definition kuma_query (status : Status) (q : gmap string (list string)) : gmap string (list string) :=
  match status with
  | StatusPass => <["msg" := ["OK"]]> (<["status" := ["up"]]> q)
  | StatusFail => <["msg" := ["not ready"]]> (<["status" := ["down"]]> q)
  end.

Definition targetEndpoint (target : HeartbeatTarget) (status : Status) : result string string :=
  match ParseURL (ht_url target) with
  | None => Err "invalid heartbeat target URL"
  | Some u =>
      if bool_decide (Hostname u = "") || u_has_user u || negb (bool_decide (u_fragment u = ""))
         || negb (bool_decide (u_opaque u = ""))
      then Err "invalid heartbeat target URL"
      else
        let u := set_scheme (ToLower (u_scheme u)) u in
        if negb (bool_decide (u_scheme u = "https")) && negb (bool_decide (u_scheme u = "http"))
        then Err "invalid heartbeat target URL scheme"
        else if bool_decide (ht_mode target = "") || bool_decide (ht_mode target = "kuma") then
          match ParseQuery (u_raw_query u) with
          | None => Err "invalid heartbeat target query"
          | Some q => Ok (url_string (set_raw_query (Encode (kuma_query status q)) u))
          end
        else if bool_decide (ht_mode target = "push") || bool_decide (ht_mode target = "healthchecks") then
          match status with
          | StatusPass => Ok (url_string u)
          | StatusFail =>
              let raw := TrimRight (EscapedPath u) (ascii_of_nat 47) +:+ "/fail" in
              match PathUnescape raw with
              | None => Err "invalid heartbeat target path"
              | Some p => Ok (url_string (set_raw_path raw p u))
              end
          end
        else if bool_decide (ht_mode target = "json") then Ok (url_string u)
        else Err "invalid heartbeat target mode"
  end.

End Endpoint.

(** ** One push *)

Record HbRequest : Type := MkHbRequest {
  hr_url : string;
  hr_body : string;
  hr_header : gmap string (list string);
}.

Inductive do_result : Type :=
| DoErr (e : transport_err)
| DoResp (status : Z) (body : result transport_err string).

(** ** The monitor *)

(** The state of a monitor that is running: the store, the metrics of the
    targets and the time of the last accepted push. *)
Record hb_world : Type := HbWorld {
  hw_conn : conn DB;
  hw_metrics : list TargetMetrics;
  hw_last : Z;
}.

Section Monitor.
Context `{Env, SqlOrder, Url}.
Context (origin_url : string → string → string).
(** json.Marshal of a payload, json.Unmarshal of Kuma's answer, client.Do *)
Context (payload_marshal : Payload → option string).
Context (kuma_ok : string → option bool).
Context (do_request : nat → HbRequest → do_result).
(** The readiness callback, the drop summary, and whether the sampling deadline
    passed; the monitor's own context is [canceled]. *)
Context (ready : nat → bool) (dropSummary : option (nat → string)) (sample_expired : nat → bool).
Context (cfg : HeartbeatConfig) (has_store : bool) (startedAt : Z) (revision : string).

#[local] Abbreviation W := (St hb_world).

Definition hb_tick : W nat := λ w,
  let c := hw_conn w in
  (cn_tick c, HbWorld (Conn (cn_db c) (S (cn_tick c))) (hw_metrics w) (hw_last w)).
Definition hb_now : W Z := n ← hb_tick; mret (clock n).
Definition hb_canceled : W bool := n ← hb_tick; mret (canceled n).
Definition hb_store {A} (m : M (conn DB) store_err A) : W (result store_err A) := λ w,
  let '(r, c) := m (hw_conn w) in (r, HbWorld c (hw_metrics w) (hw_last w)).
Definition hb_update (index : nat) (f : TargetMetrics → TargetMetrics) : W unit := λ w,
  (tt, HbWorld (hw_conn w) (alter f index (hw_metrics w)) (hw_last w)).

(** The compare-and-swap loop of [deliver], run without interruption *)
Definition hb_accept (at_ : Z) : W unit := λ w,
  (tt, HbWorld (hw_conn w) (hw_metrics w) (Z.max (hw_last w) at_)).

(** Readiness and the statistics, with the deadline of the sample *)
Definition probe (deadline now : Z) : W (bool * option QueueStats) :=
  if has_store then
    writeErr ← hb_store (ReadyCheck (Some deadline));
    stats ← hb_store (Stats now);
    n ← hb_tick;
    mret (is_ok writeErr && is_ok stats && negb (sample_expired n) && ready n,
          match stats with Ok st => Some st | Err _ => None end)
  else mret (false, None).

Definition sample : W Payload :=
  ctx ← hb_now;
  now ← hb_now;
  res ← probe (ctx + hc_timeout cfg)%Z now;
  summary ← match dropSummary with Some f => n ← hb_tick; mret (f n) | None => mret "" end;
  let uptime := f64_trunc (Seconds (time_sub now startedAt)) in
  mret {|
    pl_host := hc_host cfg;
    pl_status := if res.1 : bool then StatusPass else StatusFail;
    pl_exit_code := if res.1 : bool then 0 else 1;
    pl_timestamp := now;
    pl_uptime := Z.max uptime 0;
    pl_revision := revision;
    pl_stats := res.2;
    pl_drop_summary := summary |}.

Definition push_headers (target : HeartbeatTarget) : gmap string (list string) :=
  let h := {["Content-Type" := ["application/json"]]} in
  if bool_decide (ht_token target = "") then h else <["X-Heartbeat-Token" := [ht_token target]]> h.

(** The status of the answer, 0 without one, and the classified error *)
Definition pushTarget (n : nat) (target : HeartbeatTarget) (payload : Payload) : Z * option string :=
  match targetEndpoint target (pl_status payload) with
  | Err e => (0, Some e)
  | Ok endpoint =>
      match payload_marshal payload with
      | None => (0, Some "invalid heartbeat payload")
      | Some body =>
          match ParseURL endpoint with
          | None => (0, Some "invalid heartbeat request")
          | Some _ =>
              match do_request n (MkHbRequest endpoint body (push_headers target)) with
              | DoErr e => (0, Some (safeErrorClass e))
              | DoResp status body =>
                  if (status <? 200)%Z || (300 <=? status)%Z
                  then (status, Some ("unexpected HTTP status " +:+ Itoa status))
                  else if bool_decide (ht_mode target = "kuma") || bool_decide (ht_mode target = "") then
                    match body with
                    | Err e => (status, Some (safeErrorClass e))
                    | Ok body =>
                        let body := String.substring 0 (maxResponseBytes + 1) body in
                        if Nat.ltb maxResponseBytes (String.length body)
                        then (status, Some "Kuma response exceeds size limit")
                        else match kuma_ok body with
                        | None => (status, Some "invalid Kuma response")
                        | Some false => (status, Some "Kuma rejected heartbeat")
                        | Some true => (status, None)
                        end
                    end
                  else match body with
                  | Err e => (status, Some (safeErrorClass e))
                  | Ok _ => (status, None)
                  end
              end
          end
      end
  end.

(** The audit record of a failed push *)
Definition audit_entry (target : HeartbeatTarget) (payload : Payload) (httpStatus : Z) (err : string)
    (durationMS completedAt : Z) : HeartbeatLog :=
  MkHeartbeatLog (ht_name target) (auditURLTarget (ht_url target)) (ht_mode target)
    (status_text (pl_status payload)) err httpStatus durationMS (Some completedAt).

Definition log_budget : Z := Z.min (hc_timeout cfg) Second.

Definition log_failure (index : nat) (entry : HeartbeatLog) : W unit :=
  ctx ← hb_now;
  logErr ← (if has_store then hb_store (SaveHeartbeatError origin_url (Some (ctx + log_budget)%Z) entry)
            else mret (Err SqlError)) : W (result store_err unit);
  match logErr with
  | Ok _ => mret tt
  | Err _ => hb_update index count_log_failure
  end.

Definition deliver (index : nat) (target : HeartbeatTarget) (payload : Payload) : W unit :=
  c ← hb_canceled;
  if c : bool then mret tt else
  attemptedAt ← hb_now;
  _ ← hb_update index (count_attempt (unix attemptedAt) (pl_status payload));
  start ← hb_now;
  n ← hb_tick;
  let '(httpStatus, err) := pushTarget n target payload in
  stop ← hb_now;
  let durationMS := duration_ms (time_sub stop start) in
  completedAt ← hb_now;
  _ ← hb_update index (set_outcome durationMS httpStatus);
  match err with
  | None =>
      _ ← hb_update index (set_success (unix completedAt));
      hb_accept (unix completedAt)
  | Some e =>
      c ← hb_canceled;
      _ ← (if c : bool then mret tt else hb_update index (count_failure (unix completedAt)));
      c ← hb_canceled;
      if c : bool then mret tt
      else log_failure index (audit_entry target payload httpStatus e durationMS completedAt)
  end.

(** [tickTarget]; an index without a target does not occur. *)
Definition tickTarget (index : nat) : W unit :=
  match hc_targets cfg !! index with
  | None => mret tt
  | Some target =>
      payload ← sample;
      deliver index target payload
  end.

(** The ticks of all targets, in the order they happen *)
Fixpoint ticks (l : list nat) : W unit :=
  match l with
  | [] => mret tt
  | index :: l' => _ ← tickTarget index; ticks l'
  end.

End Monitor.

(** [New]: the configuration with its defaults and the metrics of a monitor *)
Definition hb_defaults (cfg : HeartbeatConfig) : HeartbeatConfig :=
  MkHbConfig (if (hc_interval cfg <=? 0)%Z then Minute else hc_interval cfg)
    (if (hc_timeout cfg <=? 0)%Z then (10 * Second)%Z else hc_timeout cfg) (hc_host cfg)
    ((λ t, MkHbTarget (ht_name t) (ht_url t) (ht_token t)
       (if bool_decide (ht_mode t = "") then "kuma" else ht_mode t) (ht_allow_http t)) <$> hc_targets cfg).

Definition new_metrics (cfg : HeartbeatConfig) : list TargetMetrics :=
  (λ t, MkMetrics (ht_name t) (ht_mode t) 0 0 0 0 0 0 0 0 None) <$> hc_targets (hb_defaults cfg).

Definition monitor_New (cfg : HeartbeatConfig) (c : conn DB) : HeartbeatConfig * hb_world :=
  (hb_defaults cfg, HbWorld c (new_metrics cfg) 0).

Definition MetricsSnapshot (w : hb_world) : list TargetMetrics := hw_metrics w.
Definition LastSuccess (w : hb_world) : Z := hw_last w.
