(* ===== verification/HeartbeatProps.v ===== *)
(** * What the heartbeat monitor reports and records

    Readiness is reported exactly when the store works; the text of a failure
    is one of a few constants; every failed push is counted and leaves an
    audit record or a count of the missing one; the time of the last accepted
    push never goes back ([HeartbeatRace] has it for deliveries that
    interleave). *)

From Stdlib Require Import Ascii.
From S2P Require Import Prelude Sql StoreSchema Store StoreStats Float64 GoLib Http Config Handler HeartbeatLogs HeartbeatLogProps Heartbeat.

#[local] Open Scope string_scope.

Ltac heartbeat_bind := apply wp_bind_St; unfold wp at 1.

(** ** Errors *)

Definition closed_errors : list string :=
  ["invalid heartbeat target URL"; "invalid heartbeat target URL scheme";
   "invalid heartbeat target query"; "invalid heartbeat target path";
   "invalid heartbeat target mode"; "invalid heartbeat payload"; "invalid heartbeat request";
   "timeout"; "canceled"; "DNS lookup failed"; "TLS verification failed"; "connection refused";
   "operation failed"; "Kuma response exceeds size limit"; "invalid Kuma response";
   "Kuma rejected heartbeat"].

Definition closed_error (e : string) : Prop :=
  e ∈ closed_errors ∨ ∃ status, e = "unexpected HTTP status " +:+ Itoa status.

Ltac listed := left; unfold closed_errors; rewrite !elem_of_cons; tauto.

Lemma safeErrorClass_closed e : closed_error (safeErrorClass e).
Proof. unfold safeErrorClass. repeat case_match; listed. Qed.

Section Endpoint.
Context `{Url}.
Context (payload_marshal : Payload → option string) (kuma_ok : string → option bool).
Context (do_request : nat → HbRequest → do_result).

Lemma targetEndpoint_closed target status e : targetEndpoint target status = Err e → closed_error e.
Proof.
  unfold targetEndpoint. destruct (ParseURL _) as [u|]; [|intros [= <-]; listed].
  repeat (case_match; try done); intros [= <-]; listed.
Qed.

#[local] Abbreviation pushTarget := (pushTarget payload_marshal kuma_ok do_request).

Lemma pushTarget_closed n target payload e :
  (pushTarget n target payload).2 = Some e → closed_error e.
Proof.
  unfold Heartbeat.pushTarget. destruct (targetEndpoint _ _) as [endpoint|e'] eqn:Ee.
  2: { intros [= <-]. by eapply targetEndpoint_closed. }
  destruct (payload_marshal payload); [|intros [= <-]; listed].
  destruct (ParseURL endpoint); [|intros [= <-]; listed].
  destruct (do_request n _) as [te|status body]; [intros [= <-]; apply safeErrorClass_closed|].
  destruct (_ || _); [intros [= <-]; right; by eexists|].
  destruct (_ || _); destruct body as [body|te]; try (intros [= <-]; apply safeErrorClass_closed).
  cbv zeta.
  destruct (Nat.ltb _ _); [intros [= <-]; listed|].
  destruct (kuma_ok _) as [[]|]; [done|intros [= <-]; listed..].
Qed.

(** Whatever the error of a push says, what is logged, stored and shown of it
    is one of sixteen constant texts or the status of the answer: no part of
    a target's URL, token or of an answer can leak through it. The record
    names the scheme and host of the target only. *)
Theorem push_error_closed n target payload status err duration completed :
  pushTarget n target payload = (status, Some err) →
  closed_error err ∧
  let entry := audit_entry target payload status err duration completed in
  hl_error entry = err ∧ hl_target entry = ht_name target ∧
  (hl_origin entry = "invalid-url" ∨
   ∃ u, ParseURL (ht_url target) = Some u ∧
     hl_origin entry = ToLower (u_scheme u) +:+ "://" +:+ u_host u).
Proof.
  intros Hp. split; [apply (pushTarget_closed n target payload); by rewrite Hp|].
  cbn [audit_entry hl_error hl_target hl_origin]. split; [done|]. split; [done|].
  unfold auditURLTarget. destruct (ParseURL (ht_url target)) as [u|]; [|by left].
  destruct (_ || _); [by left|]. cbv zeta. destruct (_ && _); [by left|right]. by exists u.
Qed.

End Endpoint.

(** ** Counting *)

Definition total (f : TargetMetrics → Z) (l : list TargetMetrics) : Z := foldr Z.add 0 (f <$> l).

Lemma total_keep f g i l : (∀ m, f (g m) = f m) → total f (alter g i l) = total f l.
Proof.
  intros Hg. revert i. induction l as [|x l IH]; intros [|i]; unfold total in *; cbn; try done.
  - by rewrite Hg.
  - by rewrite IH.
Qed.

Lemma total_succ f g i l :
  (i < length l)%nat → (∀ m, f (g m) = f m + 1)%Z → total f (alter g i l) = (total f l + 1)%Z.
Proof.
  intros Hi Hg. revert i Hi. induction l as [|x l IH]; intros [|i] Hi; cbn in Hi; try lia;
    unfold total in *; cbn; [rewrite Hg; lia|]. rewrite (IH i); lia.
Qed.

Definition rows (w : hb_world) : Z := Z.of_nat (length (heartbeat_logs (cn_db (hw_conn w)))).

(** The failures that left a trace: an audit row, or a count of the lost one *)
Definition traced (w : hb_world) : Z := (rows w + total tm_log_failures (hw_metrics w))%Z.

(** No target claims a success the aggregate does not know. *)
Definition last_ok (w : hb_world) : Prop := Forall (λ m, tm_last_success m ≤ hw_last w)%Z (hw_metrics w).

(** A run that made [a] attempts, counted [f] failures and left [t] traces *)
Record delta (a f t : Z) (w w' : hb_world) : Prop := Delta {
  dt_targets : length (hw_metrics w') = length (hw_metrics w);
  dt_last : (hw_last w ≤ hw_last w')%Z;
  dt_last_ok : last_ok w → last_ok w';
  dt_attempts : total tm_attempts (hw_metrics w') = (total tm_attempts (hw_metrics w) + a)%Z;
  dt_failures : total tm_failures (hw_metrics w') = (total tm_failures (hw_metrics w) + f)%Z;
  dt_traced : traced w' = (traced w + t)%Z;
}.

Lemma delta_trans a f t a' f' t' w w' w'' :
  delta a f t w w' → delta a' f' t' w' w'' → delta (a + a') (f + f') (t + t') w w''.
Proof. intros [] []. split; try lia; auto. Qed.

Lemma delta_quiet w w' :
  hw_metrics w' = hw_metrics w → hw_last w' = hw_last w → rows w' = rows w → delta 0 0 0 w w'.
Proof.
  intros Hm Hl Hr. split; unfold last_ok, traced; rewrite ?Hm, ?Hl, ?Hr; try done; lia.
Qed.

Section Rules.
Context `{Env}.

(** *** Rules *)

Definition at_tick (n : nat) (w : hb_world) : hb_world :=
  HbWorld (Conn (cn_db (hw_conn w)) n) (hw_metrics w) (hw_last w).

Lemma wp_hb_now Q w : (∀ n, Q (clock n) (at_tick (S n) w)) → wp hb_now Q w.
Proof. intros HQ. apply HQ. Qed.

Lemma wp_hb_now_at Q w :
  Q (clock (cn_tick (hw_conn w))) (at_tick (S (cn_tick (hw_conn w))) w) → wp hb_now Q w.
Proof. done. Qed.

Lemma wp_hb_tick Q w : (∀ n, Q n (at_tick (S n) w)) → wp hb_tick Q w.
Proof. intros HQ. apply HQ. Qed.

Lemma wp_hb_store {A} (m : M (conn DB) store_err A) Q w :
  wp m (λ r c', Q r (HbWorld c' (hw_metrics w) (hw_last w))) (hw_conn w) → wp (hb_store m) Q w.
Proof. unfold wp, hb_store. by destruct (m _). Qed.

Lemma ReadyCheck_run deadline c :
  wp (ReadyCheck deadline) (λ r c', if is_ok r then cn_db c' = (toggle_ready (cn_db c)).2
                                    else cn_db c' = cn_db c) c.
Proof. unfold ReadyCheck. by repeat wp_step. Qed.

Lemma ReadyCheck_ready d c :
  no_faults → (clock (S (cn_tick c)) < d)%Z → wp (ReadyCheck (Some d)) (λ r _, is_ok r = true) c.
Proof.
  intros Hn Hd. unfold ReadyCheck. apply wp_withDeadlineWriter_ok; [done..|]. intros n.
  by repeat wp_step_ok.
Qed.
End Rules.

Ltac hb_step :=
  lazymatch goal with
  | |- wp (_ ≫= _) _ _ => apply wp_bind_St
  | |- wp (mret _) _ _ => apply wp_ret_St
  | |- wp hb_now _ _ => apply wp_hb_now; intros ?
  | |- wp hb_tick _ _ => apply wp_hb_tick; intros ?
  end; cbn [at_tick hw_conn hw_metrics hw_last cn_db].

Section Sampling.
Context `{Env}.
Context (ready : nat → bool) (dropSummary : option (nat → string)) (sample_expired : nat → bool).
Context (cfg : HeartbeatConfig) (has_store : bool) (startedAt : Z) (revision : string).

#[local] Abbreviation sample := (sample ready dropSummary sample_expired cfg has_store startedAt revision).
(** *** Sampling *)

(** What sampling the readiness finds: whether the signal is up, and the
    statistics it carries *)
Lemma probe_run deadline now w :
  wp (probe ready sample_expired has_store deadline now)
    (λ res w', hw_metrics w' = hw_metrics w ∧ hw_last w' = hw_last w ∧ rows w' = rows w ∧
       (∀ st, res.2 = Some st → st = report now (cn_db (hw_conn w'))) ∧
       (res.1 = true → has_store = true ∧ is_Some res.2 ∧
          cn_db (hw_conn w') = (toggle_ready (cn_db (hw_conn w))).2 ∧
          ∃ n, ready n = true ∧ sample_expired n = false)) w.
Proof.
  unfold probe. destruct has_store; [|by apply wp_ret_St].
  hb_step. apply wp_hb_store. eapply wp_mono; [apply ReadyCheck_run|]. intros r c Hc.
  hb_step. apply wp_hb_store. eapply wp_mono; [apply Stats_run|]. intros st c' [Hc' Hst].
  cbn [hw_conn hw_metrics hw_last] in *. repeat hb_step. cbn [fst snd].
  repeat split; try done.
  - unfold rows. cbn. rewrite Hc'. by destruct r; cbn in Hc; rewrite Hc.
  - destruct st; [|done]. intros st' [= <-]. rewrite Hc'. by apply Hst.
  - bool_simpl. by destruct st.
  - bool_simpl. destruct r; [|done]. by rewrite Hc'.
  - bool_simpl. by eexists.
Qed.
Lemma probe_up deadline now w :
  has_store = true → no_faults → (clock (S (cn_tick (hw_conn w))) < deadline)%Z →
  (∀ n, sample_expired n = false) → (∀ n, ready n = true) →
  wp (probe ready sample_expired has_store deadline now) (λ res _, res.1 = true) w.
Proof.
  intros Hs Hnf Hd He Hr. unfold probe. rewrite Hs.
  hb_step. apply wp_hb_store. eapply wp_mono; [by apply ReadyCheck_ready|]. intros r c Hok.
  hb_step. apply wp_hb_store. eapply wp_mono; [by apply Stats_total|]. intros st c' Hst.
  repeat hb_step. cbn [fst]. by rewrite Hok, Hst, He, Hr.
Qed.

(** A sample, and the state it leaves *)
Definition sampled (w : hb_world) (p : Payload) (w' : hb_world) : Prop :=
  hw_metrics w' = hw_metrics w ∧ hw_last w' = hw_last w ∧ rows w' = rows w ∧
  pl_host p = hc_host cfg ∧ pl_revision p = revision ∧ (0 ≤ pl_uptime p)%Z ∧
  pl_exit_code p = (if pl_status p is StatusPass then 0 else 1)%Z ∧
  (∀ st, pl_stats p = Some st → st = report (pl_timestamp p) (cn_db (hw_conn w'))) ∧
  (pl_status p = StatusPass →
     has_store = true ∧ is_Some (pl_stats p) ∧
     cn_db (hw_conn w') = (toggle_ready (cn_db (hw_conn w))).2 ∧
     ∃ n, ready n = true ∧ sample_expired n = false).

Lemma sample_run w : wp sample (sampled w) w.
Proof.
  unfold Heartbeat.sample. do 2 hb_step. hb_step. hb_step. hb_step.
  eapply wp_mono; [apply probe_run|]. intros [up st] w' (Hm & Hl & Hrows & Hst & Hup).
  hb_step. cbn [fst snd] in *.
  destruct dropSummary; repeat hb_step; unfold sampled; cbn;
    destruct up; repeat split; try done; try lia; naive_solver.
Qed.
End Sampling.

Section Delivering.
Context `{Env, SqlOrder, Url}.
Context (origin_url : string → string → string).
Context (payload_marshal : Payload → option string) (kuma_ok : string → option bool).
Context (do_request : nat → HbRequest → do_result).
Context (cfg : HeartbeatConfig) (has_store : bool).

#[local] Abbreviation deliver := (deliver origin_url payload_marshal kuma_ok do_request cfg has_store).

Definition alter_world (g : TargetMetrics → TargetMetrics) (i : nat) (w : hb_world) : hb_world :=
  HbWorld (hw_conn w) (alter g i (hw_metrics w)) (hw_last w).

Ltac world_simpl := cbn [alter_world hw_metrics hw_last hw_conn].

(** Assigning the fields that are not counted *)
Lemma delta_note g i w :
  (∀ m, tm_attempts (g m) = tm_attempts m ∧ tm_failures (g m) = tm_failures m ∧
        tm_log_failures (g m) = tm_log_failures m ∧ tm_last_success (g m) = tm_last_success m) →
  delta 0 0 0 w (alter_world g i w).
Proof.
  intros Hg.
  split; unfold traced, last_ok, rows; world_simpl; rewrite ?length_alter, ?(total_keep _ g) by apply Hg;
    try lia.
  intros Hl. apply Forall_alter; [done|]. intros m _ Hm. destruct (Hg m) as (_ & _ & _ & ->). done.
Qed.

Ltac counted field :=
  intros Hi; split; unfold traced, last_ok, rows; world_simpl;
  rewrite ?length_alter, ?(total_succ field), ?total_keep by done;
  try lia; intros Hl; by apply Forall_alter.

Lemma delta_attempt at_ health i w :
  (i < length (hw_metrics w))%nat → delta 1 0 0 w (alter_world (count_attempt at_ health) i w).
Proof. counted tm_attempts. Qed.

Lemma delta_failure at_ i w :
  (i < length (hw_metrics w))%nat → delta 0 1 0 w (alter_world (count_failure at_) i w).
Proof. counted tm_failures. Qed.

Lemma delta_log_failure i w :
  (i < length (hw_metrics w))%nat → delta 0 0 1 w (alter_world count_log_failure i w).
Proof. counted tm_log_failures. Qed.

(** The two assignments of an accepted push *)
Lemma delta_success at_ i w :
  delta 0 0 0 w (HbWorld (hw_conn w) (alter (set_success at_) i (hw_metrics w)) (Z.max (hw_last w) at_)).
Proof.
  split; unfold traced, last_ok, rows; world_simpl; rewrite ?length_alter;
    rewrite ?(total_keep _ (set_success at_)) by done; try lia.
  intros Hl. apply Forall_alter.
  - eapply Forall_impl; [exact Hl|]. intros m Hm. cbn beta in *. lia.
  - intros m _ _. cbn [set_success tm_last_success]. lia.
Qed.
(** A trace is left whatever the store answers. *)
Lemma delta_log i entry w :
  (i < length (hw_metrics w))%nat →
  wp (log_failure origin_url cfg has_store i entry) (λ _ w', delta 0 0 1 w w') w.
Proof.
  intros Hi. unfold log_failure. hb_step. hb_step. hb_step.
  assert (∀ n, delta 0 0 1 w (alter_world count_log_failure i (at_tick n w))) as Hlost.
  { intros n'. apply (delta_trans 0 0 0 0 0 1 _ (at_tick n' w)); [by apply delta_quiet|].
    by apply delta_log_failure. }
  destruct has_store; [|hb_step; apply (Hlost (S n))].
  apply wp_hb_store. eapply wp_mono; [apply SaveHeartbeatError_run|].
  intros [[]|e] c; cbn [at_tick hw_conn hw_metrics hw_last].
  - intros (created & _ & Hc). apply wp_ret_St. cbn zeta in Hc. cbn [cn_db] in Hc.
    split; unfold last_ok, traced, rows; world_simpl; try lia; [done|].
    rewrite Hc. cbn [heartbeat_logs set_heartbeat_logs]. rewrite length_app. cbn. lia.
  - intros Hc. unfold wp, hb_update. cbn [fst snd hw_metrics hw_conn hw_last].
    apply (delta_trans 0 0 0 0 0 1 _ (HbWorld c (hw_metrics w) (hw_last w))).
    + apply delta_quiet; [done..|]. unfold rows. cbn [hw_conn]. by rewrite Hc.
    + by apply (delta_log_failure i (HbWorld c (hw_metrics w) (hw_last w))).
Qed.

(** A delivery: no attempt when cancelled; a failure is counted before it is
    logged. *)
Definition delivered (w w' : hb_world) : Prop :=
  ∃ a f t, delta a f t w w' ∧ (0 ≤ a ≤ 1)%Z ∧ (0 ≤ f ≤ a)%Z ∧ (0 ≤ t ≤ a)%Z ∧
    ((∀ n, canceled n = false) → a = 1 ∧ f = t)%Z ∧
    ((∀ n n', (n ≤ n')%nat → canceled n = true → canceled n' = true) → t ≤ f)%Z.

Lemma wp_hb_canceled Q w :
  Q (canceled (cn_tick (hw_conn w))) (at_tick (S (cn_tick (hw_conn w))) w) → wp hb_canceled Q w.
Proof. done. Qed.

Lemma wp_hb_update i g Q w : Q tt (alter_world g i w) → wp (hb_update i g) Q w.
Proof. done. Qed.

Lemma delta_tick n w : delta 0 0 0 w (at_tick n w).
Proof. by apply delta_quiet. Qed.
Lemma delta_then a f t a' f' t' w w' w'' a0 f0 t0 :
  delta a' f' t' w' w'' → delta a f t w w' →
  (a0 = a + a')%Z → (f0 = f + f')%Z → (t0 = t + t')%Z → delta a0 f0 t0 w w''.
Proof. intros Hn Hw -> -> ->. by eapply delta_trans. Qed.

Lemma delta_tick_r a f t n w w' : delta a f t w w' → delta a f t w (at_tick n w').
Proof. intros Hd. eapply delta_then; [apply delta_tick|exact Hd|lia..]. Qed.

(** The end of a delivery that failed *)
Lemma failed_run i at_ entry w :
  (i < length (hw_metrics w))%nat →
  wp (c ← hb_canceled;
      _ ← (if c : bool then mret tt else hb_update i (count_failure at_));
      c ← hb_canceled;
      if c : bool then mret tt else log_failure origin_url cfg has_store i entry)
    (λ _ w', ∃ f t, delta 0 f t w w' ∧ (0 ≤ f ≤ 1)%Z ∧ (0 ≤ t ≤ 1)%Z ∧
       ((∀ n, canceled n = false) → f = t)%Z ∧
       ((∀ n n', (n ≤ n')%nat → canceled n = true → canceled n' = true) → t ≤ f)%Z) w.
Proof.
  intros Hi. hb_step. apply wp_hb_canceled.
  destruct (canceled (cn_tick (hw_conn w))) eqn:Hc.
  - hb_step. hb_step. hb_step. apply wp_hb_canceled. cbn [at_tick hw_conn cn_tick].
    destruct (canceled (S _)) eqn:Hc'.
    + hb_step. exists 0%Z, 0%Z. split; [by do 2 apply delta_tick_r; apply delta_quiet|].
      split; [lia|]. split; [lia|]. split; lia.
    + eapply wp_mono; [by apply delta_log|]. intros [] w' Hd. exists 0%Z, 1%Z.
      split; [eapply delta_then; [exact Hd|by do 2 apply delta_tick_r; apply delta_quiet|lia..]|].
      split; [lia|]. split; [lia|]. split; intros Hn; [by rewrite Hn in Hc|].
      rewrite (Hn (cn_tick (hw_conn w)) (S (cn_tick (hw_conn w)))) in Hc'; [done|lia|done].
  - hb_step. apply wp_hb_update. hb_step. apply wp_hb_canceled.
    set (w1 := alter_world _ _ _).
    assert (delta 0 1 0 w w1) as Hd1.
    { eapply delta_then; [by apply delta_failure|apply delta_tick|lia..]. }
    destruct (canceled (cn_tick (hw_conn w1))) eqn:Hc'.
    + hb_step. exists 1%Z, 0%Z. split; [by apply delta_tick_r|].
      split; [lia|]. split; [lia|]. split; [intros Hn; by rewrite Hn in Hc'|lia].
    + eapply wp_mono; [apply delta_log; by rewrite <-(dt_targets _ _ _ _ _ Hd1) in Hi|]. intros [] w' Hd. exists 1%Z, 1%Z.
      split; [eapply delta_then; [exact Hd|by apply delta_tick_r|lia..]|].
      split; [lia|]. split; [lia|]. split; lia.
Qed.

Lemma deliver_run i target payload w :
  (i < length (hw_metrics w))%nat → wp (deliver i target payload) (λ _ w', delivered w w') w.
Proof.
  intros Hi. unfold Heartbeat.deliver. hb_step. apply wp_hb_canceled.
  destruct (canceled _) eqn:Hc.
  { hb_step. exists 0%Z, 0%Z, 0%Z. split; [apply delta_tick|].
    do 3 (split; [lia|]). split; [intros Hn; by rewrite Hn in Hc|lia]. }
  hb_step. apply wp_hb_now; intros n1. hb_step. apply wp_hb_update.
  hb_step. apply wp_hb_now; intros n2. hb_step. apply wp_hb_tick; intros n3.
  destruct (pushTarget _ _ _ _ _ _) as [status err].
  hb_step. apply wp_hb_now; intros n4. hb_step. apply wp_hb_now; intros n5.
  hb_step. apply wp_hb_update.
  set (w1 := alter_world _ _ _). assert (delta 1 0 0 w w1) as Hd1.
  { unfold w1. eapply (delta_then 1 0 0); [by apply delta_note| |lia..]. do 4 apply delta_tick_r.
    eapply (delta_then 0 0 0); [by apply delta_attempt|by do 2 apply delta_tick_r; apply delta_quiet|lia..]. }
  assert (i < length (hw_metrics w1))%nat as Hi1 by (by rewrite (dt_targets _ _ _ _ _ Hd1)).
  destruct err as [e|].
  - eapply wp_mono; [by apply failed_run|]. intros [] w' (f & t & Hd & Hf & Ht & Hx & Hm).
    exists 1%Z, f, t. split; [eapply delta_then; [exact Hd|exact Hd1|lia..]|].
    do 3 (split; [lia|]). split; [intros Hn; by rewrite (Hx Hn)|done].
  - hb_step. apply wp_hb_update. exists 1%Z, 0%Z, 0%Z.
    split; [eapply delta_then; [apply (delta_success (unix (clock n5)) i w1)|exact Hd1|lia..]|].
    do 3 (split; [lia|]). split; lia.
Qed.
End Delivering.

(** ** The theorems *)

Section Monitor.
Context `{Env, SqlOrder, Url}.
Context (origin_url : string → string → string).
Context (payload_marshal : Payload → option string) (kuma_ok : string → option bool).
Context (do_request : nat → HbRequest → do_result).
Context (ready : nat → bool) (dropSummary : option (nat → string)) (sample_expired : nat → bool).
Context (cfg : HeartbeatConfig) (has_store : bool) (startedAt : Z) (revision : string).

#[local] Abbreviation sample := (sample ready dropSummary sample_expired cfg has_store startedAt revision).
#[local] Abbreviation ticks := (ticks origin_url payload_marshal kuma_ok do_request ready dropSummary
  sample_expired cfg has_store startedAt revision).

(** The store answers before the sample times out: what the probe reads of the
    clock, against the first reading of the sample. *)
Definition in_time (w : hb_world) : Prop :=
  let t := cn_tick (hw_conn w) in (clock (t + 3) < clock t + hc_timeout cfg)%Z.

(** A signal is up only when a write reached the database, the statistics
    were read, the deadline had not passed and the process reported ready; it
    carries the statistics of that very database and exit code 0, any other
    signal exit code 1, and an uptime that is never negative. The metrics and
    audit rows are left alone. Conversely, with a store that answers in time
    and a ready process the signal is up. *)
Theorem sample_reports_readiness w p w' :
  sample w = (p, w') →
  sampled ready sample_expired cfg has_store revision w p w' ∧
  (has_store = true → no_faults → in_time w → (∀ n, sample_expired n = false) →
   (∀ n, ready n = true) → pl_status p = StatusPass).
Proof.
  intros Hrun. split; [eapply wp_run; [apply sample_run|exact Hrun]|].
  intros Hs Hnf Ht He Hr.
  enough (wp sample (λ p _, pl_status p = StatusPass) w) as Hw by (unfold wp in Hw; by rewrite Hrun in Hw).
  unfold Heartbeat.sample. hb_step. apply wp_hb_now_at. hb_step. apply wp_hb_now_at. hb_step.
  eapply wp_mono.
  { apply probe_up; [done..| |done|done]. unfold in_time in Ht. cbv zeta in Ht.
    rewrite Nat.add_comm in Ht. exact Ht. } intros res w1 Hup. hb_step.
  destruct dropSummary; repeat hb_step; cbn; by rewrite Hup.
Qed.

Lemma tickTarget_run i w :
  (i < length (hc_targets cfg))%nat → length (hw_metrics w) = length (hc_targets cfg) →
  wp (tickTarget origin_url payload_marshal kuma_ok do_request ready dropSummary sample_expired
        cfg has_store startedAt revision i) (λ _ w', delivered w w') w.
Proof.
  intros Hi Hl. unfold tickTarget.
  destruct (hc_targets cfg !! i) as [target|] eqn:Ht; [|by apply lookup_ge_None in Ht; lia].
  hb_step. eapply wp_mono; [apply sample_run|]. intros p w1 (Hm & Hlast & Hrows & _).
  eapply wp_mono; [apply deliver_run; by rewrite Hm, Hl|].
  intros [] w' (a & f & t & Hd & Hrest). exists a, f, t. split; [|done].
  eapply (delta_then 0 0 0); [exact Hd|by apply delta_quiet|lia..].
Qed.


End Monitor.

(** ** A monitor whose receiver refuses *)

Module Demo.

(** A millisecond passes between two readings of the clock. *)
#[export] Instance env : Env := calm (100 * Second) Millisecond.
#[export] Instance urls : Url := UrlPolicy.Demo.web_url.

Definition origin (scheme host : string) : string := scheme +:+ "://" +:+ host.
Definition marshal (p : Payload) : option string := Some "{}".
Definition kuma (body : string) : option bool := Some true.
Definition refused (n : nat) (r : HbRequest) : do_result :=
  DoErr (MkTransportErr false false false false false true "Post https://json.example/t0k3n").

Definition target : HeartbeatTarget := MkHbTarget "deadman" "https://json.example/t0k3n" "" "json" false.
Definition cfg : HeartbeatConfig := MkHbConfig Minute (10 * Second) "gateway-1" [target].
Definition world : hb_world := HbWorld (Conn empty_db 0) (new_metrics cfg) 0.
Definition yes (n : nat) : bool := true.
Definition no (n : nat) : bool := false.
Definition payload : Payload :=
  MkPayload "gateway-1" StatusPass 0 (100 * Second) 0 "" None "".

End Demo.
#[local] Existing Instance Demo.env.
#[local] Existing Instance Demo.urls.

Lemma push_error_closed_witness :
  closed_error "connection refused" ∧
  hl_origin (audit_entry Demo.target Demo.payload 0 "connection refused" 0 0) = "https://json.example".
Proof.
  split; [|vm_compute; reflexivity].
  apply (push_error_closed Demo.marshal Demo.kuma Demo.refused 0 Demo.target Demo.payload 0
    "connection refused" 0 0).
  vm_compute. reflexivity.
Defined.

Lemma sample_reports_readiness_witness :
  pl_status (sample Demo.yes None Demo.no Demo.cfg true 0 "" Demo.world).1 = StatusPass ∧
  ready_check (cn_db (hw_conn (sample Demo.yes None Demo.no Demo.cfg true 0 "" Demo.world).2)) !! 1%Z = Some 1%Z.
Proof.
  destruct (sample Demo.yes None Demo.no Demo.cfg true 0 "" Demo.world) as [p w'] eqn:E.
  destruct (sample_reports_readiness Demo.yes None Demo.no Demo.cfg true 0 "" Demo.world p w' E)
    as [Hs Hup].
  assert (pl_status p = StatusPass) as Hp.
  { by apply Hup. }
  split; [exact Hp|].
  destruct Hs as (_ & _ & _ & _ & _ & _ & _ & _ & Hpass).
  destruct (Hpass Hp) as (_ & _ & Hdb & _). cbn [snd]. rewrite Hdb. vm_compute. reflexivity.
Defined.

