(* ===== verification/HeartbeatRace.v ===== *)
(** * Concurrent deliveries and the time of the last accepted push

    [Monitor.deliver] of [internal/heartbeat/heartbeat.go] updates the atomic
    [lastSuccess] in a load and compare-and-swap loop, one goroutine per
    target. The loads and swaps of all goroutines interleave freely: a step
    relation on the value and the program counters of the goroutines. *)

From Stdlib Require Import Wf_nat.
From S2P Require Import Prelude Sql StoreSchema GoLib Heartbeat.

(** ** The loop *)

(** Where a goroutine that stores the time [at_] is: about to load; past the
    test of the loop, about to swap with the value it loaded; out of it. *)
Inductive cas_pc : Type :=
| CasLoad (at_ : Z)
| CasSwap (at_ previous : Z)
| CasDone (at_ : Z).

Definition cas_time (pc : cas_pc) : Z :=
  match pc with CasLoad t | CasSwap t _ | CasDone t => t end.

Definition cas_finished (pc : cas_pc) : bool :=
  match pc with CasDone _ => true | _ => false end.

(** One atomic access: [Load] and the test [completedAt > previous], or
    [CompareAndSwap], after whose failure the loop loads again. *)
Definition cas_access (value : Z) (pc : cas_pc) : Z * cas_pc :=
  match pc with
  | CasLoad t => (value, if (value <? t)%Z then CasSwap t value else CasDone t)
  | CasSwap t previous => if (value =? previous)%Z then (t, CasDone t) else (value, CasLoad t)
  | CasDone t => (value, CasDone t)
  end.

(** Any goroutine still in the loop makes the next access. *)
Inductive cas_step : Z * list cas_pc → Z * list cas_pc → Prop :=
| CasStep value pcs i pc :
    pcs !! i = Some pc → cas_finished pc = false →
    cas_step (value, pcs) ((cas_access value pc).1, <[i := (cas_access value pc).2]> pcs).

(** ** Invariant *)

(** Times are those of the goroutines; a loaded value is older than the time
    to store and not newer than the value now; who is out of the loop is not
    ahead of the value. *)
Definition pc_ok (value : Z) (pc : cas_pc) : Prop :=
  match pc with
  | CasLoad _ => True
  | CasSwap t previous => (previous < t)%Z ∧ (previous ≤ value)%Z
  | CasDone t => (t ≤ value)%Z
  end.

Definition cas_inv (start : Z) (times : list Z) (s : Z * list cas_pc) : Prop :=
  cas_time <$> s.2 = times ∧ (start ≤ s.1)%Z ∧ (s.1 = start ∨ s.1 ∈ times) ∧ Forall (pc_ok s.1) s.2.

Lemma pc_ok_mono value value' pc : (value ≤ value')%Z → pc_ok value pc → pc_ok value' pc.
Proof. destruct pc; cbn; lia. Qed.

Lemma cas_access_time value pc : cas_time (cas_access value pc).2 = cas_time pc.
Proof. destruct pc; cbn; by try case_match. Qed.

Lemma cas_access_ok value pc :
  pc_ok value pc → (value ≤ (cas_access value pc).1)%Z ∧ pc_ok (cas_access value pc).1 (cas_access value pc).2 ∧
  ((cas_access value pc).1 = value ∨ (cas_access value pc).1 = cas_time pc).
Proof. destruct pc; cbn; try case_match; cbn; bool_simpl; try lia. Qed.

Lemma cas_step_inv start times s s' : cas_inv start times s → cas_step s s' → cas_inv start times s'.
Proof.
  intros (Ht & Hs & Hv & Hok) Hstep. destruct Hstep as [value pcs i pc Hi Hf]. cbn [fst snd] in *.
  pose proof (Forall_lookup_1 _ _ _ _ Hok Hi) as Hpc.
  destruct (cas_access_ok _ _ Hpc) as (Hle & Hpc' & Hval).
  unfold cas_inv. cbn [fst snd]. split; [|split; [lia|split]].
  - rewrite list_fmap_insert, cas_access_time, list_insert_id; [done|].
    by rewrite list_lookup_fmap, Hi.
  - destruct Hval as [->| ->]; [done|right]. rewrite <-Ht. apply list_elem_of_fmap.
    exists pc. split; [done|]. by apply list_elem_of_lookup_2 in Hi.
  - apply Forall_insert; [|done]. eapply Forall_impl; [exact Hok|]. intros. by eapply pc_ok_mono.
Qed.

(** ** Termination: a swap fails only when another goroutine finished *)

Definition live (pcs : list cas_pc) : nat := length (filter (λ pc, cas_finished pc = false) pcs).

(** Accesses a goroutine makes at most before the value changes again *)
Definition weight (value : Z) (pc : cas_pc) : nat :=
  match pc with
  | CasDone _ => 0
  | CasSwap _ previous => if (value =? previous)%Z then 1 else 3
  | CasLoad _ => 2
  end.

Definition weights (value : Z) (pcs : list cas_pc) : nat := sum_list_with (weight value) pcs.

Definition cas_measure (s : Z * list cas_pc) : nat :=
  ((3 * length s.2 + 1) * live s.2 + weights s.1 s.2)%nat.

Lemma weights_bound value pcs : (weights value pcs ≤ 3 * length pcs)%nat.
Proof.
  unfold weights. induction pcs as [|pc pcs IH]; cbn; [lia|].
  assert (weight value pc ≤ 3)%nat by (destruct pc; cbn; try case_match; lia). lia.
Qed.

Lemma weights_insert value pcs i pc pc' :
  pcs !! i = Some pc →
  (weights value (<[i := pc']> pcs) + weight value pc = weights value pcs + weight value pc')%nat.
Proof. apply sum_list_insert. Qed.

Lemma live_insert pcs i pc pc' :
  pcs !! i = Some pc → cas_finished pc = false →
  live (<[i := pc']> pcs) = if cas_finished pc' then (live pcs - 1)%nat else live pcs.
Proof.
  unfold live. revert i. induction pcs as [|x pcs IH]; intros [|i] Hi Hf; try done; cbn in Hi.
  - injection Hi as ->. cbn [insert list_insert]. rewrite !filter_cons, (decide_True _ _ Hf).
    destruct (cas_finished pc'); [rewrite decide_False by done|rewrite decide_True by done]; cbn; lia.
  - change (<[S i:=pc']> (x :: pcs)) with (x :: <[i:=pc']> pcs). rewrite !filter_cons.
    assert (filter (λ pc, cas_finished pc = false) pcs ≠ []) as Hne.
    { intros E. apply (filter_nil_not_elem_of _ pcs pc E Hf). by eapply list_elem_of_lookup_2. }
    destruct (decide (cas_finished x = false)); cbn [length]; rewrite (IH i Hi Hf); [|done].
    destruct (cas_finished pc'); [|done].
    destruct (filter _ pcs); [done|]. cbn. lia.
Qed.

Lemma live_pos pcs i pc : pcs !! i = Some pc → cas_finished pc = false → (1 ≤ live pcs)%nat.
Proof.
  intros Hi Hf. unfold live. destruct (filter _ _) eqn:E; [|cbn; lia].
  exfalso. apply (filter_nil_not_elem_of _ pcs pc E Hf). by eapply list_elem_of_lookup_2.
Qed.

Lemma cas_step_decreases s s' : cas_step s s' → (cas_measure s' < cas_measure s)%nat.
Proof.
  intros Hstep. destruct Hstep as [value pcs i pc Hi Hf]. unfold cas_measure. cbn [fst snd].
  rewrite length_insert. pose proof (live_insert pcs i pc (cas_access value pc).2 Hi Hf) as Hl.
  pose proof (live_pos _ _ _ Hi Hf) as Hpos.
  destruct (cas_finished (cas_access value pc).2) eqn:Hd.
  - (* the goroutine leaves the loop *)
    rewrite Hl. pose proof (weights_bound (cas_access value pc).1 (<[i:=(cas_access value pc).2]> pcs)) as Hb.
    rewrite length_insert in Hb. nia.
  - rewrite Hl. assert ((cas_access value pc).1 = value) as ->
      by (destruct pc; cbn in *; by repeat case_match).
    pose proof (weights_insert value pcs i pc (cas_access value pc).2 Hi) as Hw.
    assert (weight value (cas_access value pc).2 < weight value pc)%nat; [|lia].
    destruct pc as [t|t previous|t]; cbn in *; [|destruct (value =? previous)%Z eqn:E; cbn in *; try done; lia|done].
    destruct (value <? t)%Z; cbn in *; [|done]. rewrite Z.eqb_refl. lia.
Qed.

(** ** What the goroutines agree on *)

Lemma cas_stuck s : ¬ (∃ s', cas_step s s') → Forall (λ pc, cas_finished pc = true) s.2.
Proof.
  destruct s as [value pcs]. intros Hn. apply Forall_lookup. intros i pc Hi.
  destruct (cas_finished pc) eqn:Hf; [done|]. exfalso. apply Hn. eexists. by econstructor.
Qed.

Lemma max_of_times start times value :
  (start ≤ value)%Z → (value = start ∨ value ∈ times) → Forall (λ t, t ≤ value)%Z times →
  value = foldl Z.max start times.
Proof.
  intros Hs Hv Hall. apply Z.le_antisymm.
  - clear Hs. revert start Hv. induction Hall as [|t times Ht Hall IH]; intros start Hv; cbn.
    { destruct Hv as [->|[]%not_elem_of_nil]. lia. }
    rewrite elem_of_cons in Hv. destruct Hv as [->|[->|Hv]].
    + assert (start `max` t = start)%Z as -> by lia. by apply IH; left.
    + assert (∀ b, b ≤ foldl Z.max b times)%Z as Hge.
      { clear. induction times as [|x l IH]; intros b; cbn; [lia|]. specialize (IH (b `max` x)%Z). lia. }
      specialize (Hge (start `max` t)%Z). lia.
    + apply IH. by right.
  - revert start Hs Hv. induction Hall as [|t times Ht Hall IH]; intros start Hs Hv; cbn; [done|].
    assert (∀ b, b ≤ value → foldl Z.max b times ≤ value)%Z as Hle; [|apply Hle; lia].
    clear -Hall. induction Hall as [|x l Hx Hall IH]; intros b Hb; cbn; [done|]. apply IH. lia.
Qed.

Lemma cas_start start times : cas_inv start times (start, CasLoad <$> times).
Proof.
  split; [|split; [done|split; [by left|]]]; cbn [fst snd].
  - rewrite <-list_fmap_compose. by rewrite list_fmap_id.
  - apply Forall_fmap. by apply Forall_true.
Qed.

Lemma finished_behind value pcs :
  Forall (pc_ok value) pcs → Forall (λ pc, cas_finished pc = true) pcs →
  Forall (λ t, t ≤ value)%Z (cas_time <$> pcs).
Proof.
  intros Hok Hfin. apply Forall_fmap, Forall_lookup. intros i pc Hi.
  pose proof (Forall_lookup_1 _ _ _ _ Hok Hi). pose proof (Forall_lookup_1 _ _ _ _ Hfin Hi).
  by destruct pc.
Qed.

Lemma accepted_last w times :
  hw_last (foldl (λ w t, (hb_accept t w).2) w times) = foldl Z.max (hw_last w) times.
Proof. revert w. induction times as [|t times IH]; intros w; cbn; [done|]. by rewrite IH. Qed.

(** C28: however the deliveries of all targets interleave, the loop behaves like the
    uninterrupted update of [deliver], in any order. The value never goes back
    on the way, every run ends, and when it has, every goroutine is out of its
    loop and the value is the latest of the times and the one before. *)
Theorem last_success_is_latest w times s :
  rtc cas_step (hw_last w, CasLoad <$> times) s →
  (hw_last w ≤ s.1)%Z ∧
  (∀ s', cas_step s s' → s.1 ≤ s'.1)%Z ∧
  Acc (λ s' s, cas_step s s') s ∧
  ((¬ ∃ s', cas_step s s') →
   Forall (λ pc, cas_finished pc = true) s.2 ∧
   s.1 = hw_last (foldl (λ w t, (hb_accept t w).2) w times)).
Proof.
  intros Hrun.
  assert (cas_inv (hw_last w) times s) as Hinv.
  { eapply (rtc_ind_r (cas_inv (hw_last w) times)); [|intros; by eapply cas_step_inv|exact Hrun].
    apply cas_start. }
  split; [apply Hinv|]. split; [|split].
  - intros s' Hstep. destruct (cas_step_inv (s.1) times s s') as (_ & Hle & _); [|done|done].
    destruct Hinv as (Ht & _ & _ & Hok). split; [done|]. split; [done|]. split; [by left|done].
  - apply (well_founded_lt_compat _ cas_measure). intros s1 s2. apply cas_step_decreases.
  - intros Hstuck. pose proof (cas_stuck s Hstuck) as Hfin. split; [done|].
    destruct Hinv as (Htimes & Hs & Hv & Hok). rewrite accepted_last.
    apply max_of_times; [done..|]. rewrite <-Htimes. by apply finished_behind.
Qed.

(** Two deliveries, the later one overtaken between its load and its swap *)
Module Demo.

Definition world : hb_world := HbWorld (Conn empty_db 0) [] 5.

Definition overtaken : Z * list cas_pc := (8, [CasSwap 9 5; CasDone 8]).

End Demo.

Lemma last_success_is_latest_witness :
  rtc cas_step (hw_last Demo.world, CasLoad <$> [9; 8]) Demo.overtaken ∧
  (hw_last Demo.world ≤ 8)%Z ∧ Acc (λ s' s, cas_step s s') Demo.overtaken.
Proof.
  assert (rtc cas_step (hw_last Demo.world, CasLoad <$> [9; 8]) Demo.overtaken) as Hrun.
  { eapply rtc_l; [exact (CasStep 5 [CasLoad 9; CasLoad 8] 0 (CasLoad 9) eq_refl eq_refl)|].
    eapply rtc_l; [exact (CasStep 5 [CasSwap 9 5; CasLoad 8] 1 (CasLoad 8) eq_refl eq_refl)|].
    eapply rtc_l; [exact (CasStep 5 [CasSwap 9 5; CasSwap 8 5] 1 (CasSwap 8 5) eq_refl eq_refl)|].
    apply rtc_refl. }
  split; [exact Hrun|].
  destruct (last_success_is_latest Demo.world [9; 8] Demo.overtaken Hrun) as (Hle & _ & Hacc & _).
  split; [exact Hle|exact Hacc].
Defined.
