(* ===== verification/Policy.v ===== *)
(** * Egress policy, rules, extraction and redaction

    [internal/policy], [internal/router], [internal/parser] and
    [internal/logger/redact.go]: what decides whether an event is delivered,
    and what is masked in what leaves the process. *)

From S2P Require Import Prelude GoLib Config.

#[local] Open Scope string_scope.

(** ** Counters: drops per configured source *)

Definition UnknownSource : string := "other".
Definition maxSummarySources : nat := 10.
Definition ReasonAllowlistRejected : string := "allowlist_rejected".

(** sort.Strings: byte-wise order *)
Definition string_le (x y : string) : Prop := Is_true (String.leb x y).

Record Counters : Type := MkCounters {
  ct_data : gmap string Z;
  ct_sources : list string;
}.

(** sort.Strings; equal strings cannot be told apart, so every sort agrees. *)
#[global] Instance string_le_dec : RelDecision string_le.
Proof. intros x y. unfold string_le. apply _. Defined.

Definition sort_strings (l : list string) : list string := merge_sort string_le l.

(** The package has its own copy of the test on source names. *)
Definition validSourceName (source : string) : bool :=
  if Nat.eqb (String.length source) 0 || Nat.ltb 64 (String.length source) then false
  else all_bytes (λ n, in_range 97 122 n || in_range 65 90 n || in_range 48 57 n || Nat.eqb n 95 || Nat.eqb n 45) source.

Definition NewCounters `{Regexp} (sources : list string) : Counters :=
  let data := foldl (λ d s, if validSourceName s then <[s := 0]> d else d)
                {[UnknownSource := 0%Z]} sources in
  MkCounters data (sort_strings ((map_to_list data).*1)).

(** c.data[source]++ on an uint64 *)
Definition Inc (source : string) (c : Counters) : Counters :=
  let source := if bool_decide (is_Some (ct_data c !! source)) then source else UnknownSource in
  MkCounters (<[source := uwrap64 (default 0%Z (ct_data c !! source) + 1)]> (ct_data c)) (ct_sources c).

Definition Snapshot (c : Counters) : gmap string (gmap string Z) :=
  omap (λ count, if (0 <? count)%Z then Some {[ReasonAllowlistRejected := count]} else None) (ct_data c).

(** The loop of [Summary]: the parts so far and the rest. *)
Definition summary_step (c : Counters) (acc : list string * Z) (src : string) : list string * Z :=
  let '(parts, rest) := acc in
  let count := default 0%Z (ct_data c !! src) in
  if (count =? 0)%Z then acc
  else if Nat.ltb (length parts) maxSummarySources
  then (app parts [src +:+ " × " +:+ Itoa count], rest)
  else (parts, uwrap64 (rest + count)).

Definition Summary (c : Counters) : string :=
  let '(parts, rest) := foldl (summary_step c) ([], 0%Z) (ct_sources c) in
  let parts := if (0 <? rest)%Z then app parts ["remaining sources × " +:+ Itoa rest] else parts in
  match parts with
  | [] => "dropped: none"
  | _ => "dropped: " +:+ Join parts "; "
  end.

(** vars[key] of a Go map: the empty string when the key is missing *)
Definition var (vars : gmap string string) (key : string) : string := default "" (vars !! key).

Section Policy.
Context `{Regexp}.

(** [Allow] *)
Definition Allow (src : Source) (vars : gmap string string) : string * bool :=
  match so_log_policy src with
  | None => ("", true)
  | Some lp =>
      let field := if bool_decide (lp_field lp = "") then "service" else lp_field lp in
      let value := var vars field in
      (value, existsb (String.eqb value) (lp_services lp))
  end.

(** [Redact] *)
Definition redact_value (compiled : list regexp) (val : string) : string :=
  foldl (λ s re, ReplaceAllString re s "***") val compiled.

Definition Redact (src : Source) (vars : gmap string string) : gmap string string :=
  match so_redaction src with
  | None => vars
  | Some r =>
      if bool_decide (re_compiled r = []) then vars
      else redact_value (re_compiled r) <$> vars
  end.

(** ** The cache of compiled rules, [regexpCache] *)

Definition maxCachedRules : nat := 256.
Definition maxCachedPatternBytes : nat := 4 * 1024.

(** [entries], the ring [order] and [next] *)
Record regexpCache : Type := MkCache {
  rc_entries : gmap string regexp;
  rc_order : list string;
  rc_next : nat;
}.

Definition empty_cache : regexpCache := MkCache ∅ (replicate maxCachedRules "") 0.

(** [compile]: the expression, or the error of [regexp.Compile]. *)
Definition compile (pattern : string) (c : regexpCache) : option regexp * regexpCache :=
  if Nat.ltb maxCachedPatternBytes (String.length pattern) then (Compile pattern, c)
  else match rc_entries c !! pattern with
  | Some re => (Some re, c)
  | None =>
      match Compile pattern with
      | None => (None, c)
      | Some re =>
          let entries :=
            if Nat.eqb (size (rc_entries c)) maxCachedRules
            then delete (default "" (rc_order c !! rc_next c)) (rc_entries c)
            else rc_entries c in
          (Some re, MkCache (<[pattern := re]> entries) (<[rc_next c := pattern]> (rc_order c))
                      (Nat.modulo (rc_next c + 1) maxCachedRules))
      end
  end.

(** [Match]: the conjunction of the rules; an error names the rule's variable. *)
Fixpoint Match (rules : list Rule) (vars : gmap string string) (c : regexpCache) :
    result string bool * regexpCache :=
  match rules with
  | [] => (Ok true, c)
  | r :: rules' =>
      match compile (ru_regex r) c with
      | (None, c') => (Err ("rule " +:+ ru_var r +:+ " invalid regex"), c')
      | (Some re, c') =>
          if MatchString re (var vars (ru_var r)) then Match rules' vars c'
          else (Ok false, c')
      end
  end.

(** ** Extraction, [internal/parser] *)

(** [gjson.GetBytes(payload, path)]: the string of the value, if it exists. *)
Context (gjson : string → string → option string).

Definition normalizePath (p : string) : string :=
  TrimPrefix (TrimPrefix (TrimSpace p) "$.") "$".

Definition Extract (payload : string) (spec : gmap string string) : gmap string string :=
  (λ path, default "" (gjson payload (normalizePath path))) <$> spec.

End Policy.

(** ** Redaction of logs and audit rows, [internal/logger/redact.go] *)

Section Redaction.
Context `{Regexp, Url}.

Definition quote : string := String (Ascii.ascii_of_nat 34) "".

Definition botTokenPathRe : regexp := MustCompile ("/bot[^/\s" +:+ quote +:+ "]+").
Definition urlRe : regexp := MustCompile ("https?://[^\s" +:+ quote +:+ "]+").
Definition bearerRe : regexp := MustCompile "(?i)\b(authorization:\s*bearer\s+)(\S+)".
Definition secret_names : string :=
  "api[_-]?key|access[_-]?token|refresh[_-]?token|secret|password|token".
Definition assignRe : regexp :=
  MustCompile ("(?i)\b(" +:+ secret_names +:+ ")\b\s*[=:]\s*([^\s" +:+ quote +:+ "'\\,]+)").
Definition jsonSecretRe : regexp :=
  MustCompile ("(?i)" +:+ quote +:+ "(" +:+ secret_names +:+ ")" +:+ quote +:+ "\s*:\s*"
               +:+ quote +:+ "([^" +:+ quote +:+ "]*)" +:+ quote).

Definition isSensitiveKey (key : string) : bool :=
  let key := ToLower key in
  contains key "token" || contains key "secret" || contains key "key" || contains key "sign"
  || contains key "password".

(** q.Set(key, ...) for the sensitive keys of the query *)
Definition redactURL (raw : string) : string :=
  match ParseURL raw with
  | None => raw
  | Some u =>
      let q := map_imap (λ key vs, Some (if isSensitiveKey key then ["****"] else vs)) (Query u) in
      let u := set_raw_query (Encode q) u in
      let u := set_path (ReplaceAllString botTokenPathRe (u_path u) "/bot****") u in
      url_string u
  end.

Definition RedactSensitive (s : string) : string :=
  if bool_decide (s = "") then s
  else
    let s := ReplaceAllString botTokenPathRe s "/bot****" in
    let s := ReplaceAllStringFunc urlRe s redactURL in
    let s := ReplaceAllString bearerRe s "${1}****" in
    let s := ReplaceAllString assignRe s "${1}=****" in
    ReplaceAllString jsonSecretRe s (quote +:+ "${1}" +:+ quote +:+ ":" +:+ quote +:+ "****" +:+ quote).

End Redaction.
