(* ===== verification/Secrets.v ===== *)
(** * Credentials in stored plans: [internal/config/snapshot.go]

    Older releases stored the values of secrets inside the execution plans of
    events. At startup the program looks up the secrets its configuration
    refers to and rewrites the stored plans: a value becomes the reference
    that stands for it. *)

From Stdlib Require Import Ascii.
From S2P Require Import Prelude GoLib Placeholders JsonText Config Policy.

#[local] Open Scope string_scope.

(** ** strings.ReplaceAll *)

(** strings.Split by a text that is not empty: [skip] bytes belong to the
    separator just seen. *)
Fixpoint cut (old : string) (skip : nat) (s : string) : list string :=
  match s with
  | "" => [""]
  | String a s' =>
      match skip with
      | S k => cut old k s'
      | O =>
          if has_prefix s old then "" :: cut old (String.length old - 1) s'
          else match cut old 0 s' with
               | [] => []
               | p :: ps => String a p :: ps
               end
      end
  end.

(** An empty text is found before every rune and at the end. *)
Fixpoint insert_each (new : string) (copy : nat) (s : string) : string :=
  match s with
  | "" => new
  | String a s' =>
      match copy with
      | S k => String a (insert_each new k s')
      | O => new +:+ String a (insert_each new (default 0%nat (rune_tail (nat_of_ascii a) s')) s')
      end
  end.

Definition ReplaceAll (s old new : string) : string :=
  if bool_decide (old = "") then insert_each new 0 s else Join (cut old 0 s) new.

(** The keys of a map sorted with [sort.Slice], longer ones first: the sort is
    not stable and the map has no order, so nothing is known of keys of the
    same length. *)
Class LongestFirst : Type := {
  longest_first : gmap string string → list string;
  longest_first_perm : ∀ m, longest_first m ≡ₚ (map_to_list m).*1;
  longest_first_sorted : ∀ m,
    StronglySorted (λ x y, String.length y ≤ String.length x)%nat (longest_first m);
}.

(** ** The values to replace *)

Section Secrets.
Context `{Regexp, Json, MapOrder}.
Context (LookupEnv : string → option string).

(** The texts of an action a reference may be in; the order of the headers is
    that of one loop over the map. *)
Definition actionStrings (tick k : nat) (action : ActionConfig) : list string :=
  ([ac_url action; ac_command action; ac_body action] ++ ac_args action
   ++ (range tick k (ac_headers action) ≫= λ kv, [kv.1; kv.2]))%list.

Definition secret_names (texts : list string) : list string :=
  sort_strings (remove_dups (snd <$> (texts ≫= find_all explicitSecretRefRe))).

Definition secret_ref (name : string) : string := "${secret:" +:+ name +:+ "}".

Definition add_replacement (out : gmap string string) (name : string) : gmap string string :=
  match LookupEnv name with
  | None => out
  | Some value =>
      if bool_decide (value = "") || bool_decide (is_Some (out !! value)) then out
      else <[value := secret_ref name]> out
  end.

Definition ActionSecretReplacements (tick : nat) (c : option Config) : gmap string string :=
  match c with
  | None => ∅
  | Some c =>
      let actions := cf_sources c ≫= so_actions in
      let texts := mjoin (imap (actionStrings tick) actions) in
      foldl add_replacement ∅ (secret_names texts)
  end.

(** ** Scrubbing one stored plan *)

Context `{LongestFirst}.

Definition replace (values : list string) (replacements : gmap string string) (value : string) : string :=
  foldl (λ v secret, ReplaceAll v secret (default "" (replacements !! secret))) value values.

Definition scrub_action (tick k : nat) (f : string → string) (action : ActionConfig) : ActionConfig :=
  MkAction (ac_type action) (f (ac_url action)) (ac_method action)
    (foldl (λ h kv, <[f kv.1 := f kv.2]> h) ∅ (range tick k (ac_headers action)))
    (f (ac_body action)) (ac_url_allowlist action) (ac_allow_private action)
    (f (ac_command action)) (f <$> ac_args action) (ac_timeout action).

Definition scrub_source (tick : nat) (f : string → string) (source : Source) : Source :=
  MkSource (so_name source) (so_auth source) (so_extract source) (so_rules source)
    (imap (λ k, scrub_action tick k f) (so_actions source)) (so_log_policy source)
    (so_redaction source).

Definition ScrubSnapshotSecrets (tick : nat) (replacements : gmap string string) (raw : string) :
    result string string :=
  if bool_decide (replacements = ∅) || bool_decide (raw = "") then Ok raw
  else match ParseSourceSnapshot raw with
  | Err e => Err e
  | Ok source =>
      let values := longest_first replacements in
      SnapshotSource (scrub_source tick (replace values replacements) source)
  end.

End Secrets.
