(* ===== verification/SecretProps.v ===== *)
(** * Scrubbing removes the credentials and nothing else

    [strings.ReplaceAll] cuts a text at the occurrences of a value. When the
    values cannot be confused with the references that replace them, no value
    is left after the loop over all of them, and a text without values is
    kept. *)

From Stdlib Require Import Ascii Wf_nat.
From S2P Require Import Prelude GoLib Placeholders JsonText Config Policy Secrets.

#[local] Open Scope string_scope.

(** ** Occurrences *)

Lemma has_prefix_mono s t w : has_prefix s w = true → has_prefix (s +:+ t) w = true.
Proof.
  revert w. induction s as [|a s IH]; intros [|b w] Hp; try done; [by destruct t|].
  rewrite str_app_cons. cbn in *. apply andb_true_iff in Hp as [-> Hp]. by apply IH.
Qed.

Lemma contains_empty w : contains "" w = true → w = "".
Proof. by destruct w. Qed.

Lemma contains_cons a s w :
  contains (String a s) w = has_prefix (String a s) w || contains s w.
Proof. done. Qed.

Lemma contains_nil s : contains s "" = true.
Proof. by destruct s. Qed.

Lemma contains_drop n s w : contains (drop n s) w = true → contains s w = true.
Proof.
  revert n. induction s as [|a s IH]; intros [|n] Hc; try done.
  rewrite contains_cons. apply orb_true_iff. right. by apply (IH n).
Qed.

Lemma contains_app_l s t w : contains s w = true → contains (s +:+ t) w = true.
Proof.
  induction s as [|a s IH].
  - intros ->%contains_empty. apply contains_nil.
  - rewrite str_app_cons, !contains_cons, !orb_true_iff. intros [Hp|Hc]; [left|right; by apply IH].
    rewrite <-str_app_cons. by apply has_prefix_mono.
Qed.

(** A word without the byte [c] lies on one side of it. *)
Definition free_of (c : ascii) (w : string) : Prop := all_bytes (λ n, negb (Nat.eqb n (nat_of_ascii c))) w = true.

Lemma has_prefix_free c s t w :
  free_of c w → has_prefix (s +:+ String c t) w = true → has_prefix s w = true.
Proof.
  unfold free_of. revert w. induction s as [|a s IH]; intros [|b w] Hf Hp; try done.
  - cbn in Hf, Hp. apply andb_true_iff in Hf as [Hb _], Hp as [Ha%Ascii.eqb_eq _].
    by rewrite Ha, Nat.eqb_refl in Hb.
  - rewrite str_app_cons in Hp. cbn in Hf, Hp. apply andb_true_iff in Hf as [_ Hf], Hp as [Ha Hp].
    cbn. rewrite Ha. by apply IH.
Qed.

Lemma contains_sep c s t w :
  free_of c w → contains (s +:+ String c t) w = true → contains s w = true ∨ contains t w = true.
Proof.
  intros Hf. induction s as [|a s IH].
  - change ("" +:+ String c t) with (String c t). rewrite contains_cons, orb_true_iff.
    intros [Hp|Hc]; [|by right]. left.
    assert (has_prefix "" w = true) as Hw by (by apply (has_prefix_free c "" t)). by destruct w.
  - rewrite str_app_cons, contains_cons, orb_true_iff. intros [Hp|Hc].
    + left. rewrite contains_cons, orb_true_iff. left. rewrite <-str_app_cons in Hp.
      by apply has_prefix_free in Hp.
    + destruct (IH Hc) as [Hs|Ht]; [left|by right]. by rewrite contains_cons, Hs, orb_true_r.
Qed.

(** ** Cutting a text *)

Lemma cut_skip old k s : cut old k s = cut old 0 (drop k s).
Proof. revert k. induction s as [|a s IH]; intros [|k]; try done. apply IH. Qed.

Lemma cut_cons old k s : ∃ p ps, cut old k s = p :: ps.
Proof.
  revert k. induction s as [|a s IH]; intros k; [by exists "", []|].
  destruct k as [|k]; cbn [cut]; [|apply IH].
  destruct (has_prefix _ _); [by eexists "", _|]. destruct (IH 0%nat) as (p & ps & ->).
  by exists (String a p), ps.
Qed.

(** The first piece is a prefix and reaches up to the first occurrence. *)
Lemma cut_head old s p ps :
  old ≠ "" → cut old 0 s = p :: ps → (∃ r, s = p +:+ r) ∧ contains p old = false.
Proof.
  intros Hold. revert p ps. induction s as [|a s IH]; intros p ps.
  { cbn. intros [= <- <-]. split; [by exists ""|by destruct old]. }
  cbn [cut]. destruct (has_prefix (String a s) old) eqn:Hp.
  { intros [= <- <-]. split; [by eexists|by destruct old]. }
  destruct (cut_cons old 0 s) as (p' & ps' & Hc). rewrite Hc. intros [= <- <-].
  destruct (IH _ _ Hc) as ((r & ->) & Hn). split; [by exists r|].
  rewrite contains_cons, Hn, orb_false_r. apply not_true_is_false. intros Hp'.
  rewrite <-str_app_cons, (has_prefix_mono _ r) in Hp; done.
Qed.

Lemma cut_pieces old s :
  old ≠ "" →
  Forall (λ p, contains p old = false ∧ ∀ w, contains p w = true → contains s w = true) (cut old 0 s).
Proof.
  intros Hold. induction s as [s IH] using (induction_ltof1 _ String.length).
  unfold ltof in IH. destruct s as [|a s].
  { cbn. constructor; [|constructor]. split; [by destruct old|done]. }
  destruct (cut_cons old 0 (String a s)) as (p & ps & Hc).
  destruct (cut_head old _ _ _ Hold Hc) as ((r & Hr) & Hn). rewrite Hc. constructor.
  { split; [done|]. intros w Hw. rewrite Hr. by apply contains_app_l. }
  cbn [cut] in Hc. destruct (has_prefix _ _).
  - injection Hc as <- <-. rewrite cut_skip. eapply Forall_impl.
    + apply IH. rewrite drop_length. cbn. lia.
    + intros q [Hq Hw]. split; [done|]. intros w Hqw. apply Hw, contains_drop in Hqw.
      by rewrite contains_cons, Hqw, orb_true_r.
  - destruct (cut_cons old 0 s) as (p' & ps' & Hc'). rewrite Hc' in Hc. injection Hc as <- <-.
    assert (Forall (λ p, contains p old = false ∧ ∀ w, contains p w = true → contains s w = true)
      (p' :: ps')) as [_ Htl]%Forall_cons by (rewrite <-Hc'; apply IH; cbn; lia).
    eapply Forall_impl; [exact Htl|]. intros q [Hq Hw]. split; [done|]. intros w Hqw.
    by rewrite contains_cons, (Hw w Hqw), orb_true_r.
Qed.

Lemma cut_none old s : old ≠ "" → contains s old = false → cut old 0 s = [s].
Proof.
  intros Hold. induction s as [|a s IH]; [done|]. rewrite contains_cons, orb_false_iff. cbn [cut].
  intros [-> Hc]. by rewrite (IH Hc).
Qed.

(** ** One replacement *)

(** What a reference has between its braces *)
Definition ref_text (name : string) : string := "secret:" +:+ name.

Lemma secret_ref_text name : secret_ref name = "${" +:+ ref_text name +:+ "}".
Proof. done. Qed.

(** A value that is not confused with the text of a reference *)
Record proper (w : string) : Prop := {
  pr_nonempty : w ≠ "";
  pr_dollar : free_of "$" w;
  pr_open : free_of "{" w;
  pr_close : free_of "}" w;
}.

Lemma join_contains ps name w :
  proper w → contains (Join ps (secret_ref name)) w = true →
  contains (ref_text name) w = true ∨ Exists (λ p, contains p w = true) ps.
Proof.
  intros Hw. unfold Join. induction ps as [|p ps IH]; cbn [String.concat].
  { intros ->%contains_empty. by destruct Hw. }
  destruct ps as [|q ps]; [intros Hc; right; by left|].
  set (rest := String.concat _ (q :: ps)) in *. rewrite secret_ref_text.
  assert (p +:+ (("${" +:+ ref_text name +:+ "}") +:+ rest) =
          p +:+ String "$" ("" +:+ String "{" (ref_text name +:+ String "}" rest))) as ->.
  { by rewrite !str_app_assoc. }
  intros [Hp|Hc]%contains_sep; [right; by left| |apply Hw].
  apply contains_sep in Hc as [He|Hc]; [|..|apply Hw].
  { apply contains_empty in He. by destruct Hw. }
  apply contains_sep in Hc as [Ht|Hr]; [by left| |apply Hw].
  destruct (IH Hr) as [?|?]; [by left|right; by right].
Qed.

Lemma ReplaceAll_contains s old name w :
  old ≠ "" → proper w → contains (ReplaceAll s old (secret_ref name)) w = true →
  contains (ref_text name) w = true ∨ (contains s w = true ∧ w ≠ old).
Proof.
  intros Hold Hw. unfold ReplaceAll. rewrite bool_decide_false by done. intros Hc.
  apply join_contains in Hc as [?|Hp]; [by left| |done]. right.
  apply Exists_exists in Hp as (p & Hin & Hp).
  pose proof (cut_pieces old s Hold) as Hps. rewrite Forall_forall in Hps.
  destruct (Hps p Hin) as [Hn Hs]. split; [by apply Hs|]. intros ->. by rewrite Hp in Hn.
Qed.

Lemma ReplaceAll_none s old new : old ≠ "" → contains s old = false → ReplaceAll s old new = s.
Proof. intros Hold Hc. unfold ReplaceAll. by rewrite bool_decide_false, cut_none. Qed.

(** ** All of them *)

(** Every value is proper, stands for a reference, and is no part of any. *)
Definition replacements_ok (replacements : gmap string string) : Prop :=
  ∀ value ref, replacements !! value = Some ref →
    proper value ∧ ∃ name, ref = secret_ref name ∧
      ∀ value', is_Some (replacements !! value') → contains (ref_text name) value' = false.

Definition clean (values : list string) (s : string) : Prop :=
  Forall (λ v, contains s v = false) values.

Section Replace.
Context (replacements : gmap string string) (Hok : replacements_ok replacements).

Lemma replaced_contains s value w :
  is_Some (replacements !! value) → is_Some (replacements !! w) →
  contains (ReplaceAll s value (default "" (replacements !! value))) w = true →
  contains s w = true ∧ w ≠ value.
Proof using Hok.
  intros [ref Hv] Hw Hc. rewrite Hv in Hc. cbn [default] in Hc.
  destruct (Hok value ref Hv) as (Hp & name & -> & Hn).
  assert (proper w) as Hpw by (destruct Hw as [r Hr]; by destruct (Hok w r Hr)).
  apply ReplaceAll_contains in Hc as [Hc|Hc]; [by rewrite (Hn w Hw) in Hc|done|apply Hp|done].
Qed.

(** A value that is gone does not come back. *)
Lemma replace_gone values s w :
  Forall (λ v, is_Some (replacements !! v)) values → is_Some (replacements !! w) →
  contains s w = false → contains (replace values replacements s) w = false.
Proof using Hok.
  intros Hv Hw. revert s. induction Hv as [|v values Hv _ IH]; intros s Hs; [done|].
  apply IH, not_true_is_false. intros [Hc _]%replaced_contains; [by rewrite Hs in Hc|done..].
Qed.

Lemma replace_clean values s :
  Forall (λ v, is_Some (replacements !! v)) values → clean values (replace values replacements s).
Proof using Hok.
  intros Hv. revert s. induction Hv as [|v values Hv Hvs IH]; intros s; constructor; [|apply IH].
  apply (replace_gone values (ReplaceAll s v (default "" (replacements !! v)))); [done..|].
  apply not_true_is_false. by intros [_ ?]%replaced_contains.
Qed.

Lemma replace_id values s :
  Forall (λ v, is_Some (replacements !! v)) values → clean values s → replace values replacements s = s.
Proof using Hok.
  intros Hv Hc. induction Hv as [|v values Hv Hvs IH]; [done|].
  apply Forall_cons in Hc as [Hcv Hc]. unfold replace. cbn [foldl].
  rewrite ReplaceAll_none; [by apply IH| |done].
  destruct Hv as [ref Hv]. apply (Hok v ref Hv).
Qed.

End Replace.

(** ** Headers *)

Lemma headers_from f (l : list (string * string)) (h : gmap string string) k v :
  foldl (λ h kv, <[f kv.1 := f kv.2]> h) h l !! k = Some v →
  (∃ kv, kv ∈ l ∧ k = f kv.1 ∧ v = f kv.2) ∨ h !! k = Some v.
Proof.
  revert h. induction l as [|kv l IH]; intros h; cbn; [by right|].
  intros [(kv' & Hin & Hk)|Hh]%IH; [left; exists kv'; split; [by right|done]|].
  apply lookup_insert_Some in Hh as [[<- <-]|[_ Hh]]; [|by right].
  left. exists kv. split; [by left|done].
Qed.

Lemma headers_fixed f (l : list (string * string)) (h : gmap string string) :
  NoDup l.*1 → Forall (λ kv, f kv.1 = kv.1 ∧ f kv.2 = kv.2) l →
  foldl (λ h kv, <[f kv.1 := f kv.2]> h) h l = list_to_map l ∪ h.
Proof.
  intros Hnd Hf. revert h. induction Hf as [|[k v] l [Hk Hv] Hf IH]; intros h; cbn in *.
  { by rewrite (left_id_L ∅ (∪)). }
  apply NoDup_cons in Hnd as [Hn Hnd]. rewrite (IH Hnd), Hk, Hv.
  rewrite <-insert_union_r by (by apply not_elem_of_list_to_map_1).
  by rewrite insert_union_l.
Qed.

(** ** One action *)

Section Plan.
Context `{MapOrder}.

Definition action_clean (tick k : nat) (values : list string) (action : ActionConfig) : Prop :=
  Forall (clean values) (actionStrings tick k action).

Lemma actionStrings_elem tick k action text :
  text ∈ actionStrings tick k action ↔
  text = ac_url action ∨ text = ac_command action ∨ text = ac_body action ∨
  text ∈ ac_args action ∨
  ∃ key v, ac_headers action !! key = Some v ∧ (text = key ∨ text = v).
Proof.
  unfold actionStrings. rewrite !elem_of_app, !elem_of_cons, elem_of_nil, list_elem_of_bind.
  assert ((∃ kv, text ∈ [kv.1; kv.2] ∧ kv ∈ range tick k (ac_headers action)) ↔
          ∃ key v, ac_headers action !! key = Some v ∧ (text = key ∨ text = v)) as ->.
  - split.
    + intros ([key v] & Ht & Hin). rewrite range_perm, elem_of_map_to_list in Hin.
      exists key, v. split; [done|]. cbn in Ht. rewrite !elem_of_cons, elem_of_nil in Ht. tauto.
    + intros (key & v & Hk & Ht). exists (key, v). split.
      * cbn. rewrite !elem_of_cons, elem_of_nil. tauto.
      * by rewrite range_perm, elem_of_map_to_list.
  - tauto.
Qed.

Lemma scrub_action_clean tick k values f action :
  (∀ s, clean values (f s)) → action_clean tick k values (scrub_action tick k f action).
Proof.
  intros Hf. apply Forall_forall. intros text. rewrite actionStrings_elem. cbn.
  intros [->|[->|[->|[Ha|(key & v & Hk & Ht)]]]]; [apply Hf..| |].
  - apply list_elem_of_fmap in Ha as (x & -> & _). apply Hf.
  - apply headers_from in Hk as [(kv & _ & -> & ->)|Hk]; [|done].
    by destruct Ht as [->| ->].
Qed.

Lemma scrub_action_id tick k values f action :
  (∀ s, clean values s → f s = s) → action_clean tick k values action →
  scrub_action tick k f action = action.
Proof.
  intros Hf Hc. unfold action_clean in Hc. rewrite Forall_forall in Hc.
  assert (∀ text, text ∈ actionStrings tick k action → f text = text) as Hid by (intros; apply Hf, Hc; done).
  setoid_rewrite actionStrings_elem in Hid. unfold scrub_action.
  rewrite (Hid (ac_url action)), (Hid (ac_body action)), (Hid (ac_command action)) by tauto.
  rewrite headers_fixed.
  - assert (list_to_map (range tick k (ac_headers action)) = ac_headers action) as ->.
    { rewrite (list_to_map_proper _ (map_to_list (ac_headers action)));
        [apply list_to_map_to_list| |apply range_perm].
      rewrite range_perm. apply NoDup_fst_map_to_list. }
    rewrite (right_id_L ∅ (∪)).
    assert (f <$> ac_args action = ac_args action) as ->.
    { transitivity (id <$> ac_args action); [|apply list_fmap_id].
      apply list_fmap_ext. intros i x Hx. apply Hid. do 3 right. left. by eapply list_elem_of_lookup_2. }
    by destruct action.
  - rewrite range_perm. apply NoDup_fst_map_to_list.
  - apply Forall_forall. intros [key v]. rewrite range_perm, elem_of_map_to_list. intros Hk. cbn.
    split; apply Hid; do 4 right; exists key, v; tauto.
Qed.
End Plan.

(** ** The replacements of a configuration *)

Section Scrub.
Context `{Regexp, Json, MapOrder}.
Context (LookupEnv : string → option string).
Context `{LongestFirst}.

(** The names of the secrets the actions of a configuration refer to *)
Definition referenced (tick : nat) (c : Config) : list string :=
  secret_names (mjoin (imap (actionStrings tick) (cf_sources c ≫= so_actions))).

(** The values of the referenced secrets are not confused with references. *)
Definition secrets_ok (names : list string) : Prop :=
  ∀ name value, name ∈ names → LookupEnv name = Some value → value ≠ "" →
    proper value ∧ ∀ name', name' ∈ names → contains (ref_text name') value = false.

Lemma add_replacement_lookup out name v ref :
  add_replacement LookupEnv out name !! v = Some ref →
  out !! v = Some ref ∨ (ref = secret_ref name ∧ LookupEnv name = Some v ∧ v ≠ "").
Proof.
  unfold add_replacement. destruct (LookupEnv name) as [value|]; [|by left].
  destruct (bool_decide (value = "") || _) eqn:Hb; [by left|]. guards.
  intros [[<- <-]|[_ ?]]%lookup_insert_Some; [right|by left]. done.
Qed.

Lemma add_replacement_adds out name value :
  LookupEnv name = Some value → value ≠ "" → is_Some (add_replacement LookupEnv out name !! value).
Proof.
  intros Hl Hv. unfold add_replacement. rewrite Hl.
  destruct (bool_decide (value = "") || _) eqn:Hb; [|rewrite lookup_insert_eq; by eexists].
  apply orb_true_iff in Hb as [Hb|Hb]; by apply bool_decide_eq_true in Hb.
Qed.

Lemma add_replacement_mono out name v :
  is_Some (out !! v) → is_Some (add_replacement LookupEnv out name !! v).
Proof.
  intros Ho. unfold add_replacement. destruct (LookupEnv name) as [value|]; [|done].
  destruct (_ || _); [done|]. destruct (decide (value = v)) as [->|Hne].
  - rewrite lookup_insert_eq. by eexists.
  - by rewrite lookup_insert_ne.
Qed.

Lemma replacements_lookup names out v ref :
  foldl (add_replacement LookupEnv) out names !! v = Some ref →
  out !! v = Some ref ∨
  ∃ name, name ∈ names ∧ ref = secret_ref name ∧ LookupEnv name = Some v ∧ v ≠ "".
Proof.
  revert out. induction names as [|n names IH]; intros out; cbn; [by left|].
  intros [Ho|(name & Hin & Hr)]%IH; [|right; exists name; split; [by right|done]].
  apply add_replacement_lookup in Ho as [Ho|Hn]; [by left|]. right. exists n. split; [by left|done].
Qed.

Lemma replacements_has names out v :
  is_Some (out !! v) → is_Some (foldl (add_replacement LookupEnv) out names !! v).
Proof.
  revert out. induction names as [|n names IH]; intros out Ho; cbn; [done|].
  apply IH. by apply add_replacement_mono.
Qed.

Lemma replacements_complete names out name v :
  name ∈ names → LookupEnv name = Some v → v ≠ "" →
  is_Some (foldl (add_replacement LookupEnv) out names !! v).
Proof.
  intros Hin Hl Hv. revert out. induction names as [|n names IH]; intros out; cbn.
  { by apply not_elem_of_nil in Hin. }
  apply elem_of_cons in Hin as [<-|Hin]; [|by apply IH].
  apply replacements_has. by apply add_replacement_adds.
Qed.

Lemma configured_replacements_ok tick c :
  secrets_ok (referenced tick c) →
  replacements_ok (ActionSecretReplacements LookupEnv tick (Some c)).
Proof.
  intros Hok value ref Hr.
  destruct (replacements_lookup _ _ _ _ Hr) as [?|(name & Hin & -> & Hl & Hne)]; [done|].
  destruct (Hok name value Hin Hl Hne) as [Hp Hc]. split; [done|]. exists name. split; [done|].
  intros v' [ref' Hr'].
  destruct (replacements_lookup _ _ _ _ Hr') as [?|(name' & Hin' & _ & Hl' & Hne')]; [done|].
  by apply (Hok name' v' Hin' Hl' Hne').
Qed.

(** ** One plan *)

(** No action of a plan holds a value in any of its texts. *)
Definition plan_clean (tick : nat) (values : list string) (src : Source) : Prop :=
  ∀ k action, so_actions src !! k = Some action → action_clean tick k values action.

Lemma scrub_source_clean tick values f src :
  (∀ s, clean values (f s)) → plan_clean tick values (scrub_source tick f src).
Proof.
  intros Hf k action. cbn. rewrite list_lookup_imap. intros (a & _ & ->)%fmap_Some.
  by apply scrub_action_clean.
Qed.

Lemma scrub_source_id tick values f src :
  (∀ s, clean values s → f s = s) → plan_clean tick values src → scrub_source tick f src = src.
Proof.
  intros Hf Hc. unfold scrub_source.
  assert (imap (λ k, scrub_action tick k f) (so_actions src) = so_actions src) as ->; [|by destruct src].
  apply list_eq. intros k. rewrite list_lookup_imap.
  destruct (so_actions src !! k) as [a|] eqn:Ha; [|done]. cbn. f_equal.
  by eapply scrub_action_id, Hc.
Qed.

Lemma longest_first_keys (m : gmap string string) : Forall (λ v, is_Some (m !! v)) (longest_first m).
Proof.
  apply Forall_forall. intros v. rewrite longest_first_perm, list_elem_of_fmap.
  intros ([v' ref] & -> & Hin). apply elem_of_map_to_list in Hin. by eexists.
Qed.

Lemma scrubbed_plan_clean tick c src name value :
  let replacements := ActionSecretReplacements LookupEnv tick (Some c) in
  secrets_ok (referenced tick c) →
  name ∈ referenced tick c → LookupEnv name = Some value → value ≠ "" →
  plan_clean tick [value] (scrub_source tick (replace (longest_first replacements) replacements) src).
Proof.
  intros replacements Hok Hin Hl Hne k action Hk.
  pose proof (configured_replacements_ok tick c Hok) as Hrok. fold replacements in Hrok.
  assert (value ∈ longest_first replacements) as Hv.
  { rewrite longest_first_perm, list_elem_of_fmap.
    destruct (replacements_complete (referenced tick c) ∅ name value Hin Hl Hne) as [ref Hr].
    exists (value, ref). split; [done|]. by apply elem_of_map_to_list. }
  eapply Forall_impl; [apply (scrub_source_clean tick (longest_first replacements)
    (replace (longest_first replacements) replacements) src); [|done]|].
  - intros s. apply replace_clean; [done|apply longest_first_keys].
  - intros text Ht. constructor; [|constructor]. unfold clean in Ht. rewrite Forall_forall in Ht. by apply Ht.
Qed.


End Scrub.

(** ** One secret in a stored plan *)

Module Demo.

Definition longer (x y : string) : Prop := (String.length y ≤ String.length x)%nat.
#[export] Instance longer_dec : RelDecision longer.
Proof. intros x y. unfold longer. apply _. Defined.
#[export] Instance longer_trans : Transitive longer.
Proof. intros x y z. unfold longer. lia. Qed.
#[export] Instance longer_total : Total longer.
Proof. intros x y. unfold longer. lia. Qed.

#[export] Program Instance longest : LongestFirst := {|
  longest_first m := merge_sort longer (map_to_list m).*1;
|}.
Next Obligation. intros m. apply merge_sort_Permutation. Qed.
Next Obligation. intros m. apply (StronglySorted_merge_sort longer). Qed.

#[export] Program Instance order : MapOrder := {| range _ _ m := map_to_list m |}.
Next Obligation. done. Qed.

#[export] Instance regexps : Regexp := literal_regexp.

(** A plan posts to one URL; its text is that URL. *)
Definition action (url : string) : ActionConfig := MkAction "http" url "" ∅ "" [] false "" [] 0.
Definition plan (url : string) : SourceSnapshot := MkSnapshot "s" ∅ [] [action url] None None.

Definition marshal (s : SourceSnapshot) : option string :=
  match sn_actions s with [a] => Some ("plan " +:+ ac_url a) | _ => None end.

#[export] Program Instance json : Json := {|
  snapshot_marshal := marshal;
  snapshot_unmarshal raw := if has_prefix raw "plan " then Some (plan (drop 5 raw)) else None;
  vars_marshal _ := None;
  vars_unmarshal _ := None;
  plans_marshal _ := None;
  json_valid _ := true;
  json_safe _ := false;
|}.
Next Obligation. done. Qed.
Next Obligation. done. Qed.
Next Obligation. intros s raw. unfold marshal. destruct (sn_actions s) as [|? []]; try done; by intros [= <-]. Qed.

Definition env (name : string) : option string :=
  if bool_decide (name = "TOKEN") then Some "s3cr3t" else None.

Definition source : Source :=
  MkSource "s" no_auth ∅ [] [action "https://x.example/${secret:TOKEN}"] None None.
Definition config : Config := MkConfig
  (MkServerConfig "" [] 0 0 (MkRates no_rate no_rate no_rate no_rate)) (MkAdmin "" "") (MkLogConfig "")
  (MkStoreConfig "" 0 None) (MkQueueConfig 0 0 0 0 0 0) (MkHbConfig 0 0 "" []) [source].

End Demo.
#[local] Existing Instance Demo.longest.
#[local] Existing Instance Demo.order.
#[local] Existing Instance Demo.regexps.
#[local] Existing Instance Demo.json.


(** Without that condition scrubbing corrupts its own references: the second
    value is a part of the reference the first one was replaced by. *)
Example scrub_chains :
  let replacements := {["s3cr3t" := secret_ref "TOKEN"; "TOKEN" := secret_ref "OTHER"]} in
  replace (longest_first replacements) replacements "https://x.example/s3cr3t" =
    "https://x.example/${secret:${secret:OTHER}}".
Proof. vm_compute. reflexivity. Qed.
