(* ===== verification/PolicyProps.v ===== *)
(** * Properties of rules, counters and action errors

    The compiled-rule cache is bounded and invisible to the rules; the drop
    counters keep a fixed set of keys and a summary below one kibibyte; the
    classification of errors and of Retry-After values. *)

From stdpp Require Import pretty.
From S2P Require Import Prelude GoLib Config Handler Policy.

(** ** The cache of compiled rules *)

Section Cache.
Context `{Regexp}.

(** The ring [order] lists the cached patterns: its first [size] slots are the
    keys, and the next slot to fill is the first free or the oldest one. *)
Record cache_ok (c : regexpCache) : Prop := {
  co_length : length (rc_order c) = maxCachedRules;
  co_next : (rc_next c < maxCachedRules)%nat;
  co_size : (size (rc_entries c) ≤ maxCachedRules)%nat;
  co_fill : (size (rc_entries c) < maxCachedRules)%nat → rc_next c = size (rc_entries c);
  co_keys : ∀ p, is_Some (rc_entries c !! p) ↔ p ∈ take (size (rc_entries c)) (rc_order c);
  co_nodup : NoDup (take (size (rc_entries c)) (rc_order c));
  co_compiled : ∀ p re, rc_entries c !! p = Some re → Compile p = Some re;
  co_short : ∀ p, is_Some (rc_entries c !! p) → (String.length p ≤ maxCachedPatternBytes)%nat;
}.

Lemma empty_cache_ok : cache_ok empty_cache.
Proof.
  split; cbn [empty_cache rc_entries rc_order rc_next]; rewrite ?map_size_empty.
  - apply length_replicate.
  - unfold maxCachedRules. lia.
  - lia.
  - done.
  - intros p. rewrite lookup_empty. split; [by intros []|]. cbn. by intros ?%elem_of_nil.
  - constructor.
  - by intros.
  - by intros p []%lookup_empty_is_Some.
Qed.

(** A pattern added while there is room goes to the first free slot. *)
Lemma cache_add c p re :
  cache_ok c → rc_entries c !! p = None → Compile p = Some re →
  (String.length p ≤ maxCachedPatternBytes)%nat →
  (size (rc_entries c) < maxCachedRules)%nat →
  cache_ok (MkCache (<[p := re]> (rc_entries c)) (<[rc_next c := p]> (rc_order c))
              (Nat.modulo (rc_next c + 1) maxCachedRules)).
Proof.
  intros [Hlen Hnext Hsize Hfill Hkeys Hnd Hcomp Hshort] Hp Hre Hl Hlt.
  specialize (Hfill Hlt). set (n := size (rc_entries c)) in *.
  assert (size (<[p := re]> (rc_entries c)) = S n) as Hsz by (by apply map_size_insert_None).
  assert (take (S n) (<[n := p]> (rc_order c)) = take n (rc_order c) ++ [p]) as Htake.
  { erewrite take_S_r; [|apply list_lookup_insert_eq; lia].
    by rewrite take_insert_ge by lia. }
  assert (p ∉ take n (rc_order c)) as Hfresh.
  { intros [x Hin]%Hkeys. congruence. }
  split; cbn [rc_entries rc_order rc_next]; rewrite ?Hsz, ?Hfill.
  - by rewrite length_insert.
  - apply Nat.mod_upper_bound. done.
  - lia.
  - intros. rewrite Nat.mod_small; lia.
  - intros q. rewrite Htake, elem_of_app, list_elem_of_singleton, <- Hkeys.
    rewrite lookup_insert_is_Some. destruct (decide (q = p)); naive_solver.
  - rewrite Htake. apply NoDup_app. split_and!; [done| |apply NoDup_singleton].
    intros q Hq ->%list_elem_of_singleton. done.
  - intros q re'. rewrite lookup_insert_Some. naive_solver.
  - intros q. rewrite lookup_insert_is_Some. naive_solver.
Qed.

(** When the cache is full the oldest slot is reused. *)
Lemma cache_replace c p re :
  cache_ok c → rc_entries c !! p = None → Compile p = Some re →
  (String.length p ≤ maxCachedPatternBytes)%nat →
  size (rc_entries c) = maxCachedRules →
  cache_ok (MkCache (<[p := re]> (delete (default ""%string (rc_order c !! rc_next c)) (rc_entries c)))
              (<[rc_next c := p]> (rc_order c)) (Nat.modulo (rc_next c + 1) maxCachedRules)).
Proof.
  intros [Hlen Hnext Hsize Hfill Hkeys Hnd Hcomp Hshort] Hp Hre Hl Hfull.
  rewrite Hfull, take_ge in Hnd by lia. rewrite Hfull in Hkeys. setoid_rewrite take_ge in Hkeys; [|lia].
  destruct (lookup_lt_is_Some_2 (rc_order c) (rc_next c)) as [old Hold]; [lia|].
  rewrite Hold. change (default ""%string (Some old)) with old.
  assert (old ∈ rc_order c) as Hin by (by eapply list_elem_of_lookup_2).
  assert (p ∉ rc_order c) as Hfresh by (intros [x Hx]%Hkeys; congruence).
  assert (old ≠ p) as Hne by (intros ->; done).
  pose proof (proj2 (Hkeys old) Hin) as Hsome.
  assert (size (<[p := re]> (delete old (rc_entries c))) = maxCachedRules) as Hsz.
  { rewrite map_size_insert_None by (by rewrite lookup_delete_ne).
    rewrite map_size_delete_Some by done. unfold maxCachedRules in *. lia. }
  split; cbn [rc_entries rc_order rc_next]; rewrite ?Hsz, ?length_insert.
  - done.
  - apply Nat.mod_upper_bound. done.
  - lia.
  - lia.
  - intros q. rewrite take_ge by (rewrite length_insert; lia).
    rewrite lookup_insert_is_Some, lookup_delete_is_Some, Hkeys.
    rewrite !list_elem_of_lookup. split.
    + intros [->|[_ [Hq [i Hi]]]].
      * exists (rc_next c). apply list_lookup_insert_eq. lia.
      * exists i. rewrite list_lookup_insert_ne; [done|]. intros <-. congruence.
    + intros [i Hi]. apply list_lookup_insert_Some in Hi as [(<- & <- & _)|[Hne' Hi]]; [by left|].
      right. split; [intros <-; apply Hfresh; by eapply list_elem_of_lookup_2|].
      split; [|eauto]. intros <-. apply Hne'. by eapply NoDup_lookup.
  - rewrite take_ge by (rewrite length_insert; lia). apply NoDup_alt. intros i j q Hi Hj.
    apply list_lookup_insert_Some in Hi as [(<- & <- & _)|[Hi' Hi]];
      apply list_lookup_insert_Some in Hj as [(<- & ? & _)|[Hj' Hj]]; try done.
    + exfalso. apply Hfresh. by eapply list_elem_of_lookup_2.
    + subst. exfalso. apply Hfresh. by eapply list_elem_of_lookup_2.
    + by eapply NoDup_lookup.
  - intros q re'. rewrite lookup_insert_Some, lookup_delete_Some. naive_solver.
  - intros q. rewrite lookup_insert_is_Some, lookup_delete_is_Some. naive_solver.
Qed.

(** The cache answers like [regexp.Compile] and stays well formed. *)
Lemma compile_run p c : cache_ok c → (compile p c).1 = Compile p ∧ cache_ok (compile p c).2.
Proof.
  intros Hok. unfold compile. destruct (Nat.ltb_spec maxCachedPatternBytes (String.length p)); [done|].
  destruct (rc_entries c !! p) as [re|] eqn:Hp.
  { split; [|done]. symmetry. by eapply co_compiled. }
  destruct (Compile p) as [re|] eqn:Hre; [|done]. cbn. split; [done|].
  destruct (Nat.eqb_spec (size (rc_entries c)) maxCachedRules).
  - by apply cache_replace.
  - pose proof (co_size _ Hok). apply cache_add; try done. lia.
Qed.

(** The rules without a cache. *)
Fixpoint match_rules (rules : list Rule) (vars : gmap string string) : result string bool :=
  match rules with
  | [] => Ok true
  | r :: rules' =>
      match Compile (ru_regex r) with
      | None => Err ("rule " +:+ ru_var r +:+ " invalid regex")%string
      | Some re => if MatchString re (var vars (ru_var r)) then match_rules rules' vars else Ok false
      end
  end.

Lemma Match_run rules vars c :
  cache_ok c → (Match rules vars c).1 = match_rules rules vars ∧ cache_ok (Match rules vars c).2.
Proof.
  revert c. induction rules as [|r rules IH]; intros c Hok; [done|]. cbn [Match match_rules].
  destruct (compile_run (ru_regex r) c Hok) as [Hc Hok'].
  destruct (compile (ru_regex r) c) as [[re|] c']; cbn in *; rewrite <- Hc; [|done].
  destruct (MatchString re _); [by apply IH|done].
Qed.

End Cache.

(** ** Lengths of texts *)

Section Lengths.
#[local] Open Scope string_scope.

Lemma str_length_app a b : String.length (a +:+ b) = (String.length a + String.length b)%nat.
Proof.
  induction a as [|x a IH]; [done|]. change (String x a +:+ b) with (String x (a +:+ b)).
  cbn. by rewrite IH.
Qed.

Lemma pretty_N_go_length (n : nat) (x : N) s :
  (x < 10 ^ N.of_nat n)%N → (String.length (pretty_N_go x s) ≤ n + String.length s)%nat.
Proof.
  revert x s. induction n as [|n IH]; intros x s Hx.
  { assert (x = 0%N) as -> by (cbn in Hx; lia). by rewrite pretty_N_go_0. }
  destruct (decide (x = 0%N)) as [->|Hne]; [rewrite pretty_N_go_0; lia|].
  rewrite pretty_N_go_step by lia. etrans; [apply IH|cbn; lia].
  apply N.Div0.div_lt_upper_bound. rewrite Nat2N.inj_succ, N.pow_succ_r' in Hx. lia.
Qed.

Lemma Itoa_length (n : nat) (z : Z) :
  (1 ≤ n)%nat → (0 ≤ z < 10 ^ Z.of_nat n)%Z → (String.length (Itoa z) ≤ n)%nat.
Proof.
  intros Hn Hz. unfold Itoa, pretty, pretty_Z. destruct z as [|p|p]; [cbn; lia| |lia].
  unfold pretty, pretty_positive, pretty, pretty_N. rewrite decide_False by done.
  etrans; [apply (pretty_N_go_length n)|cbn; lia].
  apply N2Z.inj_lt. rewrite N2Z.inj_pow, nat_N_Z. cbn [Z.of_N]. lia.
Qed.

Lemma Itoa_uint64_length z : uint64_ok z → (String.length (Itoa z) ≤ 20)%nat.
Proof. intros Hz. apply Itoa_length; [lia|]. unfold uint64_ok in Hz.
  change (10 ^ Z.of_nat 20)%Z with 100000000000000000000%Z. lia. Qed.

Lemma Join_length (l : list string) (n : nat) :
  Forall (λ s, (String.length s ≤ n)%nat) l →
  (String.length (Join l "; ") ≤ length l * (n + 2))%nat.
Proof.
  unfold Join. intros Hl. induction Hl as [|s l Hs Hl IH]; cbn; [lia|].
  destruct l as [|t l]; [lia|]. rewrite !str_length_app. cbn in *. lia.
Qed.

End Lengths.

(** ** The drop counters *)

Section CounterFacts.
Context `{Regexp}.

(** Keys are configured names or the shared bucket, values are uint64. *)
Record counters_ok (c : Counters) : Prop := {
  cc_names : Forall (λ s, (String.length s ≤ 64)%nat) (ct_sources c);
  cc_values : ∀ s n, ct_data c !! s = Some n → uint64_ok n;
  cc_keys : ∀ s, is_Some (ct_data c !! s) ↔ s ∈ ct_sources c;
  cc_other : is_Some (ct_data c !! UnknownSource);
}.

Definition names_ok (d : gmap string Z) : Prop :=
  (∀ s, is_Some (d !! s) → (String.length s ≤ 64)%nat) ∧
  (∀ s n, d !! s = Some n → n = 0) ∧ is_Some (d !! UnknownSource).

Lemma valid_name_length s : validSourceName s = true → (String.length s ≤ 64)%nat.
Proof.
  unfold validSourceName. destruct (_ || _) eqn:E; [done|]. intros _.
  apply orb_false_iff in E as [_ E]. by apply Nat.ltb_ge in E.
Qed.

(** Every name the configuration accepts is counted under itself. *)
Lemma validSourceName_same s : Policy.validSourceName s = Config.validSourceName s.
Proof. reflexivity. Qed.

Lemma names_ok_foldl l (d : gmap string Z) :
  names_ok d →
  names_ok (foldl (λ (d : gmap string Z) s, if validSourceName s then <[s := 0]> d else d) d l).
Proof.
  revert d. induction l as [|s l IH]; intros d Hd; cbn; [done|]. apply IH.
  destruct (validSourceName s) eqn:Hv; [|done]. destruct Hd as (H1 & H2 & H3). split_and!.
  - intros t. rewrite lookup_insert_is_Some. intros [<-|[_ Ht]]; [by apply valid_name_length|auto].
  - intros t n. rewrite lookup_insert_Some. naive_solver.
  - apply lookup_insert_is_Some'. by right.
Qed.

Lemma NewCounters_ok l : counters_ok (NewCounters l).
Proof.
  unfold NewCounters. set (d := foldl _ _ l).
  assert (names_ok d) as (H1 & H2 & H3).
  { apply names_ok_foldl. split_and!.
    - intros s. rewrite lookup_singleton_is_Some. intros <-. vm_compute. lia.
    - intros s n. rewrite lookup_singleton_Some. naive_solver.
    - rewrite lookup_singleton_is_Some. done. }
  assert (∀ s, is_Some (d !! s) ↔ s ∈ sort_strings ((map_to_list d).*1)) as Hk.
  { intros s. unfold sort_strings. rewrite merge_sort_Permutation, list_elem_of_fmap. split.
    - intros [n Hn]. exists (s, n). by rewrite elem_of_map_to_list.
    - intros ([s' n] & -> & Hn%elem_of_map_to_list). by eexists. }
  split; cbn [ct_data ct_sources]; try done.
  - apply Forall_forall. intros s Hs. apply H1, Hk, Hs.
  - intros s n Hn. rewrite (H2 _ _ Hn). done.
Qed.

Lemma Inc_ok s c : counters_ok c → counters_ok (Inc s c).
Proof.
  intros [H1 H2 H3 H4]. unfold Inc. set (k := if bool_decide (is_Some (ct_data c !! s)) then s else UnknownSource).
  assert (is_Some (ct_data c !! k)) as Hk.
  { unfold k. case_bool_decide; done. }
  split; cbn [ct_data ct_sources]; try done.
  - intros t n. rewrite lookup_insert_Some. intros [[<- <-]|[_ Ht]]; [apply uwrap64_ok|eauto].
  - intros t. rewrite <- H3, lookup_insert_is_Some'. naive_solver.
  - apply lookup_insert_is_Some'. by right.
Qed.

Definition inc_all (drops : list string) (c : Counters) : Counters := foldl (λ c s, Inc s c) c drops.

Lemma inc_all_ok drops c : counters_ok c → counters_ok (inc_all drops c).
Proof. revert c. induction drops; intros c Hc; cbn; eauto using Inc_ok. Qed.

Lemma inc_all_sources drops c : ct_sources (inc_all drops c) = ct_sources c.
Proof.
  revert c. induction drops as [|d drops IH]; intros c; [done|].
  exact (IH (Inc d c)).
Qed.

(** The parts of a summary: at most ten, each below 89 bytes. *)
Lemma summary_fold c l parts rest :
  counters_ok c → Forall (λ s, (String.length s ≤ 64)%nat) l →
  (length parts ≤ maxSummarySources)%nat → Forall (λ s, (String.length s ≤ 88)%nat) parts →
  uint64_ok rest →
  let '(parts', rest') := foldl (summary_step c) (parts, rest) l in
  (length parts' ≤ maxSummarySources)%nat ∧ Forall (λ s, (String.length s ≤ 88)%nat) parts' ∧
  uint64_ok rest'.
Proof.
  intros Hc Hl. revert parts rest. induction Hl as [|s l Hs Hl IH]; intros parts rest Hn Hp Hr; [done|].
  cbn [foldl]. unfold summary_step at 2.
  assert (uint64_ok (default 0 (ct_data c !! s))) as Hu.
  { destruct (ct_data c !! s) eqn:E; cbn; [by eapply cc_values|done]. }
  destruct (_ =? 0); [by apply IH|]. destruct (Nat.ltb_spec (length parts) maxSummarySources).
  - apply IH; [rewrite length_app; cbn; lia| |done]. apply Forall_app. split; [done|].
    apply Forall_singleton. rewrite !str_length_app. pose proof (Itoa_uint64_length _ Hu). cbn. lia.
  - apply IH; [done|done|apply uwrap64_ok].
Qed.

(** The last part is shorter than the others. *)
Lemma summary_join parts last :
  (length parts ≤ 10)%nat → Forall (λ s, (String.length s ≤ 88)%nat) parts →
  (String.length last ≤ 41)%nat →
  (String.length (Join (parts ++ [last]) "; ") ≤ 941)%nat.
Proof.
  intros Hn Hp Hl. enough (String.length (Join (parts ++ [last]) "; ") ≤ length parts * 90 + 41)%nat by lia.
  clear Hn. induction Hp as [|s parts Hs Hp IH]; [cbn; lia|].
  change ((s :: parts) ++ [last]) with (s :: (parts ++ [last])).
  unfold Join in *. cbn [String.concat]. destruct (parts ++ [last]) as [|t l] eqn:E.
  { by destruct parts. }
  rewrite !str_length_app. cbn [String.length length] in *. lia.
Qed.

Lemma Summary_length c : counters_ok c → (String.length (Summary c) ≤ 954)%nat.
Proof.
  intros Hc. pose proof (summary_fold c (ct_sources c) [] 0 Hc (cc_names _ Hc)
    ltac:(cbn; unfold maxSummarySources; lia) ltac:(constructor) ltac:(done)) as Hf.
  unfold Summary. destruct (foldl _ _ _) as [parts rest]. destruct Hf as (Hn & Hp & Hr).
  assert (∀ l, (String.length (match l with [] => "dropped: none" | _ =>
    "dropped: " +:+ Join l "; " end) ≤ 13 + String.length (Join l "; "))%nat)%string as Hout.
  { intros [|x l]; [cbn; lia|]. rewrite str_length_app. cbn. lia. }
  etrans; [apply Hout|]. unfold maxSummarySources in Hn. destruct (0 <? rest).
  - etrans; [apply Nat.add_le_mono_l, summary_join|]; [done|done| |lia].
    rewrite str_length_app. pose proof (Itoa_uint64_length _ Hr). cbn. lia.
  - pose proof (Join_length parts 88 Hp). lia.
Qed.

End CounterFacts.

(** ** Errors that must not be retried *)

(** [x] is [e] or one of the errors it wraps, at any depth. *)
Inductive within (x : go_error) : go_error → Prop :=
| within_here : within x x
| within_wrap msg inner e : e ∈ inner → within x e → within x (ErrWrap msg inner).

(** The errors that make an attempt permanent. *)
Definition permanent (e : go_error) : Prop :=
  e = ErrNonRetryable ∨ ∃ h, e = ErrHTTP h ∧ retryable h = false.

Section GoErrorInd.
Variable P : go_error → Prop.
Hypothesis Hleaf : ∀ e, (∀ msg inner, e ≠ ErrWrap msg inner) → P e.
Hypothesis Hwrap : ∀ msg inner, Forall P inner → P (ErrWrap msg inner).

(** Induction through the wrapped errors. *)
Fixpoint go_error_tree_ind (e : go_error) : P e :=
  match e with
  | ErrWrap msg inner => Hwrap msg inner
      ((fix all (l : list go_error) : Forall P l :=
          match l with
          | [] => Forall_nil_2 P
          | x :: l' => Forall_cons_2 P x l' (go_error_tree_ind x) (all l')
          end) inner)
  | ErrNonRetryable => Hleaf ErrNonRetryable (λ _ _ H, ltac:(discriminate H))
  | ErrCanceled => Hleaf ErrCanceled (λ _ _ H, ltac:(discriminate H))
  | ErrHTTP h => Hleaf (ErrHTTP h) (λ _ _ H, ltac:(discriminate H))
  | ErrText msg => Hleaf (ErrText msg) (λ _ _ H, ltac:(discriminate H))
  end.
End GoErrorInd.

Lemma within_leaf x e : (∀ msg inner, e ≠ ErrWrap msg inner) → within x e → x = e.
Proof. intros Hl Hw. inversion Hw; subst; [done|]. by destruct (Hl msg inner). Qed.

Lemma is_non_retryable_within e :
  is_non_retryable e = true ↔ ∃ x, within x e ∧ permanent x.
Proof.
  induction e as [e Hl|msg inner IH] using go_error_tree_ind.
  - split.
    + intros He. exists e. split; [constructor|].
      destruct e as [| |h| |m i]; try done; [by left|right|by destruct (Hl m i)].
      exists h. split; [done|]. by apply negb_true_iff.
    + intros (x & Hw%within_leaf & Hp); [|done]. subst.
      destruct Hp as [->|(h & -> & Hh)]; [done|]. cbn. by rewrite Hh.
  - cbn [is_non_retryable]. rewrite existsb_exists. rewrite Forall_forall in IH. split.
    + intros (e & Hin%list_elem_of_In & He). apply IH in He as (x & Hw & Hp); [|done].
      exists x. split; [by econstructor|done].
    + intros (x & Hw & Hp). inversion Hw; subst; [by destruct Hp as [?|(? & ? & ?)]|].
      exists e. rewrite <- list_elem_of_In. split; [done|]. apply IH; [done|]. eauto.
Qed.

Lemma as_http_within e h : as_http e = Some h → within (ErrHTTP h) e.
Proof.
  induction e as [e Hl|msg inner IH] using go_error_tree_ind.
  - intros He. destruct e as [| |h'| |m i]; simplify_eq/=; [constructor|by destruct (Hl m i)].
  - cbn [as_http]. induction IH as [|e l He Hl IHl]; [done|]. destruct (as_http e) as [h'|].
    + intros ?; simplify_eq. eapply within_wrap; [by left|auto].
    + intros Hf. specialize (IHl Hf). inversion IHl; subst. eapply within_wrap; [by right|done].
Qed.

(** An action error is permanent exactly when it is, or wraps at any
    depth, the non-retryable sentinel or an HTTP status other than 408, 429
    and 5xx; wrapping never hides a permanent error nor creates one. *)
Theorem IsNonRetryable_spec (e : go_error) :
  IsNonRetryable (Some e) = true ↔ ∃ x, within x e ∧ permanent x.
Proof.
  rewrite <- is_non_retryable_within. unfold IsNonRetryable.
  destruct (is_non_retryable e) eqn:He; [done|]. destruct (as_http e) as [h|] eqn:Hh; [|done].
  rewrite negb_true_iff. split; [|done]. intros Hr.
  apply as_http_within in Hh. apply not_true_iff_false in He. destruct He.
  apply is_non_retryable_within. exists (ErrHTTP h). split; [done|]. right. eauto.
Qed.

(** ParseRetryAfter never overflows and never returns a negative
    delay: a positive number of seconds is exactly that delay, or the largest
    Duration when it does not fit; any other number is no delay; a date is the
    time left until it, none when it has passed. *)
Theorem ParseRetryAfter_spec (ParseTime : string → option Z) raw now :
  let d := ParseRetryAfter ParseTime raw now in
  0 ≤ d < 2^63 ∧
  match ParseInt (TrimSpace raw) with
  | Some sec => d = if sec <=? 0 then 0 else Z.min (sec * Second) (2^63 - 1)
  | None =>
      match ParseTime (TrimSpace raw) with
      | Some t => TrimSpace raw ≠ ""%string → d = Z.max 0 (time_sub t now)
      | None => d = 0
      end
  end.
Proof.
  unfold ParseRetryAfter. case_bool_decide as Hb.
  { rewrite Hb. split; [done|]. cbn. destruct (ParseTime _); [by intros []|done]. }
  assert (maxSeconds = 9223372036) as Hm by (vm_compute; done).
  assert (Second = 1000000000) as HS by (vm_compute; done).
  destruct (ParseInt (TrimSpace raw)) as [sec|].
  - destruct (Z.leb_spec sec 0); [done|]. destruct (Z.ltb_spec maxSeconds sec).
    + split; [done|]. rewrite Z.min_r; [done|]. lia.
    + rewrite wrap64_id by (unfold int64_ok; lia). split; [lia|]. rewrite Z.min_l; lia.
  - destruct (ParseTime (TrimSpace raw)) as [t|]; [|done].
    pose proof (time_sub_ok t now) as Ht. unfold int64_ok in Ht.
    destruct (Z.leb_spec (time_sub t now) 0); split; lia.
Qed.

(** ** The claims on rules and counters *)

Section Claims.
Context `{Regexp}.

(** A series of rule evaluations sharing one cache. *)
Definition run_matches (reqs : list (list Rule * gmap string string)) (c : regexpCache) : regexpCache :=
  foldl (λ c r, (Match r.1 r.2 c).2) c reqs.

Lemma run_matches_ok reqs c : cache_ok c → cache_ok (run_matches reqs c).
Proof.
  revert c. induction reqs as [|[rs vs] reqs IH]; intros c Hc; cbn; [done|].
  apply IH. by apply Match_run.
Qed.

(** C22: whatever rules were evaluated before, a rule set is decided as
    if every expression were compiled afresh, and the cache never holds more
    than 256 expressions, none longer than 4 KiB. *)
Theorem Match_cache_transparent reqs rules vars :
  let c := run_matches reqs empty_cache in
  (Match rules vars c).1 = match_rules rules vars ∧
  (size (rc_entries (Match rules vars c).2) ≤ 256)%nat ∧
  ∀ p, is_Some (rc_entries (Match rules vars c).2 !! p) → (String.length p ≤ 4096)%nat.
Proof.
  intros c. assert (cache_ok c) as Hc by apply run_matches_ok, empty_cache_ok.
  destruct (Match_run rules vars c Hc) as [Hm Hc']. split_and!; [done|apply (co_size _ Hc')|apply (co_short _ Hc')].
Qed.

(** For any configured sources and any sequence of rejected
    events, the heartbeat line stays below one kibibyte and the counters keep
    the keys they were built with: event data never becomes a key. *)
Theorem Summary_bounded (sources drops : list string) :
  let c := inc_all drops (NewCounters sources) in
  (String.length (Summary c) < 1024)%nat ∧
  ∀ s, is_Some (ct_data c !! s) ↔ is_Some (ct_data (NewCounters sources) !! s).
Proof.
  intros c. assert (counters_ok c) as Hc by apply inc_all_ok, NewCounters_ok. split.
  - pose proof (Summary_length c Hc). lia.
  - intros s. rewrite (cc_keys _ Hc), (cc_keys _ (NewCounters_ok sources)).
    unfold c. by rewrite inc_all_sources.
Qed.

End Claims.
