(* ===== verification/Auth.v ===== *)
(** * Authentication of webhooks: [internal/auth]

    The HMAC signature over the body, or over timestamp, delivery id and body
    when the source binds them, the static token, and no authentication. *)

From S2P Require Import Prelude GoLib Sha256 Config Http.

#[local] Open Scope string_scope.

Inductive auth_err : Type := ErrUnauthorized | ErrUnsupported.

#[global] Instance auth_err_eq_dec : EqDecision auth_err.
Proof. solve_decision. Defined.

Definition newline : string := String (Ascii.ascii_of_nat 10) "".

Definition deliveryIDFromRequest (r : Request) : string :=
  let id := TrimSpace (Header_Get r "X-GitHub-Delivery") in
  if bool_decide (id = "") then TrimSpace (Header_Get r "X-Delivery-Id") else id.

(** The part one entry of signed_headers contributes, if any. *)
Definition signed_part (r : Request) (body h : string) : list string :=
  let h := ToLower (TrimSpace h) in
  if bool_decide (h = "timestamp") then [TrimSpace (Header_Get r "X-Webhook-Timestamp")]
  else if bool_decide (h = "delivery_id") then [deliveryIDFromRequest r]
  else if bool_decide (h = "body") then [body]
  else [].

Definition buildHMACPayload (signed : list string) (r : Request) (body : string) : string :=
  match signed with
  | [] => body
  | _ => Join (signed ≫= signed_part r body) newline
  end.

Definition SignHMACHex (secret payload : string) : string :=
  EncodeToString (hmac_sha256 secret payload).

Definition default_header (header fallback : string) : string :=
  if bool_decide (header = "") then fallback else header.

(** hmac.Equal and subtle.ConstantTimeCompare are equality of the bytes. *)
Definition verifyHMAC (ac : AuthConfig) (r : Request) (body : string) : result auth_err unit :=
  if bool_decide (au_secret ac = "") then Err ErrUnauthorized
  else
    let header := default_header (au_header ac) "X-Hub-Signature-256" in
    let got := TrimPrefix (Header_Get r header) "sha256=" in
    if bool_decide (got = "") then Err ErrUnauthorized
    else
      let want := SignHMACHex (au_secret ac) (buildHMACPayload (au_signed_headers ac) r body) in
      if bool_decide (got = want) then Ok tt else Err ErrUnauthorized.

Definition verifyToken (ac : AuthConfig) (r : Request) : result auth_err unit :=
  if bool_decide (au_secret ac = "") then Err ErrUnauthorized
  else
    let header := default_header (au_header ac) "X-Webhook-Token" in
    if bool_decide (Header_Get r header = au_secret ac) then Ok tt else Err ErrUnauthorized.

Definition Verify (ac : AuthConfig) (r : Request) (body : string) : result auth_err unit :=
  if bool_decide (au_type ac = "none") then Ok tt
  else if bool_decide (au_type ac = "hmac") then verifyHMAC ac r body
  else if bool_decide (au_type ac = "token") then verifyToken ac r
  else Err ErrUnsupported.

(** ** What a signature binds *)

(** The signature a request carries under a configuration. *)
Definition signature (ac : AuthConfig) (r : Request) : string :=
  TrimPrefix (Header_Get r (default_header (au_header ac) "X-Hub-Signature-256")) "sha256=".

(** Two different messages with the same authentication code. *)
Definition hmac_collision (secret : string) : Prop :=
  ∃ m m', m ≠ m' ∧ hmac_sha256 secret m = hmac_sha256 secret m'.

(** signed_headers as validation requires them when they are set *)
Definition binds_all (signed : list string) : Prop :=
  (λ h, ToLower (TrimSpace h)) <$> signed = ["timestamp"; "delivery_id"; "body"].

Lemma buildHMACPayload_bound signed r body :
  binds_all signed →
  buildHMACPayload signed r body =
    TrimSpace (Header_Get r "X-Webhook-Timestamp") +:+ newline +:+
    deliveryIDFromRequest r +:+ newline +:+ body.
Proof.
  intros Hb. destruct signed as [|h1 [|h2 [|h3 [|h4 l]]]]; try discriminate Hb.
  unfold binds_all in Hb. cbn [fmap list_fmap] in Hb. injection Hb as H1 H2 H3.
  unfold buildHMACPayload, signed_part. cbn [mbind list_bind].
  by rewrite H1, H2, H3.
Qed.

(** A text without line breaks is determined by what it is in front of one. *)
Lemma split_at_newline s t s' t' :
  no_newline s = true → no_newline s' = true →
  s +:+ newline +:+ t = s' +:+ newline +:+ t' → s = s' ∧ t = t'.
Proof.
  revert s'. induction s as [|a s IH]; intros [|b s'] Hs Hs' Heq; cbn in *.
  - by injection Heq.
  - injection Heq as <- _. done.
  - injection Heq as -> _. done.
  - injection Heq as -> Heq. bool_simpl. destruct (IH s') as [-> ->]; done.
Qed.

#[local] Open Scope Z_scope.

Lemma hex_digit_inj x y : 0 ≤ x < 16 → 0 ≤ y < 16 → hex_digit x = hex_digit y → x = y.
Proof.
  intros Hx Hy E.
  assert (∀ z, 0 ≤ z < 16 → Z.of_N (Ascii.N_of_ascii (hex_digit z)) = if z <? 10 then 48 + z else 87 + z)
    as Hd.
  { intros z Hz. unfold hex_digit. rewrite Ascii.N_ascii_embedding; [|destruct (_ <? _); lia].
    rewrite Z2N.id; [done|]. destruct (_ <? _) eqn:?; bool_simpl; lia. }
  apply (f_equal (λ a, Z.of_N (Ascii.N_of_ascii a))) in E. rewrite !Hd in E by done.
  destruct (x <? 10) eqn:?, (y <? 10) eqn:?; bool_simpl; lia.
Qed.

Lemma EncodeToString_inj s t : EncodeToString s = EncodeToString t → s = t.
Proof.
  revert t. induction s as [|a s IH]; intros [|b t] E; try done.
  cbn in E. injection E as E1 E2 E3. f_equal; [|by apply IH].
  assert (∀ x : Ascii.ascii, 0 ≤ Z.of_N (Ascii.N_of_ascii x) < 256) as Hb.
  { intros x. pose proof (Ascii.N_ascii_bounded x). lia. }
  pose proof (Hb a). pose proof (Hb b).
  set (x := Z.of_N (Ascii.N_of_ascii a)) in *. set (y := Z.of_N (Ascii.N_of_ascii b)) in *.
  rewrite !Z.shiftr_div_pow2 in E1 by lia.
  change 15 with (Z.ones 4) in E2. rewrite !Z.land_ones in E2 by lia.
  apply hex_digit_inj in E1; [|split; [apply Z.div_pos; lia|apply Z.div_lt_upper_bound; lia]..].
  apply hex_digit_inj in E2; [|by apply Z.mod_pos_bound..].
  assert (x = y) as Exy.
  { rewrite (Z.div_mod x (2^4)), (Z.div_mod y (2^4)) by lia. congruence. }
  subst x y. apply N2Z.inj in Exy.
  rewrite <- (Ascii.ascii_N_embedding a), <- (Ascii.ascii_N_embedding b). by rewrite Exy.
Qed.

Lemma verifyHMAC_Ok ac r body :
  verifyHMAC ac r body = Ok tt ↔
  au_secret ac ≠ ""%string ∧
  signature ac r = SignHMACHex (au_secret ac) (buildHMACPayload (au_signed_headers ac) r body).
Proof.
  unfold verifyHMAC. fold (signature ac r). case_bool_decide; [naive_solver|].
  case_bool_decide as Hs.
  - split; [done|]. intros [_ Hsig]. exfalso. rewrite Hsig in Hs. unfold SignHMACHex in Hs.
    apply (EncodeToString_inj _ ""%string) in Hs. by apply hmac_nonempty in Hs.
  - case_bool_decide; naive_solver.
Qed.

Lemma deliveryID_no_newline r : header_clean r → no_newline (deliveryIDFromRequest r) = true.
Proof.
  intros Hc. unfold deliveryIDFromRequest.
  case_bool_decide; by apply all_bytes_TrimSpace, header_clean_get.
Qed.

(** ** The properties *)

(** A webhook passes authentication exactly when its source asks for none, or
    its signature header (after an optional "sha256=") is the lower-case
    hexadecimal HMAC-SHA256 of the signed payload under a non-empty secret, or
    its token header is the non-empty secret; an unset secret lets nothing
    through. *)
Theorem Verify_spec (ac : AuthConfig) (r : Request) (body : string) :
  Verify ac r body = Ok tt ↔
    au_type ac = "none"%string ∨
    (au_type ac = "hmac"%string ∧ au_secret ac ≠ ""%string ∧
     signature ac r = SignHMACHex (au_secret ac) (buildHMACPayload (au_signed_headers ac) r body)) ∨
    (au_type ac = "token"%string ∧ au_secret ac ≠ ""%string ∧
     Header_Get r (default_header (au_header ac) "X-Webhook-Token") = au_secret ac).
Proof.
  unfold Verify. case_bool_decide as H1; [naive_solver|].
  case_bool_decide as H2; [rewrite verifyHMAC_Ok; naive_solver congruence|].
  case_bool_decide as H3; [|naive_solver].
  unfold verifyToken. repeat case_bool_decide; naive_solver congruence.
Qed.


(** ** A signed request *)

Module Demo.
#[local] Open Scope string_scope.

Definition ac : AuthConfig :=
  MkAuth "hmac" "" "0123456789abcdef" ["timestamp"; " Delivery_ID"; "body"].

Definition body : string := "{}".

Definition signed : string :=
  SignHMACHex "0123456789abcdef" ("1700000000" +:+ newline +:+ "delivery-1" +:+ newline +:+ body).

Definition request (addr : string) : Request := {|
  rq_source := "github"; rq_remote_addr := addr;
  rq_header := {["X-Hub-Signature-256" := ["sha256=" +:+ signed];
                 "X-Webhook-Timestamp" := ["1700000000"];
                 "X-Delivery-Id" := ["delivery-1"]]};
  rq_content_length := 2; rq_body := body; rq_body_fails := false |}.

Lemma request_clean addr : header_clean (request addr).
Proof.
  intros name values. cbn [rq_header request].
  rewrite !lookup_insert_Some, lookup_singleton_Some.
  intros [[_ <-]|[_ [[_ <-]|[_ [_ <-]]]]]; constructor; (done || (vm_compute; done)).
Qed.

End Demo.

