(* ===== verification/Limits.v ===== *)
(** * Load limits: [internal/server/budget.go] and the token buckets of
    [internal/server/protect.go]

    Both are mutex-protected objects, so each method is one atomic step on the
    state. Tokens are float64. The range over the bucket map visits the entries
    in an order the runtime chooses: an argument of the step. *)

From S2P Require Import Prelude Float64 Handler.

(** ** The in-flight budget *)

Record inFlightBudget : Type := MkBudget {
  bg_maxConns : Z;
  bg_maxBytes : Z;
  bg_conns : Z;
  bg_bytes : Z;
}.

Definition newInFlightBudget (maxConns maxBytes : Z) : inFlightBudget :=
  let maxConns := if maxConns <=? 0 then 16 else maxConns in
  let maxBytes := if maxBytes <=? 0 then 32 * 2 ^ 20 else maxBytes in
  MkBudget maxConns maxBytes 0 0.

Definition acquire (n : Z) (b : inFlightBudget) : bool * inFlightBudget :=
  let n := if n <? 0 then 0 else n in
  if bg_maxConns b <=? bg_conns b then (false, b)
  else if bg_maxBytes b <? wrap64 (bg_bytes b + n) then (false, b)
  else (true, MkBudget (bg_maxConns b) (bg_maxBytes b) (wrap64 (bg_conns b + 1))
                (wrap64 (bg_bytes b + n))).

Definition release (n : Z) (b : inFlightBudget) : inFlightBudget :=
  let n := if n <? 0 then 0 else n in
  let conns := wrap64 (bg_conns b - 1) in
  let conns := if conns <? 0 then 0 else conns in
  let bytes := wrap64 (bg_bytes b - n) in
  let bytes := if bytes <? 0 then 0 else bytes in
  MkBudget (bg_maxConns b) (bg_maxBytes b) conns bytes.

(** ** Token buckets *)

Definition maxLimiterBuckets : Z := 4096.
Definition bucketIdleTTL : Z := 30 * Minute.

Record bucket : Type := MkBucket { bk_tokens : float64; bk_last : Z }.

Record rateLimiter : Type := MkLimiter {
  rl_capacity : float64;
  rl_refill : float64;
  rl_buckets : gmap string bucket;
  rl_maxKeys : Z;
}.

Definition newRateLimiter (capacity : Z) (refillPerSecond : float64) : rateLimiter :=
  let capacity := if capacity <=? 0 then 30 else capacity in
  let refill := if f64_leb refillPerSecond (f64_of_Z 0)
                then f64_div (f64_of_Z capacity) (f64_of_Z 60) else refillPerSecond in
  MkLimiter (f64_of_Z capacity) refill ∅ maxLimiterBuckets.

Definition set_buckets (m : gmap string bucket) (r : rateLimiter) : rateLimiter :=
  MkLimiter (rl_capacity r) (rl_refill r) m (rl_maxKeys r).

Definition purge (now : Z) (r : rateLimiter) : rateLimiter :=
  set_buckets (filter (λ kb, (bucketIdleTTL <? time_sub now (bk_last kb.2)) = false)
                 (rl_buckets r)) r.

(** An order of iteration over the bucket map. *)
Definition map_range : Type := gmap string bucket → list (string * bucket).
Definition range_ok (range : map_range) : Prop := ∀ m, range m ≡ₚ map_to_list m.

(** The loop of [evictOne]: the oldest key so far and its time, [None] before
    the first entry. *)
Fixpoint oldest_key (l : list (string * bucket)) (acc : option (string * Z)) : option (string * Z) :=
  match l with
  | [] => acc
  | (k, b) :: l' =>
      oldest_key l' (match acc with
        | None => Some (k, bk_last b)
        | Some (_, oldest) => if bk_last b <? oldest then Some (k, bk_last b) else acc
        end)
  end.

Definition evictOne (range : map_range) (r : rateLimiter) : rateLimiter :=
  let oldestKey := match oldest_key (range (rl_buckets r)) None with
    | Some (k, _) => k | None => ""%string end in
  if bool_decide (oldestKey = ""%string) then r
  else set_buckets (delete oldestKey (rl_buckets r)) r.

(** The bucket of a known key after the refill for the time since its last one. *)
Definition refilled (r : rateLimiter) (now : Z) (b : bucket) : bucket :=
  let elapsed := Seconds (time_sub now (bk_last b)) in
  if f64_ltb (f64_of_Z 0) elapsed then
    let tokens := f64_add (bk_tokens b) (f64_mul elapsed (rl_refill r)) in
    MkBucket (if f64_ltb (rl_capacity r) tokens then rl_capacity r else tokens) now
  else b.

Definition allow (range : map_range) (key : string) (now : Z) (r : rateLimiter) :
    bool * rateLimiter :=
  let r := purge now r in
  match rl_buckets r !! key with
  | None =>
      let r := if rl_maxKeys r <=? Z.of_nat (size (rl_buckets r)) then evictOne range r else r in
      (true, set_buckets (<[key := MkBucket (f64_sub (rl_capacity r) (f64_of_Z 1)) now]>
                            (rl_buckets r)) r)
  | Some b =>
      let b := refilled r now b in
      if f64_ltb (bk_tokens b) (f64_of_Z 1)
      then (false, set_buckets (<[key := b]> (rl_buckets r)) r)
      else (true, set_buckets (<[key := MkBucket (f64_sub (bk_tokens b) (f64_of_Z 1)) (bk_last b)]>
                                 (rl_buckets r)) r)
  end.

Definition lenBuckets (r : rateLimiter) : Z := Z.of_nat (size (rl_buckets r)).
