(* ===== verification/LimitProps.v ===== *)
(** * The load limits hold

    The in-flight budget accounts for exactly the requests being served, the
    bucket map never outgrows its bound, and a key's burst is exactly the
    configured one. *)

From S2P Require Import Prelude Float64 Handler Limits.

(** ** The in-flight budget as a step relation *)

(** The budget and the reservations of the requests being served. A handler
    that acquired its reservation releases it when it returns. *)
Inductive budget_step : relation (inFlightBudget * list Z) :=
| step_admit n b b' held :
    0 ≤ n < 2 ^ 62 → acquire n b = (true, b') → budget_step (b, held) (b', n :: held)
| step_refuse n b b' held :
    0 ≤ n < 2 ^ 62 → acquire n b = (false, b') → budget_step (b, held) (b', held)
| step_release n b held1 held2 :
    budget_step (b, held1 ++ n :: held2) (release n b, held1 ++ held2).

Definition reserved (l : list Z) : Z := foldr Z.add 0 l.

Record budget_ok (mc mb : Z) (b : inFlightBudget) (held : list Z) : Prop := {
  bo_maxConns : bg_maxConns b = mc;
  bo_maxBytes : bg_maxBytes b = mb;
  bo_conns : bg_conns b = Z.of_nat (length held);
  bo_bytes : bg_bytes b = reserved held;
  bo_held : Forall (λ n, 0 ≤ n) held;
  bo_conns_max : Z.of_nat (length held) ≤ mc;
  bo_bytes_max : reserved held ≤ mb;
}.

Lemma sum_nonneg l : Forall (λ n, 0 ≤ n) l → 0 ≤ reserved l.
Proof. induction 1 as [|n l Hn Hl IH]; [done|]. cbn [reserved foldr]. fold (reserved l). lia. Qed.

Lemma sum_app l l' : reserved (l ++ l') = reserved l + reserved l'.
Proof. induction l as [|n l IH]; [done|]. cbn. fold (reserved (l ++ l')) (reserved l). lia. Qed.

Lemma acquire_spec mc mb b held n :
  0 ≤ mc ≤ 2 ^ 62 → 0 ≤ mb ≤ 2 ^ 62 → 0 ≤ n < 2 ^ 62 → budget_ok mc mb b held →
  acquire n b =
    if (Z.of_nat (length held) <? mc) && (reserved held + n <=? mb)
    then (true, MkBudget mc mb (Z.of_nat (length held) + 1) (reserved held + n)) else (false, b).
Proof.
  intros Hmc Hmb Hn [H1 H2 H3 H4 H5 H6 H7]. pose proof (sum_nonneg _ H5).
  unfold acquire. rewrite H1, H2, H3, H4.
  rewrite (proj2 (Z.ltb_ge n 0)) by lia. rewrite !wrap64_id by (unfold int64_ok; lia).
  destruct (mc <=? _) eqn:E1, (_ <? mc) eqn:E2; bool_simpl; try lia; [done|]. cbn.
  destruct (mb <? _) eqn:E3, (_ <=? mb) eqn:E4; bool_simpl; try lia; done.
Qed.

Lemma budget_step_ok mc mb b held b' held' :
  0 ≤ mc ≤ 2 ^ 62 → 0 ≤ mb ≤ 2 ^ 62 → budget_ok mc mb b held →
  budget_step (b, held) (b', held') → budget_ok mc mb b' held'.
Proof.
  intros Hmc Hmb Hok Hs. inversion Hs as [n ? ? ? Hn Hacq|n ? ? ? Hn Hacq|n ? l1 l2]; subst.
  - rewrite (acquire_spec mc mb b held) in Hacq by done.
    destruct (_ && _) eqn:E; simplify_eq. bool_simpl. destruct Hok.
    split; cbn [bg_maxConns bg_maxBytes bg_conns bg_bytes length reserved foldr]; fold (reserved held);
      try constructor; (done || lia).
  - rewrite (acquire_spec mc mb b held') in Hacq by done.
    destruct (_ && _); by simplify_eq.
  - destruct Hok as [H1 H2 H3 H4 H5 H6 H7].
    apply Forall_app in H5 as [Hl1 [Hn Hl2]%Forall_cons].
    rewrite sum_app, length_app in *. cbn [reserved foldr length] in *. fold (reserved l2) in *.
    pose proof (sum_nonneg _ Hl1). pose proof (sum_nonneg _ Hl2).
    unfold release. rewrite H1, H2, H3, H4. rewrite (proj2 (Z.ltb_ge n 0)) by lia.
    rewrite !wrap64_id by (unfold int64_ok; lia).
    rewrite !(proj2 (Z.ltb_ge _ 0)) by lia.
    split; cbn [bg_maxConns bg_maxBytes bg_conns bg_bytes];
      rewrite ?sum_app, ?length_app; try (apply Forall_app; split); (done || lia).
Qed.

(** C19: however requests arrive and end, the budget counts exactly the
    requests being served and the bytes they reserved: it never leaks or loses
    a reservation, never exceeds its two limits, never wraps around, and
    refuses a request only when the request itself would exceed one. *)
Theorem budget_accounts (mc mb : Z) (b : inFlightBudget) (held : list Z) :
  1 ≤ mc ≤ 2 ^ 62 → 1 ≤ mb ≤ 2 ^ 62 →
  rtc budget_step (newInFlightBudget mc mb, []) (b, held) →
  budget_ok mc mb b held ∧
  ∀ n, 0 ≤ n < 2 ^ 62 →
    (acquire n b).1 = (Z.of_nat (length held) <? mc) && (reserved held + n <=? mb).
Proof.
  intros Hmc Hmb Hrun.
  assert (∀ s s', rtc budget_step s s' → budget_ok mc mb s.1 s.2 → budget_ok mc mb s'.1 s'.2)
    as Hinv.
  { induction 1 as [|[? ?] [? ?] ? Hs _ IH]; [done|]. intros Hok. apply IH.
    eapply budget_step_ok, Hs; [lia..|done]. }
  assert (budget_ok mc mb b held) as Hok.
  { apply (Hinv _ _ Hrun). unfold newInFlightBudget. rewrite !(proj2 (Z.leb_gt _ 0)) by lia.
    split; cbn; (done || lia). }
  split; [done|]. intros n Hn. rewrite (acquire_spec mc mb b held) by (lia || done).
  by destruct (_ && _).
Qed.

(** ** The bucket map stays bounded *)

Lemma oldest_key_elem l acc k t :
  oldest_key l acc = Some (k, t) → acc = Some (k, t) ∨ ∃ b, (k, b) ∈ l.
Proof.
  revert acc. induction l as [|[k' b'] l IH]; intros acc; cbn; [auto|].
  intros [Hacc|[b Hb]]%IH; [|right; exists b; by right].
  destruct acc as [[k0 t0]|]; [|simplify_eq; right; exists b'; by left].
  destruct (_ <? _); [simplify_eq; right; exists b'; by left|by left].
Qed.

Lemma oldest_key_is_Some l acc : is_Some acc ∨ l ≠ [] → is_Some (oldest_key l acc).
Proof.
  revert acc. induction l as [|[k b] l IH]; intros acc; cbn; [naive_solver|].
  intros _. apply IH. left. destruct acc as [[? ?]|]; [|done]. by destruct (_ <? _).
Qed.

Lemma purge_lookup_Some now r k b :
  rl_buckets (purge now r) !! k = Some b ↔
    rl_buckets r !! k = Some b ∧ (bucketIdleTTL <? time_sub now (bk_last b)) = false.
Proof. unfold purge. cbn. apply map_lookup_filter_Some. Qed.

Lemma purge_size now r : (size (rl_buckets (purge now r)) ≤ size (rl_buckets r))%nat.
Proof. apply map_subseteq_size. cbn. apply map_filter_subseteq. Qed.

Lemma evictOne_size range r :
  range_ok range → rl_buckets r !! ""%string = None → rl_buckets r ≠ ∅ →
  rl_buckets (evictOne range r) ⊆ rl_buckets r ∧
  (size (rl_buckets (evictOne range r)) < size (rl_buckets r))%nat.
Proof.
  intros Hr Hn Hne. unfold evictOne.
  destruct (oldest_key_is_Some (range (rl_buckets r)) None) as [[k t] Hk].
  { right. intros E. apply Hne. apply map_to_list_empty_iff.
    apply Permutation_nil. by rewrite <- (Hr (rl_buckets r)), E. }
  rewrite Hk. apply oldest_key_elem in Hk as [?|[b Hb]]; [done|].
  rewrite (Hr (rl_buckets r)), elem_of_map_to_list in Hb.
  rewrite bool_decide_false by congruence. cbn. split; [apply delete_subseteq|].
  rewrite map_size_delete_Some by eauto.
  assert (size (rl_buckets r) ≠ 0%nat) by (intros E; by apply Hne, map_size_empty_inv). lia.
Qed.

Record limiter_ok (r : rateLimiter) : Prop := {
  lo_nonempty : rl_buckets r !! ""%string = None;
  lo_size : Z.of_nat (size (rl_buckets r)) ≤ rl_maxKeys r;
  lo_maxKeys : 1 ≤ rl_maxKeys r;
}.

Lemma allow_maxKeys range key now r : rl_maxKeys (allow range key now r).2 = rl_maxKeys r.
Proof.
  unfold allow. destruct (_ !! key); cbn.
  - by destruct (f64_ltb _ _).
  - destruct (_ <=? _); [|done]. unfold evictOne. by case_bool_decide.
Qed.

Lemma allow_ok range key now r :
  range_ok range → key ≠ ""%string → limiter_ok r → limiter_ok (allow range key now r).2.
Proof.
  intros Hr Hk [Hn Hs Hm].
  assert (rl_buckets (purge now r) !! ""%string = None) as Hn'.
  { apply eq_None_not_Some. intros [b [Hb _]%purge_lookup_Some]. congruence. }
  pose proof (purge_size now r) as Hps.
  split; [..|by rewrite allow_maxKeys]; rewrite ?allow_maxKeys; unfold allow;
    destruct (rl_buckets (purge now r) !! key) as [b|] eqn:E.
  - destruct (f64_ltb _ _); cbn [snd rl_buckets set_buckets]; by rewrite lookup_insert_ne.
  - cbn [snd rl_buckets set_buckets]. rewrite lookup_insert_ne by done.
    destruct (_ <=? _); [|done]. unfold evictOne. case_bool_decide; [done|]. cbn [rl_buckets set_buckets].
    apply lookup_delete_None. by right.
  - destruct (f64_ltb _ _); cbn [snd rl_buckets set_buckets];
      rewrite map_size_insert_Some by eauto; lia.
  - cbn [snd rl_buckets set_buckets]. change (rl_maxKeys (purge now r)) with (rl_maxKeys r).
    destruct (rl_maxKeys r <=? _) eqn:Hfull; bool_simpl.
    + destruct (evictOne_size range (purge now r)) as [Hsub Hlt]; [done..| |].
      { intros E0. rewrite E0, map_size_empty in Hfull. lia. }
      rewrite map_size_insert_None; [lia|]. by eapply lookup_weaken_None.
    + rewrite map_size_insert_None by done. lia.
Qed.

(** A call of [allow]: the key, the time, and the order of the map range. *)
Definition limit_call : Type := string * Z * map_range.

Definition run_limiter (calls : list limit_call) (r : rateLimiter) : rateLimiter :=
  foldl (λ r c, (allow c.2 c.1.1 c.1.2 r).2) r calls.

(** Whatever keys and times the calls come with, a limiter holds at most
    4096 buckets; the client controls its memory no further. *)
Theorem limiter_bounded (capacity : Z) (refill : float64) (calls : list limit_call) :
  Forall (λ c, range_ok c.2 ∧ c.1.1 ≠ ""%string) calls →
  lenBuckets (run_limiter calls (newRateLimiter capacity refill)) ≤ maxLimiterBuckets.
Proof.
  intros Hc.
  assert (∀ r, limiter_ok r → limiter_ok (run_limiter calls r) ∧
    rl_maxKeys (run_limiter calls r) = rl_maxKeys r) as Hrun.
  { induction Hc as [|c calls [Hr Hk] _ IH]; intros r Hok; [done|]. cbn [run_limiter foldl].
    fold (run_limiter calls (allow c.2 c.1.1 c.1.2 r).2).
    destruct (IH (allow c.2 c.1.1 c.1.2 r).2) as [H1 H2]; [by apply allow_ok|].
    split; [done|]. by rewrite H2, allow_maxKeys. }
  destruct (Hrun (newRateLimiter capacity refill)) as [[_ Hs _] Hm]; [by split|].
  unfold lenBuckets. by rewrite Hm in Hs.
Qed.

(** ** Bursts *)

(** What the calls for [key] at time [now] are answered, other keys' calls in
    between. *)
Fixpoint answers (key : string) (now : Z) (calls : list (string * map_range))
    (r : rateLimiter) : list bool :=
  match calls with
  | [] => []
  | (k, range) :: calls' =>
      let '(a, r') := allow range k now r in
      if bool_decide (k = key) then a :: answers key now calls' r' else answers key now calls' r'
  end.

Definition calls_for (key : string) (calls : list (string * map_range)) : nat :=
  length (filter (λ c, c.1 = key) calls).

(** [j] requests of [key] are left at time [now]. *)
Definition left_is (key : string) (now cap j : Z) (r : rateLimiter) : Prop :=
  rl_capacity r = f64_of_Z cap ∧
  ((j = cap ∧ rl_buckets (purge now r) !! key = None) ∨
   (0 ≤ j < cap ∧ rl_buckets r !! key = Some (MkBucket (f64_of_Z j) now))).

Lemma time_sub_self t : time_sub t t = 0.
Proof. unfold time_sub. by rewrite Z.sub_diag. Qed.

Lemma refilled_now r b : refilled r (bk_last b) b = b.
Proof. unfold refilled. by rewrite time_sub_self. Qed.

Lemma purge_now now r key tokens :
  rl_buckets r !! key = Some (MkBucket tokens now) →
  rl_buckets (purge now r) !! key = Some (MkBucket tokens now).
Proof. intros Hb. apply purge_lookup_Some. split; [done|]. cbn. by rewrite time_sub_self. Qed.

(** Without an eviction a call changes its own bucket and purges idle ones. *)
Lemma allow_room range key now r :
  Z.of_nat (size (rl_buckets r)) < rl_maxKeys r →
  ∃ b, rl_buckets (allow range key now r).2 = <[key := b]> (rl_buckets (purge now r)) ∧
       rl_capacity (allow range key now r).2 = rl_capacity r ∧
       match rl_buckets (purge now r) !! key with
       | None => (allow range key now r).1 = true ∧
           b = MkBucket (f64_sub (rl_capacity r) (f64_of_Z 1)) now
       | Some b0 =>
           let b1 := refilled r now b0 in
           (allow range key now r).1 = negb (f64_ltb (bk_tokens b1) (f64_of_Z 1)) ∧
           b = if f64_ltb (bk_tokens b1) (f64_of_Z 1) then b1
               else MkBucket (f64_sub (bk_tokens b1) (f64_of_Z 1)) (bk_last b1)
       end.
Proof.
  intros Hroom. pose proof (purge_size now r). unfold allow.
  destruct (rl_buckets (purge now r) !! key) as [b0|].
  - change (refilled (purge now r) now b0) with (refilled r now b0).
    destruct (f64_ltb _ _); eexists; split_and!; reflexivity.
  - change (rl_maxKeys (purge now r)) with (rl_maxKeys r).
    rewrite (proj2 (Z.leb_gt _ _)) by lia. eexists; split_and!; reflexivity.
Qed.

Lemma left_is_step range key k now cap j r :
  1 ≤ cap < 2 ^ 53 → Z.of_nat (size (rl_buckets r)) < rl_maxKeys r → left_is key now cap j r →
  (k ≠ key → left_is key now cap j (allow range k now r).2) ∧
  (k = key → (allow range k now r).1 = (0 <? j) ∧
             left_is key now cap (Z.max 0 (j - 1)) (allow range k now r).2).
Proof.
  intros Hcap Hroom [Hc Hl]. destruct (allow_room range k now r Hroom) as (b & Hb & Hcap' & Ha).
  rewrite Hc in *. split.
  - intros Hne. split; [done|]. destruct Hl as [[-> Hnone]|[Hj Hsome]].
    + left. split; [done|]. apply eq_None_not_Some. intros [b' [Hb' Hidle]%purge_lookup_Some].
      rewrite Hb, lookup_insert_ne, Hnone in Hb' by done. done.
    + right. split; [done|]. rewrite Hb, lookup_insert_ne by done. by apply purge_now.
  - intros ->. destruct Hl as [[-> Hnone]|[Hj Hsome]].
    + rewrite Hnone in Ha. destruct Ha as [-> ->]. split; [symmetry; apply Z.ltb_lt; lia|].
      split; [done|]. right. split; [lia|]. rewrite Hb, lookup_insert_eq, f64_pred by lia.
      do 3 f_equal. lia.
    + rewrite (purge_now _ _ _ _ Hsome) in Ha. cbv zeta in Ha.
      pose proof (refilled_now r (MkBucket (f64_of_Z j) now)) as Hre. cbn in Hre.
      rewrite Hre in Ha. cbn [bk_tokens bk_last] in Ha.
      rewrite f64_lt_one in Ha by lia. destruct Ha as [-> ->]. split.
      { destruct (j <? 1) eqn:?, (0 <? j) eqn:?; bool_simpl; (done || lia). }
      split; [done|]. right. split; [lia|]. rewrite Hb, lookup_insert_eq.
      destruct (j <? 1) eqn:?; bool_simpl.
      * do 3 f_equal. lia.
      * rewrite f64_pred by lia. do 3 f_equal. lia.
Qed.

Lemma allow_room_size range key now r :
  Z.of_nat (size (rl_buckets r)) < rl_maxKeys r →
  (size (rl_buckets (allow range key now r).2) ≤ S (size (rl_buckets r)))%nat.
Proof.
  intros Hroom. destruct (allow_room range key now r Hroom) as (b & -> & _ & Ha).
  pose proof (purge_size now r).
  destruct (rl_buckets (purge now r) !! key) eqn:E.
  - rewrite map_size_insert_Some by eauto. lia.
  - rewrite map_size_insert_None by done. lia.
Qed.

Lemma answers_left key now cap calls j r :
  1 ≤ cap < 2 ^ 53 → 0 ≤ j → left_is key now cap j r →
  Z.of_nat (size (rl_buckets r)) + Z.of_nat (length calls) ≤ rl_maxKeys r →
  answers key now calls r = (λ i, Z.of_nat i <? j) <$> seq 0 (calls_for key calls).
Proof.
  intros Hcap. revert j r. induction calls as [|[k range] calls IH]; intros j r Hj Hl Hroom; [done|].
  cbn [length] in Hroom. unfold calls_for. cbn [answers].
  destruct (left_is_step range key k now cap j r) as [Hother Hself]; [done|lia|done|].
  pose proof (allow_room_size range k now r ltac:(lia)) as Hsz.
  pose proof (allow_maxKeys range k now r) as Hm.
  destruct (allow range k now r) as [a r']. cbn [fst snd] in *.
  destruct (decide (k = key)) as [->|Hne].
  - rewrite bool_decide_true by done. rewrite filter_cons_True by done. cbn [length seq fmap list_fmap].
    destruct (Hself eq_refl) as [-> Hl']. f_equal.
    rewrite <- fmap_S_seq, <- list_fmap_compose. rewrite (IH (Z.max 0 (j - 1))); [|lia|done|lia].
    fold (calls_for key calls). apply list_fmap_ext. intros i ? _. cbn.
    rewrite Nat2Z.inj_succ.
    destruct (Z.ltb_spec (Z.of_nat x) (Z.max 0 (j - 1))), (Z.ltb_spec (Z.succ (Z.of_nat x)) j);
      (done || lia).
  - rewrite bool_decide_false by done. rewrite filter_cons_False by done.
    apply IH; [done|by apply Hother|lia].
Qed.

(** A key that has no live bucket may burst exactly up to the configured capacity:
    of its requests at one instant, whatever other keys do in between, the
    first [cap] pass and all later ones are refused, as long as the map has
    room for the keys that arrive (an eviction would forget the key). *)
Theorem burst_exact (key : string) (now cap : Z) (r : rateLimiter)
    (calls : list (string * map_range)) :
  1 ≤ cap < 2 ^ 53 → rl_capacity r = f64_of_Z cap →
  rl_buckets (purge now r) !! key = None →
  Z.of_nat (size (rl_buckets r)) + Z.of_nat (length calls) ≤ rl_maxKeys r →
  answers key now calls r = (λ i, Z.of_nat i <? cap) <$> seq 0 (calls_for key calls).
Proof.
  intros Hcap Hr Hnone Hroom. apply (answers_left _ _ cap); [done|lia| |done].
  split; [done|]. by left.
Qed.

(** ** Concrete limits *)

Lemma map_to_list_range_ok : range_ok map_to_list.
Proof. by intros m. Qed.

Module Demo.
#[local] Open Scope string_scope.

Definition limiter : rateLimiter := newRateLimiter 2 (f64_of_Z 1).

Definition calls : list (string * map_range) :=
  [("a", map_to_list); ("b", map_to_list); ("a", map_to_list); ("a", map_to_list)].

End Demo.

Lemma budget_accounts_witness :
  budget_ok 16 100 (MkBudget 16 100 1 30) [30] ∧ (acquire 71 (MkBudget 16 100 1 30)).1 = false.
Proof.
  destruct (budget_accounts 16 100 (MkBudget 16 100 1 30) [30]) as [Hok Hacq]; [lia|lia| |].
  { apply rtc_l with (MkBudget 16 100 1 30, [30]); [|done].
    apply (step_admit 30); [lia|reflexivity]. }
  split; [done|]. rewrite (Hacq 71) by lia. reflexivity.
Defined.

Lemma limiter_bounded_witness :
  lenBuckets (run_limiter [("a"%string, 0, map_to_list); ("b"%string, Second, map_to_list)]
    Demo.limiter) ≤ 4096.
Proof.
  apply limiter_bounded.
  repeat constructor; cbn; (apply map_to_list_range_ok || discriminate).
Defined.

Lemma burst_exact_witness : answers "a" Second Demo.calls Demo.limiter = [true; true; false].
Proof. apply (burst_exact "a" Second 2 Demo.limiter Demo.calls); [lia|reflexivity..|vm_compute; done]. Defined.
