(* ===== verification/ClientAddr.v ===== *)
(** * The client's address: trusted proxies in [internal/server/protect.go]

    Forwarding headers count only when the peer is a configured proxy, and of
    X-Forwarded-For only the part the trusted proxies wrote. *)

From Stdlib Require Import Ascii.
From S2P Require Import Prelude GoLib Http.

#[local] Open Scope string_scope.

Section ClientAddr.
Context `{Net}.

Record trustedNets : Type := MkTrusted { tn_nets : list IPNet; tn_ips : list IP }.

Definition parseTrustedProxies (cidrs : list string) : trustedNets :=
  foldl (λ t raw,
    let raw := TrimSpace raw in
    if bool_decide (raw = "") then t
    else match ParseCIDR raw with
    | Some n => MkTrusted (tn_nets t ++ [n])%list (tn_ips t)
    | None =>
        match ParseIP raw with
        | Some ip => MkTrusted (tn_nets t) (tn_ips t ++ [ip])%list
        | None => t
        end
    end) (MkTrusted [] []) cidrs.

(** [contains] of an address that is not nil *)
Definition trusted_contains (t : trustedNets) (ip : IP) : bool :=
  existsb (λ n, IPNet_Contains n ip) (tn_nets t) || existsb (λ tip, IP_Equal tip ip) (tn_ips t).

(** The walk over the parts of X-Forwarded-For, [parts] from the right. *)
Fixpoint rightmost_untrusted (t : trustedNets) (parts : list string) : option string :=
  match parts with
  | [] => None
  | part :: parts' =>
      let cand := TrimSpace part in
      match ParseIP cand with
      | None => rightmost_untrusted t parts'
      | Some ip => if trusted_contains t ip then rightmost_untrusted t parts' else Some cand
      end
  end.

Definition clientIP (r : Request) (trusted : trustedNets) : string :=
  let remote := default (rq_remote_addr r) (SplitHost (rq_remote_addr r)) in
  match ParseIP remote with
  | None => remote
  | Some remoteIP =>
      if negb (trusted_contains trusted remoteIP) then remote
      else
        let xff := Header_Get r "X-Forwarded-For" in
        let from_xff :=
          if bool_decide (xff = "") then None
          else rightmost_untrusted trusted (reverse (Split xff ",")) in
        match from_xff with
        | Some cand => cand
        | None =>
            let xr := TrimSpace (Header_Get r "X-Real-IP") in
            if bool_decide (xr = "") then remote
            else match ParseIP xr with Some _ => xr | None => remote end
        end
  end.

(** ** Facts *)

Lemma rightmost_untrusted_app t l l' :
  rightmost_untrusted t (l ++ l')%list =
    match rightmost_untrusted t l with Some c => Some c | None => rightmost_untrusted t l' end.
Proof.
  induction l as [|part l IH]; cbn; [done|]. rewrite IH.
  destruct (ParseIP _); [|done]. by destruct (trusted_contains _ _).
Qed.

(** ** The properties *)

(** A peer that is not a configured proxy cannot choose its address: whatever
    headers it sends, the address is that of its connection. *)
Theorem untrusted_peer_headers_ignored (r : Request) (cidrs : list string) :
  (∀ ip, ParseIP (default (rq_remote_addr r) (SplitHost (rq_remote_addr r))) = Some ip →
     trusted_contains (parseTrustedProxies cidrs) ip = false) →
  clientIP r (parseTrustedProxies cidrs) = default (rq_remote_addr r) (SplitHost (rq_remote_addr r)).
Proof.
  intros Hu. unfold clientIP. set (remote := default _ _) in *.
  destruct (ParseIP remote) as [ip|]; [|done]. by rewrite Hu.
Qed.

(** C20: behind trusted proxies a client cannot choose its address with a forged
    X-Forwarded-For: once the part the proxies wrote names an address that is
    not a proxy, whatever text comes in front of it, and whatever the other
    headers say, the address is the same. *)
Theorem forged_forwarded_ignored (r r' : Request) (t : trustedNets) (forged written cand : string) :
  rq_remote_addr r = rq_remote_addr r' →
  rightmost_untrusted t (reverse (Split written ",")) = Some cand →
  Header_Get r "X-Forwarded-For" = forged +:+ String "," written →
  Header_Get r' "X-Forwarded-For" = written → written ≠ "" →
  clientIP r t = clientIP r' t.
Proof.
  intros Ha Hw Hr Hr' Hne. unfold clientIP. rewrite Ha, Hr, Hr'.
  destruct (ParseIP _) as [ip|]; [|done]. destruct (negb _); [done|].
  rewrite (bool_decide_false (forged +:+ _ = "")), (bool_decide_false (written = ""))
    by (done || by destruct forged).
  by rewrite Split_concat, reverse_app, rightmost_untrusted_app, Hw.
Qed.

End ClientAddr.

(** ** A concrete network: addresses are their texts, a network is a prefix *)

Module Demo.

#[export] Instance text_net : Net := {|
  IP := string; IPNet := string;
  ParseIP s := if all_bytes (λ n, digit n || Nat.eqb n 46) s && negb (bool_decide (s = ""))
               then Some s else None;
  ParseCIDR s := if HasSuffix s ".0/8" then Some (String.substring 0 2 s) else None;
  IP_bytes s := default 0 ∘ ParseInt <$> Split s ".";
  IP_Equal a b := bool_decide (a = b);
  IPNet_Contains n ip := has_prefix ip n;
  SplitHost s := match Split s ":" with [h; _] => Some h | _ => None end;
|}.

Definition request (xff : string) : Request := {|
  rq_source := "github"; rq_remote_addr := "10.0.0.9:443";
  rq_header := {["X-Forwarded-For" := [xff]]};
  rq_content_length := 0; rq_body := ""; rq_body_fails := false |}.

Definition proxies : trustedNets := parseTrustedProxies ["10.0.0.0/8"].

End Demo.
#[local] Existing Instance Demo.text_net.

Lemma untrusted_peer_headers_ignored_witness :
  clientIP (Demo.request "1.2.3.4") (parseTrustedProxies ["192.168.0.1"]) = "10.0.0.9".
Proof.
  rewrite (untrusted_peer_headers_ignored (Demo.request "1.2.3.4") ["192.168.0.1"]);
    [vm_compute; reflexivity|].
  intros ip Hip. vm_compute in Hip. simplify_eq. vm_compute. reflexivity.
Defined.

Lemma forged_forwarded_ignored_witness :
  clientIP (Demo.request "6.6.6.6,203.0.113.7, 10.0.0.5") Demo.proxies =
    clientIP (Demo.request "203.0.113.7, 10.0.0.5") Demo.proxies ∧
  clientIP (Demo.request "203.0.113.7, 10.0.0.5") Demo.proxies = "203.0.113.7".
Proof.
  split; [|vm_compute; reflexivity].
  apply (forged_forwarded_ignored _ _ _ "6.6.6.6" "203.0.113.7, 10.0.0.5" "203.0.113.7");
    [reflexivity|vm_compute; reflexivity..|discriminate].
Defined.
