(* ===== verification/Server.v ===== *)
(** * The HTTP front: [internal/server/server.go]

    The handlers as programs over the state of the server: the database, the
    four rate limiters, the in-flight budget, the counters of rejected requests
    and the wake signal to the workers. A handler ends with one response. *)

From Stdlib Require Import Ascii.
From S2P Require Import Prelude GoLib Float64 Sha256 Sql StoreSchema Store Http Config Auth Limits ClientAddr Policy.

#[local] Open Scope string_scope.

(** What a run reads from the Go runtime: the iteration order of the bucket
    maps, crypto/rand (eight bytes, or an error) and the time format. *)
Class Runtime : Type := {
  range_at : nat → map_range;
  range_at_ok : ∀ n, range_ok (range_at n);
  rand_bytes : nat → option string;
  format_stamp : Z → string;
}.

(** A response: the status and what its body says. *)
Record Response : Type := Respond { resp_code : Z; resp_body : string }.

Definition maxBodyBytes : Z := 2 ^ 20.
Definition defaultReplaySkew : Z := (5 * Minute)%Z.
Definition defaultReplayTTL : Z := (10 * Minute)%Z.
Definition maxDeliveryIDLength : nat := 128.

(** ** Checks on headers *)

(** deliveryIDRe: ^[A-Za-z0-9._:-]+$ *)
Definition delivery_byte (n : nat) : bool :=
  in_range 65 90 n || in_range 97 122 n || digit n || existsb (Nat.eqb n) [46; 95; 58; 45]%nat.

Definition validateDeliveryID (id : string) : bool :=
  negb (Nat.ltb maxDeliveryIDLength (String.length id)
        || negb (negb (bool_decide (id = "")) && all_bytes delivery_byte id)).

Definition isJSONContentType (value : string) : bool :=
  let value := ToLower (TrimSpace value) in
  if bool_decide (value = "") then false
  else
    let media := TrimSpace (default "" (head (Split value ";"))) in
    bool_decide (media = "application/json") || HasSuffix media "+json".

(** time.Unix(seconds, 0): the seconds are kept from year 1 in an int64. *)
Definition unixToInternal : Z := 62135596800.
Definition time_unix (seconds : Z) : Z :=
  ((wrap64 (seconds + unixToInternal) - unixToInternal) * Second)%Z.

Inductive replay_err : Type := errInvalidTimestamp | errStaleTimestamp.

Definition validateReplayHeaders (r : Request) (now skew : Z) : result replay_err unit :=
  let raw := TrimSpace (Header_Get r "X-Webhook-Timestamp") in
  if bool_decide (raw = "") then Err errInvalidTimestamp
  else match ParseInt raw with
  | None => Err errInvalidTimestamp
  | Some seconds =>
      let stamp := time_unix seconds in
      if ((stamp <? now - skew) || (now + skew <? stamp))%Z then Err errStaleTimestamp
      else Ok tt
  end.

Section Server.
Context `{Env, SqlOrder, Regexp, Json, Net, Runtime}.

(** ** The server and its state *)

Record Server : Type := MkServer {
  se_cfg : Config;
  se_trusted : trustedNets;
}.

Record sstate : Type := SState {
  ss_conn : conn DB;
  ss_limiter : rateLimiter;
  ss_global : rateLimiter;
  ss_preAuth : rateLimiter;
  ss_ops : rateLimiter;
  ss_budget : inFlightBudget;
  ss_rateRejected : gmap Z Z;
  ss_wake : bool;
}.

(** [New] with a configuration; [rates] are the limits after WithDefaults. *)
Definition New (cfg : Config) (rates : RateLimitsConfig) (c : conn DB) : Server * sstate :=
  let sv := cf_server cfg in
  let maxInFlight := if (0 <? sv_max_in_flight sv)%Z then sv_max_in_flight sv else 16%Z in
  let maxBytes := if (0 <? sv_max_in_flight_bytes sv)%Z then sv_max_in_flight_bytes sv
                  else (32 * 2 ^ 20)%Z in
  let admin := if bool_decide (ad_header (cf_admin cfg) = "")
               then MkAdmin "Authorization" (ad_token (cf_admin cfg)) else cf_admin cfg in
  let limiter_of r := newRateLimiter (rt_burst r) (rt_per_second r) in
  (MkServer (MkConfig sv admin (cf_log cfg) (cf_store cfg) (cf_queue cfg) (cf_heartbeat cfg)
               (cf_sources cfg))
     (parseTrustedProxies (sv_trusted_proxies sv)),
   {| ss_conn := c;
      ss_limiter := limiter_of (rt_source_per_ip rates);
      ss_global := limiter_of (rt_global rates);
      ss_preAuth := limiter_of (rt_pre_auth_per_ip rates);
      ss_ops := limiter_of (rt_admin_per_ip rates);
      ss_budget := newInFlightBudget maxInFlight maxBytes;
      ss_rateRejected := ∅;
      ss_wake := false |}).

#[local] Abbreviation W := (St sstate).

Definition set_conn (c : conn DB) (s : sstate) : sstate :=
  SState c (ss_limiter s) (ss_global s) (ss_preAuth s) (ss_ops s) (ss_budget s)
    (ss_rateRejected s) (ss_wake s).
Definition set_budget (b : inFlightBudget) (s : sstate) : sstate :=
  SState (ss_conn s) (ss_limiter s) (ss_global s) (ss_preAuth s) (ss_ops s) b
    (ss_rateRejected s) (ss_wake s).
Definition set_limiter (l : rateLimiter) (s : sstate) : sstate :=
  SState (ss_conn s) l (ss_global s) (ss_preAuth s) (ss_ops s) (ss_budget s)
    (ss_rateRejected s) (ss_wake s).
Definition set_global (l : rateLimiter) (s : sstate) : sstate :=
  SState (ss_conn s) (ss_limiter s) l (ss_preAuth s) (ss_ops s) (ss_budget s)
    (ss_rateRejected s) (ss_wake s).
Definition set_preAuth (l : rateLimiter) (s : sstate) : sstate :=
  SState (ss_conn s) (ss_limiter s) (ss_global s) l (ss_ops s) (ss_budget s)
    (ss_rateRejected s) (ss_wake s).
Definition set_ops (l : rateLimiter) (s : sstate) : sstate :=
  SState (ss_conn s) (ss_limiter s) (ss_global s) (ss_preAuth s) l (ss_budget s)
    (ss_rateRejected s) (ss_wake s).

Definition next_tick (s : sstate) : sstate :=
  set_conn (Conn (cn_db (ss_conn s)) (S (cn_tick (ss_conn s)))) s.

(** s.now() *)
Definition s_now : W Z := λ s, (clock (cn_tick (ss_conn s)), next_tick s).

(** A call on the store *)
Definition on_store {A} (m : M (conn DB) store_err A) : W (result store_err A) := λ s,
  let '(r, c) := m (ss_conn s) in (r, set_conn c s).

(** [allow] on one of the limiters *)
Definition limit (get : sstate → rateLimiter) (put : rateLimiter → sstate → sstate)
    (key : string) (now : Z) : W bool := λ s,
  let '(ok, l) := allow (range_at (cn_tick (ss_conn s))) key now (get s) in
  (ok, next_tick (put l s)).

Definition budget_acquire (n : Z) : W bool := λ s,
  let '(ok, b) := acquire n (ss_budget s) in (ok, set_budget b s).
Definition budget_release (n : Z) : W unit := λ s, (tt, set_budget (release n (ss_budget s)) s).

(** s.q.Wake() *)
Definition Wake : W unit := λ s,
  (tt, SState (ss_conn s) (ss_limiter s) (ss_global s) (ss_preAuth s) (ss_ops s) (ss_budget s)
         (ss_rateRejected s) true).

Definition http_error (text : string) (code : Z) : W Response := mret (Respond code text).

(** The counters are uint64. *)
Definition rejectRate (layer : Z) : W Response := λ s,
  (Respond 429 "rate limit exceeded",
   SState (ss_conn s) (ss_limiter s) (ss_global s) (ss_preAuth s) (ss_ops s) (ss_budget s)
     (<[layer := uwrap64 (default 0%Z (ss_rateRejected s !! layer) + 1)]> (ss_rateRejected s))
     (ss_wake s)).

(** [newID]: eight random bytes and the time. *)
Definition newID : W (option string) := λ s,
  (match rand_bytes (cn_tick (ss_conn s)) with
   | None => None
   | Some bytes =>
       Some (format_stamp (clock (cn_tick (ss_conn s))) +:+ "-" +:+ EncodeToString bytes)
   end, next_tick s).

(** ** Accepting webhooks *)

Definition duplicate_response (e : store_err) : Response :=
  match e with
  | ErrDuplicateBody => Respond 409 "duplicate body"
  | ErrDuplicateEvent => Respond 409 "duplicate delivery"
  | _ => Respond 500 "save event"
  end.

(** X-GitHub-Delivery, or else X-Delivery-Id *)
Definition delivery_id (r : Request) : string :=
  let id := TrimSpace (Header_Get r "X-GitHub-Delivery") in
  if bool_decide (id = "") then TrimSpace (Header_Get r "X-Delivery-Id") else id.

Definition timestamp_header (r : Request) : string :=
  TrimSpace (Header_Get r "X-Webhook-Timestamp").

Definition is_hmac (src : Source) : bool := bool_decide (au_type (so_auth src) = "hmac").

(** The checks between json.Valid and the snapshot: the response of the first
    that fails. *)
Definition header_checks (src : Source) (r : Request) (now : Z) : option Response :=
  let deliveryID := delivery_id r in
  let tsHeader := timestamp_header r in
  if negb (bool_decide (deliveryID = "")) && negb (validateDeliveryID deliveryID)
  then Some (Respond 400 "invalid delivery id")
  else if is_hmac src && (bool_decide (deliveryID = "") || bool_decide (tsHeader = ""))
  then Some (Respond 401 "missing delivery id or timestamp")
  else if negb (bool_decide (tsHeader = "")) && negb (is_ok (validateReplayHeaders r now defaultReplaySkew))
  then Some (Respond 401 "replay rejected")
  else None.

(** From the snapshot to the response. *)
Definition save (cfg : Config) (src : Source) (id ip body : string) (r : Request) (now : Z) :
    W Response :=
  let bodyHash := EncodeToString (Sum256 body) in
  match SnapshotSource src with
  | Err _ => http_error "save event" 500
  | Ok actionsJSON =>
      let configHash := ConfigHash cfg in
      saved ← on_store (
        if is_hmac src
        then SavePendingEventGuarded id (rq_source r) ip body now (delivery_id r) bodyHash configHash
               actionsJSON (now + defaultReplayTTL)
        else SavePendingEvent id (rq_source r) ip body now (delivery_id r) bodyHash configHash
               actionsJSON);
      match saved with
      | Err e => mret (duplicate_response e)
      | Ok _ => _ ← Wake; mret (Respond 202 id)
      end
  end.

(** The part of [webhook] that holds a reservation of the budget. *)
Definition accept (cfg : Config) (src : Source) (ip : string) (now : Z) (r : Request) : W Response :=
  match ReadLimited (S (Z.to_nat maxBodyBytes)) r with
  | None => http_error "read body" 400
  | Some body =>
      if Nat.ltb (Z.to_nat maxBodyBytes) (String.length body)
      then http_error "request body too large" 413
      else
        id ← newID;
        match id with
        | None => http_error "internal error" 500
        | Some id =>
            match Verify (so_auth src) r body with
            | Err _ => http_error "unauthorized" 401
            | Ok _ =>
                ok ← limit ss_limiter set_limiter (rq_source r +:+ "|" +:+ ip) now;
                if negb ok then rejectRate 2
                else
                  ok ← limit ss_global set_global "global" now;
                  if negb ok then rejectRate 1
                  else if negb (json_valid body) then http_error "invalid json" 400
                  else match header_checks src r now with
                  | Some resp => mret resp
                  | None => save cfg src id ip body r now
                  end
            end
        end
  end.

Definition webhook (sv : Server) (r : Request) : W Response :=
  match SourceByName (se_cfg sv) (rq_source r) with
  | None => http_error "unknown source" 404
  | Some src =>
      if negb (isJSONContentType (Header_Get r "Content-Type"))
      then http_error "unsupported media type" 415
      else
        now ← s_now;
        let ip := clientIP r (se_trusted sv) in
        ok ← limit ss_preAuth set_preAuth ip now;
        if negb ok then rejectRate 0
        else if (maxBodyBytes <? rq_content_length r)%Z
        then http_error "request body too large" 413
        else
          let reserve := if (0 <? rq_content_length r)%Z then rq_content_length r else maxBodyBytes in
          ok ← budget_acquire reserve;
          if negb ok then http_error "server busy" 503
          else
            resp ← accept (se_cfg sv) src ip now r;
            _ ← budget_release reserve;
            mret resp
  end.

End Server.
