(* ===== verification/ServerProps.v ===== *)
(** * What the HTTP front promises

    A webhook is acknowledged exactly when it is authentic and durably stored;
    everything else leaves the database alone. Reservations are given back on
    every path, and a signed webhook is accepted once. *)

From S2P Require Import Prelude GoLib Float64 Sha256 Sql StoreSchema Store StoreInv StoreCalls StoreSpec StoreSafety Http Config Auth Limits LimitProps ClientAddr Policy Server.

Section Webhooks.
Context `{Env, SqlOrder, Regexp, Json, Net, Runtime}.
Implicit Types s : sstate.

Definition ss_db (s : sstate) : DB := cn_db (ss_conn s).

(** Nothing durable changed, no worker was woken, and the budget is the same. *)
Record frame (s s' : sstate) : Prop := {
  fr_db : ss_db s' = ss_db s;
  fr_wake : ss_wake s' = ss_wake s;
  fr_budget : ss_budget s' = ss_budget s;
}.

Lemma frame_refl s : frame s s.
Proof. done. Qed.
Lemma frame_trans s1 s2 s3 : frame s1 s2 → frame s2 s3 → frame s1 s3.
Proof. intros [] []. split; congruence. Qed.

(** ** The steps of a handler *)

Lemma wp_s_now (Q : Z → sstate → Prop) s :
  Q (clock (cn_tick (ss_conn s))) (next_tick s) → wp s_now Q s.
Proof. done. Qed.

Lemma wp_limiter (Q : bool → sstate → Prop) key now s :
  (∀ ok l, Q ok (next_tick (set_limiter l s))) → wp (limit ss_limiter set_limiter key now) Q s.
Proof. intros HQ. unfold wp, limit. destruct (allow _ _ _ _). apply HQ. Qed.

Lemma wp_global (Q : bool → sstate → Prop) key now s :
  (∀ ok l, Q ok (next_tick (set_global l s))) → wp (limit ss_global set_global key now) Q s.
Proof. intros HQ. unfold wp, limit. destruct (allow _ _ _ _). apply HQ. Qed.

Lemma wp_preAuth (Q : bool → sstate → Prop) key now s :
  (∀ ok l, Q ok (next_tick (set_preAuth l s))) → wp (limit ss_preAuth set_preAuth key now) Q s.
Proof. intros HQ. unfold wp, limit. destruct (allow _ _ _ _). apply HQ. Qed.

Lemma wp_newID (Q : option string → sstate → Prop) s :
  (∀ id, Q id (next_tick s)) → wp newID Q s.
Proof. intros HQ. apply HQ. Qed.

Lemma wp_rejectRate layer (Q : Response → sstate → Prop) s :
  (∀ s', frame s s' → ss_limiter s' = ss_limiter s → ss_global s' = ss_global s →
     ss_preAuth s' = ss_preAuth s → ss_ops s' = ss_ops s →
     Q (Respond 429 "rate limit exceeded") s') →
  wp (rejectRate layer) Q s.
Proof. intros HQ. by apply HQ. Qed.

Lemma wp_Wake (Q : unit → sstate → Prop) s :
  (∀ s', ss_conn s' = ss_conn s → ss_wake s' = true → ss_budget s' = ss_budget s →
     ss_limiter s' = ss_limiter s → ss_global s' = ss_global s →
     ss_preAuth s' = ss_preAuth s → ss_ops s' = ss_ops s → Q tt s') →
  wp Wake Q s.
Proof. intros HQ. by apply HQ. Qed.

Lemma wp_on_store {A} (m : M (conn DB) store_err A) Q s :
  wp m (λ r c, Q r (set_conn c s)) (ss_conn s) → wp (on_store m) Q s.
Proof. unfold wp, on_store. by destruct (m _). Qed.

Ltac server_step :=
  lazymatch goal with
  | |- wp (_ ≫= _) _ _ => apply wp_bind_St
  | |- wp (mret _) _ _ => apply wp_ret_St
  | |- wp (http_error _ _) _ _ => apply wp_ret_St
  | |- wp s_now _ _ => apply wp_s_now
  | |- wp (limit ss_limiter _ _ _) _ _ => apply wp_limiter; intros ? ?
  | |- wp (limit ss_global _ _ _) _ _ => apply wp_global; intros ? ?
  | |- wp (limit ss_preAuth _ _ _) _ _ => apply wp_preAuth; intros ? ?
  | |- wp (rejectRate _) _ _ => apply wp_rejectRate; intros ? [] ? ? ? ?
  | |- wp Wake _ _ => apply wp_Wake; intros ? Hconn ? ? ? ? ? ?
  | |- wp newID _ _ => apply wp_newID; intros id
  | |- wp (if ?b then _ else _) _ _ => destruct b eqn:?
  | |- wp (match ?x with _ => _ end) _ _ => destruct x eqn:?
  end.

(** What an acknowledged webhook of [src] stored. *)
Definition stored (cfg : Config) (src : Source) (r : Request) (ip : string) (now : Z)
    (id body : string) (db db' : DB) : Prop :=
  ∃ actions, SnapshotSource src = Ok actions ∧
    accept_spec id
      (new_event_row (rq_source r) ip body now (delivery_id r) (EncodeToString (Sum256 body))
         (ConfigHash cfg) actions)
      (EncodeToString (Sum256 body)) (unix_milli now)
      (if is_hmac src then Some (now + defaultReplayTTL) else None) db = (Ok tt, db').

(** What [accept] may do. *)
Definition accept_outcome (cfg : Config) (src : Source) (ip : string) (now : Z) (r : Request)
    (s : sstate) (resp : Response) (s' : sstate) : Prop :=
  ss_budget s' = ss_budget s ∧ ss_preAuth s' = ss_preAuth s ∧
  ((∀ body, ReadLimited (S (Z.to_nat maxBodyBytes)) r = Some body →
      Verify (so_auth src) r body ≠ Ok tt) →
   ss_limiter s' = ss_limiter s ∧ ss_global s' = ss_global s ∧ resp_code resp ≠ 202) ∧
  ((resp_code resp ≠ 202 ∧ ss_db s' = ss_db s ∧ ss_wake s' = ss_wake s) ∨
   (resp_code resp = 202 ∧ ss_wake s' = true ∧
    ∃ body, ReadLimited (S (Z.to_nat maxBodyBytes)) r = Some body ∧
      (String.length body ≤ Z.to_nat maxBodyBytes)%nat ∧
      Verify (so_auth src) r body = Ok tt ∧ json_valid body = true ∧
      header_checks src r now = None ∧
      stored cfg src r ip now (resp_body resp) body (ss_db s) (ss_db s'))).

Lemma save_run cfg src id ip body r now s :
  wp (save cfg src id ip body r now) (λ resp s',
    ss_budget s' = ss_budget s ∧ ss_preAuth s' = ss_preAuth s ∧
    ((resp_code resp ≠ 202 ∧ ss_db s' = ss_db s ∧ ss_wake s' = ss_wake s) ∨
     (resp = Respond 202 id ∧ ss_wake s' = true ∧
      stored cfg src r ip now id body (ss_db s) (ss_db s')))) s.
Proof.
  unfold save. destruct (SnapshotSource src) as [actions|e] eqn:Hsnap.
  2:{ server_step. cbn. by auto 6. }
  - server_step. apply wp_on_store.
    assert (wp (if is_hmac src
        then SavePendingEventGuarded id (rq_source r) ip body now (delivery_id r)
               (EncodeToString (Sum256 body)) (ConfigHash cfg) actions (now + defaultReplayTTL)
        else SavePendingEvent id (rq_source r) ip body now (delivery_id r)
               (EncodeToString (Sum256 body)) (ConfigHash cfg) actions)
      (λ res c', accept_spec id
        (new_event_row (rq_source r) ip body now (delivery_id r) (EncodeToString (Sum256 body))
           (ConfigHash cfg) actions)
        (EncodeToString (Sum256 body)) (unix_milli now)
        (if is_hmac src then Some (now + defaultReplayTTL) else None) (ss_db s) = (res, cn_db c') ∨
        (res = Err SqlError ∧ cn_db c' = ss_db s)) (ss_conn s)) as Hsave.
    { destruct (is_hmac src); apply savePendingEvent_any. }
    eapply wp_mono; [exact Hsave|]. intros res c' Hr. cbn beta in Hr. cbn beta iota.
    destruct res as [u|e].
    + do 3 server_step. split; [done|]. split; [done|]. right. split; [done|]. split; [done|].
      exists actions. split; [done|]. unfold ss_db. rewrite Hconn.
      destruct Hr as [Hr|[? _]]; [by destruct u|done].
    + server_step. split; [done|]. split; [done|]. left. split; [by destruct e|].
      split; [|done]. destruct Hr as [Hr|[_ Hr]]; [|done].
      unfold accept_spec in Hr. destruct (_ && _); [by simplify_eq|].
      destruct (_ || _); by simplify_eq.
Qed.

Lemma accept_run cfg src ip now r s :
  wp (accept cfg src ip now r) (accept_outcome cfg src ip now r s) s.
Proof.
  unfold accept. destruct (ReadLimited _ r) as [body|] eqn:Hbody.
  2:{ server_step. split_and!; [done..|]. by left. }
  destruct (Nat.ltb _ _) eqn:Hlen.
  { server_step. split_and!; [done..|]. left. done. }
  apply Nat.ltb_ge in Hlen. do 2 server_step.
  destruct id as [id|].
  2:{ server_step. split_and!; [done..|]. by left. }
  destruct (Verify (so_auth src) r body) as [u|e] eqn:Hv; [destruct u|].
  2:{ server_step. split_and!; [done..|]. by left. }
  assert (∀ P : Prop, (∀ b, ReadLimited (S (Z.to_nat maxBodyBytes)) r = Some b →
    Verify (so_auth src) r b ≠ Ok tt) → P) as Hno.
  { intros P Hb. by destruct (Hb body). }
  do 2 server_step. destruct ok; cbn [negb].
  2:{ server_step. split_and!; [done..|by apply Hno|]. left. done. }
  do 2 server_step. destruct ok; cbn [negb].
  2:{ server_step. split_and!; [done..|by apply Hno|]. left. done. }
  destruct (json_valid body) eqn:Hj; cbn [negb].
  2:{ server_step. split_and!; [done..|by apply Hno|]. left. done. }
  destruct (header_checks src r now) as [resp|] eqn:Hh.
  - server_step. split_and!; [done..|by apply Hno|]. left. split; [|done].
    unfold header_checks in Hh. destruct (_ && _); [by simplify_eq|].
    destruct (_ && _); [by simplify_eq|]. destruct (_ && _); by simplify_eq.
  - eapply wp_mono; [apply save_run|]. intros resp s' (Hb & Hp & Hout).
    split; [done|]. split; [done|]. split; [by apply Hno|].
    destruct Hout as [(Hc & Hd & Hw)|(-> & Hw & Hst)]; [by left|right].
    split; [done|]. split; [done|]. exists body. split_and!; done.
Qed.

(** ** One webhook *)

(** The time a webhook is handled at, and the address it comes from. *)
Definition webhook_time (s : sstate) : Z := clock (cn_tick (ss_conn s)).

Definition authentic (sv : Server) (r : Request) : Prop := ∃ src body,
  SourceByName (se_cfg sv) (rq_source r) = Some src ∧
  ReadLimited (S (Z.to_nat maxBodyBytes)) r = Some body ∧ Verify (so_auth src) r body = Ok tt.

(** The conditions of a 202, and what it stored. *)
Definition accepted_as (sv : Server) (r : Request) (src : Source) (body : string)
    (resp : Response) (s s' : sstate) : Prop :=
  SourceByName (se_cfg sv) (rq_source r) = Some src ∧
  isJSONContentType (Header_Get r "Content-Type") = true ∧
  ReadLimited (S (Z.to_nat maxBodyBytes)) r = Some body ∧
  (String.length body ≤ Z.to_nat maxBodyBytes)%nat ∧
  Verify (so_auth src) r body = Ok tt ∧ json_valid body = true ∧
  header_checks src r (webhook_time s) = None ∧
  stored (se_cfg sv) src r (clientIP r (se_trusted sv)) (webhook_time s) (resp_body resp) body
    (ss_db s) (ss_db s').

Lemma acquire_release n b b' :
  0 ≤ n ≤ 2 ^ 20 → 0 ≤ bg_conns b < 2 ^ 62 → 0 ≤ bg_bytes b ≤ 2 ^ 62 →
  acquire n b = (true, b') → release n b' = b.
Proof.
  intros Hn Hc Hb. unfold acquire, release. rewrite (proj2 (Z.ltb_ge n 0)) by lia.
  destruct (_ <=? _); [done|]. destruct (_ <? _); [done|]. intros [= <-].
  cbn [bg_conns bg_bytes bg_maxConns bg_maxBytes].
  rewrite (wrap64_id (bg_conns b + 1)), (wrap64_id (bg_bytes b + n)) by (unfold int64_ok; lia).
  replace (bg_conns b + 1 - 1) with (bg_conns b) by lia.
  replace (bg_bytes b + n - n) with (bg_bytes b) by lia.
  rewrite !wrap64_id by (unfold int64_ok; lia). rewrite !(proj2 (Z.ltb_ge _ 0)) by lia.
  by destruct b.
Qed.

Lemma acquire_refused n b b' : acquire n b = (false, b') → b' = b.
Proof. unfold acquire. by repeat case_match; intros; simplify_eq. Qed.

(** The budget counts what fits an int64 with room to spare. *)
Definition budget_sane (b : inFlightBudget) : Prop :=
  0 ≤ bg_conns b < 2 ^ 62 ∧ 0 ≤ bg_bytes b ≤ 2 ^ 62.

Definition webhook_outcome (sv : Server) (r : Request) (s : sstate) (resp : Response)
    (s' : sstate) : Prop :=
  (budget_sane (ss_budget s) → ss_budget s' = ss_budget s) ∧
  (¬ authentic sv r →
     ss_limiter s' = ss_limiter s ∧ ss_global s' = ss_global s ∧ resp_code resp ≠ 202) ∧
  ((resp_code resp ≠ 202 ∧ ss_db s' = ss_db s ∧ ss_wake s' = ss_wake s) ∨
   (resp_code resp = 202 ∧ ss_wake s' = true ∧
    ∃ src body, accepted_as sv r src body resp s s')).

Lemma webhook_run sv r s : wp (webhook sv r) (webhook_outcome sv r s) s.
Proof.
  unfold webhook. destruct (SourceByName _ _) as [src|] eqn:Hsrc.
  2:{ server_step. split_and!; [done..|]. by left. }
  destruct (isJSONContentType _) eqn:Hjson; cbn [negb].
  2:{ server_step. split_and!; [done..|]. by left. }
  do 4 server_step. destruct ok; cbn [negb].
  2:{ server_step. split_and!; [done..|]. by left. }
  destruct (maxBodyBytes <? _) eqn:Hmax.
  { server_step. split_and!; [done..|]. by left. }
  set (n := if 0 <? _ then _ else _).
  assert (0 ≤ n ≤ 2 ^ 20) as Hn.
  { unfold n. destruct (0 <? _) eqn:?; unfold maxBodyBytes in *; bool_simpl; lia. }
  set (s1 := next_tick _). apply wp_bind_St.
  assert (ss_budget s1 = ss_budget s ∧ ss_db s1 = ss_db s ∧ ss_wake s1 = ss_wake s ∧
    ss_limiter s1 = ss_limiter s ∧ ss_global s1 = ss_global s) as (Hb1 & Hd1 & Hw1 & Hl1 & Hg1)
    by done.
  clearbody s1. unfold wp at 1, budget_acquire.
  destruct (acquire n (ss_budget s1)) as [ok b] eqn:Hacq. cbn [fst snd].
  destruct ok; cbn [negb].
  2:{ server_step. apply acquire_refused in Hacq. split_and!; [cbn; congruence|done|by left]. }
  apply wp_bind_St. eapply wp_mono; [apply accept_run|].
  intros resp s2 (Hb2 & _ & Hno & Hout). server_step.
  unfold wp at 1, budget_release. cbn [fst snd]. server_step. cbn [ss_budget set_budget] in *.
  split_and!.
  - intros [Hc Hb]. cbn. rewrite Hb2. rewrite <- Hb1.
    apply acquire_release; [done|by rewrite Hb1..|done].
  - intros Hna. destruct Hno as (Hl & Hg & Hcode).
    { intros body Hbody Hv. apply Hna. by exists src, body. }
    cbn. split_and!; [by rewrite Hl|by rewrite Hg|done].
  - destruct Hout as [(Hc & Hd & Hw)|(Hc & Hw & body & Hout)].
    + left. split; [done|]. cbn. split; [by rewrite <- Hd1|by rewrite <- Hw1].
    + right. split; [done|]. split; [done|]. exists src, body.
      destruct Hout as (? & ? & ? & ? & ? & Hst). change (ss_db (set_budget b s1)) with (ss_db s1) in Hst.
      rewrite Hd1 in Hst. by split_and!.
Qed.

(** ** The properties *)

(** C4: a webhook is answered 202 exactly when it is durably stored: the source
    exists, the body is complete and authentic, the JSON and the replay
    headers check, and its event is in the database as pending under the id of
    the response, due at once, with its snapshot and body hash, the workers
    being woken. Any other answer has written nothing, whatever the driver
    did. *)
Theorem webhook_acknowledges_stored sv r s resp s' :
  webhook sv r s = (resp, s') →
  if bool_decide (resp_code resp = 202)
  then ss_wake s' = true ∧ (∃ src body, accepted_as sv r src body resp s s' ∧
         ∃ e, events (ss_db s') !! resp_body resp = Some e ∧ ev_status e = "pending"%string ∧
           ev_payload e = Some body ∧ events (ss_db s) !! resp_body resp = None)
  else ss_db s' = ss_db s ∧ ss_wake s' = ss_wake s.
Proof.
  intros Hr. destruct (wp_run _ _ _ _ _ (webhook_run sv r s) Hr) as (_ & _ & Hout).
  case_bool_decide as Hc; [|naive_solver].
  destruct Hout as [(? & _)|(_ & Hw & src & body & Hacc)]; [done|].
  split; [done|]. exists src, body. split; [done|].
  destruct Hacc as (_ & _ & _ & _ & _ & _ & _ & actions & _ & Hacc).
  unfold accept_spec in Hacc. destruct (_ && _); [done|]. destruct (_ || _) eqn:Hdup; [done|].
  apply orb_false_iff in Hdup as [Hid _]. injection Hacc as Hdb. eexists. rewrite <- Hdb.
  cbn [events set_events]. rewrite lookup_insert_eq. split_and!; [done..|].
  apply bool_decide_eq_false in Hid. by apply eq_None_not_Some.
Qed.

(** C13: a request that is not authentic for its source leaves no trace in
    the database and takes no token of the source's and the global limiter:
    it is refused without disturbing the accepted traffic. *)
Theorem unauthentic_webhook_is_harmless sv r s resp s' :
  ¬ authentic sv r → webhook sv r s = (resp, s') →
  resp_code resp ≠ 202 ∧ ss_db s' = ss_db s ∧ ss_wake s' = ss_wake s ∧
  ss_limiter s' = ss_limiter s ∧ ss_global s' = ss_global s.
Proof.
  intros Hna Hr. destruct (wp_run _ _ _ _ _ (webhook_run sv r s) Hr) as (_ & Hno & Hout).
  destruct (Hno Hna) as (? & ? & ?). naive_solver.
Qed.

(** C14: on every path a webhook gives back the connection and the bytes it
    reserved of the in-flight budget. *)
Theorem webhook_returns_reservation sv r s resp s' :
  budget_sane (ss_budget s) → webhook sv r s = (resp, s') → ss_budget s' = ss_budget s.
Proof.
  intros Hb Hr. destruct (wp_run _ _ _ _ _ (webhook_run sv r s) Hr) as (Hbud & _). auto.
Qed.

Lemma body_hash_nonempty body : EncodeToString (Sum256 body) ≠ ""%string.
Proof.
  unfold Sum256. pose proof (sha256_nonempty (to_bytes body)).
  by destruct (sha256_bytes (to_bytes body)).
Qed.

Lemma stored_guard cfg src r ip now id body db db' :
  is_hmac src = true → stored cfg src r ip now id body db db' →
  guard_until (rq_source r) (EncodeToString (Sum256 body)) (unix_milli (now + defaultReplayTTL)) db'
  ∧ guard_held (rq_source r) (EncodeToString (Sum256 body)) (unix_milli now) db = false.
Proof.
  intros Hh (actions & _ & Hacc). rewrite Hh in Hacc. unfold accept_spec in Hacc.
  assert (guard_wanted (EncodeToString (Sum256 body)) (Some (now + defaultReplayTTL)) = true) as Hg.
  { unfold guard_wanted. rewrite bool_decide_false; [done|]. apply body_hash_nonempty. }
  rewrite Hg in Hacc. cbn [andb default] in Hacc. change (ev_source _) with (rq_source r) in Hacc.
  destruct (guard_held _ _ _ _); [done|]. split; [|done].
  destruct (_ || _); [done|]. injection Hacc as <-. unfold guard_until. cbn.
  by rewrite lookup_insert_eq.
Qed.

Lemma header_checks_fresh src r now :
  is_hmac src = true → header_checks src r now = None →
  ∃ seconds, ParseInt (timestamp_header r) = Some seconds ∧
    now - defaultReplaySkew ≤ time_unix seconds ≤ now + defaultReplaySkew.
Proof.
  intros Hh Hc. unfold header_checks in Hc. rewrite Hh in Hc. destruct (_ && _); [done|].
  destruct (bool_decide (delivery_id r = _)); [done|].
  destruct (bool_decide (timestamp_header r = _)) eqn:Hts; [done|].
  cbn [orb andb negb] in Hc. unfold validateReplayHeaders in Hc.
  fold (timestamp_header r) in Hc. rewrite Hts in Hc.
  destruct (ParseInt _) as [seconds|]; [|done]. exists seconds. split; [done|].
  destruct (_ || _) eqn:Hst; [done|]. apply orb_false_iff in Hst as []. bool_simpl. lia.
Qed.


End Webhooks.

(** ** A concrete gateway with one signed source *)

Module Demo.
#[local] Open Scope string_scope.

#[export] Instance env : Env := calm (1700000000 * Second) 0.
#[export] Instance regexps : Regexp := literal_regexp.
#[export] Instance net : Net := ClientAddr.Demo.text_net.

#[export] Program Instance runtime : Runtime := {|
  range_at _ := map_to_list;
  rand_bytes _ := Some "entropy!";
  format_stamp _ := "20231114T221320.000";
|}.
Next Obligation. intros _ m. done. Qed.

Definition source : Source := MkSource "github" Auth.Demo.ac ∅ [] [] None None.

(** The encoder of this run knows the snapshot of the source. *)
#[export] Program Instance json : Json := {|
  snapshot_marshal _ := Some "{...}";
  snapshot_unmarshal _ := None;
  vars_marshal _ := None;
  vars_unmarshal _ := None;
  plans_marshal _ := Some "[...]";
  json_valid raw := bool_decide (raw = "{}");
  json_safe _ := false;
|}.
Next Obligation. done. Qed.
Next Obligation. done. Qed.
Next Obligation. intros ? ? [= <-]. done. Qed.

Definition rate : RateLimitConfig := MkRate 30 (f64_of_Z 1).
Definition rates : RateLimitsConfig := MkRates rate rate rate rate.
Definition config : Config := MkConfig (MkServerConfig ":8080" [] 16 33554432 rates)
  (MkAdmin "Authorization" "") (MkLogConfig "info") (MkStoreConfig "db" 0 None)
  (MkQueueConfig 4 256 2 Second Minute Hour) (MkHbConfig 0 0 "" []) [source].

Definition gateway : Server := (New config rates (Conn empty_db 0)).1.
Definition start : sstate := (New config rates (Conn empty_db 0)).2.

Definition request (signature : string) : Request := {|
  rq_source := "github"; rq_remote_addr := "203.0.113.7:4711";
  rq_header := <["Content-Type" := ["application/json"]]>
                 (<["X-Hub-Signature-256" := [signature]]> (rq_header (Auth.Demo.request "")));
  rq_content_length := 2; rq_body := "{}"; rq_body_fails := false |}.

Definition good : Request := request ("sha256=" +:+ Auth.Demo.signed).
Definition forged : Request := request "sha256=00".

Definition first_answer : Response := (webhook gateway good start).1.
Definition after_good : sstate := (webhook gateway good start).2.

Lemma good_run : webhook gateway good start = (first_answer, after_good).
Proof. unfold first_answer, after_good. apply surjective_pairing. Qed.

Lemma no_calls : ss_conn after_good = run_calls [] (ss_conn after_good).
Proof. generalize after_good. done. Qed.

End Demo.
#[local] Existing Instance Demo.env.
#[local] Existing Instance Demo.regexps.
#[local] Existing Instance Demo.net.
#[local] Existing Instance Demo.runtime.
#[local] Existing Instance Demo.json.

Lemma webhook_acknowledges_stored_witness :
  Demo.first_answer = Respond 202 "20231114T221320.000-656e74726f707921" ∧
  ss_wake Demo.after_good = true.
Proof.
  assert (Demo.first_answer = Respond 202 "20231114T221320.000-656e74726f707921") as Ha
    by (vm_compute; reflexivity).
  split; [exact Ha|].
  pose proof (webhook_acknowledges_stored _ _ _ _ _ Demo.good_run) as Hack.
  rewrite bool_decide_true in Hack by (rewrite Ha; reflexivity). exact (proj1 Hack).
Defined.

Lemma unauthentic_webhook_is_harmless_witness :
  ss_db (webhook Demo.gateway Demo.forged Demo.start).2 = empty_db.
Proof.
  apply (unauthentic_webhook_is_harmless Demo.gateway Demo.forged Demo.start
    (webhook Demo.gateway Demo.forged Demo.start).1); [|apply surjective_pairing].
  intros (src & body & Hsrc & Hbody & Hv). vm_compute in Hsrc.
  injection Hsrc as <-. vm_compute in Hbody. injection Hbody as <-. vm_compute in Hv. discriminate.
Defined.

Lemma webhook_returns_reservation_witness : ss_budget Demo.after_good = ss_budget Demo.start.
Proof.
  refine (webhook_returns_reservation Demo.gateway Demo.good Demo.start Demo.first_answer
    Demo.after_good _ Demo.good_run).
  repeat split; vm_compute; congruence.
Defined.

