(* ===== verification/Admin.v ===== *)
(** * The operator's endpoints of [internal/server/server.go]

    Routes, the admin token, health and readiness, the event view and the
    manual replay. The JSON of an answer stands for the values it encodes. *)

From Stdlib Require Import Ascii.
From S2P Require Import Prelude GoLib Sql StoreSchema Store Http Config Limits ClientAddr Policy Server.

#[local] Open Scope string_scope.

(** ** Routes *)

Inductive endpoint : Type :=
| EpHealth | EpReady | EpWebhook | EpGetEvent | EpRetryEvent | EpQueueStats | EpMetrics
| EpHeartbeatLogs.

#[global] Instance endpoint_eq_dec : EqDecision endpoint.
Proof. solve_decision. Defined.

Definition admin_routes : list (string * endpoint) :=
  [("GET /events/{id}", EpGetEvent); ("POST /events/{id}/retry", EpRetryEvent);
   ("GET /queue/stats", EpQueueStats); ("GET /metrics", EpMetrics);
   ("GET /heartbeat/logs", EpHeartbeatLogs)].

(** The patterns [Handler] registers. *)
Definition routes `{Regexp} (cfg : Config) : list (string * endpoint) :=
  ([("GET /healthz", EpHealth); ("GET /webhook/healthz", EpHealth);
   ("GET /readyz", EpReady); ("GET /webhook/readyz", EpReady);
   ("POST /webhook/{source}", EpWebhook)]
  ++ (if bool_decide (ad_token (cf_admin cfg) = "") then [] else admin_routes))%list.

Section Admin.
Context `{Env, SqlOrder, Regexp, Json, Net, Runtime, Url}.
#[local] Abbreviation W := (St sstate).

Definition health : W Response := mret (Respond 200 "ok").

(** [stopping] is the flag of SetStopping, [workers] is q.Ready(). *)
Definition ready (stopping workers : bool) : W Response :=
  if stopping then http_error "stopping" 503
  else if negb workers then http_error "workers not ready" 503
  else
    now ← s_now;
    r ← on_store (ReadyCheck (Some (now + 2 * Second)%Z));
    match r with
    | Err _ => http_error "store not ready" 503
    | Ok _ => mret (Respond 200 "ok")
    end.

(** The credential a request presents. *)
Definition presented_token (cfg : Config) (r : Request) : string :=
  let header := ad_header (cf_admin cfg) in
  let got := TrimSpace (Header_Get r header) in
  if EqualFold header "Authorization" then
    match Fields got with
    | [scheme; token] => if EqualFold scheme "Bearer" then token else ""
    | _ => ""
    end
  else got.

Definition requireAdmin (sv : Server) (next : Request → W Response) (r : Request) : W Response :=
  now ← s_now;
  let ip := clientIP r (se_trusted sv) in
  ok ← limit ss_ops set_ops ip now;
  if negb ok then rejectRate 3
  else if bool_decide (presented_token (se_cfg sv) r = ad_token (cf_admin (se_cfg sv)))
  then next r
  else http_error "unauthorized" 401.

(** *** Manual replay *)

(** [reason_unmarshal] is json.Unmarshal into the struct with the field reason. *)
Definition readReplayReason (reason_unmarshal : string → option string) (r : Request) : option string :=
  if (rq_content_length r =? 0)%Z then Some "manual replay"
  else match ReadLimited 1025 r with
  | None => None
  | Some body =>
      if Nat.ltb 1024 (String.length body) then None
      else if Nat.eqb (String.length (TrimSpace body)) 0 then Some "manual replay"
      else match reason_unmarshal body with
      | None => None
      | Some reason =>
          let reason := TrimSpace reason in
          let reason := if bool_decide (reason = "") then "manual replay" else reason in
          if Nat.ltb 256 (String.length reason) then None else Some reason
      end
  end.

Definition retryEvent (reason_unmarshal : string → option string) (id : string) (r : Request) : W Response :=
  match readReplayReason reason_unmarshal r with
  | None => http_error "invalid replay request" 400
  | Some reason =>
      now ← s_now;
      g ← on_store (ReplayDeadEvent id (RedactSensitive reason) now);
      match g with
      | Err ErrReplayUnavailable => http_error "event replay input unavailable" 409
      | Err _ => http_error "event not retryable" 409
      | Ok generation => _ ← Wake; mret (Respond 200 (Itoa generation))
      end
  end.

(** *** The event view *)

Record EventView : Type := MkEventView {
  vw_event : EventMeta;
  vw_actions : list ActionState;
  vw_action_logs : list ActionLogRow;
}.

Definition getEvent (id : string) : W (Response + EventView) :=
  ev ← on_store (GetEvent id);
  match ev with
  | Err _ => mret (inl (Respond 500 "store error"))
  | Ok None => mret (inl (Respond 404 "not found"))
  | Ok (Some ev) =>
      logs ← on_store (ListActionLogs id 20);
      match logs with
      | Err _ => mret (inl (Respond 500 "store error"))
      | Ok logs =>
          states ← on_store (ListActionStates id);
          match states with
          | Err _ => mret (inl (Respond 500 "store error"))
          | Ok states => mret (inr (MkEventView ev states logs))
          end
      end
  end.

(** ** The properties *)

(** Without an admin token the operator's endpoints do not exist; with one,
    every request that does not present exactly that token is answered 401 or
    429 before the endpoint runs, and changes nothing but the limiter of the
    endpoints. *)
Theorem admin_fails_closed (sv : Server) (next next' : Request → W Response) (r : Request)
    (s : sstate) :
  (ad_token (cf_admin (se_cfg sv)) = "" → ∀ pattern ep, (pattern, ep) ∈ routes (se_cfg sv) →
     ep ∈ [EpHealth; EpReady; EpWebhook]) ∧
  (presented_token (se_cfg sv) r ≠ ad_token (cf_admin (se_cfg sv)) →
     requireAdmin sv next r s = requireAdmin sv next' r s ∧
     wp (requireAdmin sv next r) (λ resp s',
       resp_code resp ∈ [401; 429]%Z ∧ cn_db (ss_conn s') = cn_db (ss_conn s) ∧
       ss_wake s' = ss_wake s ∧ ss_budget s' = ss_budget s ∧ ss_limiter s' = ss_limiter s ∧
       ss_global s' = ss_global s ∧ ss_preAuth s' = ss_preAuth s) s).
Proof.
  split.
  - intros Hempty pattern ep. unfold routes. rewrite bool_decide_true by done.
    rewrite app_nil_r. rewrite !elem_of_cons. naive_solver set_solver.
  - intros Hne. unfold requireAdmin, wp, mbind, St_bind, s_now, limit.
    destruct (allow _ _ _ _) as [ok l]. destruct ok; cbn [negb].
    + rewrite bool_decide_false by done. cbn. split; [done|]. split; [set_solver|done].
    + cbn. split; [done|]. split; [set_solver|done].
Qed.

(** POST /events/{id}/retry answers 200 exactly when the replay was
    committed, and then wakes the workers; every other answer has changed
    nothing in the database. *)
Theorem retryEvent_spec (reason_unmarshal : string → option string) (id : string) (r : Request) (s : sstate) :
  wp (retryEvent reason_unmarshal id r) (λ resp s',
    if bool_decide (resp_code resp = 200%Z)
    then ss_wake s' = true ∧
         ∃ reason generation c, readReplayReason reason_unmarshal r = Some reason ∧
           resp_body resp = Itoa generation ∧
           ReplayDeadEvent id (RedactSensitive reason) (clock (cn_tick (ss_conn s)))
             (ss_conn (next_tick s)) = (Ok generation, c) ∧ ss_conn s' = c
    else cn_db (ss_conn s') = cn_db (ss_conn s) ∧ ss_wake s' = ss_wake s) s.
Proof.
  unfold retryEvent. destruct (readReplayReason reason_unmarshal r) as [reason|]; [|done].
  apply wp_bind_St. unfold wp at 1, s_now. cbn [fst snd].
  apply wp_bind_St. unfold wp at 1, on_store.
  destruct (ReplayDeadEvent id _ _ _) as [[g|e] c] eqn:Hr; cbn [fst snd].
  - apply wp_bind_St. unfold wp at 1, Wake. cbn [fst snd]. apply wp_ret_St.
    cbn [resp_code resp_body]. rewrite bool_decide_true by done. split; [done|].
    exists reason, g, c. done.
  - assert (cn_db c = cn_db (ss_conn s)) as Hc.
    { assert (atomic (ReplayDeadEvent id (RedactSensitive reason) (clock (cn_tick (ss_conn s)))))
        as Hat by apply transaction_atomic.
      specialize (Hat (ss_conn (next_tick s))). unfold wp in Hat. by rewrite Hr in Hat. }
    destruct e; apply wp_ret_St; cbn; by rewrite ?bool_decide_false.
Qed.

End Admin.
