(* ===== verification/Queue.v ===== *)
(** * The event worker: [internal/queue/queue.go]

    One worker goroutine as a state-passing program over the database, the
    clock, the trace of dispatched attempts and the in-memory counters and
    rule cache. Before each of its store calls the other goroutines and the
    lease heartbeat may have changed the database: [others]. *)

From S2P Require Import Prelude GoLib Sql StoreSchema Store Config Handler Policy.

(** ** The environment of a worker *)

(** What the other goroutines did to the database before the n-th outside
    interaction, and whether Stop has been called by then. *)
Class Peers : Type := {
  others : nat → DB → DB;
  stop_requested : nat → bool;
}.

(** Nobody else touches the database. *)
Definition alone `{Peers} : Prop := ∀ n db, others n db = db.

(** One call of [Handle]: what the trace of a run records. *)
Record dispatch : Type := Dispatch {
  di_meta : ExecutionMetadata;
  di_action : ActionConfig;
  di_vars : gmap string string;
  di_time : Z;
}.

Section Worker.
Context `{Env, SqlOrder, Regexp, Json, Url, Peers}.
(** [gjson.GetBytes], see [Policy.Extract] *)
Context (gjson : string → string → option string).

Record world : Type := World {
  w_db : DB;
  w_tick : nat;
  w_trace : list dispatch;
  w_drops : Counters;
  w_cache : regexpCache;
}.

#[local] Abbreviation W := (St world).

Definition set_conn (c : conn DB) (w : world) : world :=
  World (cn_db c) (cn_tick c) (w_trace w) (w_drops w) (w_cache w).

Definition tick (w : world) : world :=
  World (w_db w) (S (w_tick w)) (w_trace w) (w_drops w) (w_cache w).

(** A call on the store; the caller looks at the error. *)
Definition run_store {A} (m : M (conn DB) store_err A) : W (result store_err A) := λ w,
  let '(r, c) := m (Conn (others (w_tick w) (w_db w)) (w_tick w)) in (r, set_conn c w).

(** q.now() *)
Definition now : W Z := λ w, (clock (w_tick w), tick w).

(** [isCanceled] *)
Definition isCanceled : W bool := λ w, (canceled (w_tick w), tick w).

(** [isStopped], and the test of [stopCh] *)
Definition isStopped : W bool := λ w, (stop_requested (w_tick w), tick w).

(** [drops.Inc] *)
Definition count_drop (source : string) : W unit := λ w,
  (tt, World (w_db w) (w_tick w) (w_trace w) (Inc source (w_drops w)) (w_cache w)).

(** [router.Match] with the shared cache *)
Definition match_rules_cached (rules : list Rule) (vars : gmap string string) :
    W (result string bool) := λ w,
  let '(r, cache) := Match rules vars (w_cache w) in
  (r, World (w_db w) (w_tick w) (w_trace w) (w_drops w) cache).

(** ** Construction *)

Definition defaultHTTPActionTimeout : Z := 15 * Second.
Definition defaultExecTimeout : Z := 60 * Second.
Definition leaseSafetyMargin : Z := 2 * Minute.

Record Queue : Type := MkQueue {
  q_buffer : Z;
  q_workers : Z;
  q_maxRetries : Z;
  q_retryBase : Z;
  q_maxRetryDelay : Z;
  q_maxRetryAge : Z;
  q_lease : Z;
  q_owner : string;
  q_reg : Registry;
  q_cfg : option Config;
}.

Definition actionTimeout (ac : ActionConfig) : Z :=
  if bool_decide (ac_type ac = "exec"%string)
  then if 0 <? ac_timeout ac then ac_timeout ac else defaultExecTimeout
  else defaultHTTPActionTimeout.

(** The time of one pass over the actions of a source. *)
Definition pass_time (actions : list ActionConfig) : Z :=
  foldl (λ pass ac, wrap64 (pass + actionTimeout ac)) 0 actions.

Definition computeLease (cfg : option Config) : Z :=
  let longestPass := match cfg with
    | None => defaultHTTPActionTimeout
    | Some c => foldl (λ longest src,
        let pass := pass_time (so_actions src) in if longest <? pass then pass else longest)
        defaultHTTPActionTimeout (cf_sources c)
    end in
  let lease := wrap64 (longestPass + leaseSafetyMargin) in
  if lease <? 5 * Minute then 5 * Minute else lease.

Definition New (cfg : QueueConfig) (reg : Registry) (sources : option Config) (owner : string) :
    Queue * Counters :=
  let buf := if qc_buffer cfg <=? 0 then 1 else qc_buffer cfg in
  let workers := if qc_workers cfg <=? 0 then 1 else qc_workers cfg in
  let retries := if qc_max_retries cfg <? 0 then 0 else qc_max_retries cfg in
  let retryBase := if qc_retry_base cfg <=? 0 then Second else qc_retry_base cfg in
  let maxRetryDelay := if qc_max_retry_delay cfg <? retryBase then 15 * Minute
                       else qc_max_retry_delay cfg in
  let maxRetryAge := if qc_max_retry_age cfg <? retryBase then 24 * Hour
                     else qc_max_retry_age cfg in
  let owner := if bool_decide (owner = ""%string) then "local"%string else owner in
  let sourceNames := match sources with None => [] | Some c => so_name <$> cf_sources c end in
  (MkQueue buf workers retries retryBase maxRetryDelay maxRetryAge (computeLease sources) owner
     reg sources,
   NewCounters sourceNames).

(** ** Retry delays *)

(** [q.jitter]: uniform in [0, cap]; [int64(cap)+1] wraps at the largest cap. *)
Definition jitter (cap : Z) : W Z := λ w,
  if cap <=? 0 then (0, w) else (rand_int64n (w_tick w) (wrap64 (cap + 1)), tick w).

(** The loop of [retryDelay] from [i]: at most [attempt - 1] doublings. *)
Fixpoint backoff (maxDelay : Z) (n : nat) (cap : Z) : Z :=
  match n with
  | O => cap
  | S n' =>
      if cap <? maxDelay then
        if Z.quot maxDelay 2 <? cap then maxDelay
        else backoff maxDelay n' (wrap64 (cap * 2))
      else cap
  end.

Definition retry_cap (q : Queue) (attempt : Z) : Z :=
  let cap := backoff (q_maxRetryDelay q) (Z.to_nat (attempt - 1)) (q_retryBase q) in
  if q_maxRetryDelay q <? cap then q_maxRetryDelay q else cap.

Definition retryDelay (q : Queue) (attempt : Z) : W Z := jitter (retry_cap q attempt).

(** The interval of [leaseHeartbeat]. *)
Definition heartbeat_interval (q : Queue) : Z :=
  let interval := Z.quot (q_lease q) 3 in
  if interval <? 15 * Second then 15 * Second else interval.

(** One tick of [leaseHeartbeat]. *)
Definition leaseHeartbeat (q : Queue) (eventID : string) : W unit :=
  t ← now; _ ← run_store (RenewLease eventID (q_lease q) t (q_owner q)); mret tt.

(** ** Helpers of a pass *)

Definition requeue (id : string) : W unit := _ ← run_store (RequeueEvent id); mret tt.

Definition logAction (ev : PendingEvent) (actionIndex : Z) (action target : string)
    (attempt : Z) (success : bool) (detail : string) (dur : Z) : W unit :=
  t ← now;
  _ ← run_store (SaveActionAttemptLog (pe_id ev) actionIndex (pe_replay_generation ev) action
        (RedactSensitive target) attempt success (RedactSensitive detail) dur t);
  mret tt.

Definition end_event (id status : string) : W (result store_err unit) :=
  t ← now; run_store (UpdateEventStatus id status t).

(** [resolveSource] *)
Definition resolveSource (cfg : option Config) (ev : PendingEvent) : option Source :=
  if bool_decide (pe_actions_json ev = ""%string) then
    match cfg with
    | None => None
    | Some c => SourceByName c (pe_source ev)
    end
  else match ParseSourceSnapshot (pe_actions_json ev) with
  | Err _ => None
  | Ok src =>
      Some (if bool_decide (so_name src = ""%string)
            then MkSource (pe_source ev) (so_auth src) (so_extract src) (so_rules src)
                   (so_actions src) (so_log_policy src) (so_redaction src)
            else src)
  end.

(** q.cfg != nil && RetainPayload != nil && !*RetainPayload *)
Definition drops_payload (q : Queue) : bool :=
  match q_cfg q with
  | Some c => match st_retain_payload (cf_store c) with Some b => negb b | None => false end
  | None => false
  end.

(** End an event as skipped and drop its payload; [counted] also counts the
    rejection. *)
Definition skip_event (q : Queue) (ev : PendingEvent) (counted : option string) : W unit :=
  r ← end_event (pe_id ev) "skipped";
  match r with
  | Err _ => requeue (pe_id ev)
  | Ok _ =>
      _ ← match counted with Some name => count_drop name | None => mret tt end;
      if drops_payload q then _ ← run_store (ClearPayload (pe_id ev)); mret tt else mret tt
  end.

(** [executionVars]: [None] when the pass is over. *)
Definition executionVars (q : Queue) (ev : PendingEvent) (src : Source) :
    W (option (gmap string string)) :=
  if negb (bool_decide (pe_vars_json ev = ""%string)) then
    match vars_unmarshal (pe_vars_json ev) with
    | Some (Some vars) => mret (Some vars)
    | _ => _ ← end_event (pe_id ev) "dead"; mret None
    end
  else
    p ← (if bool_decide (pe_payload ev = ""%string) then
           r ← run_store (GetPayload (pe_id ev)); mret (fst <$> match r with Ok x => Some x | Err _ => None end)
         else mret (Some (pe_payload ev)));
    match p with
    | None => _ ← requeue (pe_id ev); mret None
    | Some payload =>
        if bool_decide (payload = ""%string)
        then _ ← end_event (pe_id ev) "dead"; mret None
        else
          let vars := <["delivery_id"%string := pe_external_delivery_id ev]>
            (<["event_id"%string := pe_id ev]> (Extract gjson payload (so_extract src))) in
          if negb (Allow src vars).2 then _ ← skip_event q ev (Some (so_name src)); mret None
          else
            m ← match_rules_cached (so_rules src) vars;
            match m with
            | Err _ => _ ← end_event (pe_id ev) "dead"; mret None
            | Ok false => _ ← skip_event q ev None; mret None
            | Ok true => mret (Some (Redact src vars))
            end
    end.

(** ** One pass over the actions of an event *)

(** The variables of an attempt. *)
Definition attempt_vars (vars : gmap string string) (attempt index : Z) : gmap string string :=
  <["action_index"%string := Itoa index]> (<["attempt"%string := Itoa attempt]> vars).

(** h.Handle(actionCtx, ac, attemptVars) *)
Definition handle (h : handler) (meta : ExecutionMetadata) (ac : ActionConfig)
    (vars : gmap string string) (t : Z) : W (Result * option go_error) := λ w,
  (h_handle h (w_tick w) meta ac vars,
   World (w_db w) (S (w_tick w)) (w_trace w ++ [Dispatch meta ac vars t]) (w_drops w) (w_cache w)).

(** The return value of a step of the loop: [false] when [process] returns. *)
Definition or_requeue (id : string) (r : result store_err unit) : W bool :=
  match r with
  | Ok _ => mret true
  | Err _ => _ ← requeue id; mret false
  end.

(** What follows an attempt that failed with [e]. *)
Definition after_failure (q : Queue) (ev : PendingEvent) (index attempt : Z) (e : go_error) : W bool :=
  c ← isCanceled;
  if c || is_canceled_error e then _ ← requeue (pe_id ev); mret false
  else
    let detail := RedactSensitive (error_text e) in
    if IsNonRetryable (Some e) || (q_maxRetries q + 1 <=? attempt) then
      t ← now;
      r ← run_store (DeadAction (pe_id ev) index detail t);
      or_requeue (pe_id ev) r
    else
      let retryAfter := RetryAfter (Some e) in
      delay ← (if retryAfter <=? 0 then retryDelay q attempt else mret retryAfter);
      t ← now;
      let next := t + delay in
      if pe_retry_started_at ev + q_maxRetryAge q <=? next then
        t' ← now;
        r ← run_store (DeadAction (pe_id ev) index ("retry deadline exceeded: " +:+ detail)%string t');
        or_requeue (pe_id ev) r
      else
        r ← run_store (ScheduleActionRetry (pe_id ev) index next detail retryAfter);
        or_requeue (pe_id ev) r.

(** What follows a started attempt. *)
Definition run_attempt (q : Queue) (ev : PendingEvent) (vars : gmap string string)
    (index : Z) (ac : ActionConfig) (attempt : Z) : W bool :=
  match Get (q_reg q) (ac_type ac) with
  | None =>
      let detail := ("no handler for action type " +:+ ac_type ac)%string in
      _ ← logAction ev index (ac_type ac) "" attempt false detail 0;
      t ← now;
      r ← run_store (DeadAction (pe_id ev) index detail t);
      or_requeue (pe_id ev) r
  | Some h =>
      start ← now;
      out ← handle h (MkMeta (pe_id ev) index attempt) ac (attempt_vars vars attempt index) start;
      fin ← now;
      let duration := time_sub fin start in
      let res : Result := out.1 in
      match out.2 with
      | None =>
          _ ← logAction ev index (ac_type ac) (rs_target res) attempt true (rs_detail res) duration;
          t ← now;
          r ← run_store (CompleteAction (pe_id ev) index t);
          or_requeue (pe_id ev) r
      | Some e =>
          _ ← logAction ev index (ac_type ac) (rs_target res) attempt false (error_text e) duration;
          after_failure q ev index attempt e
      end
  end.

(** One iteration of the loop over the actions. *)
Definition process_action (q : Queue) (ev : PendingEvent) (vars : gmap string string)
    (states : gmap Z ActionState) (index : Z) (ac : ActionConfig) : W bool :=
  c ← isCanceled;
  if c : bool then _ ← requeue (pe_id ev); mret false
  else match states !! index with
  | None => mret true
  | Some state =>
      if one_of (as_status state) ["done"; "dead"]%string then mret true
      else
        t ← now;
        if one_of (as_status state) ["pending"; "retrying"]%string
           && (pe_retry_started_at ev + q_maxRetryAge q <=? t) then
          r ← run_store (ExpireAction (pe_id ev) index t);
          or_requeue (pe_id ev) r
        else if bool_decide (as_status state = "retrying"%string)
                && (unix_milli t <? as_next_attempt_ms state) then mret true
        else
          r ← run_store (StartAction (pe_id ev) index t);
          match r with
          | Err ErrNoRows => mret true
          | Err _ => _ ← requeue (pe_id ev); mret false
          | Ok attempt => run_attempt q ev vars index ac attempt
          end
  end.

(** for index, ac := range src.Actions *)
Fixpoint process_actions (q : Queue) (ev : PendingEvent) (vars : gmap string string)
    (states : gmap Z ActionState) (index : Z) (actions : list ActionConfig) : W bool :=
  match actions with
  | [] => mret true
  | ac :: actions' =>
      go ← process_action q ev vars states index ac;
      if go : bool then process_actions q ev vars states (index + 1) actions' else mret false
  end.

(** stateByIndex *)
Definition state_by_index (states : list ActionState) : gmap Z ActionState :=
  foldl (λ m s, <[as_index s := s]> m) ∅ states.

(** The end of [process]. *)
Definition finish_pass (ev : PendingEvent) : W unit :=
  t ← now;
  r ← run_store (RefreshEventStatus (pe_id ev) t);
  match r with Err _ => requeue (pe_id ev) | Ok _ => mret tt end.

Definition process (q : Queue) (ev : PendingEvent) (src : Source) : W unit :=
  v ← executionVars q ev src;
  match v with
  | None => mret tt
  | Some vars =>
      match vars_marshal vars with
      | None => requeue (pe_id ev)
      | Some varsJSON =>
          t ← now;
          r ← run_store (PrepareEvent (pe_id ev) varsJSON (length (so_actions src)) (drops_payload q) t);
          match r with
          | Err _ => requeue (pe_id ev)
          | Ok _ =>
              r ← run_store (ListActionStates (pe_id ev));
              match r with
              | Err _ => requeue (pe_id ev)
              | Ok states =>
                  go ← process_actions q ev vars (state_by_index states) 0 (so_actions src);
                  if go : bool then finish_pass ev else mret tt
              end
          end
      end
  end.

(** ** The worker loop *)

(** The body of [drain]: [false] when the loop ends. *)
Definition drain_step (q : Queue) : W bool :=
  c ← isCanceled;
  if c : bool then mret false
  else
    s ← isStopped;
    if s : bool then mret false
    else
      s ← isStopped;
      if s : bool then mret false
      else
        t ← now;
        r ← run_store (RequeueExpiredLeases t);
        match r with
        | Err _ => mret false
        | Ok _ =>
            r ← run_store (ClaimPending (q_lease q) t (q_owner q));
            match r with
            | Err _ => mret false
            | Ok None => mret false
            | Ok (Some ev) =>
                match resolveSource (q_cfg q) ev with
                | None => _ ← end_event (pe_id ev) "dead"; mret true
                | Some src => _ ← process q ev src; mret true
                end
            end
        end.

(** [drain]: the number of iterations is not bounded by the code, so the loop
    takes it as fuel. *)
Fixpoint drain (q : Queue) (fuel : nat) : W unit :=
  match fuel with
  | O => mret tt
  | S fuel' => go ← drain_step q; if go : bool then drain q fuel' else mret tt
  end.

End Worker.
