(* ===== verification/QueueSteps.v ===== *)
(** * The store calls of a worker, whatever fails and whoever else runs

    Specifications of the action operations that hold for every behaviour of
    the driver, lifted to the worker's state, and the assumption on the other
    goroutines that a lease gives ([respects]). *)

From S2P Require Import Prelude GoLib Sql StoreSchema Store StoreLookup StoreInv StoreCalls StoreSpec StoreLifecycle StoreOutcome Config Handler Policy Queue.

Section Steps.
Context `{Env, SqlOrder}.

(** Only the row of action [j] of [id] may differ; the logs may grow. *)
Definition same_actions_but (id : string) (j : Z) (db db' : DB) : Prop :=
  events db' = events db ∧
  ∀ k, k ≠ (id, j) → event_actions db' !! k = event_actions db !! k.

Lemma update_action_but id j p f db : same_actions_but id j db (update_action id j p f db).2.
Proof.
  split; [done|]. intros k Hk. rewrite update_action_lookup, bool_decide_false by done.
  by destruct (event_actions db !! k).
Qed.

Lemma start_safe id j t c :
  wp (StartAction id j t) (λ r c', match r with
    | Ok attempt => ∃ a, event_actions (cn_db c) !! (id, j) = Some a ∧
        action_due (unix_milli t) a = true ∧ attempt = ac_attempt_count a + 1 ∧
        event_actions (cn_db c') !! (id, j) = Some (start_row a) ∧
        same_actions_but id j (cn_db c) (cn_db c')
    | Err _ => cn_db c' = cn_db c
    end) c.
Proof.
  unfold StartAction. do 2 wp_step; [|done].
  destruct (start_stmt id j (unix_milli t) (cn_db c)).1 as [attempt|] eqn:Hr; wp_step.
  - rewrite start_stmt_fst in Hr. destruct (event_actions (cn_db c) !! (id, j)) as [a|] eqn:Ha; [|done].
    destruct (action_due (unix_milli t) a) eqn:Hd; simplify_eq. exists a.
    rewrite start_stmt_snd. split_and!; try done; [|apply update_action_but].
    rewrite update_action_lookup, Ha. cbn. by rewrite bool_decide_true, Hd.
  - by apply start_stmt_none.
Qed.

(** The three ends of an attempt. *)
Lemma running_safe id j f c :
  wp (updateRunningAction id j f) (λ r c', match r with
    | Ok _ => ∃ a, event_actions (cn_db c) !! (id, j) = Some a ∧ action_is "running" a = true ∧
        event_actions (cn_db c') !! (id, j) = Some (f a) ∧
        same_actions_but id j (cn_db c) (cn_db c')
    | Err _ => cn_db c' = cn_db c
    end) c.
Proof.
  unfold updateRunningAction. do 2 wp_step; [|done].
  destruct (_ =? 0) eqn:Hn; wp_step.
  - by apply (zero_update_actions (λ k a, bool_decide (k = (id, j)) && action_is "running" a)).
  - apply update_action_count in Hn as (a & Ha & Hr). exists a.
    split_and!; try done; [|apply update_action_but].
    rewrite update_action_lookup, Ha. cbn. by rewrite bool_decide_true, Hr.
Qed.

Lemma expire_safe id j t c :
  wp (ExpireAction id j t) (λ r c', match r with
    | Ok _ => ∃ a, event_actions (cn_db c) !! (id, j) = Some a ∧ action_waiting a = true ∧
        event_actions (cn_db c') !! (id, j) =
          Some (dead_row "maximum retry age exceeded" (unix_milli t) a) ∧
        same_actions_but id j (cn_db c) (cn_db c')
    | Err _ => cn_db c' = cn_db c
    end) c.
Proof.
  unfold ExpireAction. do 2 wp_step; [|done]. destruct (_ =? 0) eqn:Hn; wp_step.
  - by apply (zero_update_actions (λ k a, bool_decide (k = (id, j)) && action_waiting a)).
  - apply update_action_count in Hn as (a & Ha & Hr). exists a.
    split_and!; try done; [|apply update_action_but].
    rewrite update_action_lookup, Ha. cbn. by rewrite bool_decide_true, Hr.
Qed.

(** Appending to the audit log touches neither events nor actions. *)
Lemma log_safe id j g action target attempt success detail dur t c :
  wp (SaveActionAttemptLog id j g action target attempt success detail dur t)
     (λ _ c', same_outbox (cn_db c) (cn_db c')) c.
Proof.
  unfold SaveActionAttemptLog. do 2 wp_step; [|done].
  destruct (bool_decide _); repeat wp_step; done.
Qed.

(** Requeueing releases the running actions of the event or changes nothing. *)
Lemma requeue_safe id c :
  wp (RequeueEvent id) (λ _ c', ∀ k,
    event_actions (cn_db c') !! k = event_actions (cn_db c) !! k ∨
    k.1 = id ∧ event_actions (cn_db c') !! k =
      (λ a, if action_is "running" a then release_action a else a) <$> event_actions (cn_db c) !! k) c.
Proof.
  unfold RequeueEvent. apply wp_transaction; [by left|intros n]. do 4 (wp_step; try by left).
  destruct (_ =? 0); wp_step; [by left|]. intros _ k.
  change (event_actions (requeue_events ?p ?d).2) with (event_actions d).
  rewrite release_running_lookup. destruct (decide (k.1 = id)) as [Hk|Hk].
  - right. split; [done|]. rewrite (bool_decide_true (k.1 = id)) by done.
    destruct (event_actions (cn_db c) !! k); cbn; [|done]. by rewrite andb_true_r.
  - left. rewrite (bool_decide_false (k.1 = id)) by done.
    destruct (event_actions (cn_db c) !! k); cbn; [|done]. by rewrite andb_false_r.
Qed.

Lemma insert_actions_safe id ms count i c :
  wp (insert_actions id i count ms) (λ r c', r = Ok tt →
    ∀ j, event_actions (cn_db c') !! (id, j) =
      match event_actions (cn_db c) !! (id, j) with
      | Some a => Some a
      | None => if (i <=? j) && (j <? i + Z.of_nat count)
                then Some (ActionRow "pending" 0 (Some ms) None None None) else None
      end) c.
Proof.
  revert i c. induction count as [|count IH]; intros i c; cbn [insert_actions].
  { wp_step. intros _ j. destruct (_ !! _); [done|].
    destruct (i <=? j) eqn:?, (j <? i + Z.of_nat 0) eqn:?; try done. bool_simpl. lia. }
  do 2 wp_step; [|done]. eapply wp_mono; [apply IH|]. cbn [cn_db cn_tick].
  intros r c' Hl Hr j. rewrite (Hl Hr), insert_action_lookup.
  destruct (event_actions (cn_db c) !! (id, j)); [done|].
  case_bool_decide; simplify_eq.
  - destruct (i <=? i) eqn:?, (i <? i + Z.of_nat (S count)) eqn:?; try done; bool_simpl; lia.
  - assert (j ≠ i) by congruence.
    replace ((i <=? j) && (j <? i + Z.of_nat (S count)))
      with ((i + 1 <=? j) && (j <? i + 1 + Z.of_nat count)); [done|].
    apply eq_true_iff_eq. rewrite !andb_true_iff, !Z.leb_le, !Z.ltb_lt. lia.
Qed.

Lemma prepare_safe id vars count clear t c :
  wp (PrepareEvent id vars count clear t) (λ r c', match r with
    | Ok _ => prepared_actions id count (unix_milli t) (cn_db c) (cn_db c')
    | Err _ => cn_db c' = cn_db c
    end) c.
Proof.
  unfold PrepareEvent. apply wp_transaction; [done|intros n]. do 2 wp_step; [|done].
  set (db1 := (update_event _ _ _ _).2). destruct (_ =? 0); [done|].
  apply wp_bind_M. eapply wp_mono; [apply insert_actions_safe|]. cbn [cn_db cn_tick].
  intros [[]|e] c' Hl; [|done]. specialize (Hl eq_refl).
  assert (prepared_actions id count (unix_milli t) (cn_db c) (cn_db c')) as Hp.
  { intros i. rewrite Hl. change (event_actions db1) with (event_actions (cn_db c)).
    destruct (_ !! _); [done|]. by rewrite Z.add_0_l. }
  destruct clear; repeat (wp_step; try done).
Qed.

End Steps.

(** ** In the worker's state *)

Section WorkerSteps.
Context `{Env, SqlOrder, Regexp, Json, Url, Peers}.

Lemma wp_run_store {A} (m : M (conn DB) store_err A) Q w :
  wp m (λ r c, Q r (set_conn c w)) (Conn (others (w_tick w) (w_db w)) (w_tick w)) →
  wp (run_store m) Q w.
Proof. unfold wp, run_store. by destruct (m _). Qed.

Lemma wp_now Q w : (∀ t, t = clock (w_tick w) → Q t (tick w)) → wp now Q w.
Proof. intros HQ. by apply HQ. Qed.

Lemma wp_isCanceled Q w : (∀ b, b = canceled (w_tick w) → Q b (tick w)) → wp isCanceled Q w.
Proof. intros HQ. by apply HQ. Qed.

Lemma wp_isStopped Q w : (∀ b, b = stop_requested (w_tick w) → Q b (tick w)) → wp isStopped Q w.
Proof. intros HQ. by apply HQ. Qed.

Lemma now_step {B} (k : Z → St world B) Q w :
  (∀ t, t = clock (w_tick w) → wp (k t) Q (tick w)) → wp (now ≫= k) Q w.
Proof. intros Hk. by apply wp_bind_St, wp_now. Qed.

Lemma canceled_step {B} (k : bool → St world B) Q w :
  (∀ b, wp (k b) Q (tick w)) → wp (isCanceled ≫= k) Q w.
Proof. intros Hk. by apply wp_bind_St, wp_isCanceled. Qed.

Lemma jitter_range cap w :
  0 < cap → cap < 2^62 → wp (jitter cap) (λ d w', 0 ≤ d ≤ cap ∧ w_db w' = w_db w) w.
Proof.
  intros Hp Hb. unfold wp, jitter. rewrite (proj2 (Z.leb_gt _ _)) by done. cbn [fst snd].
  rewrite wrap64_id by (unfold int64_ok; lia).
  pose proof (rand_int64n_range (w_tick w) (cap + 1) ltac:(lia)). split; [lia|done].
Qed.

(** While the worker's lease lasts, the other goroutines leave the actions of
    its event alone, keep the event in processing, and keep the database well
    formed; a skipped event stays skipped. *)
Record respects (id : string) : Prop := {
  rp_actions : ∀ n db j, event_actions (others n db) !! (id, j) = event_actions db !! (id, j);
  rp_event : ∀ n db e, events db !! id = Some e → status_is "processing" e = true →
    ∃ e', events (others n db) !! id = Some e' ∧ status_is "processing" e' = true;
  rp_ok : ∀ n db, db_ok db → db_ok (others n db);
  rp_skipped : ∀ n db e e', events db !! id = Some e → status_is "skipped" e = true →
    events (others n db) !! id = Some e' → status_is "skipped" e' = true;
}.

(** The row of action [j] of [id]. *)
Definition acts (id : string) (w : world) (j : Z) : option action_row :=
  event_actions (w_db w) !! (id, j).

(** A step that dispatches nothing and leaves the actions of [id] alone. *)
Definition idle (id : string) (w w' : world) : Prop :=
  (∀ j, acts id w' j = acts id w j) ∧ w_trace w' = w_trace w.

Lemma idle_refl id w : idle id w w.
Proof. done. Qed.

Lemma idle_trans id w1 w2 w3 : idle id w1 w2 → idle id w2 w3 → idle id w1 w3.
Proof. intros [A1 T1] [A2 T2]. split; [intros j; by rewrite A2|by rewrite T2]. Qed.

Lemma idle_tick id w : idle id w (tick w).
Proof. done. Qed.

(** No attempt budget is exceeded: [n] attempts at most. *)
Definition budget (id : string) (n : Z) (w : world) : Prop := ∀ j a, acts id w j = Some a →
  (action_waiting a = true → ac_attempt_count a < n) ∧
  (action_is "running" a = true → ac_attempt_count a ≤ n).

Lemma budget_idle id n w w' : idle id w w' → budget id n w → budget id n w'.
Proof. intros [Ha _] Hb j a. rewrite Ha. apply Hb. Qed.

Lemma budget_change id n j a' w w' :
  acts id w' j = Some a' → (∀ j', j' ≠ j → acts id w' j' = acts id w j') →
  (action_waiting a' = true → ac_attempt_count a' < n) →
  (action_is "running" a' = true → ac_attempt_count a' ≤ n) →
  budget id n w → budget id n w'.
Proof.
  intros Hj Ho Hw Hr Hb j' a. destruct (decide (j' = j)) as [->|Hne].
  - rewrite Hj. intros. by simplify_eq.
  - rewrite Ho by done. apply Hb.
Qed.

Section Held.
Context (id : string) (Hresp : respects id).
#[local] Set Default Proof Using "Type*".

Lemma idle_store {A} (m : M (conn DB) store_err A) w :
  (∀ c, wp m (λ _ c', event_actions (cn_db c') = event_actions (cn_db c)) c) →
  wp (run_store m) (λ _ w', idle id w w') w.
Proof.
  intros Hm. apply wp_run_store. eapply wp_mono; [apply Hm|]. cbn. intros _ c' Hc. split; [|done].
  intros j. unfold acts. cbn. rewrite Hc. by apply rp_actions.
Qed.

Lemma log_idle ev j action target attempt success detail dur w :
  wp (logAction ev j action target attempt success detail dur) (λ _ w', idle id w w') w.
Proof.
  apply wp_bind_St, wp_now. intros t _. apply wp_bind_St.
  eapply wp_mono; [apply (idle_store _ (tick w))|].
  - intros c. eapply wp_mono; [apply log_safe|]. by intros _ c' [_ Ha].
  - intros ? w' Hi. apply wp_ret_St. exact Hi.
Qed.

Lemma jitter_idle cap w : wp (jitter cap) (λ _ w', idle id w w') w.
Proof. unfold wp, jitter. by destruct (cap <=? 0). Qed.

(** A store call that changes the row of action [j] only. *)
Lemma action_store {A} (m : M (conn DB) store_err A) j (P : A → action_row → action_row → Prop) w :
  (∀ c, wp m (λ r c', match r with
     | Ok x => ∃ a a', event_actions (cn_db c) !! (id, j) = Some a ∧
         event_actions (cn_db c') !! (id, j) = Some a' ∧ P x a a' ∧
         same_actions_but id j (cn_db c) (cn_db c')
     | Err _ => cn_db c' = cn_db c end) c) →
  wp (run_store m) (λ r w', w_trace w' = w_trace w ∧ match r with
     | Ok x => ∃ a a', acts id w j = Some a ∧ acts id w' j = Some a' ∧ P x a a' ∧
         ∀ j', j' ≠ j → acts id w' j' = acts id w j'
     | Err _ => idle id w w' end) w.
Proof.
  intros Hm. apply wp_run_store. eapply wp_mono; [apply Hm|]. cbn.
  intros [x|e] c' Hc; split; try done.
  - destruct Hc as (a & a' & Ha & Ha' & HP & _ & Ho). exists a, a'. unfold acts. cbn.
    rewrite (rp_actions id) in Ha by done. split_and!; try done.
    intros j' Hj. rewrite Ho by congruence. by apply rp_actions.
  - split; [|done]. intros j'. unfold acts. cbn. rewrite Hc. by apply rp_actions.
Qed.

Lemma start_step j t w :
  wp (run_store (StartAction id j t)) (λ r w', w_trace w' = w_trace w ∧ match r with
     | Ok attempt => ∃ a a', acts id w j = Some a ∧ acts id w' j = Some a' ∧
         (action_due (unix_milli t) a = true ∧ attempt = ac_attempt_count a + 1 ∧ a' = start_row a) ∧
         ∀ j', j' ≠ j → acts id w' j' = acts id w j'
     | Err _ => idle id w w' end) w.
Proof.
  apply (action_store _ j (λ attempt a a', action_due (unix_milli t) a = true ∧
    attempt = ac_attempt_count a + 1 ∧ a' = start_row a)).
  intros c. eapply wp_mono; [apply start_safe|]. intros [x|e] c'; [|done].
  intros (a & ? & ? & ? & ? & ?). exists a, (start_row a). by split_and!.
Qed.

Lemma running_step j f w :
  wp (run_store (updateRunningAction id j f)) (λ r w', w_trace w' = w_trace w ∧ match r with
     | Ok _ => ∃ a a', acts id w j = Some a ∧ acts id w' j = Some a' ∧
         (action_is "running" a = true ∧ a' = f a) ∧
         ∀ j', j' ≠ j → acts id w' j' = acts id w j'
     | Err _ => idle id w w' end) w.
Proof.
  apply (action_store _ j (λ _ a a', action_is "running" a = true ∧ a' = f a)).
  intros c. eapply wp_mono; [apply running_safe|]. intros [x|e] c'; [|done].
  intros (a & ? & ? & ? & ?). exists a, (f a). by split_and!.
Qed.

Lemma expire_step j t w :
  wp (run_store (ExpireAction id j t)) (λ r w', w_trace w' = w_trace w ∧ match r with
     | Ok _ => ∃ a a', acts id w j = Some a ∧ acts id w' j = Some a' ∧
         (action_waiting a = true ∧ a' = dead_row "maximum retry age exceeded" (unix_milli t) a) ∧
         ∀ j', j' ≠ j → acts id w' j' = acts id w j'
     | Err _ => idle id w w' end) w.
Proof.
  apply (action_store _ j (λ _ a a', action_waiting a = true ∧
    a' = dead_row "maximum retry age exceeded" (unix_milli t) a)).
  intros c. eapply wp_mono; [apply expire_safe|]. intros [x|e] c'; [|done].
  intros (a & ? & ? & ? & ?). exists a, (dead_row "maximum retry age exceeded" (unix_milli t) a). by split_and!.
Qed.

Lemma end_event_idle status w : wp (end_event id status) (λ _ w', idle id w w') w.
Proof.
  apply now_step. intros t _. eapply wp_mono; [apply (idle_store _ (tick w))|].
  - intros c. unfold UpdateEventStatus. do 2 wp_step; [|done]. destruct (_ =? 0); by wp_step.
  - by intros r w' [Ha Ht].
Qed.

(** Requeueing keeps the budget. *)
Lemma requeue_step n w :
  wp (requeue id) (λ _ w', w_trace w' = w_trace w ∧ (0 < n → budget id n w → budget id n w')) w.
Proof.
  apply wp_bind_St, wp_run_store. eapply wp_mono; [apply requeue_safe|]. cbn.
  intros r c' Hc. apply wp_ret_St. split; [done|]. intros Hn Hb j a. unfold acts. cbn.
  pose proof (Hb j) as Hbj. unfold acts in Hbj. rewrite <- (rp_actions id Hresp (w_tick w)) in Hbj.
  destruct (Hc (id, j)) as [->|[_ ->]]; [apply Hbj|].
  destruct (event_actions _ !! (id, j)) as [a0|]; cbn; [|done]. intros ?; simplify_eq.
  destruct (action_is "running" a0) eqn:Hr; [|by apply Hbj].
  destruct (Hbj a0 eq_refl) as [_ Hle]. specialize (Hle Hr). split; [|done]. intros _.
  cbn. destruct (Z.ltb_spec 0 (ac_attempt_count a0)); lia.
Qed.

End Held.

End WorkerSteps.
