(* ===== verification/QueuePass.v ===== *)
(** * One pass of a worker over an event

    Which attempts a pass dispatches, for every driver behaviour, every handler
    and every other goroutine that respects the lease. *)

From S2P Require Import Prelude GoLib Sql StoreSchema Store StoreLookup StoreInv StoreCalls StoreSpec StoreLifecycle StoreOutcome Config Handler Policy Queue QueueSteps.

Section Pass.
Context `{Env, SqlOrder, Regexp, Json, Url, Peers}.
Context (gjson : string → string → option string).
Context (q : Queue) (ev : PendingEvent).
Context (Hresp : respects (pe_id ev)).
#[local] Set Default Proof Using "Type*".

#[local] Abbreviation id := (pe_id ev).
#[local] Abbreviation n := (q_maxRetries q + 1).
#[local] Abbreviation acts_ := (acts (pe_id ev)).
#[local] Abbreviation budget_ := (budget (pe_id ev) (q_maxRetries q + 1)).

(** A part of an iteration that dispatches nothing: the trace is unchanged,
    the budget kept, and when the loop goes on only row [j] may differ. *)
Definition step_post (j : Z) (w : world) (go : bool) (w' : world) : Prop :=
  w_trace w' = w_trace w ∧ budget_ w' ∧
  (go = true → ∀ j', j' ≠ j → acts_ w' j' = acts_ w j').

Lemma step_post_idle j w1 w2 go w3 :
  idle id w1 w2 → step_post j w2 go w3 → step_post j w1 go w3.
Proof.
  intros [Ha Ht] (T & B & O). split_and!; [congruence|done|].
  intros Hgo j' Hj. by rewrite O, Ha.
Qed.

Context (Hpos : 0 ≤ q_maxRetries q).

Lemma requeue_false j w :
  budget_ w → wp (requeue id ≫= λ _, mret false) (step_post j w) w.
Proof.
  intros Hb. apply wp_bind_St. eapply wp_mono; [apply (requeue_step id Hresp n)|].
  intros ? w' [Ht Hb']. apply wp_ret_St. split_and!; [done|apply Hb'; [lia|done]|done].
Qed.

Lemma or_requeue_step j r w :
  budget_ w → wp (or_requeue id r) (step_post j w) w.
Proof.
  intros Hb. destruct r as [u|e]; [|by apply requeue_false]. apply wp_ret_St. by split_and!.
Qed.

(** The end of an attempt: the row of the running action is rewritten. *)
Lemma end_step j f w :
  budget_ w →
  (∀ a, acts_ w j = Some a → action_is "running" a = true →
     (action_waiting (f a) = true → ac_attempt_count (f a) < n) ∧
     action_is "running" (f a) = false) →
  wp (run_store (updateRunningAction id j f) ≫= or_requeue id) (step_post j w) w.
Proof.
  intros Hb Hf. apply wp_bind_St. eapply wp_mono; [by apply (running_step id)|].
  intros [u|e] w' [Ht Hr].
  - destruct Hr as (a & a' & Ha & Ha' & (Hrun & ->) & Ho). apply wp_ret_St.
    split_and!; [done| |done]. destruct (Hf a Ha Hrun) as [Hw Hn].
    eapply (budget_change id n j (f a) w w'); eauto. by rewrite Hn.
  - eapply wp_mono; [apply or_requeue_step; by eapply budget_idle|].
    intros go w'' Hp. by eapply step_post_idle.
Qed.

Lemma dead_step j detail t w :
  budget_ w →
  wp (run_store (DeadAction id j detail t) ≫= or_requeue id) (step_post j w) w.
Proof. intros Hb. by apply (end_step j (dead_row detail (unix_milli t))). Qed.

Lemma complete_step j t w :
  budget_ w →
  wp (run_store (CompleteAction id j t) ≫= or_requeue id) (step_post j w) w.
Proof. intros Hb. by apply (end_step j (complete_row (unix_milli t))). Qed.

Lemma schedule_step j next detail ra attempt w :
  budget_ w → attempt < n →
  (∀ a, acts_ w j = Some a → ac_attempt_count a = attempt) →
  wp (run_store (ScheduleActionRetry id j next detail ra) ≫= or_requeue id) (step_post j w) w.
Proof.
  intros Hb Hlt Ha. apply (end_step j (retry_row (unix_milli next) detail (duration_ms ra))); [done|].
  intros a Hr _. split; [|done]. intros _. cbn. by rewrite (Ha a Hr).
Qed.

(** Reading the clock and the context changes nothing. *)
Lemma step_post_tick j w : ∀ go w', step_post j (tick w) go w' → step_post j w go w'.
Proof. intros go w' Hp. eapply step_post_idle; [apply idle_tick|done]. Qed.

Lemma after_failure_step j attempt e w :
  budget_ w → (∀ a, acts_ w j = Some a → ac_attempt_count a = attempt) →
  wp (after_failure q ev j attempt e) (step_post j w) w.
Proof.
  intros Hb Ha. unfold after_failure. apply canceled_step. intros c.
  eapply wp_mono; [|apply step_post_tick].
  destruct (c || is_canceled_error e); [by apply requeue_false|].
  destruct (_ || _) eqn:Hd.
  { apply now_step. intros t _. eapply wp_mono; [by apply dead_step|apply step_post_tick]. }
  apply orb_false_iff in Hd as [_ Hlt]. apply Z.leb_gt in Hlt. apply wp_bind_St.
  eapply wp_mono with (Q := λ _ w', idle id (tick w) w').
  { destruct (_ <=? 0); [by apply jitter_idle|by apply wp_ret_St]. }
  intros delay w1 Hi; cbn beta in Hi. eapply wp_mono; [|intros go w' Hp; eapply step_post_idle; [exact Hi|exact Hp]].
  apply now_step. intros t _.
  eapply wp_mono; [|apply step_post_tick].
  assert (budget_ w1) as Hb1 by (by eapply budget_idle).
  destruct (_ <=? t + delay).
  - apply now_step. intros t' _. eapply wp_mono; [by apply dead_step|apply step_post_tick].
  - eapply schedule_step; [done|exact Hlt|]. intros a. unfold acts. cbn [tick w_db].
    change (event_actions (w_db w1) !! (id, j)) with (acts_ w1 j).
    rewrite (proj1 Hi). apply Ha.
Qed.

(** A started attempt dispatches at most once. *)
Definition attempt_post (j : Z) (ac : ActionConfig) (vars : gmap string string) (attempt : Z)
    (w : world) (go : bool) (w' : world) : Prop :=
  (w_trace w' = w_trace w ∨ ∃ t, w_trace w' = w_trace w ++
     [Dispatch (MkMeta id j attempt) ac (attempt_vars vars attempt j) t]) ∧
  budget_ w' ∧ (go = true → ∀ j', j' ≠ j → acts_ w' j' = acts_ w j').

Lemma attempt_of_step j ac vars attempt w w1 go w' :
  idle id w w1 → step_post j w1 go w' → attempt_post j ac vars attempt w go w'.
Proof.
  intros Hi Hp. destruct (step_post_idle _ _ _ _ _ Hi Hp) as (T & B & O). split_and!; auto.
Qed.

Lemma run_attempt_step j ac vars attempt w :
  budget_ w → (∀ a, acts_ w j = Some a → ac_attempt_count a = attempt) →
  wp (run_attempt q ev vars j ac attempt) (attempt_post j ac vars attempt w) w.
Proof.
  intros Hb Ha. unfold run_attempt. destruct (Get _ _) as [h|].
  - apply now_step. intros t _. apply wp_bind_St. unfold wp at 1. cbn [handle fst snd].
    set (w1 := World _ _ _ _ _).
    assert (∀ go w', step_post j w1 go w' → attempt_post j ac vars attempt w go w') as Hpost.
    { intros go w' (T & B & O). split_and!; [right; by exists t|done|done]. }
    eapply wp_mono; [|exact Hpost].
    assert (budget_ w1) as Hb1 by done.
    apply now_step. intros fin _. eapply wp_mono; [|apply step_post_tick].
    destruct (h_handle h _ _ _ _) as [res [e|]]; cbn [fst snd].
    + apply wp_bind_St. eapply wp_mono; [by apply log_idle|]. intros ? w2 Hi; cbn beta in Hi.
      eapply wp_mono; [|intros go w' Hp; eapply step_post_idle; [exact Hi|exact Hp]].
      apply after_failure_step; [by eapply budget_idle|].
      intros a1. rewrite (proj1 Hi). apply Ha.
    + apply wp_bind_St. eapply wp_mono; [by apply log_idle|]. intros ? w2 Hi; cbn beta in Hi.
      eapply wp_mono; [|intros go w' Hp; eapply step_post_idle; [exact Hi|exact Hp]].
      apply now_step. intros t' _.
      eapply wp_mono; [apply complete_step; by eapply budget_idle|apply step_post_tick].
  - apply wp_bind_St. eapply wp_mono; [by apply log_idle|]. intros ? w2 Hi; cbn beta in Hi.
    apply now_step. intros t' _. eapply wp_mono.
    + apply dead_step. by eapply budget_idle.
    + intros go w' Hp. eapply attempt_of_step; [exact Hi|]. by apply step_post_tick.
Qed.

(** ** One iteration *)

(** The dispatches one iteration may make, given the row [a0] of action [j]
    at its start. *)
Definition one_dispatch (j : Z) (ac : ActionConfig) (vars : gmap string string)
    (a0 : option action_row) (d : dispatch) : Prop :=
  ∃ a, a0 = Some a ∧ action_waiting a = true ∧
    md_attempt (di_meta d) = ac_attempt_count a + 1 ∧
    di_meta d = MkMeta id j (ac_attempt_count a + 1) ∧ di_action d = ac ∧
    di_vars d = attempt_vars vars (ac_attempt_count a + 1) j.

Definition iteration_post (j : Z) (ac : ActionConfig) (vars : gmap string string)
    (w : world) (go : bool) (w' : world) : Prop :=
  (∃ new, w_trace w' = w_trace w ++ new ∧ (length new ≤ 1)%nat ∧
     Forall (one_dispatch j ac vars (acts_ w j)) new) ∧
  budget_ w' ∧ (go = true → ∀ j', j' ≠ j → acts_ w' j' = acts_ w j').

Lemma iteration_of_step j ac vars w go w' :
  step_post j w go w' → iteration_post j ac vars w go w'.
Proof.
  intros (T & B & O). split_and!; [|done|done]. exists []. rewrite app_nil_r. split_and!; auto.
Qed.

Lemma iteration_tick j ac vars w go w' :
  iteration_post j ac vars (tick w) go w' → iteration_post j ac vars w go w'.
Proof. done. Qed.

Lemma process_action_step vars states j ac w :
  budget_ w →
  wp (process_action q ev vars states j ac) (iteration_post j ac vars w) w.
Proof.
  intros Hb. unfold process_action. apply canceled_step. intros c.
  eapply wp_mono; [|intros go w'; apply iteration_tick].
  assert (budget_ (tick w)) as Hb1 by done. revert Hb1. generalize (tick w). clear w Hb. intros w Hb.
  destruct c.
  { eapply wp_mono; [by apply requeue_false|]. intros. by apply iteration_of_step. }
  assert (wp (mret (M := St world) true) (iteration_post j ac vars w) w) as Hskip.
  { apply wp_ret_St, iteration_of_step. by split_and!. }
  destruct (states !! j) as [state|]; [|done]. destruct (one_of _ _); [done|].
  apply now_step. intros t _. eapply wp_mono; [|intros go w'; apply iteration_tick].
  change (wp (mret (M := St world) true) (iteration_post j ac vars (tick w)) (tick w)) in Hskip.
  assert (budget_ (tick w)) as Hb1 by done. revert Hb1 Hskip. generalize (tick w).
  clear w Hb. intros w Hb Hskip.
  destruct (one_of _ _ && _).
  { apply wp_bind_St. eapply wp_mono; [by apply (expire_step id)|]. intros [u|e] w' [Ht Hr].
    - destruct Hr as (a & a' & Ha & Ha' & (Hw & ->) & Ho).
      apply wp_ret_St, iteration_of_step. split_and!; [done| |done].
      by eapply (budget_change id n j _ w w').
    - eapply wp_mono; [apply (or_requeue_step j); by eapply budget_idle|].
      intros go w'' Hp. apply iteration_of_step. by eapply step_post_idle. }
  destruct (bool_decide _ && _); [done|].
  apply wp_bind_St. eapply wp_mono; [by apply (start_step id)|]. intros [attempt|e] w' [Ht Hr].
  - destruct Hr as (a & a' & Ha & Ha' & (Hd & -> & ->) & Ho).
    assert (action_waiting a = true) as Hw by (unfold action_due in Hd; by bool_simpl).
    assert (budget_ w') as Hb'.
    { eapply (budget_change id n j _ w w'); eauto; [done|]. intros _. cbn.
      destruct (Hb j a Ha) as [Hlt _]. specialize (Hlt Hw). lia. }
    eapply wp_mono; [apply run_attempt_step|].
    + done.
    + intros a1. rewrite Ha'. intros ?; simplify_eq. done.
    + intros go w'' (T & B & O). split_and!; [|done|].
      * destruct T as [T|[t' T]].
        -- exists []. rewrite app_nil_r, T. split_and!; [done|cbn; lia|done].
        -- exists [Dispatch (MkMeta id j (ac_attempt_count a + 1)) ac
                     (attempt_vars vars (ac_attempt_count a + 1) j) t'].
           rewrite T, Ht. split_and!; [done|cbn; lia|]. apply Forall_singleton. by exists a.
      * intros Hgo j' Hj. by rewrite O, Ho.
  - assert (wp (requeue id ≫= λ _, mret (M := St world) false) (iteration_post j ac vars w) w') as Hreq.
    { eapply wp_mono; [apply (requeue_false j); by eapply budget_idle|]. intros go w'' Hp.
      apply iteration_of_step. by eapply step_post_idle. }
    destruct e; try exact Hreq. apply wp_ret_St, iteration_of_step.
    destruct Hr as [Hra Hrt]. split_and!; [done|by eapply budget_idle|]. intros _ j' _. apply Hra.
Qed.

(** ** The loop *)

(** What the dispatches [new] of the loop from index [i] over [actions] look
    like, [A0] being the rows of the event when the loop started. *)
Definition loop_dispatches (vars : gmap string string) (i : Z) (actions : list ActionConfig)
    (A0 : Z → option action_row) (new : list dispatch) : Prop :=
  StronglySorted Z.lt ((λ d, md_action_index (di_meta d)) <$> new) ∧
  Forall (λ d, ∃ k ac, actions !! k = Some ac ∧
    one_dispatch (i + Z.of_nat k) ac vars (A0 (i + Z.of_nat k)) d) new.

Lemma loop_nil vars i actions A0 : loop_dispatches vars i actions A0 [].
Proof. split; constructor. Qed.

Lemma loop_cons vars i ac actions A0 A1 new1 new2 :
  (length new1 ≤ 1)%nat → Forall (one_dispatch i ac vars (A0 i)) new1 →
  (∀ j, j ≠ i → A1 j = A0 j) →
  loop_dispatches vars (i + 1) actions A1 new2 →
  loop_dispatches vars i (ac :: actions) A0 (new1 ++ new2).
Proof.
  intros Hlen N1 HA [Hs N2].
  assert (Forall (λ d, ∃ k ac', (ac :: actions) !! k = Some ac' ∧
    one_dispatch (i + Z.of_nat k) ac' vars (A0 (i + Z.of_nat k)) d) new2) as N2x.
  { eapply Forall_impl; [exact N2|]. intros d (k & ac' & Hk & Hd). exists (S k), ac'.
    split; [done|]. replace (i + Z.of_nat (S k)) with (i + 1 + Z.of_nat k) by lia.
    rewrite <- HA by lia. done. }
  assert (∀ d, d ∈ new2 → i < md_action_index (di_meta d)) as Hlt.
  { intros d Hd. rewrite Forall_forall in N2. destruct (N2 d Hd) as (k & ac' & _ & a & _ & _ & _ & Hm & _).
    rewrite Hm. cbn. lia. }
  split.
  - rewrite fmap_app. destruct new1 as [|d [|]]; [done| |cbn in Hlen; lia].
    rewrite Forall_singleton in N1. destruct N1 as (a & _ & _ & _ & Hm & _).
    cbn [fmap list_fmap app].
    constructor; [done|]. apply Forall_fmap, Forall_forall. intros d' Hd'. cbn.
    rewrite Hm. cbn. by apply Hlt.
  - apply Forall_app. split; [|done]. eapply Forall_impl; [exact N1|]. intros d Hd.
    exists 0%nat, ac. split; [done|]. by rewrite Z.add_0_r.
Qed.

Lemma process_actions_step vars states actions i w :
  budget_ w →
  wp (process_actions q ev vars states i actions) (λ _ w', budget_ w' ∧
    ∃ new, w_trace w' = w_trace w ++ new ∧ loop_dispatches vars i actions (acts_ w) new) w.
Proof.
  revert i w. induction actions as [|ac actions IH]; intros i w Hb; cbn [process_actions].
  { apply wp_ret_St. split; [done|]. exists []. rewrite app_nil_r. split; [done|apply loop_nil]. }
  apply wp_bind_St. eapply wp_mono; [by apply process_action_step|].
  intros go w1 ((new1 & T1 & Hlen & N1) & B1 & O1). destruct go.
  - eapply wp_mono; [by apply IH|]. intros ? w2 (B2 & new2 & T2 & N2). split; [done|].
    exists (new1 ++ new2). rewrite T2, T1, app_assoc. split; [done|].
    by apply (loop_cons _ _ _ _ _ (acts_ w1)); [| |apply (O1 eq_refl)|].
  - apply wp_ret_St. split; [done|]. exists new1. split; [done|].
    rewrite <- (app_nil_r new1). eapply (loop_cons _ _ _ _ _ (acts_ w)); eauto. apply loop_nil.
Qed.

(** ** The whole pass *)

(** Before the loop: nothing is dispatched, and unless the pass ends the
    actions are as they were. *)
Definition prelude_post {A} (w : world) (v : option A) (w' : world) : Prop :=
  w_trace w' = w_trace w ∧ budget_ w' ∧ (is_Some v → ∀ j, acts_ w' j = acts_ w j).

Lemma prelude_idle {A} w1 w2 (v : option A) w3 :
  idle id w1 w2 → prelude_post w2 v w3 → prelude_post w1 v w3.
Proof.
  intros [Ha Ht] (T & B & O). split_and!; [congruence|done|]. intros Hv j. by rewrite O, Ha.
Qed.

Lemma prelude_none {A B} (m : St world B) w :
  budget_ w → wp m (λ _ w', w_trace w' = w_trace w ∧ budget_ w') w →
  wp (m ≫= λ _, mret (M := St world) (A := option A) None) (prelude_post w) w.
Proof.
  intros Hb Hm. apply wp_bind_St. eapply wp_mono; [exact Hm|]. intros a w' [Ht Hb'].
  apply wp_ret_St. split_and!; [done|done|]. by intros [].
Qed.

Lemma idle_budget {B} (m : St world B) w :
  budget_ w → wp m (λ _ w', idle id w w') w → wp m (λ _ w', w_trace w' = w_trace w ∧ budget_ w') w.
Proof.
  intros Hb Hm. eapply wp_mono; [exact Hm|]. intros a w' Hi; cbn beta in Hi. split; [apply Hi|by eapply budget_idle].
Qed.

Lemma requeue_budget w : budget_ w → wp (requeue id) (λ _ w', w_trace w' = w_trace w ∧ budget_ w') w.
Proof.
  intros Hb. eapply wp_mono; [apply (requeue_step id Hresp n)|].
  intros a w' [Ht Hb']. split; [done|]. apply Hb'; [lia|done].
Qed.

Lemma skip_event_budget counted w :
  budget_ w → wp (skip_event q ev counted) (λ _ w', w_trace w' = w_trace w ∧ budget_ w') w.
Proof.
  intros Hb. unfold skip_event. apply wp_bind_St.
  eapply wp_mono; [by apply end_event_idle|]. intros r w1 [Ha Ht].
  assert (budget_ w1) as Hb1 by (eapply budget_idle; [split; [exact Ha|exact Ht]|done]).
  destruct r; [|by rewrite <- Ht; apply requeue_budget]. apply wp_bind_St. rewrite <- Ht.
  eapply wp_mono with (Q := λ _ w', idle id w1 w').
  { destruct counted; [done|by apply wp_ret_St]. }
  intros ? w2 Hi2; cbn beta in Hi2. destruct (drops_payload q).
  - apply wp_bind_St. eapply wp_mono; [apply (idle_store id Hresp)|].
    + intros c. unfold ClearPayload. do 2 wp_step; [|done]. by wp_step.
    + intros ? w3 Hi3; cbn beta in Hi3. apply wp_ret_St.
      pose proof (idle_trans id _ _ _ Hi2 Hi3) as Hi. split; [apply Hi|by eapply budget_idle].
  - apply wp_ret_St. split; [apply Hi2|by eapply budget_idle].
Qed.

Lemma executionVars_step src w :
  budget_ w → wp (executionVars gjson q ev src) (prelude_post w) w.
Proof.
  intros Hb. unfold executionVars. destruct (negb _).
  { assert (∀ v : gmap string string, wp (mret (M := St world) (Some v)) (prelude_post w) w) as Hret.
    { intros v. apply wp_ret_St. by split_and!. }
    destruct (vars_unmarshal _) as [[v|]|]; [apply Hret| |].
    all: apply prelude_none; [done|]; apply idle_budget; [done|by apply end_event_idle]. }
  apply wp_bind_St. eapply wp_mono with (Q := λ _ w', idle id w w').
  { destruct (bool_decide _); [|by apply wp_ret_St]. apply wp_bind_St.
    eapply wp_mono; [apply (idle_store id Hresp)|].
    - intros c. unfold GetPayload. do 2 wp_step; [|done]. by destruct (events _ !! _); wp_step.
    - intros r w' Hi. by apply wp_ret_St. }
  intros p w1 Hi; cbn beta in Hi.
  eapply wp_mono; [|intros v w' Hp; eapply prelude_idle; [exact Hi|exact Hp]].
  assert (budget_ w1) as Hb1 by (by eapply budget_idle). clear Hb Hi w.
  destruct p as [payload|]; [|by apply prelude_none, requeue_budget].
  destruct (bool_decide _).
  { apply prelude_none; [done|]. apply idle_budget; [done|by apply end_event_idle]. }
  destruct (negb _); [by apply prelude_none, skip_event_budget|].
  apply wp_bind_St. unfold wp at 1, match_rules_cached.
  destruct (Match _ _ _) as [m cache]. cbn [fst snd]. set (w2 := World _ _ _ _ _).
  eapply wp_mono; [|intros v w' Hp; eapply (prelude_idle w1 w2); [done|exact Hp]].
  assert (budget_ w2) as Hb2 by exact Hb1.
  destruct m as [[|]|e].
  - apply wp_ret_St. by split_and!.
  - by apply prelude_none, skip_event_budget.
  - apply prelude_none; [done|]. apply idle_budget; [done|by apply end_event_idle].
Qed.

(** The rows the loop starts from: those that existed, and fresh ones. *)
Definition planned (src : Source) (ms : Z) (w : world) (j : Z) : option action_row :=
  match acts_ w j with
  | Some a => Some a
  | None => if (0 <=? j) && (j <? Z.of_nat (length (so_actions src)))
            then Some (ActionRow "pending" 0 (Some ms) None None None) else None
  end.

Definition pass_post (src : Source) (w w' : world) : Prop :=
  budget_ w' ∧ ∃ vars ms new, w_trace w' = w_trace w ++ new ∧
    loop_dispatches vars 0 (so_actions src) (planned src ms w) new.

Lemma pass_nothing src w w' : w_trace w' = w_trace w → budget_ w' → pass_post src w w'.
Proof.
  intros T B. split; [done|]. exists ∅, 0, []. rewrite app_nil_r. split; [done|apply loop_nil].
Qed.

Lemma loop_dispatches_ext vars i actions A0 A1 new :
  (∀ j, A0 j = A1 j) → loop_dispatches vars i actions A0 new → loop_dispatches vars i actions A1 new.
Proof.
  intros HA [Hs Hf]. split; [done|]. eapply Forall_impl; [exact Hf|].
  intros d (k & ac & Hk & Hd). exists k, ac. by rewrite <- HA.
Qed.

Lemma process_step src w :
  budget_ w → wp (process gjson q ev src) (λ _ w', pass_post src w w') w.
Proof.
  intros Hb. unfold process. apply wp_bind_St. eapply wp_mono; [by apply executionVars_step|].
  intros v w1 (T1 & B1 & A1). destruct v as [vars|]; [|by apply wp_ret_St, pass_nothing].
  specialize (A1 ltac:(by eexists)).
  assert (wp (requeue id) (λ _ w', pass_post src w w') w1) as Hreq1.
  { eapply wp_mono; [by apply requeue_budget|]. intros ? w' [T B]. apply pass_nothing; [congruence|done]. }
  destruct (vars_marshal vars) as [varsJSON|]; [|exact Hreq1]. apply now_step. intros t _.
  apply wp_bind_St, wp_run_store. eapply wp_mono; [apply prepare_safe|]. cbn [cn_db tick w_db w_tick].
  set (db0 := others _ _).
  assert (∀ j, event_actions db0 !! (id, j) = acts_ w j) as Hdb0.
  { intros j. unfold db0. rewrite (rp_actions id) by done. apply A1. }
  intros [u|e] c2 Hp; cycle 1.
  { (* the transaction failed *)
    eapply wp_mono; [apply requeue_budget|].
    - intros j a. unfold acts. cbn. rewrite Hp, Hdb0. apply Hb.
    - intros ? w' [T B]. apply pass_nothing; [by rewrite T|done]. }
  set (w2 := set_conn c2 (tick w1)).
  assert (∀ j, acts_ w2 j = planned src (unix_milli t) w j) as Ha2.
  { intros j. unfold acts at 1. cbn. rewrite (Hp j), Hdb0. done. }
  assert (budget_ w2) as Hb2.
  { intros j a. rewrite Ha2. unfold planned. destruct (acts_ w j) eqn:E.
    - intros ?; simplify_eq. by apply (Hb j).
    - destruct (_ && _); [|done]. intros ?; simplify_eq. split; [intros _; cbn; lia|done]. }
  assert (w_trace w2 = w_trace w) as Ht2 by exact T1.
  apply wp_bind_St. eapply wp_mono; [apply (idle_store id Hresp)|].
  { intros c. unfold ListActionStates. by wp_step. }
  intros r w3 [A3 T3].
  assert (budget_ w3) as Hb3 by (eapply budget_idle; [split; [exact A3|exact T3]|done]).
  destruct r as [states|e].
  - apply wp_bind_St. eapply wp_mono; [by apply process_actions_step|].
    intros go w4 (B4 & new & T4 & L4).
    assert (∀ w', w_trace w' = w_trace w4 → budget_ w' → pass_post src w w') as Hend.
    { intros w' T B. split; [done|]. exists vars, (unix_milli t), new. split; [congruence|].
      eapply loop_dispatches_ext; [|exact L4]. intros j. by rewrite A3, Ha2. }
    destruct go; [|by apply wp_ret_St, Hend]. unfold finish_pass. apply now_step. intros t' _.
    apply wp_bind_St. eapply wp_mono; [apply (idle_store id Hresp)|].
    { intros c. unfold RefreshEventStatus. do 2 wp_step; [|done].
      destruct (n_total _ =? 0); [by wp_step|].
      do 2 wp_step; [|done]. destruct (_ =? 0); wp_step.
      all: unfold refresh_stmt; by destruct (refresh_plan _ _) as [[??]?]. }
    intros r w5 [A5 T5].
    assert (budget_ w5) as Hb5 by (eapply budget_idle; [split; [exact A5|exact T5]|done]).
    destruct r; [by apply wp_ret_St, Hend|].
    eapply wp_mono; [by apply requeue_budget|]. intros ? w' [T B]. apply Hend; [by rewrite T, T5|done].
  - eapply wp_mono; [by apply requeue_budget|]. intros ? w' [T B]. apply pass_nothing; [congruence|done].
Qed.

End Pass.
