(* ===== verification/QueueOutcome.v ===== *)
(** * How a pass leaves its event

    Without driver failures, whatever the handlers answer, whenever the worker
    is cancelled and whoever else runs: a pass always gives its event back and
    leaves none of its actions running. *)

From S2P Require Import Prelude GoLib Sql StoreSchema Store StoreLookup StoreInv StoreCalls StoreSpec StoreLifecycle StoreOutcome Config Handler Policy Queue QueueSteps QueuePass.

Section Outcome.
Context `{Env, SqlOrder, Regexp, Json, Url, Peers}.
Context (gjson : string → string → option string).
Context (q : Queue) (ev : PendingEvent).
Context (Hnf : no_faults) (Hresp : respects (pe_id ev)).
#[local] Set Default Proof Using "Type*".

#[local] Abbreviation id := (pe_id ev).
#[local] Abbreviation acts_ := (acts (pe_id ev)).

(** The database is well formed and the event is being processed. *)
Definition held (w : world) : Prop :=
  db_ok (w_db w) ∧ ∃ e, events (w_db w) !! id = Some e ∧ status_is "processing" e = true.

(** No action of the event other than [j] is running. *)
Definition quiet_but (j : Z) (w : world) : Prop :=
  ∀ j' a, j' ≠ j → acts_ w j' = Some a → action_is "running" a = false.
Definition quiet (w : world) : Prop :=
  ∀ j a, acts_ w j = Some a → action_is "running" a = false.

(** The event was given back and nothing of it runs. *)
Definition released (w : world) : Prop :=
  (∀ e, events (w_db w) !! id = Some e → status_is "processing" e = false) ∧ quiet w.

Lemma held_others w : held w →
  db_ok (others (w_tick w) (w_db w)) ∧
  ∃ e, events (others (w_tick w) (w_db w)) !! id = Some e ∧ status_is "processing" e = true.
Proof.
  intros [Hok (e & He & Hp)]. split; [by apply (rp_ok id)|]. by eapply (rp_event id).
Qed.

(** A store call that leaves the events alone and keeps the database well
    formed keeps the event held. *)
Lemma held_store {A} (m : M (conn DB) store_err A) w :
  held w → preserves db_ok m →
  (∀ c, wp m (λ _ c', events (cn_db c') = events (cn_db c)) c) →
  wp (run_store m) (λ _ w', held w') w.
Proof.
  intros Hh Hok Hev. destruct (held_others w Hh) as [Hok' (e & He & Hp)].
  apply wp_run_store. eapply wp_mono; [apply wp_and; [by apply Hok|apply Hev]|].
  cbn. intros r c [Hc Hce]. split; [done|]. exists e. cbn. by rewrite Hce.
Qed.

Lemma requeue_released w : held w → wp (requeue id) (λ _ w', released w') w.
Proof.
  intros Hh. destruct (held_others w Hh) as [Hok' (e & He & Hp)].
  apply wp_bind_St, wp_run_store. eapply wp_mono; [by apply RequeueEvent_run|]. cbn.
  intros [u|x] c Hc; apply wp_ret_St.
  - destruct Hc as (_ & (e' & _ & _ & He') & Ha). split.
    + intros e2. cbn. rewrite He'. intros ?; simplify_eq. done.
    + intros j a. unfold acts. cbn. rewrite Ha. destruct (event_actions _ !! _) as [a0|]; [|done].
      cbn. intros ?; simplify_eq. destruct (action_is "running" a0) eqn:Hr; [done|exact Hr].
  - destruct Hc as [_ Hc]. by rewrite (Hc e He) in Hp.
Qed.

(** The status a pass may leave: it gave up or put the event back, or the
    status is the verdict on its actions. *)
Definition settled (w : world) : Prop :=
  ∀ e, events (w_db w) !! id = Some e →
    one_of (ev_status e) ["pending"; "dead"; "skipped"]%string = true ∨
    verdict id (w_db w) (ev_status e).

Definition pass_end (w : world) : Prop := released w ∧ settled w.

Lemma settled_status s w :
  (∀ e, events (w_db w) !! id = Some e → ev_status e = s) →
  one_of s ["pending"; "dead"; "skipped"]%string = true → quiet w → pass_end w.
Proof.
  intros Hs Hone Hc. split; [split; [|done]|].
  - intros e He. unfold status_is. rewrite (Hs e He). by one_of_cases Hone; subst.
  - intros e He. left. by rewrite (Hs e He).
Qed.

Lemma requeue_end w : held w → wp (requeue id) (λ _ w', pass_end w') w.
Proof.
  intros Hh. destruct (held_others w Hh) as [Hok' (e & He & Hp)].
  eapply wp_mono; [apply (wp_and _ (λ _ w', released w')
    (λ _ w', ∀ e, events (w_db w') !! id = Some e → ev_status e = "pending"%string));
    [by apply requeue_released|]|].
  - apply wp_bind_St, wp_run_store. eapply wp_mono; [by apply RequeueEvent_run|]. cbn.
    intros [u|x] c Hc; apply wp_ret_St.
    + destruct Hc as (_ & (e' & _ & _ & He') & _). intros e2. cbn. rewrite He'. by intros [= <-].
    + destruct Hc as [_ Hc]. by rewrite (Hc e He) in Hp.
  - intros u w' [Hr Hs]. by apply (settled_status "pending"); [| |apply Hr].
Qed.

(** Where the loop stands after a step: it goes on, or the pass is over. *)
Definition go_post (go : bool) (w : world) : Prop :=
  if go then held w ∧ quiet w else pass_end w.

Lemma requeue_go w : held w → wp (requeue id ≫= λ _, mret false) go_post w.
Proof.
  intros Hh. apply wp_bind_St. eapply wp_mono; [by apply requeue_end|].
  intros ? w' Hr. by apply wp_ret_St.
Qed.

(** An attempt's end writes the row of its running action. *)
Lemma end_go j f a w :
  held w → quiet_but j w → acts_ w j = Some a → action_is "running" a = true →
  (∀ a, action_is "running" a = true → action_ok a → action_ok (f a)) →
  action_is "running" (f a) = false →
  wp (run_store (updateRunningAction id j f) ≫= or_requeue id) go_post w.
Proof.
  intros Hh Hc Ha Hr Hok Hf. apply wp_bind_St.
  eapply wp_mono; [apply wp_and; [apply held_store; [done|by apply updateRunningAction_ok|]|
    apply wp_and; [by apply (running_step id)|]]|].
  - intros c. eapply wp_mono; [apply running_safe|]. intros [u|e] c'; [|by intros ->].
    by intros (? & _ & _ & _ & Hs & _).
  - (* the row is running, so the update finds it *)
    apply wp_run_store. unfold updateRunningAction. do 2 wp_step_ok.
    assert (((update_action id j (action_is "running") f (others (w_tick w) (w_db w))).1 =? 0)
      = false) as Hn.
    { apply update_action_count. exists a. rewrite (rp_actions id) by done. done. }
    rewrite Hn. instantiate (1 := λ r _, is_ok r = true). by wp_step.
  - intros r w' (Hh' & [_ Hstep] & Hr'). destruct r as [u|e]; [|done].
    destruct Hstep as (a1 & a' & Ha1 & Ha' & (_ & ->) & Ho). simplify_eq. apply wp_ret_St.
    split; [done|]. intros j' a2. destruct (decide (j' = j)) as [->|Hne].
    + rewrite Ha'. intros ?; simplify_eq. done.
    + rewrite Ho by done. by apply Hc.
Qed.

(** Steps that leave the database to the others. *)
Definition untouched (w w' : world) : Prop :=
  (∀ j, acts_ w' j = acts_ w j) ∧ (held w → held w').

Lemma untouched_tick w : untouched w (tick w).
Proof. done. Qed.

Lemma log_untouched j action target attempt success detail dur w :
  held w → wp (logAction ev j action target attempt success detail dur) (λ _ w', untouched w w') w.
Proof.
  intros Hh. eapply wp_mono; [apply (wp_and _ (λ _ w', idle id w w') (λ _ w', held w')); [by apply log_idle|]|].
  - apply now_step. intros t _. apply wp_bind_St. eapply wp_mono.
    + apply (held_store _ (tick w)); [done|apply SaveActionAttemptLog_ok|].
      intros c. eapply wp_mono; [apply log_safe|]. by intros r c' [Hs _].
    + intros r w' Hh'. apply wp_ret_St. exact Hh'.
  - intros u w' [[Ha _] Hh']. by split.
Qed.

(** The worker's view of a started attempt. *)
Definition attempt_pre (j : Z) (w : world) : Prop :=
  held w ∧ quiet_but j w ∧ ∃ a, acts_ w j = Some a ∧ action_is "running" a = true.

Lemma attempt_pre_untouched j w w' : untouched w w' → attempt_pre j w → attempt_pre j w'.
Proof.
  intros [Ha Hh] (H1' & H2' & a & H3' & H4'). split_and!; [auto| |].
  - intros j' a'. rewrite Ha. apply H2'.
  - exists a. by rewrite Ha.
Qed.

Lemma end_attempt j f w :
  attempt_pre j w →
  (∀ a, action_is "running" a = true → action_ok a → action_ok (f a)) →
  (∀ a, action_is "running" (f a) = false) →
  wp (run_store (updateRunningAction id j f) ≫= or_requeue id) go_post w.
Proof. intros (Hh & Hc & a & Ha & Hr) Hok Hf. by eapply end_go. Qed.

Lemma dead_go j detail t w : attempt_pre j w →
  wp (run_store (DeadAction id j detail t) ≫= or_requeue id) go_post w.
Proof. intros Hw. apply (end_attempt j (dead_row detail (unix_milli t))); auto with webhook. Qed.

Lemma complete_go j t w : attempt_pre j w →
  wp (run_store (CompleteAction id j t) ≫= or_requeue id) go_post w.
Proof. intros Hw. apply (end_attempt j (complete_row (unix_milli t))); auto with webhook. Qed.

Lemma schedule_go j next detail ra w : attempt_pre j w →
  wp (run_store (ScheduleActionRetry id j next detail ra) ≫= or_requeue id) go_post w.
Proof.
  intros Hw. apply (end_attempt j (retry_row (unix_milli next) detail (duration_ms ra)));
    auto with webhook.
Qed.

Lemma jitter_untouched cap w : wp (jitter cap) (λ _ w', untouched w w') w.
Proof. unfold wp, jitter. by destruct (cap <=? 0). Qed.

Lemma after_failure_go j attempt e w :
  attempt_pre j w → wp (after_failure q ev j attempt e) go_post w.
Proof.
  intros Hw. unfold after_failure. apply canceled_step. intros c.
  assert (attempt_pre j (tick w)) as Hw1 by exact Hw. revert Hw1. generalize (tick w). clear w Hw.
  intros w Hw. destruct (c || _); [apply requeue_go; apply Hw|].
  destruct (_ || _).
  { apply now_step. intros t _. by apply dead_go. }
  apply wp_bind_St. eapply wp_mono with (Q := λ _ w', untouched w w').
  { destruct (_ <=? 0); [apply jitter_untouched|by apply wp_ret_St]. }
  intros delay w1 Hu; cbn beta in Hu. apply now_step. intros t _.
  assert (attempt_pre j (tick w1)) as Hw1 by exact (attempt_pre_untouched j w w1 Hu Hw).
  destruct (_ <=? t + delay); [|by apply schedule_go].
  apply now_step. intros t' _. by apply dead_go.
Qed.

Lemma run_attempt_go j ac vars attempt w :
  attempt_pre j w → wp (run_attempt q ev vars j ac attempt) go_post w.
Proof.
  intros Hw. unfold run_attempt. destruct (Get _ _) as [h|].
  - apply now_step. intros t _. apply wp_bind_St. unfold wp at 1. cbn [handle fst snd].
    set (w1 := World _ _ _ _ _). apply now_step. intros fin _.
    assert (attempt_pre j (tick w1)) as Hw1 by exact Hw.
    destruct (h_handle h _ _ _ _) as [res [e|]]; cbn [fst snd]; apply wp_bind_St.
    all: eapply wp_mono; [apply log_untouched; apply Hw1|]; intros ? w2 Hu; cbn beta in Hu.
    all: assert (attempt_pre j w2) as Hw2 by (by eapply attempt_pre_untouched).
    + by apply after_failure_go.
    + apply now_step. intros t' _. by apply complete_go.
  - apply wp_bind_St. eapply wp_mono; [apply log_untouched; apply Hw|]. intros ? w2 Hu; cbn beta in Hu.
    assert (attempt_pre j w2) as Hw2 by (by eapply attempt_pre_untouched).
    apply now_step. intros t' _. by apply dead_go.
Qed.

Lemma process_action_go vars states j ac w :
  held w → quiet w → wp (process_action q ev vars states j ac) go_post w.
Proof.
  intros Hh Hc. unfold process_action. apply canceled_step. intros c.
  assert (held (tick w) ∧ quiet (tick w)) as Hw by done. revert Hw. generalize (tick w). clear w Hh Hc.
  intros w [Hh Hc]. destruct c; [by apply requeue_go|].
  destruct (states !! j) as [state|]; [|by apply wp_ret_St].
  destruct (one_of _ _); [by apply wp_ret_St|]. apply now_step. intros t _.
  assert (held (tick w) ∧ quiet (tick w)) as Hw by done. revert Hw. generalize (tick w). clear w Hh Hc.
  intros w [Hh Hc]. destruct (one_of _ _ && _).
  { apply wp_bind_St. eapply wp_mono; [apply wp_and;
      [apply held_store; [done|apply ExpireAction_ok|]|by apply (expire_step id)]|].
    - intros c'. eapply wp_mono; [apply expire_safe|]. intros [u|e] c2; [|by intros ->].
      by intros (? & _ & _ & _ & Hs & _).
    - intros [u|e] w' [Hh' [_ Hr]]; [|by apply requeue_go].
      destruct Hr as (a & a' & Ha & Ha' & (_ & ->) & Ho). apply wp_ret_St. split; [done|].
      intros j' a2. destruct (decide (j' = j)) as [->|Hne].
      + rewrite Ha'. intros ?; simplify_eq. done.
      + rewrite Ho by done. apply Hc. }
  destruct (bool_decide _ && _); [by apply wp_ret_St|].
  apply wp_bind_St. eapply wp_mono; [apply wp_and;
    [apply held_store; [done|apply StartAction_ok|]|by apply (start_step id)]|].
  - intros c'. eapply wp_mono; [apply start_safe|]. intros [u|e] c2; [|by intros ->].
    by intros (? & _ & _ & _ & _ & Hs & _).
  - intros [attempt|e] w' [Hh' [_ Hr]].
    + destruct Hr as (a & a' & Ha & Ha' & (_ & _ & ->) & Ho). apply run_attempt_go.
      split_and!; [done| |by exists (start_row a)]. intros j' a2 Hne. rewrite Ho by done. apply Hc.
    + assert (quiet w') as Hc' by (intros j' a; rewrite (proj1 Hr); apply Hc).
      assert (wp (requeue id ≫= λ _, mret (M := St world) false) go_post w') as Hreq
        by (by apply requeue_go).
      destruct e; try exact Hreq. by apply wp_ret_St.
Qed.

Lemma process_actions_go vars states actions i w :
  held w → quiet w → wp (process_actions q ev vars states i actions) go_post w.
Proof.
  revert i w. induction actions as [|ac actions IH]; intros i w Hh Hc; cbn [process_actions].
  { by apply wp_ret_St. }
  apply wp_bind_St. eapply wp_mono; [by apply process_action_go|].
  intros [] w1 Hw; [|by apply wp_ret_St]. destruct Hw. by apply IH.
Qed.

(** ** Before and after the loop *)

(** UpdateEventStatus ends the event with the given status. *)
Lemma end_event_end status w :
  held w → quiet w →
  wp (end_event id status) (λ r w', is_ok r = true ∧ quiet w' ∧
    ∃ e, events (w_db w') !! id = Some e ∧ ev_status e = status) w.
Proof.
  intros Hh Hc. eapply wp_mono; [apply (wp_and _ (λ _ w', idle id w w') (λ r w', is_ok r = true ∧
    ∃ e, events (w_db w') !! id = Some e ∧ ev_status e = status)); [by apply end_event_idle|]|].
  - apply now_step. intros t _. destruct (held_others (tick w) Hh) as [Hok' (e & He & Hp)].
    apply wp_run_store. unfold UpdateEventStatus. do 2 wp_step_ok.
    assert (((update_event id (λ _, true) (status_row status t)
      (others (w_tick (tick w)) (w_db (tick w)))).1 =? 0) = false) as Hn.
    { apply update_event_count. eauto. }
    rewrite Hn. wp_step. split; [done|]. exists (status_row status t e).
    cbn [w_db set_conn cn_db]. rewrite update_event_lookup, He. cbn.
    by rewrite bool_decide_true.
  - intros r w' [[Ha _] [Hr He]]. split_and!; [done| |done]. intros j a. rewrite Ha. apply Hc.
Qed.

Lemma end_none {A} w :
  held w → quiet w →
  wp (end_event id "dead" ≫= λ _, mret (M := St world) (A := option A) None)
     (λ v w', v = None ∧ pass_end w') w.
Proof.
  intros Hh Hc. apply wp_bind_St. eapply wp_mono; [by apply end_event_end|].
  intros r w' (_ & Hc' & e & He & Hs). apply wp_ret_St. split; [done|].
  apply (settled_status "dead"); [|done|done]. intros e'. rewrite He. by intros [= <-].
Qed.

Lemma skip_event_end counted w :
  held w → quiet w → wp (skip_event q ev counted) (λ _ w', pass_end w') w.
Proof.
  intros Hh Hc. unfold skip_event. apply wp_bind_St. eapply wp_mono; [by apply end_event_end|].
  intros r w1 (Hr & Hc1 & e & He & Hs). destruct r as [u|x]; [|done]. apply wp_bind_St.
  eapply wp_mono with (Q := λ _ w', w_db w' = w_db w1).
  { destruct counted; [done|by apply wp_ret_St]. }
  intros u2 w2 Hdb; cbn beta in Hdb.
  assert (quiet w2) as Hc2 by (intros j a; unfold acts; rewrite Hdb; apply Hc1).
  destruct (drops_payload q).
  - apply wp_bind_St, wp_run_store. unfold ClearPayload. do 3 wp_step_ok. apply wp_ret_St.
    apply (settled_status "skipped"); [|done|].
    + intros e'. cbn [w_db set_conn cn_db]. rewrite update_event_lookup, Hdb.
      destruct (events (others _ _) !! id) as [e2|] eqn:E2; [|done]. cbn.
      rewrite bool_decide_true by done. cbn. intros [= <-]. cbn.
      assert (status_is "skipped" e = true) as Hsk by (unfold status_is; by rewrite Hs).
      pose proof (rp_skipped id Hresp _ _ _ _ He Hsk E2) as Hsk'.
      unfold status_is in Hsk'. by bool_simpl.
    + intros j a. unfold acts. cbn [w_db set_conn cn_db].
      change (event_actions (update_event ?i ?p ?f ?d).2) with (event_actions d).
      rewrite (rp_actions id) by done. apply Hc2.
  - apply wp_ret_St. apply (settled_status "skipped"); [|done|done].
    intros e'. rewrite Hdb, He. by intros [= <-].
Qed.

Definition vars_post (v : option (gmap string string)) (w : world) : Prop :=
  match v with Some _ => held w ∧ quiet w | None => pass_end w end.

Lemma executionVars_end src w :
  held w → quiet w → wp (executionVars gjson q ev src) vars_post w.
Proof.
  intros Hh Hc. unfold executionVars.
  assert (∀ w, held w → quiet w → wp (end_event id "dead" ≫= λ _,
    mret (M := St world) (A := option (gmap string string)) None) vars_post w) as Hend.
  { intros w' Hh' Hc'. eapply wp_mono; [by apply end_none|]. by intros v w2 [-> He]. }
  assert (∀ m w, wp m (λ _ : unit, pass_end) w →
    wp (m ≫= λ _, mret (M := St world) (A := option (gmap string string)) None) vars_post w) as Hnone.
  { intros m w' Hm. apply wp_bind_St. eapply wp_mono; [exact Hm|]. intros u w2 He. by apply wp_ret_St. }
  destruct (negb _).
  { destruct (vars_unmarshal _) as [[v|]|]; [by apply wp_ret_St|by apply Hend|by apply Hend]. }
  apply wp_bind_St. eapply wp_mono with (Q := λ _ w', held w' ∧ quiet w').
  { destruct (bool_decide _); [|by apply wp_ret_St]. apply wp_bind_St.
    eapply wp_mono; [apply (wp_and _ (λ _ w', idle id w w') (λ _ w', held w'))|].
    - apply idle_store; [done|]. intros c. unfold GetPayload.
      do 2 wp_step; [|done]. by destruct (events _ !! _); wp_step.
    - apply held_store; [done|apply preserves_read_only, read_only_GetPayload|].
      intros c. eapply wp_mono; [apply read_only_GetPayload|]. by intros r c' ->.
    - intros r w' [[Ha _] Hh']. apply wp_ret_St. split; [done|]. intros j a. rewrite Ha. apply Hc. }
  intros p w1 [Hh1 Hc1]. destruct p as [payload|]; [|by apply Hnone, requeue_end].
  destruct (bool_decide _); [by apply Hend|]. destruct (negb _); [by apply Hnone, skip_event_end|].
  apply wp_bind_St. unfold wp at 1, match_rules_cached.
  destruct (Match _ _ _) as [m cache]. cbn [fst snd]. set (w2 := World _ _ _ _ _).
  assert (held w2 ∧ quiet w2) as [Hh2 Hc2] by done.
  destruct m as [[|]|x]; [by apply wp_ret_St|by apply Hnone, skip_event_end|by apply Hend].
Qed.

Lemma finish_pass_end w : held w → quiet w → wp (finish_pass ev) (λ _ w', pass_end w') w.
Proof.
  intros Hh Hc. unfold finish_pass. apply now_step. intros t _. apply wp_bind_St, wp_run_store.
  destruct (held_others (tick w) Hh) as [Hok' (e & He & Hp)].
  eapply wp_mono; [by apply RefreshEventStatus_run|]. cbn [cn_db].
  intros [s|x] c Hr.
  - apply wp_ret_St. destruct Hr as (Hv & _ & Ha & e' & He' & Hst & _). split; [split|].
    + intros e2. cbn. rewrite He'. intros [= <-]. unfold status_is. rewrite Hst.
      by destruct Hv.
    + intros j a. unfold acts. cbn. rewrite Ha, (rp_actions id) by done. apply Hc.
    + intros e2. cbn. rewrite He'. intros [= <-]. right. rewrite Hst.
      destruct Hv as [Hd|Hd He2|Hd|Hd He2].
      all: constructor; unfold has_action in *; cbn; by rewrite Ha.
  - apply requeue_end. split; cbn; destruct Hr as [-> _]; [done|]. by exists e.
Qed.

Lemma process_end src w :
  held w → quiet w → wp (process gjson q ev src) (λ _ w', pass_end w') w.
Proof.
  intros Hh Hc. unfold process. apply wp_bind_St. eapply wp_mono; [by apply executionVars_end|].
  intros v w1 Hv. destruct v as [vars|]; [|by apply wp_ret_St]. destruct Hv as [Hh1 Hc1].
  destruct (vars_marshal vars) as [varsJSON|]; [|by apply requeue_end]. apply now_step. intros t _.
  destruct (held_others (tick w1) Hh1) as [Hok' (e & He & Hp)].
  apply wp_bind_St, wp_run_store. set (db0 := others _ _) in *.
  eapply wp_mono; [apply (wp_and _ (λ _ c', db_ok (cn_db c'))); [by apply PrepareEvent_ok|
    by apply PrepareEvent_run]|]. cbn [cn_db].
  intros r c [Hok2 Hr]. destruct r as [u|x]; [|by destruct Hr as (_ & _ & Hr); rewrite (Hr e He) in Hp].
  destruct Hr as (_ & (e0 & He0 & Hp0 & He2) & Ha). set (w2 := set_conn c (tick w1)).
  assert (held w2) as Hh2.
  { split; [done|]. eexists. split; [exact He2|]. unfold prepared_row. by destruct (drops_payload q). }
  assert (quiet w2) as Hc2.
  { intros j a. unfold acts. cbn. rewrite Ha. unfold db0. rewrite (rp_actions id) by done. cbn.
    destruct (event_actions (w_db w1) !! (id, j)) eqn:E; [intros [= <-]; by apply (Hc1 j)|].
    destruct (_ && _); [by intros [= <-]|done]. }
  apply wp_bind_St. eapply wp_mono; [apply (wp_and _ (λ _ w', idle id w2 w') (λ _ w', held w'))|].
  - apply idle_store; [done|]. intros c'. unfold ListActionStates. by wp_step.
  - apply held_store; [done|apply preserves_read_only, read_only_ListActionStates|].
    intros c'. eapply wp_mono; [apply read_only_ListActionStates|]. by intros r' c2 ->.
  - intros r w3 [[Ha3 _] Hh3].
    assert (quiet w3) as Hc3 by (intros j a; rewrite Ha3; apply Hc2).
    destruct r as [states|x]; [|by apply requeue_end].
    apply wp_bind_St. eapply wp_mono; [by apply process_actions_go|].
    intros go w4 Hg. destruct go; [|by apply wp_ret_St]. destruct Hg. by apply finish_pass_end.
Qed.

(** ** What becomes of a failed attempt *)

(** The row after the end of an attempt. *)
Lemma end_row j f a w :
  acts_ w j = Some a → action_is "running" a = true →
  wp (run_store (updateRunningAction id j f) ≫= or_requeue id)
     (λ go w', go = true ∧ acts_ w' j = Some (f a)) w.
Proof.
  intros Ha Hr. apply wp_bind_St, wp_run_store. unfold updateRunningAction. do 2 wp_step_ok.
  assert (event_actions (others (w_tick w) (w_db w)) !! (id, j) = Some a) as Ha'.
  { by rewrite (rp_actions id). }
  assert (((update_action id j (action_is "running") f (others (w_tick w) (w_db w))).1 =? 0)
    = false) as Hn by (apply update_action_count; eauto).
  rewrite Hn. wp_step. apply wp_ret_St. split; [done|]. unfold acts. cbn [w_db set_conn cn_db].
  rewrite update_action_lookup, Ha'. cbn. by rewrite bool_decide_true, Hr.
Qed.

(** The row of a failed attempt that is retried: after the delay [d] counted
    from [t], unless that is past the deadline. *)
Definition retry_outcome (e : go_error) (d t : Z) (a a' : action_row) : Prop :=
  let detail := RedactSensitive (error_text e) in
  if pe_retry_started_at ev + q_maxRetryAge q <=? t + d
  then ∃ t', a' = dead_row ("retry deadline exceeded: " +:+ detail)%string (unix_milli t') a
  else a' = retry_row (unix_milli (t + d)) detail (duration_ms (RetryAfter (Some e))) a.

Definition failure_outcome (attempt : Z) (e : go_error) (a : action_row) (go : bool)
    (a' : action_row) : Prop :=
  if go then
    if IsNonRetryable (Some e) || (q_maxRetries q + 1 <=? attempt)
    then ∃ t, a' = dead_row (RedactSensitive (error_text e)) (unix_milli t) a
    else ∃ d t, retry_outcome e d t a a' ∧
      (if RetryAfter (Some e) <=? 0 then 0 ≤ d ≤ retry_cap q attempt else d = RetryAfter (Some e))
  else a' = release_action a.

Lemma after_failure_row j attempt e a w :
  held w → acts_ w j = Some a → action_is "running" a = true →
  0 < retry_cap q attempt < 2^62 →
  wp (after_failure q ev j attempt e) (λ go w', ∃ a', acts_ w' j = Some a' ∧
    failure_outcome attempt e a go a') w.
Proof.
  intros Hh Ha Hr Hcap. unfold after_failure. apply canceled_step. intros c.
  assert (held (tick w) ∧ acts_ (tick w) j = Some a) as Hw by done. revert Hw.
  generalize (tick w). clear w Hh Ha. intros w [Hh Ha]. destruct (c || _).
  { apply wp_bind_St. destruct (held_others w Hh) as [Hok' (e' & He' & Hp)].
    apply wp_bind_St, wp_run_store. eapply wp_mono; [by apply RequeueEvent_run|].
    intros [u|x] c' Hc.
    - apply wp_ret_St, wp_ret_St. exists (release_action a). split; [|done].
      destruct Hc as (_ & _ & Hac). unfold acts. cbn [w_db set_conn]. rewrite Hac. cbn [cn_db].
      rewrite (rp_actions id) by done. unfold acts in Ha. rewrite Ha. cbn. by rewrite Hr.
    - destruct Hc as [_ Hc]. cbn [cn_db] in Hc. by rewrite (Hc e' He') in Hp. }
  unfold failure_outcome. destruct (_ || _).
  { apply now_step. intros t _. eapply wp_mono; [by apply end_row|].
    intros go w' [-> Ha']. eauto. }
  apply wp_bind_St. eapply wp_mono with (Q := λ d w', w_db w' = w_db w ∧
    (if RetryAfter (Some e) <=? 0 then 0 ≤ d ≤ retry_cap q attempt else d = RetryAfter (Some e))).
  { destruct (_ <=? 0); [|by apply wp_ret_St].
    eapply wp_mono; [apply jitter_range; lia|]. by intros d w' [? ?]. }
  intros d w1 [Hdb Hd]. apply now_step. intros t _.
  assert (acts_ (tick w1) j = Some a) as Ha1.
  { unfold acts. cbn [w_db tick]. rewrite Hdb. exact Ha. }
  destruct (_ <=? t + d) eqn:Hdl.
  - apply now_step. intros t' _. eapply wp_mono; [by apply end_row|].
    intros go w' [-> Ha']. eexists. split; [exact Ha'|]. exists d, t. split; [|done].
    unfold retry_outcome. rewrite Hdl. by exists t'.
  - eapply wp_mono; [by apply end_row|]. intros go w' [-> Ha']. eexists. split; [exact Ha'|].
    exists d, t. split; [|done]. unfold retry_outcome. by rewrite Hdl.
Qed.

End Outcome.
