(* ===== verification/QueueTiming.v ===== *)
(** * Delays, leases and deadlines of the worker

    The arithmetic of the worker on 64-bit durations: the back-off does not
    overflow and is the capped doubling it stands for, the lease covers a pass
    over any source, and an event past its retry age dispatches nothing. *)

From S2P Require Import Prelude GoLib Sql StoreSchema Store StoreLookup StoreInv StoreCalls StoreSpec StoreLifecycle StoreOutcome Config Handler Policy Queue QueueSteps QueuePass.

(** ** The back-off *)

(** The doubling loop computes min(base * 2^n, max) as long as max + max fits. *)
Lemma backoff_spec maxDelay n cap :
  0 < cap → 2 * maxDelay < 2^63 →
  Z.min maxDelay (backoff maxDelay n cap) = Z.min maxDelay (cap * 2 ^ Z.of_nat n).
Proof.
  intros Hc Hm. revert cap Hc. induction n as [|n IH]; intros cap Hc; cbn [backoff].
  { by rewrite Z.mul_1_r. }
  assert (1 ≤ 2 ^ Z.of_nat n) as Hp by (pose proof (Z.pow_pos_nonneg 2 (Z.of_nat n)); lia).
  rewrite Nat2Z.inj_succ, Z.pow_succ_r by lia.
  destruct (Z.ltb_spec cap maxDelay); [|rewrite !Z.min_l; nia].
  pose proof (Z.quot_div_nonneg maxDelay 2 ltac:(lia) ltac:(lia)) as Hq. rewrite Hq.
  pose proof (Z.div_mod maxDelay 2 ltac:(lia)) as Hdm.
  pose proof (Z.mod_pos_bound maxDelay 2 ltac:(lia)) as Hmb.
  destruct (Z.ltb_spec (maxDelay / 2) cap).
  - rewrite Z.min_id, Z.min_l; nia.
  - rewrite wrap64_id by (unfold int64_ok; lia). rewrite IH by lia. f_equal. ring.
Qed.

Section Timing.
Context `{Env, SqlOrder, Regexp, Json, Url, Peers}.

(** The queue parameters a validated configuration gives. *)
Record timing_ok (q : Queue) : Prop := {
  to_base : 0 < q_retryBase q;
  to_max : q_retryBase q ≤ q_maxRetryDelay q;
  to_fits : q_maxRetryDelay q ≤ 7 * 24 * Hour;
}.

Lemma week_fits : 2 * (7 * 24 * Hour) < 2^63.
Proof. done. Qed.

Lemma retry_cap_spec q attempt :
  timing_ok q → 1 ≤ attempt →
  retry_cap q attempt = Z.min (q_maxRetryDelay q) (q_retryBase q * 2 ^ (attempt - 1)).
Proof.
  intros [Hb Hm Hf] Ha. unfold retry_cap. pose proof week_fits.
  replace (2 ^ (attempt - 1)) with (2 ^ Z.of_nat (Z.to_nat (attempt - 1))) by (rewrite Z2Nat.id; lia).
  rewrite <- backoff_spec by lia.
  destruct (Z.ltb_spec (q_maxRetryDelay q) (backoff (q_maxRetryDelay q) (Z.to_nat (attempt - 1))
    (q_retryBase q))); [rewrite Z.min_l; lia|rewrite Z.min_r; lia].
Qed.

Lemma retry_cap_bounds q attempt :
  timing_ok q → 1 ≤ attempt → 0 < retry_cap q attempt ≤ q_maxRetryDelay q.
Proof.
  intros Hq Ha. rewrite retry_cap_spec by done. destruct Hq as [Hb Hm Hf].
  assert (1 ≤ 2 ^ (attempt - 1)) by (pose proof (Z.pow_pos_nonneg 2 (attempt - 1)); lia).
  split; [|lia]. apply Z.min_glb_lt; nia.
Qed.

(** ** Leases *)

(** The time of one pass without the wrap-around of the machine. *)
Definition exact_pass (actions : list ActionConfig) : Z :=
  foldr (λ ac t, actionTimeout ac + t) 0 actions.

Lemma actionTimeout_pos ac : 0 < actionTimeout ac.
Proof.
  unfold actionTimeout. destruct (bool_decide _); [|done]. destruct (Z.ltb_spec 0 (ac_timeout ac)); done.
Qed.

Lemma exact_pass_nonneg actions : 0 ≤ exact_pass actions.
Proof.
  induction actions as [|ac actions IH]; [done|].
  change (exact_pass (ac :: actions)) with (actionTimeout ac + exact_pass actions).
  pose proof (actionTimeout_pos ac). lia.
Qed.

Lemma pass_time_from pass actions :
  0 ≤ pass → pass + exact_pass actions < 2^63 →
  foldl (λ pass ac, wrap64 (pass + actionTimeout ac)) pass actions = pass + exact_pass actions.
Proof.
  revert pass. induction actions as [|ac actions IH]; intros pass Hp Hb; [cbn; lia|].
  change (exact_pass (ac :: actions)) with (actionTimeout ac + exact_pass actions) in *.
  cbn [foldl]. pose proof (exact_pass_nonneg actions). pose proof (actionTimeout_pos ac).
  rewrite wrap64_id by (unfold int64_ok; lia). rewrite IH; lia.
Qed.

Lemma pass_time_exact actions : exact_pass actions < 2^63 → pass_time actions = exact_pass actions.
Proof. intros Hb. unfold pass_time. rewrite pass_time_from; lia. Qed.

(** The longest pass over the sources. *)
Lemma longest_ge sources longest src :
  let f := λ longest src, let pass := pass_time (so_actions src) in
             if longest <? pass then pass else longest in
  longest ≤ foldl f longest sources ∧
  (src ∈ sources → pass_time (so_actions src) ≤ foldl f longest sources).
Proof.
  intros f. revert longest. induction sources as [|s sources IH]; intros longest; cbn.
  { split; [lia|]. by intros ?%elem_of_nil. }
  destruct (IH (f longest s)) as [Hl Hs]. assert (longest ≤ f longest s ∧ pass_time (so_actions s) ≤ f longest s) as [].
  { unfold f. destruct (Z.ltb_spec longest (pass_time (so_actions s))); lia. }
  split; [lia|]. intros [->|Hin]%elem_of_cons; [lia|auto].
Qed.

Lemma longest_le sources longest bound :
  longest ≤ bound → (∀ src, src ∈ sources → pass_time (so_actions src) ≤ bound) →
  foldl (λ longest src, let pass := pass_time (so_actions src) in
           if longest <? pass then pass else longest) longest sources ≤ bound.
Proof.
  revert longest. induction sources as [|s sources IH]; intros longest Hl Hs; cbn; [done|].
  apply IH; [|intros src Hin; apply Hs; by right].
  specialize (Hs s ltac:(by left)). by destruct (longest <? _).
Qed.

(** The lease covers one pass over each source plus the margin. *)
Lemma computeLease_covers cfg src :
  (∀ s, s ∈ cf_sources cfg → exact_pass (so_actions s) ≤ 2^62) →
  src ∈ cf_sources cfg →
  exact_pass (so_actions src) + leaseSafetyMargin ≤ computeLease (Some cfg) ∧
  5 * Minute ≤ computeLease (Some cfg).
Proof.
  intros Hb Hin. unfold computeLease. set (longest := foldl _ _ _).
  assert (pass_time (so_actions src) ≤ longest) as Hge by (by apply longest_ge).
  assert (longest ≤ 2^62) as Hle.
  { apply longest_le; [done|]. intros s Hs. specialize (Hb s Hs). rewrite pass_time_exact; lia. }
  assert (0 ≤ longest) as Hpos.
  { etrans; [|exact (proj1 (longest_ge (cf_sources cfg) defaultHTTPActionTimeout src))]. by vm_compute. }
  specialize (Hb src Hin). rewrite pass_time_exact in Hge by lia.
  assert (leaseSafetyMargin = 120000000000) as Hm by done.
  rewrite wrap64_id by (unfold int64_ok; lia).
  destruct (Z.ltb_spec (longest + leaseSafetyMargin) (5 * Minute)); lia.
Qed.

(** The heartbeat renews a lease at least three times before it ends. *)
Lemma heartbeat_thrice q : 5 * Minute ≤ q_lease q → 3 * heartbeat_interval q ≤ q_lease q.
Proof.
  intros Hl. unfold heartbeat_interval. assert (Minute = 60000000000) as Hm by done.
  assert (15 * Second = 15000000000) as Hs by done. rewrite Hs.
  pose proof (Z.quot_div_nonneg (q_lease q) 3 ltac:(lia) ltac:(lia)) as ->.
  pose proof (Z.mul_div_le (q_lease q) 3 ltac:(lia)).
  destruct (Z.ltb_spec (q_lease q / 3) 15000000000); lia.
Qed.

(** ** The retry-age deadline *)

Context (gjson : string → string → option string).
Context (q : Queue) (ev : PendingEvent).
Context (Hresp : respects (pe_id ev)).
#[local] Abbreviation id := (pe_id ev).
#[local] Abbreviation acts_ := (acts (pe_id ev)).

(** Every reading of the clock is past the deadline of the event. *)
Definition past_deadline : Prop :=
  ∀ m, pe_retry_started_at ev + q_maxRetryAge q ≤ clock m.

(** The states the worker read are those of the rows from [i] on. *)
Definition states_from (i : Z) (states : gmap Z ActionState) (w : world) : Prop :=
  ∀ j, i ≤ j → states !! j = action_state j <$> acts_ w j.

(** The rows from [i] on are left alone when the loop goes on. *)
Definition late_post (i : Z) (w : world) (go : bool) (w' : world) : Prop :=
  w_trace w' = w_trace w ∧ (go = true → ∀ j, i < j → acts_ w' j = acts_ w j).

Lemma requeue_late i w : wp (requeue id ≫= λ _, mret false) (late_post i w) w.
Proof using Hresp.
  apply wp_bind_St. eapply wp_mono; [apply (requeue_step id Hresp 1)|].
  intros u w' [Ht _]. by apply wp_ret_St.
Qed.

Lemma or_requeue_late i r w : wp (or_requeue id r) (late_post i w) w.
Proof using Hresp. destruct r as [u|e]; [by apply wp_ret_St|apply requeue_late]. Qed.

Lemma late_idle i w1 w2 go w3 :
  idle id w1 w2 → late_post i w2 go w3 → late_post i w1 go w3.
Proof.
  intros [Ha Ht] [T O]. split; [congruence|]. intros Hgo j Hj. by rewrite O, Ha.
Qed.

Lemma process_action_late vars states j ac w :
  past_deadline → states_from j states w →
  wp (process_action q ev vars states j ac) (late_post j w) w.
Proof using Hresp.
  intros Hpast Hst. specialize (Hst j ltac:(lia)). unfold process_action. apply canceled_step.
  intros c. change (acts_ w j) with (acts_ (tick w) j) in Hst.
  change (late_post j w) with (late_post j (tick w)). revert Hst. generalize (tick w). clear w.
  intros w Hst. destruct c; [apply requeue_late|].
  destruct (states !! j) as [state|] eqn:Hs; [|by apply wp_ret_St].
  destruct (one_of _ _); [by apply wp_ret_St|]. apply now_step. intros t Ht.
  assert ((pe_retry_started_at ev + q_maxRetryAge q <=? t) = true) as ->.
  { rewrite Ht. by apply Z.leb_le. }
  change (acts_ w j) with (acts_ (tick w) j) in Hst.
  change (late_post j w) with (late_post j (tick w)). revert Hst. generalize (tick w). clear w Ht.
  intros w Hst. rewrite andb_true_r.
  destruct (acts_ w j) as [a|] eqn:Ha; [|done]. cbn in Hst. injection Hst as ->.
  cbn [as_status action_state].
  destruct (one_of (ac_status a) ["pending"; "retrying"]%string) eqn:Hw.
  { apply wp_bind_St. eapply wp_mono; [by apply (expire_step id)|]. intros [u|e] w' [Ht Hr].
    - destruct Hr as (a1 & a2 & _ & _ & _ & Ho). apply wp_ret_St. split; [done|].
      intros _ j' Hj. apply Ho. lia.
    - eapply wp_mono; [apply (or_requeue_late j)|]. intros go w''. by apply late_idle. }
  destruct (bool_decide _ && _); [by apply wp_ret_St|].
  apply wp_bind_St. eapply wp_mono; [by apply (start_step id)|]. intros [attempt|e] w' [Ht Hr].
  - destruct Hr as (a1 & a2 & Ha1 & _ & (Hd & _) & _). exfalso. simplify_eq.
    assert (action_waiting a = true) as Hwt by (unfold action_due in Hd; by bool_simpl).
    unfold action_waiting, action_is in Hwt. apply orb_true_iff in Hwt.
    destruct Hwt as [Hwt|Hwt]; apply bool_decide_eq_true in Hwt; by rewrite Hwt in Hw.
  - assert (wp (requeue id ≫= λ _, mret (M := St world) false) (late_post j w) w') as Hreq.
    { eapply wp_mono; [apply (requeue_late j)|]. intros go w''. by apply late_idle. }
    destruct e; try exact Hreq. apply wp_ret_St. destruct Hr as [Hra Hrt]. split; [done|]. auto.
Qed.

Lemma process_actions_late vars states actions i w :
  past_deadline → states_from i states w →
  wp (process_actions q ev vars states i actions) (λ _ w', w_trace w' = w_trace w) w.
Proof using Hresp.
  intros Hpast. revert i w. induction actions as [|ac actions IH]; intros i w Hst; cbn [process_actions].
  { by apply wp_ret_St. }
  apply wp_bind_St. eapply wp_mono; [by apply process_action_late|].
  intros [] w1 [T O]; [|by apply wp_ret_St].
  eapply wp_mono; [apply IH|intros ? w2 T2; by rewrite T2].
  intros j Hj. rewrite O by (done || lia). apply Hst. lia.
Qed.

(** The map built from the listed states. *)
Lemma state_by_index_lookup (l : list ActionState) (m : gmap Z ActionState) j :
  foldl (λ m s, <[as_index s := s]> m) m l !! j =
  match last (filter (λ s, as_index s = j) l) with Some s => Some s | None => m !! j end.
Proof.
  revert m. induction l as [|s l IH]; intros m; [done|]. cbn [foldl]. rewrite IH, filter_cons.
  destruct (decide (as_index s = j)) as [<-|Hne].
  - rewrite last_cons. destruct (last _); [done|]. by rewrite lookup_insert_eq.
  - destruct (last _); [done|]. by rewrite lookup_insert_ne.
Qed.

Lemma select_states_elem db s :
  s ∈ select_action_states id db ↔
  ∃ j a, event_actions db !! (id, j) = Some a ∧ s = action_state j a.
Proof.
  unfold select_action_states. rewrite list_elem_of_fmap. split.
  - intros ([[id' j] a] & -> & Hin). rewrite order_by_perm in Hin. unfold rows in Hin.
    rewrite elem_of_map_to_list, select_lookup_Some in Hin. destruct Hin as [Ha Hid].
    cbn in Hid. bool_simpl. subst. eauto.
  - intros (j & a & Ha & ->). exists (id, j, a). split; [done|]. rewrite order_by_perm.
    unfold rows. rewrite elem_of_map_to_list, select_lookup_Some. cbn. by rewrite bool_decide_true.
Qed.

Lemma state_by_index_select db j :
  state_by_index (select_action_states id db) !! j =
  action_state j <$> event_actions db !! (id, j).
Proof.
  unfold state_by_index. rewrite state_by_index_lookup, lookup_empty.
  destruct (last _) as [s|] eqn:Hl.
  - assert (s ∈ filter (λ s, as_index s = j) (select_action_states id db)) as Hin.
    { by apply last_Some_elem_of. }
    apply list_elem_of_filter in Hin as [Hj Hin].
    apply select_states_elem in Hin as (j' & a & Ha & ->). cbn in Hj. subst. by rewrite Ha.
  - destruct (event_actions db !! (id, j)) as [a|] eqn:Ha; [|done]. exfalso.
    apply last_None in Hl.
    assert (action_state j a ∈ filter (λ s, as_index s = j) (select_action_states id db)) as Hin.
    { apply list_elem_of_filter. split; [done|]. apply select_states_elem. eauto. }
    rewrite Hl in Hin. by apply elem_of_nil in Hin.
Qed.

(** *** Everything but a call of [Handle] dispatches nothing. *)

Definition silent {A} (m : St world A) : Prop := ∀ w, wp m (λ _ w', w_trace w' = w_trace w) w.

Lemma silent_bind {A B} (m : St world A) (f : A → St world B) :
  silent m → (∀ a, silent (f a)) → silent (m ≫= f).
Proof.
  intros Hm Hf w. apply wp_bind_St. eapply wp_mono; [apply Hm|]. intros a w1 T1.
  eapply wp_mono; [apply Hf|]. intros b w2 T2; cbn beta in *. congruence.
Qed.

Lemma silent_ret {A} (a : A) : silent (mret a).
Proof. done. Qed.

Lemma silent_store {A} (m : M (conn DB) store_err A) : silent (run_store m).
Proof. intros w. unfold wp, run_store. by destruct (m _). Qed.

Lemma silent_now : silent now.
Proof. done. Qed.

Lemma silent_match rules vars : silent (match_rules_cached rules vars).
Proof. intros w. unfold wp, match_rules_cached. by destruct (Match _ _ _). Qed.

Lemma silent_requeue i : silent (requeue i).
Proof. apply silent_bind; [apply silent_store|done]. Qed.

Lemma silent_end i status : silent (end_event i status).
Proof. apply silent_bind; [apply silent_now|intros; apply silent_store]. Qed.

Lemma silent_skip counted : silent (skip_event q ev counted).
Proof.
  apply silent_bind; [apply silent_end|]. intros []; [|apply silent_requeue].
  apply silent_bind; [by destruct counted|]. intros _. destruct (drops_payload q); [|done].
  apply silent_bind; [apply silent_store|done].
Qed.

Lemma silent_vars src : silent (executionVars gjson q ev src).
Proof.
  assert (∀ m : St world unit, silent m →
    silent (m ≫= λ _, mret (A := option (gmap string string)) None)) as Hnone.
  { intros m Hm. by apply silent_bind. }
  assert (silent (end_event id "dead" ≫= λ _, mret (A := option (gmap string string)) None)) as Hdead.
  { apply silent_bind; [apply silent_end|done]. }
  unfold executionVars. destruct (negb _).
  { by destruct (vars_unmarshal _) as [[v|]|]. }
  apply silent_bind.
  { destruct (bool_decide _); [|done]. by apply silent_bind; [apply silent_store|]. }
  intros [payload|]; [|apply Hnone, silent_requeue]. destruct (bool_decide _); [done|].
  destruct (negb _); [apply Hnone, silent_skip|]. apply silent_bind; [apply silent_match|].
  intros [[]|]; [done|apply Hnone, silent_skip|done].
Qed.

Lemma silent_finish : silent (finish_pass ev).
Proof.
  apply silent_bind; [apply silent_now|]. intros t. apply silent_bind; [apply silent_store|].
  intros []; [done|apply silent_requeue].
Qed.

(** The states the loop works on are those of the rows after ListActionStates. *)
Lemma list_states_run w :
  wp (run_store (ListActionStates id)) (λ r w', w_trace w' = w_trace w ∧
    ∀ l, r = Ok l → ∀ j, state_by_index l !! j = action_state j <$> acts_ w' j) w.
Proof.
  apply wp_run_store. unfold ListActionStates. wp_step; (split; [done|]); [|done].
  intros l [= <-] j. apply state_by_index_select.
Qed.

Lemma process_late src w :
  past_deadline → wp (process gjson q ev src) (λ _ w', w_trace w' = w_trace w) w.
Proof using Hresp.
  intros Hpast. unfold process. apply wp_bind_St. eapply wp_mono; [apply silent_vars|].
  intros v w1 T1; cbn beta in T1.
  assert (∀ (m : St world unit) w2, w_trace w2 = w_trace w → silent m →
    wp m (λ _ w', w_trace w' = w_trace w) w2) as Hsil.
  { intros m w2 T2 Hm. eapply wp_mono; [apply Hm|]. intros u w3 T3; cbn beta in T3. congruence. }
  destruct v as [vars|]; [|by apply Hsil]. destruct (vars_marshal vars); [|by apply Hsil, silent_requeue].
  apply now_step. intros t _. apply wp_bind_St. eapply wp_mono; [apply silent_store|].
  intros r w2 T2; cbn beta in T2. change (w_trace (tick w1)) with (w_trace w1) in T2.
  destruct r; [|apply Hsil; [congruence|apply silent_requeue]].
  apply wp_bind_St. eapply wp_mono; [apply list_states_run|]. intros r w3 [T3 Hst].
  destruct r as [states|]; [|apply Hsil; [congruence|apply silent_requeue]].
  apply wp_bind_St. eapply wp_mono; [apply process_actions_late; [done|]|].
  { intros j _. by apply Hst. }
  intros go w4 T4; cbn beta in T4. destruct go; apply Hsil; try congruence; [apply silent_finish|done].
Qed.

End Timing.
