(* ===== verification/QueueProps.v ===== *)
(** * The properties of the event worker

    What one pass over an event dispatches and how it leaves the event, under
    every behaviour of the handlers, the driver and the other goroutines the
    hypotheses allow. *)

From S2P Require Import Prelude GoLib Sql StoreSchema Store StoreLookup StoreInv StoreCalls StoreSpec StoreLifecycle StoreOutcome StoreSafety StorePeers Config Handler Policy Queue QueueSteps QueuePass QueueOutcome QueueTiming.

Section Claims.
Context `{Env, SqlOrder, Regexp, Json, Url, Peers}.
Context (gjson : string → string → option string).

(** C1: whatever the driver and the handlers do, one pass over an event
    dispatches each action of its plan at most once, in the order of the plan,
    only when its row was waiting (an action that is done, dead or running is
    never dispatched), as the attempt after those already counted, and never
    beyond max_retries + 1; the attempt budget holds again after the pass. *)
Theorem pass_dispatches (q : Queue) (ev : PendingEvent) (src : Source) (w w' : world) :
  respects (pe_id ev) → 0 ≤ q_maxRetries q → db_ok (w_db w) →
  budget (pe_id ev) (q_maxRetries q + 1) w → process gjson q ev src w = (tt, w') →
  budget (pe_id ev) (q_maxRetries q + 1) w' ∧
  ∃ new, w_trace w' = w_trace w ++ new ∧
    StronglySorted Z.lt ((λ d, md_action_index (di_meta d)) <$> new) ∧
    Forall (λ d, md_event_id (di_meta d) = pe_id ev ∧
      1 ≤ md_attempt (di_meta d) ≤ q_maxRetries q + 1 ∧
      ∃ k, so_actions src !! k = Some (di_action d) ∧ md_action_index (di_meta d) = Z.of_nat k ∧
        ∀ a, event_actions (w_db w) !! (pe_id ev, Z.of_nat k) = Some a →
          action_waiting a = true ∧ md_attempt (di_meta d) = ac_attempt_count a + 1) new.
Proof.
  intros Hresp Hpos Hok Hb Hrun.
  destruct (wp_run _ _ _ _ _ (process_step gjson q ev Hresp Hpos src w Hb) Hrun)
    as (Hb' & vars & ms & new & Ht & Hs & Hf).
  split; [done|]. exists new. split_and!; [done|done|]. eapply Forall_impl; [exact Hf|].
  intros d (k & ac & Hk & a & Ha & Hw & Hatt & Hm & Hac & _). rewrite Z.add_0_l in Ha, Hm.
  rewrite Hm. cbn [md_event_id md_attempt md_action_index]. subst ac. unfold planned, acts in Ha.
  destruct (event_actions (w_db w) !! (pe_id ev, Z.of_nat k)) as [a0|] eqn:Ha0.
  - injection Ha as ->. destruct (Hb (Z.of_nat k) a Ha0) as [Hlt _]. specialize (Hlt Hw).
    assert (0 ≤ ac_attempt_count a) by (destruct (dok_actions _ Hok _ _ Ha0); lia).
    split_and!; [done|lia|lia|]. exists k. split_and!; [done|done|]. naive_solver.
  - destruct (_ && _); [|done]. injection Ha as <-. cbn. split_and!; [done|lia|lia|].
    exists k. split_and!; [done|done|]. naive_solver.
Qed.


(** Once the retry age of an event has passed, a pass over it calls no
    handler at all, whatever its actions were waiting for. *)
Theorem expired_event_dispatches_nothing (q : Queue) (ev : PendingEvent) (src : Source) (w w' : world) :
  respects (pe_id ev) → past_deadline q ev → process gjson q ev src w = (tt, w') →
  w_trace w' = w_trace w.
Proof.
  intros Hresp Hpast Hrun. exact (wp_run _ _ _ _ _ (process_late gjson q ev Hresp src w Hpast) Hrun).
Qed.


(** The cap of the retry delay is the doubling of the base delay,
    limited by max_retry_delay, with no overflow for any attempt number; the
    jittered delay lies between zero and that cap. *)
Theorem retryDelay_spec (q : Queue) (attempt : Z) (w : world) :
  timing_ok q → 1 ≤ attempt →
  0 ≤ (retryDelay q attempt w).1 ≤
    Z.min (q_maxRetryDelay q) (q_retryBase q * 2 ^ (attempt - 1)).
Proof.
  intros Hq Ha. rewrite <- retry_cap_spec by done. pose proof (retry_cap_bounds q attempt Hq Ha).
  pose proof week_fits. destruct (jitter_range (retry_cap q attempt) w) as [Hj _]; [lia| |exact Hj].
  destruct Hq as [_ _ Hf]. lia.
Qed.

(** The lease of a queue built from a configuration covers, with a
    margin of two minutes, the time limits of all actions of each source one
    after the other, as long as such a sum is a duration at all, and the
    heartbeat renews it at least three times before it ends. *)
Theorem lease_covers_pass (qc : QueueConfig) reg (cfg : Config) owner (src : Source) :
  (∀ s, s ∈ cf_sources cfg → exact_pass (so_actions s) ≤ 2^62) → src ∈ cf_sources cfg →
  let q := (New qc reg (Some cfg) owner).1 in
  exact_pass (so_actions src) + 2 * Minute ≤ q_lease q ∧ 3 * heartbeat_interval q ≤ q_lease q.
Proof.
  intros Hb Hin q. destruct (computeLease_covers cfg src Hb Hin) as [H1' H2'].
  split; [exact H1'|]. by apply heartbeat_thrice.
Qed.

(** What the worker's theorems assume of the other goroutines holds of
    every sequence of their store calls made before the lease ends: the event
    stays with its holder and the rows of its actions do not change. *)
Theorem peers_leave_leased_event_alone id owner untilMS (calls : list store_call) (c : conn DB) :
  holds id owner untilMS (cn_db c) → Forall (peer_call id untilMS) calls →
  let db' := cn_db (run_calls calls c) in
  holds id owner untilMS db' ∧
  ∀ j, event_actions db' !! (id, j) = event_actions (cn_db c) !! (id, j).
Proof.
  intros Hh Hcalls. by apply (peers_guarded id owner untilMS (λ j, event_actions (cn_db c) !! (id, j))).
Qed.

(** A completed action stays completed, unchanged, through every
    sequence of store calls, failing or not, recovery and replay included,
    until retention deletes its event: with the dispatch theorem, an action
    that succeeded is not delivered again. *)
Theorem completed_action_is_final id j (a : action_row) (calls : list store_call) (c : conn DB) :
  event_actions (cn_db c) !! (id, j) = Some a → action_is "done" a = true →
  Forall not_purge calls →
  event_actions (cn_db (run_calls calls c)) !! (id, j) = Some a.
Proof. intros Ha Hd Hcalls. by apply calls_stay. Qed.

End Claims.

(** ** A concrete worker *)

Module Demo.
#[local] Open Scope string_scope.

#[export] Instance env : Env := calm (100 * Second) Second.
#[export] Instance regexps : Regexp := literal_regexp.

(** The only variables of the demo are none. *)
#[export] Program Instance json : Json := {|
  snapshot_marshal _ := None;
  snapshot_unmarshal _ := None;
  vars_marshal m := if bool_decide (m = ∅) then Some "{}" else None;
  vars_unmarshal raw := if bool_decide (raw = "{}") then Some (Some ∅) else None;
  json_safe _ := true;
  plans_marshal _ := None;
  json_valid _ := true;
|}.
Next Obligation. done. Qed.
Next Obligation. intros m raw. cbn. case_bool_decide; [|done]. intros [= <-] _. by subst. Qed.
Next Obligation. done. Qed.

#[export] Instance urls : Url := plain_url.

#[export] Instance peers : Peers := {| others _ db := db; stop_requested _ := false |}.

Definition no_gjson (_ _ : string) : option string := None.

(** Action 1 answers 503 with Retry-After 30 s. *)
Definition busy : go_error := ErrWrap "post: http status 503: busy" [ErrHTTP (MkHTTPError 503 "busy" (30 * Second))].

Definition http : handler := MkHandler "http" (λ _ meta _ _,
  (MkResult "https://chat.example" "",
   if (md_action_index meta =? 1)%Z then Some busy else None)).

Definition action : ActionConfig := MkAction "http" "https://chat.example" "" ∅ "" [] false "" [] 0.
Definition source : Source := MkSource "github" no_auth ∅ [] [action; action; action] None None.

Definition queue (age : Z) : Queue :=
  MkQueue 1 1 2 Second (15 * Minute) age (5 * Minute) "w1" (NewRegistry [http]) None.

Definition leased_row : event_row :=
  set_lease_owner (Some "w1") (set_lease_until (Some (400 * Second)) (Some 400000%Z)
    (set_status "processing" (new_event_row "github" "10.0.0.1" "{}" (5 * Second) "d-1" "ab" "" ""))).

Definition done_action : action_row := ActionRow "done" 1 None None None (Some 7000%Z).
Definition retry_action : action_row := ActionRow "retrying" 1 (Some 90000%Z) (Some "busy") (Some 0%Z) None.
Definition running_action : action_row := ActionRow "running" 2 None (Some "busy") (Some 0%Z) None.

Definition db_with (a : action_row) : DB := MkDB {["e1" := leased_row]}
  {[("e1", 0%Z) := done_action; ("e1", 1%Z) := a]} [] 0 ∅ ∅ [] 0.

Definition event1 : PendingEvent :=
  MkPendingEvent "e1" "github" "10.0.0.1" "{}" "{}" "d-1" (5 * Second) (5 * Second) "" "" 0.

Definition world_with (a : action_row) : world :=
  World (db_with a) 0 [] (NewCounters []) empty_cache.

Lemma db_with_ok a : action_ok a → db_ok (db_with a).
Proof.
  intros Ha. assert (∀ id e, events (db_with a) !! id = Some e → id = "e1" ∧ e = leased_row) as Hev.
  { intros id e. cbn [events db_with]. rewrite lookup_singleton_Some. naive_solver. }
  assert (∀ (k : string * Z) x, event_actions (db_with a) !! k = Some x →
    (x = done_action ∨ x = a) ∧ k.1 = "e1" ∧ (0 ≤ k.2)%Z) as Hac.
  { intros k x. cbn [event_actions db_with]. rewrite !lookup_insert_Some, lookup_singleton_Some.
    naive_solver lia. }
  split.
  - intros id e He. destruct (Hev _ _ He) as [_ ->]. split; vm_compute; intros; try done; eauto.
  - intros k x Hx. destruct (Hac _ _ Hx) as [[->| ->] _]; [|done].
    apply aok_done; vm_compute; eauto; done.
  - intros id i x Hx. destruct (Hac _ _ Hx) as (_ & Hk & _). cbn in Hk. subst. by eexists.
  - intros id i x Hx. by destruct (Hac _ _ Hx) as (_ & _ & ?).
  - intros id1 id2 e1 e2 d He1 He2. destruct (Hev _ _ He1), (Hev _ _ He2). naive_solver.
Qed.

Lemma retry_ok : action_ok retry_action.
Proof. apply aok_retrying; vm_compute; eauto; done. Qed.

Lemma running_ok : action_ok running_action.
Proof. apply aok_running; vm_compute; eauto; done. Qed.

Lemma peers_respect id : respects id.
Proof. split; naive_solver. Qed.

(** The rows of the demo event. *)
Lemma acts_with a j x : acts "e1" (world_with a) j = Some x →
  (j = 0%Z ∧ x = done_action) ∨ (j = 1%Z ∧ x = a).
Proof.
  unfold acts. cbn [w_db world_with event_actions db_with].
  rewrite lookup_insert_Some, lookup_singleton_Some. naive_solver.
Qed.

Lemma retry_held : held event1 (world_with retry_action).
Proof. split; [apply db_with_ok, retry_ok|]. by exists leased_row. Qed.

Lemma running_held : held event1 (world_with running_action).
Proof. split; [apply db_with_ok, running_ok|]. by exists leased_row. Qed.

End Demo.

Section Witnesses.
#[local] Open Scope string_scope.
Import Demo.

#[local] Abbreviation pass := (process no_gjson (queue (24 * Hour)) event1 source).

(** Action 0 is done, action 1 retries and fails, action 2 is new and succeeds. *)
Lemma pass_dispatches_witness :
  (md_action_index ∘ di_meta <$> w_trace (pass (world_with retry_action)).2) = [1%Z; 2%Z] ∧
  budget "e1" 3 (pass (world_with retry_action)).2.
Proof.
  split; [vm_compute; reflexivity|].
  apply (pass_dispatches no_gjson (queue (24 * Hour)) event1 source (world_with retry_action)).
  - apply peers_respect.
  - vm_compute. done.
  - apply db_with_ok, retry_ok.
  - intros j a [[-> ->]|[-> ->]]%acts_with; split; vm_compute; done.
  - by destruct (pass _) as [[] w'].
Defined.


Lemma expired_event_dispatches_nothing_witness :
  w_trace (process no_gjson (queue (60 * Second)) event1 source (world_with retry_action)).2 = [].
Proof.
  apply (expired_event_dispatches_nothing no_gjson (queue (60 * Second)) event1 source
    (world_with retry_action)).
  - apply peers_respect.
  - intros m. change (65 * Second ≤ 100 * Second + Z.of_nat m * Second)%Z.
    unfold Second, Millisecond. lia.
  - by destruct (process _ _ _ _ _) as [[] w'].
Defined.


Lemma retryDelay_spec_witness :
  (0 ≤ (retryDelay (queue (24 * Hour)) 4 (world_with retry_action)).1 ≤ 8 * Second)%Z.
Proof.
  apply (retryDelay_spec (queue (24 * Hour)) 4 (world_with retry_action)); [|lia].
  split; vm_compute; done.
Defined.

Definition demo_config : Config :=
  MkConfig (MkServerConfig "" [] 0 0 (MkRates no_rate no_rate no_rate no_rate)) (MkAdmin "" "")
    (MkLogConfig "") (MkStoreConfig "" 0 None) (MkQueueConfig 0 0 0 0 0 0)
    (MkHbConfig 0 0 "" []) [source].

Lemma lease_covers_pass_witness :
  (45 * Second + 2 * Minute ≤ q_lease (New (MkQueueConfig 0 0 0 0 0 0) ∅ (Some demo_config) "").1)%Z.
Proof.
  apply (lease_covers_pass (MkQueueConfig 0 0 0 0 0 0) ∅ demo_config "" source).
  - intros s Hs. apply list_elem_of_singleton in Hs as ->. vm_compute. done.
  - by left.
Defined.

Lemma peers_leave_leased_event_alone_witness :
  holds "e1" "w1" 400000 (cn_db (run_calls
    [CallClaim 0 (100 * Second) "w2"; CallRequeueExpired (200 * Second); CallPurge (300 * Second);
     CallReplay "e1" "operator" (300 * Second); CallStart "e2" 0 (300 * Second)]
    (Conn (db_with retry_action) 0))).
Proof.
  apply (peers_leave_leased_event_alone "e1" "w1" 400000
    [CallClaim 0 (100 * Second) "w2"; CallRequeueExpired (200 * Second); CallPurge (300 * Second);
     CallReplay "e1" "operator" (300 * Second); CallStart "e2" 0 (300 * Second)]).
  - by exists leased_row.
  - repeat constructor; vm_compute; done.
Defined.

Lemma completed_action_is_final_witness :
  event_actions (cn_db (run_calls
    [CallRequeueAll; CallClaim 0 (100 * Second) "w2"; CallPrepare "e1" "{}" 2 true (100 * Second);
     CallStart "e1" 0 (100 * Second); CallReplay "e1" "operator" (300 * Second)]
    (Conn (db_with retry_action) 0))) !! ("e1", 0%Z) = Some done_action.
Proof.
  apply (completed_action_is_final "e1" 0 done_action
    [CallRequeueAll; CallClaim 0 (100 * Second) "w2"; CallPrepare "e1" "{}" 2 true (100 * Second);
     CallStart "e1" 0 (100 * Second); CallReplay "e1" "operator" (300 * Second)]).
  - vm_compute. reflexivity.
  - done.
  - repeat constructor.
Defined.

End Witnesses.
