(* ===== verification/ConfigProps.v ===== *)
(** * What a loaded configuration guarantees to the other components

    Validation is judged by its consequences: the queue takes the values as
    they are, every source authenticates with a real secret, its rules always
    evaluate, its actions can be dispatched. *)

From S2P Require Import Prelude GoLib Float64 Http Config Placeholders ConfigLoad Handler Policy PolicyProps Auth ClientAddr Queue.

#[local] Open Scope string_scope.

(** Take the checks of a validation apart. *)
Ltac peel H :=
  repeat (lazymatch type of H with
  | (if ?b then Err _ else _) = Ok _ => destruct b eqn:?; [discriminate H|]
  | and_then ?r _ = Ok _ => destruct r eqn:?; cbn [and_then] in H; [|discriminate H]
  end).

Section Guarantees.
Context `{Regexp, Net, Url}.
Context (LookupEnv : string → option string).

Lemma check_each_Ok {A} (check : A → result string unit) l :
  check_each check l = Ok tt → Forall (λ x, check x = Ok tt) l.
Proof.
  induction l as [|x l IH]; [by constructor|]. cbn. intros Hc.
  destruct (check x) as [[]|] eqn:E; [|discriminate Hc]. constructor; auto.
Qed.

(** ** Authentication *)

Record auth_safe (a : AuthConfig) : Prop := {
  as_known : au_type a = "none" ∨ au_type a = "hmac" ∨ au_type a = "token";
  as_secret : au_type a ≠ "none" → (16 ≤ String.length (au_secret a))%nat;
  as_signed : au_signed_headers a = [] ∨
    (au_type a = "hmac" ∧ binds_all (au_signed_headers a));
}.

Lemma validate_auth_safe a : validate_auth a = Ok tt → auth_safe a.
Proof.
  unfold validate_auth. intros Hv. peel Hv.
  unfold known_auth, with_secret, minSecretLen in *. cbn [existsb] in *.
  assert (au_type a = "none" ∨ au_type a = "hmac" ∨ au_type a = "token") as Hk.
  { apply negb_false_iff in Heqb0. rewrite !orb_true_iff, !String.eqb_eq in Heqb0. naive_solver. }
  split; [done| |].
  - intros Hn. assert ((String.eqb (au_type a) "hmac" || (String.eqb (au_type a) "token" || false)) = true)
      as Hs by (destruct Hk as [?|[->| ->]]; done).
    rewrite Hs in Heqb2. cbn [andb] in Heqb2. by apply Nat.ltb_ge in Heqb2.
  - destruct (au_signed_headers a) as [|h hs] eqn:Esh; [by left|]. right. peel Hv.
    apply negb_false_iff in Heqb3, Heqb4. bool_simpl. done.
Qed.

(** ** Actions *)

Definition action_safe (a : ActionConfig) : Prop :=
  (ac_type a = "http" ∧ ac_url a ≠ "" ∧ known_method (ToUpper (ac_method a)) = true ∨
   ac_type a = "exec" ∧ ac_command a ≠ "" ∧ (0 ≤ ac_timeout a ≤ 15 * Minute)%Z) ∧
  ∀ value p, value ∈ actionStrings a → p ∈ find_all explicitSecretRefRe value →
    ∃ secret, LookupEnv p.2 = Some secret ∧ secret ≠ "".

Lemma validate_action_safe a : validate_action LookupEnv a = Ok tt → action_safe a.
Proof.
  unfold validate_action. intros Hv. peel Hv.
  repeat match goal with u : () |- _ => destruct u end. split.
  - clear Hv. revert Heqr. unfold validate_action_type. intros Hv.
    case_bool_decide as Ht; [|case_bool_decide as Ht'; [|discriminate Hv]]; peel Hv; bool_simpl.
    + left. by apply negb_false_iff in Heqb1.
    + right. unfold maxActionTimeout in *. bool_simpl. split_and!; [done..|lia].
  - intros value p Hin Hp. apply check_each_Ok in Hv.
    rewrite Forall_forall in Hv. specialize (Hv p).
    assert (p ∈ actionStrings a ≫= find_all explicitSecretRefRe) as Hpin.
    { apply list_elem_of_bind. by exists value. }
    specialize (Hv Hpin). unfold check_secret in Hv. case_bool_decide as Hs; [done|].
    destruct (LookupEnv p.2) as [secret|]; [|done]. by exists secret.
Qed.

(** ** Sources *)

Record source_safe (src : Source) : Prop := {
  ss_name : validSourceName (so_name src) = true;
  ss_auth : auth_safe (so_auth src);
  ss_rules : ∀ vars, is_ok (match_rules (so_rules src) vars) = true;
  ss_policy : ∀ lp, so_log_policy src = Some lp →
    lp_mode lp = "allowlist" ∧ lp_services lp ≠ [] ∧ lp_field lp ≠ "" ∧
    lp_on_reject lp = "drop_and_count";
  ss_redaction : ∀ r, so_redaction src = Some r →
    Forall2 (λ p re, Compile p = Some re) (re_patterns r) (re_compiled r);
  ss_actions : so_actions src ≠ [] ∧ Forall action_safe (so_actions src);
}.

Lemma rules_total rules vars :
  Forall (λ r, validate_rule r = Ok tt) rules → is_ok (match_rules rules vars) = true.
Proof.
  induction 1 as [|r rules Hr _ IH]; [done|]. cbn [match_rules].
  unfold validate_rule in Hr. peel Hr. destruct (Compile (ru_regex r)); [|done].
  by destruct (MatchString _ _).
Qed.

Lemma opt_check_Some {A B} (check : A → result string B) x b :
  opt_check check x = Ok (Some b) → ∃ a, x = Some a ∧ check a = Ok b.
Proof.
  destruct x as [a|]; [|done]. cbn. destruct (check a) as [b'|] eqn:E; [|done].
  intros [= ->]. by exists a.
Qed.

Lemma validate_policy_safe lp0 lp :
  validate_policy lp0 = Ok lp →
  lp_mode lp = "allowlist" ∧ lp_services lp ≠ [] ∧ lp_field lp ≠ "" ∧
  lp_on_reject lp = "drop_and_count".
Proof.
  unfold validate_policy. intros Hv. peel Hv. injection Hv as <-.
  apply negb_false_iff, bool_decide_eq_true_1 in Heqb. apply bool_decide_eq_false_1 in Heqb0.
  unfold policy_defaults. cbn [lp_mode lp_services lp_field lp_on_reject].
  split_and!; [done..| |].
  - destruct (decide (lp_field lp0 = "")) as [->|Hne]; [done|]. by rewrite bool_decide_false.
  - destruct (decide (lp_on_reject lp0 = "")) as [->|Hne]; [done|].
    rewrite !(bool_decide_false _ Hne) in Heqb2 |- *. cbn [negb andb] in Heqb2.
    by apply negb_false_iff, bool_decide_eq_true_1 in Heqb2.
Qed.

Lemma validate_source_safe seen s s' :
  validate_source LookupEnv seen s = Ok s' →
  source_safe s' ∧ so_name s' = so_name s ∧ so_name s ∉ seen.
Proof.
  unfold validate_source. intros Hv. peel Hv. injection Hv as <-.
  repeat match goal with u : () |- _ => destruct u end.
  bool_simpl. apply negb_false_iff in Heqb0.
  split; [|done]. split; cbn [so_name so_auth so_rules so_log_policy so_redaction so_actions].
  - done.
  - by apply validate_auth_safe.
  - intros vars. by apply rules_total, check_each_Ok.
  - intros lp ->. apply opt_check_Some in Heqr1 as (lp0 & _ & Hlp). by apply validate_policy_safe in Hlp.
  - intros r ->. apply opt_check_Some in Heqr2 as (r0 & _ & Hred). unfold validate_redaction, compileRedaction in Hred.
    destruct (compile_patterns _ _) as [l|] eqn:E; [|done]. injection Hred as <-.
    by apply compile_patterns_spec in E as [? _].
  - split; [done|]. apply check_each_Ok in Heqr3.
    eapply Forall_impl; [done|]. apply validate_action_safe.
Qed.

Lemma validate_sources_safe seen ss ss' :
  validate_sources LookupEnv seen ss = Ok ss' →
  Forall source_safe ss' ∧ NoDup (so_name <$> ss') ∧
  ∀ name, name ∈ seen → name ∉ so_name <$> ss'.
Proof.
  revert seen ss'. induction ss as [|s ss IH]; intros seen ss'; cbn [validate_sources].
  { intros [= <-]. split; [constructor|]. split; [constructor|]. intros ??. set_solver. }
  intros Hv. peel Hv. injection Hv as <-.
  apply validate_source_safe in Heqr as (Hs & Hname & Hni).
  destruct (IH _ _ Heqr0) as (Hss & Hnd & Hseen).
  split; [by constructor|]. cbn [fmap list_fmap]. split.
  - constructor; [|done]. rewrite Hname. apply Hseen. by left.
  - intros name Hin. rewrite Hname. apply not_elem_of_cons. split; [congruence|].
    apply Hseen. by right.
Qed.

Lemma SourceByName_unique c src :
  NoDup (so_name <$> cf_sources c) → src ∈ cf_sources c → SourceByName c (so_name src) = Some src.
Proof.
  unfold SourceByName. generalize (cf_sources c) as l. intros l Hnd Hin.
  induction l as [|x l IH]; [by apply elem_of_nil in Hin|].
  cbn [fmap list_fmap] in Hnd. apply NoDup_cons in Hnd as [Hni Hnd]. cbn [List.find].
  apply elem_of_cons in Hin as [->|Hin].
  - by rewrite bool_decide_true.
  - rewrite bool_decide_false; [by apply IH|]. intros E. apply Hni. rewrite E.
    by apply list_elem_of_fmap_2.
Qed.

(** ** Defaults

    A default replaces the values of a condition; it can be applied again. *)
Ltac idem :=
  match goal with |- (if _ then _ else (if ?b then _ else _)) = _ =>
    let E := fresh "E" in destruct b eqn:E; cbv iota; [by case_match|by rewrite E]
  end.

Lemma rate_default_idem d c : rate_default d (rate_default d c) = rate_default d c.
Proof. unfold rate_default. cbn [rt_burst rt_per_second]. f_equal; idem. Qed.

Lemma WithDefaults_idem c : WithDefaults (WithDefaults c) = WithDefaults c.
Proof.
  unfold WithDefaults.
  cbn [rt_pre_auth_per_ip rt_global rt_source_per_ip rt_admin_per_ip].
  f_equal; apply rate_default_idem.
Qed.

Lemma applyDefaults_idem c : applyDefaults (applyDefaults c) = applyDefaults c.
Proof.
  unfold applyDefaults, or_default.
  cbn -[Z.leb Z.mul bool_decide TrimSpace WithDefaults]. f_equal; f_equal; try idem.
  - apply WithDefaults_idem.
  - rewrite <-list_fmap_compose. apply list_fmap_ext. intros i t _.
    cbn -[bool_decide TrimSpace]. f_equal. idem.
Qed.

Lemma policy_defaults_idem lp : policy_defaults (policy_defaults lp) = policy_defaults lp.
Proof.
  unfold policy_defaults. cbn -[bool_decide]. f_equal; idem.
Qed.

Lemma validate_policy_idem lp0 lp : validate_policy lp0 = Ok lp → validate_policy lp = Ok lp.
Proof.
  intros Hv. pose proof (validate_policy_safe _ _ Hv) as (Hm & Hs & _ & Ho).
  unfold validate_policy in Hv. peel Hv. injection Hv as <-. unfold validate_policy.
  rewrite policy_defaults_idem, Hm, Ho. cbn [lp_services policy_defaults] in Hs |- *.
  rewrite (bool_decide_false _ Hs), Heqb1. reflexivity.
Qed.

Lemma validate_source_idem seen s s' :
  validate_source LookupEnv seen s = Ok s' → validate_source LookupEnv seen s' = Ok s'.
Proof.
  unfold validate_source. intros Hv. peel Hv. injection Hv as <-.
  cbn [so_name so_auth so_rules so_log_policy so_redaction so_actions so_extract].
  repeat match goal with H : _ = false |- _ => rewrite H; clear H end. rewrite Heqr, Heqr0.
  cbn [and_then].
  assert (opt_check validate_policy a1 = Ok a1) as ->.
  { destruct a1 as [lp|]; [|done]. apply opt_check_Some in Heqr1 as (lp0 & _ & Hlp). cbn.
    by rewrite (validate_policy_idem lp0 lp Hlp). }
  assert (opt_check validate_redaction a2 = Ok a2) as ->.
  { destruct a2 as [r|]; [|done]. apply opt_check_Some in Heqr2 as (r0 & _ & Hr).
    unfold validate_redaction, compileRedaction in Hr.
    destruct (compile_patterns 0 (re_patterns r0)) as [l|] eqn:E; [|done].
    injection Hr as <-. cbn. unfold validate_redaction, compileRedaction.
    cbn [re_patterns]. by rewrite E. }
  cbn [and_then]. by rewrite Heqr3.
Qed.

Lemma validate_sources_idem seen ss ss' :
  validate_sources LookupEnv seen ss = Ok ss' → validate_sources LookupEnv seen ss' = Ok ss'.
Proof.
  revert seen ss'. induction ss as [|s ss IH]; intros seen ss'; cbn [validate_sources].
  { by intros [= <-]. }
  intros Hv. peel Hv. injection Hv as <-. cbn [validate_sources].
  rewrite (validate_source_idem _ _ _ Heqr). cbn [and_then].
  apply validate_source_safe in Heqr as (_ & -> & _). by rewrite (IH _ _ Heqr0).
Qed.

Lemma validate_idem c c' : validate LookupEnv c = Ok c' → validate LookupEnv c' = Ok c'.
Proof.
  unfold validate. intros Hv. peel Hv. injection Hv as <-.
  cbn [cf_server cf_admin cf_queue cf_heartbeat cf_sources cf_log cf_store].
  repeat match goal with H : _ = false |- _ => rewrite H; clear H end.
  rewrite Heqr, Heqr0, Heqr1. cbn [and_then]. by rewrite (validate_sources_idem _ _ _ Heqr2).
Qed.

(** ** Heartbeat targets *)

Record target_safe (t : HeartbeatTarget) : Prop := {
  ts_name : validSourceName (ht_name t) = true;
  ts_url : ∃ u, ParseURL (ht_url t) = Some u ∧ u_host u ≠ "" ∧ u_has_user u = false ∧
    u_fragment u = "" ∧ u_opaque u = "" ∧
    (ToLower (u_scheme u) = "https" ∨ ToLower (u_scheme u) = "http" ∧ ht_allow_http t = true);
  ts_length : (String.length (ht_url t) ≤ 4096)%nat;
  ts_mode : one_of_modes (ht_mode t) = true;
}.

Lemma validate_target_safe t :
  validSourceName (ht_name t) = true → validate_target t = Ok tt → target_safe t.
Proof.
  unfold validate_target. intros Hn. destruct (ParseURL (ht_url t)) as [u|] eqn:Eu; [|discriminate].
  intros Hv. peel Hv.
  apply orb_false_iff in Heqb as [_ Hhost]. rewrite !orb_false_iff, !negb_false_iff in Heqb0.
  destruct Heqb0 as [[Hlen Hfrag] Hopq]. apply negb_false_iff in Heqb3. bool_simpl.
  split; [done| |by apply Nat.ltb_ge|done].
  exists u. split_and!; try done.
  apply andb_false_iff in Heqb1 as [Hs|Hs]; apply negb_false_iff in Hs; bool_simpl; auto.
Qed.

Lemma validate_targets_safe seen ts :
  validate_targets seen ts = Ok tt →
  Forall target_safe ts ∧ NoDup (ht_name <$> ts) ∧ ∀ n, n ∈ seen → n ∉ ht_name <$> ts.
Proof.
  revert seen. induction ts as [|t ts IH]; intros seen; cbn [validate_targets].
  { intros _. split; [constructor|]. split; [constructor|]. intros ??. set_solver. }
  intros Hv. peel Hv. apply negb_false_iff in Heqb0. apply bool_decide_eq_false_1 in Heqb1.
  destruct a. destruct (IH _ Hv) as (Hts & Hnd & Hseen).
  split; [by constructor; [apply validate_target_safe|]|]. cbn [fmap list_fmap]. split.
  - constructor; [|done]. apply Hseen. by left.
  - intros n Hin. apply not_elem_of_cons. split; [congruence|]. apply Hseen. by right.
Qed.

(** ** The guarantees *)

Record rate_safe (r : RateLimitConfig) : Prop := {
  rs_burst : (1 ≤ rt_burst r ≤ 100000)%Z;
  rs_finite : is_nan (rt_per_second r) = false ∧ is_inf (rt_per_second r) = false;
  rs_rate : f64_ltb (rt_per_second r) (f64_div (f64_of_Z 1) (f64_of_Z 100)) = false ∧
    f64_ltb (f64_of_Z 100000) (rt_per_second r) = false;
}.

Record loaded (c : Config) : Prop := {
  ld_rates : let r := sv_rate_limit (cf_server c) in
    rate_safe (rt_pre_auth_per_ip r) ∧ rate_safe (rt_global r) ∧
    rate_safe (rt_source_per_ip r) ∧ rate_safe (rt_admin_per_ip r);
  ld_admin : ad_token (cf_admin c) = "" ∨ (16 ≤ String.length (ad_token (cf_admin c)))%nat;
  ld_proxies : Forall (λ p, is_Some (ParseCIDR p) ∨ is_Some (ParseIP p))
    (sv_trusted_proxies (cf_server c));
  ld_budgets : (1 ≤ sv_max_in_flight (cf_server c) ≤ 256 ∧
    2 ^ 20 ≤ sv_max_in_flight_bytes (cf_server c) ≤ 2 ^ 28)%Z;
  ld_queue : let q := cf_queue c in
    (1 ≤ qc_workers q ≤ 64 ∧ 1 ≤ qc_buffer q ≤ 10000 ∧ 0 ≤ qc_max_retries q ≤ 20 ∧
     100 * Millisecond ≤ qc_retry_base q ≤ Hour ∧
     qc_retry_base q ≤ qc_max_retry_delay q ≤ 7 * 24 * Hour ∧
     qc_retry_base q ≤ qc_max_retry_age q ≤ 30 * 24 * Hour)%Z;
  ld_heartbeat : let hb := cf_heartbeat c in
    (Second ≤ hc_timeout hb ≤ hc_interval hb ∧ 10 * Second ≤ hc_interval hb ≤ Hour)%Z ∧
    (length (hc_targets hb) ≤ 16)%nat ∧ NoDup (ht_name <$> hc_targets hb) ∧
    Forall target_safe (hc_targets hb);
  ld_sources : Forall source_safe (cf_sources c);
  ld_names : ∀ src, src ∈ cf_sources c → SourceByName c (so_name src) = Some src;
}.

Lemma validate_rate_safe r : validate_rate r = Ok tt → rate_safe r.
Proof.
  unfold validate_rate. intros Hv. peel Hv.
  rewrite !orb_false_iff in *. destruct Heqb, Heqb0 as [[[? ?] ?] ?]. bool_simpl.
  split; [lia|done..].
Qed.

Lemma validate_rates_safe c : validate_rates c = Ok tt →
  rate_safe (rt_pre_auth_per_ip c) ∧ rate_safe (rt_global c) ∧
  rate_safe (rt_source_per_ip c) ∧ rate_safe (rt_admin_per_ip c).
Proof.
  intros Hv. apply check_each_Ok in Hv. unfold validate_rates in Hv.
  rewrite !Forall_cons in Hv. destruct Hv as (? & ? & ? & ? & _).
  split_and!; by apply validate_rate_safe.
Qed.

Lemma validate_proxies_safe ps : check_each validate_proxy ps = Ok tt →
  Forall (λ p, is_Some (ParseCIDR p) ∨ is_Some (ParseIP p)) ps.
Proof.
  intros Hv. apply check_each_Ok in Hv. eapply Forall_impl; [done|]. intros p. cbn.
  unfold validate_proxy. destruct (ParseCIDR p), (ParseIP p); (done || by eauto).
Qed.

Lemma validateHeartbeat_safe hb : validateHeartbeat hb = Ok tt →
  (Second ≤ hc_timeout hb ≤ hc_interval hb ∧ 10 * Second ≤ hc_interval hb ≤ Hour)%Z ∧
  (length (hc_targets hb) ≤ 16)%nat ∧ NoDup (ht_name <$> hc_targets hb) ∧
  Forall target_safe (hc_targets hb).
Proof.
  unfold validateHeartbeat. intros Hv. peel Hv. rewrite !orb_false_iff in *.
  destruct Heqb, Heqb0. apply validate_targets_safe in Hv as (? & ? & _).
  apply Nat.ltb_ge in Heqb4. bool_simpl. split_and!; (done || lia).
Qed.

Lemma validate_safe c0 c : validate LookupEnv c0 = Ok c → loaded c.
Proof.
  unfold validate. intros Hv. peel Hv. injection Hv as <-.
  repeat match goal with u : () |- _ => destruct u end.
  apply validate_sources_safe in Heqr2 as (Hss & Hnd & _).
  rewrite !orb_false_iff in *. unfold minSecretLen, maxWorkers, maxBuffer, maxRetriesBound in *.
  split; cbn [cf_server cf_admin cf_queue cf_heartbeat cf_sources]; cbv zeta; try done.
  - by apply validate_rates_safe.
  - apply andb_false_iff in Heqb as [Hb|Hb]; [apply negb_false_iff in Hb; bool_simpl; by left|].
    apply Nat.ltb_ge in Hb. by right.
  - by apply validate_proxies_safe.
  - bool_simpl. lia.
  - bool_simpl. lia.
  - by apply validateHeartbeat_safe.
  - intros src Hin. by apply SourceByName_unique.
Qed.

(** Validation changes the sources alone, which the defaults do not touch. *)
Definition with_sources (l : list Source) (c : Config) : Config :=
  MkConfig (cf_server c) (cf_admin c) (cf_log c) (cf_store c) (cf_queue c) (cf_heartbeat c) l.

Lemma validate_sources_only c0 c :
  validate LookupEnv c0 = Ok c → c = with_sources (cf_sources c) c0.
Proof. unfold validate. intros Hv. peel Hv. by injection Hv as <-. Qed.

Lemma applyDefaults_sources l c : applyDefaults (with_sources l c) = with_sources l (applyDefaults c).
Proof. done. Qed.

(** C16: a configuration [Load] accepts is well formed in every respect
    the other components rely on: budgets, queue settings and rates in their
    bounds, an admin token that is absent or at least 16 bytes, heartbeat
    targets over https (or allowed http) without credentials, and sources
    with distinct names which authenticate with known types and long secrets,
    whose rules never fail to evaluate, whose policy and redaction are
    complete, and whose actions are dispatchable with their secrets set. The
    queue takes its settings unchanged, and the configuration is a fixed
    point: defaults and validation leave it as it is. *)
Theorem Load_safe decoded c reg owner :
  Load LookupEnv decoded = Ok c →
  loaded c ∧
  applyDefaults c = c ∧ validate LookupEnv c = Ok c ∧
  let q := (Queue.New (cf_queue c) reg (Some c) owner).1 in
  q_workers q = qc_workers (cf_queue c) ∧ q_buffer q = qc_buffer (cf_queue c) ∧
  q_maxRetries q = qc_max_retries (cf_queue c) ∧ q_retryBase q = qc_retry_base (cf_queue c) ∧
  q_maxRetryDelay q = qc_max_retry_delay (cf_queue c) ∧
  q_maxRetryAge q = qc_max_retry_age (cf_queue c).
Proof.
  unfold Load. destruct decoded as [d|]; [|discriminate]. intros Hv.
  pose proof (validate_safe _ _ Hv) as Hld. split; [done|]. split.
  { rewrite (validate_sources_only _ _ Hv). rewrite applyDefaults_sources. by rewrite applyDefaults_idem. }
  split; [by eapply validate_idem|].
  pose proof (ld_queue _ Hld) as Hq. cbv zeta in Hq. unfold Queue.New.
  cbn [fst q_workers q_buffer q_maxRetries q_retryBase q_maxRetryDelay q_maxRetryAge].
  unfold Millisecond in Hq.
  repeat match goal with |- context [(?a <=? ?b)%Z] => destruct (Z.leb_spec a b); [lia|] end.
  repeat match goal with |- context [(?a <? ?b)%Z] => destruct (Z.ltb_spec a b); [lia|] end.
  done.
Qed.

End Guarantees.

(** ** A configuration file *)

Module Demo.

#[export] Instance regexps : Regexp := literal_regexp.
#[export] Instance net : Net := ClientAddr.Demo.text_net.

(** Every text is an https URL whose host is the text. *)
#[export] Instance urls : Url := {|
  url := string; ParseURL s := Some s; u_scheme _ := "https"; u_host u := u; u_path u := u;
  u_raw_query _ := ""; u_fragment _ := ""; u_opaque _ := ""; u_has_user _ := false;
  Hostname u := u; Port _ := ""; EscapedPath u := u; Query _ := ∅; Encode _ := "";
  ParseQuery _ := Some ∅; set_raw_query _ u := u; set_scheme _ u := u; set_raw_path _ p _ := p;
  set_path p _ := p; url_string u := u;
|}.

Definition environment (name : string) : option string :=
  if bool_decide (name = "GH_SECRET") then Some "0123456789abcdef"
  else if bool_decide (name = "PUSH_URL") then Some "kuma.example" else None.

Definition post (url : string) : ActionConfig :=
  MkAction "http" url "post" {["X-Token" := "${secret:GH_SECRET}"]} "{}" [] false "" [] 0.

Definition source (name : string) : Source :=
  MkSource name (MkAuth "hmac" "" "${GH_SECRET}" ["timestamp"; " Delivery_ID"; "body"]) ∅
    [MkRule "action" "opened"] [post "https://example.com/hook"]
    (Some (MkLogPolicy "allowlist" "" ["api"] "")) (Some (MkRedaction ["secret=.*"] [])).

(** The decoded file: all settings omitted but two sources and two heartbeat
    targets, one of which has no URL in this environment. *)
Definition decoded : Config :=
  MkConfig (MkServerConfig "" ["10.0.0.1"] 0 0 (MkRates no_rate no_rate no_rate no_rate))
    (MkAdmin "" "") (MkLogConfig "") (MkStoreConfig "" 0 None)
    (MkQueueConfig 0 0 defaultMaxRetries 0 0 0)
    (MkHbConfig 0 0 "" [MkHbTarget "kuma" "${PUSH_URL}" "" "" false;
                        MkHbTarget "other" "${OTHER_URL}" "" "json" false])
    [source "github"; source "gitlab"].

Definition config : Config :=
  match Load environment (Some decoded) with Ok c => c | Err _ => decoded end.

Lemma config_loaded : Load environment (Some decoded) = Ok config.
Proof. vm_compute. reflexivity. Qed.

End Demo.

#[local] Existing Instance Demo.regexps.
#[local] Existing Instance Demo.net.
#[local] Existing Instance Demo.urls.

Lemma Load_safe_witness :
  loaded Demo.environment Demo.config ∧
  (ht_name <$> hc_targets (cf_heartbeat Demo.config)) = ["kuma"] ∧
  au_secret (so_auth (default (Demo.source "") (SourceByName Demo.config "gitlab"))) =
    "0123456789abcdef" ∧
  is_ok (Load Demo.environment
    (Some (with_sources [Demo.source "github"; Demo.source "github"] Demo.decoded))) = false.
Proof.
  split_and!; [|vm_compute; reflexivity..].
  exact (proj1 (Load_safe Demo.environment (Some Demo.decoded) Demo.config ∅ "w" Demo.config_loaded)).
Defined.
