(* ===== verification/Lifecycle.v ===== *)
(** * The goroutines of the process and its shutdown

    [Queue.Start], [worker], [Wake], [Ready], [Stop] and [Wait] of
    [internal/queue/queue.go], [Monitor.Start] and [Stop] of
    [internal/heartbeat/heartbeat.go], and [run] of [cmd/server/main.go] from
    the start of the workers on: a step relation on the control state of all
    goroutines. What a worker does in a drain, and a target loop in a tick, is
    the business of [Queue] and [Heartbeat]; here they are busy. *)

From S2P Require Import Prelude.

(** ** Control state *)

(** A worker waits in its select, drains the outbox, or has returned. *)
Inductive worker_pc : Type := WSelect | WDrain | WExited.

(** A target loop of the monitor likewise. *)
Inductive target_pc : Type := TSelect | TTick | TExited.

#[global] Instance worker_pc_eq_dec : EqDecision worker_pc.
Proof. solve_decision. Defined.
#[global] Instance target_pc_eq_dec : EqDecision target_pc.
Proof. solve_decision. Defined.

(** The goroutine of [run] that stops the queue within the shutdown budget. *)
Inductive stopper_pc : Type := NotStarted | Stopping | Waiting | Returned (drained : bool).

#[global] Instance stopper_pc_eq_dec : EqDecision stopper_pc.
Proof. solve_decision. Defined.

(** What [run] still has to do; a deferred call is an instruction at the end. *)
Inductive instr : Type :=
| StopHeartbeat          (* cancel, then wait for every target loop *)
| JoinHeartbeat
| SetStopping
| GoStopQueue            (* go q.Stop(shutCtx) *)
| ShutdownHTTP           (* srv.Shutdown, or srv.Close when it fails *)
| JoinStopQueue          (* <-queueDone *)
| CancelWorker
| CloseStopCh            (* the first half of q.Stop *)
| WaitWorkers            (* q.Wait, or the second half of q.Stop *)
| CloseStore.

#[global] Instance instr_eq_dec : EqDecision instr.
Proof. solve_decision. Defined.

Inductive main_pc : Type :=
| Serving                (* the select on signals and errCh *)
| Doing (todo : list instr).

Record life : Type := Life {
  lf_buffer : nat;                 (* the capacity of q.wake *)
  lf_wake : nat;                   (* what is in it *)
  lf_stopped : bool;               (* q.stopped, and stopCh is closed *)
  lf_canceled : bool;              (* workerCtx *)
  lf_workers : list worker_pc;
  lf_hb_canceled : bool;
  lf_targets : list target_pc;
  lf_stopping : bool;              (* api.stopping *)
  lf_http : bool;                  (* the server accepts requests *)
  lf_store : bool;                 (* the database is open *)
  lf_stopper : stopper_pc;
  lf_main : main_pc;
  lf_due : bool;                   (* an event was announced since the last drain began *)
}.

(** ** The operations *)

(** [Wake]: a send that does not block; [false] after [Stop]. *)
Definition q_Wake (s : life) : bool * life :=
  if lf_stopped s then (false, s)
  else (true, Life (lf_buffer s) (if lf_wake s <? lf_buffer s then S (lf_wake s) else lf_wake s)%nat
    (lf_stopped s) (lf_canceled s) (lf_workers s) (lf_hb_canceled s) (lf_targets s) (lf_stopping s)
    (lf_http s) (lf_store s) (lf_stopper s) (lf_main s) true).

Definition worker_live (w : worker_pc) : bool := negb (bool_decide (w = WExited)).
Definition target_live (t : target_pc) : bool := negb (bool_decide (t = TExited)).

(** [wg] and [liveWorkers] count the workers that have not returned. *)
Definition liveWorkers (s : life) : nat := length (filter (λ w, worker_live w = true) (lf_workers s)).
Definition q_Ready (s : life) : bool := negb (lf_stopped s) && (0 <? liveWorkers s)%nat.
Definition workers_done (s : life) : bool := forallb (λ w, negb (worker_live w)) (lf_workers s).
Definition targets_done (s : life) : bool := forallb (λ t, negb (target_live t)) (lf_targets s).

(** The callback [run] gives the monitor *)
Definition process_ready (s : life) : bool := negb (lf_stopping s) && q_Ready s.

Definition set_worker (i : nat) (w : worker_pc) (s : life) : life :=
  Life (lf_buffer s) (lf_wake s) (lf_stopped s) (lf_canceled s) (<[i := w]> (lf_workers s))
    (lf_hb_canceled s) (lf_targets s) (lf_stopping s) (lf_http s) (lf_store s) (lf_stopper s)
    (lf_main s) (lf_due s).
Definition begin_drain (i : nat) (wake : nat) (s : life) : life :=
  Life (lf_buffer s) wake (lf_stopped s) (lf_canceled s) (<[i := WDrain]> (lf_workers s))
    (lf_hb_canceled s) (lf_targets s) (lf_stopping s) (lf_http s) (lf_store s) (lf_stopper s)
    (lf_main s) false.
Definition set_target (i : nat) (t : target_pc) (s : life) : life :=
  Life (lf_buffer s) (lf_wake s) (lf_stopped s) (lf_canceled s) (lf_workers s) (lf_hb_canceled s)
    (<[i := t]> (lf_targets s)) (lf_stopping s) (lf_http s) (lf_store s) (lf_stopper s) (lf_main s)
    (lf_due s).
Definition set_stopper (q : stopper_pc) (s : life) : life :=
  Life (lf_buffer s) (lf_wake s) (lf_stopped s) (lf_canceled s) (lf_workers s) (lf_hb_canceled s)
    (lf_targets s) (lf_stopping s) (lf_http s) (lf_store s) q (lf_main s) (lf_due s).
Definition set_main (m : main_pc) (s : life) : life :=
  Life (lf_buffer s) (lf_wake s) (lf_stopped s) (lf_canceled s) (lf_workers s) (lf_hb_canceled s)
    (lf_targets s) (lf_stopping s) (lf_http s) (lf_store s) (lf_stopper s) m (lf_due s).
(** The first half of [Stop], under its mutex *)
Definition close_stop_ch (s : life) : life :=
  Life (lf_buffer s) (lf_wake s) true (lf_canceled s) (lf_workers s) (lf_hb_canceled s)
    (lf_targets s) (lf_stopping s) (lf_http s) (lf_store s) (lf_stopper s) (lf_main s) (lf_due s).
Definition set_flags (canceled hb stopping http store : bool) (s : life) : life :=
  Life (lf_buffer s) (lf_wake s) (lf_stopped s) canceled (lf_workers s) hb (lf_targets s) stopping
    http store (lf_stopper s) (lf_main s) (lf_due s).

(** ** The programs of [run] after its select *)

(** defer hb.Stop(), cancelWorker() and st.Close(), last one first *)
Definition deferred : list instr := [StopHeartbeat; JoinHeartbeat; CancelWorker; CloseStore].

Definition on_server_error : list instr :=
  [StopHeartbeat; JoinHeartbeat; SetStopping; CancelWorker; CloseStopCh; WaitWorkers] ++ deferred.

Definition on_signal : list instr :=
  [StopHeartbeat; JoinHeartbeat; SetStopping; GoStopQueue; ShutdownHTTP; JoinStopQueue].

Definition after_drain (drained : bool) : list instr :=
  (if drained then [] else [CancelWorker; WaitWorkers]) ++ [CancelWorker] ++ deferred.

(** One instruction: [None] while it blocks. *)
Definition do_instr (i : instr) (todo : list instr) (s : life) : option life :=
  let next := set_main (Doing todo) in
  match i with
  | StopHeartbeat => Some (next (set_flags (lf_canceled s) true (lf_stopping s) (lf_http s) (lf_store s) s))
  | JoinHeartbeat => if targets_done s then Some (next s) else None
  | SetStopping => Some (next (set_flags (lf_canceled s) (lf_hb_canceled s) true (lf_http s) (lf_store s) s))
  | GoStopQueue => Some (next (set_stopper Stopping s))
  | ShutdownHTTP => Some (next (set_flags (lf_canceled s) (lf_hb_canceled s) (lf_stopping s) false (lf_store s) s))
  | JoinStopQueue =>
      match lf_stopper s with
      | Returned drained => Some (set_main (Doing (after_drain drained)) s)
      | _ => None
      end
  | CancelWorker => Some (next (set_flags true (lf_hb_canceled s) (lf_stopping s) (lf_http s) (lf_store s) s))
  | CloseStopCh => Some (next (close_stop_ch s))
  | WaitWorkers => if workers_done s then Some (next s) else None
  | CloseStore => Some (next (set_flags (lf_canceled s) (lf_hb_canceled s) (lf_stopping s) (lf_http s) false s))
  end.

(** ** Steps *)

Inductive life_step : life → life → Prop :=
(* somebody announces an event *)
| LWake s : life_step s (q_Wake s).2
(* a worker: one of the cases of its select, or the end of a drain *)
| LWorkerCanceled s i : lf_workers s !! i = Some WSelect → lf_canceled s = true →
    life_step s (set_worker i WExited s)
| LWorkerStopped s i : lf_workers s !! i = Some WSelect → lf_stopped s = true →
    life_step s (set_worker i WExited s)
| LWorkerWoken s i n : lf_workers s !! i = Some WSelect → lf_wake s = S n →
    life_step s (begin_drain i n s)
| LWorkerTicker s i : lf_workers s !! i = Some WSelect → life_step s (begin_drain i (lf_wake s) s)
| LDrained s i : lf_workers s !! i = Some WDrain → life_step s (set_worker i WSelect s)
(* a target loop of the monitor *)
| LTargetTick s i : lf_targets s !! i = Some TSelect → life_step s (set_target i TTick s)
| LTargetDone s i : lf_targets s !! i = Some TTick → life_step s (set_target i TSelect s)
| LTargetCanceled s i : lf_targets s !! i = Some TSelect → lf_hb_canceled s = true →
    life_step s (set_target i TExited s)
(* the goroutine that stops the queue; its context may expire at any time *)
| LStopperCloses s : lf_stopper s = Stopping → life_step s (set_stopper Waiting (close_stop_ch s))
| LStopperDrained s : lf_stopper s = Waiting → workers_done s = true →
    life_step s (set_stopper (Returned true) s)
| LStopperExpired s : lf_stopper s = Waiting → life_step s (set_stopper (Returned false) s)
(* run *)
| LSignal s : lf_main s = Serving → life_step s (set_main (Doing on_signal) s)
| LServerError s : lf_main s = Serving → life_step s (set_main (Doing on_server_error) s)
| LInstr s s' i todo : lf_main s = Doing (i :: todo) → do_instr i todo s = Some s' → life_step s s'.

(** [Queue.Start] with its first [Wake], and [Monitor.Start] *)
Definition started (buffer workers targets : nat) : life :=
  (q_Wake (Life buffer 0 false false (replicate workers WSelect) false (replicate targets TSelect)
     false true true NotStarted Serving false)).2.

Definition reachable (buffer workers targets : nat) (s : life) : Prop :=
  rtc life_step (started buffer workers targets) s.
