(* ===== verification/LifecycleProps.v ===== *)
(** * The process shuts down in order

    What holds in every state the goroutines can reach: an announced event is
    never forgotten, nothing uses the database after it was closed, the monitor
    never reports a shutdown as a failure, and the process can always end. *)

From Stdlib Require Import Wf_nat.
From S2P Require Import Prelude Lifecycle.

(** ** What a step changes *)

Lemma workers_done_spec s : workers_done s = true ↔ Forall (λ w, w = WExited) (lf_workers s).
Proof.
  unfold workers_done. rewrite forallb_forall, Forall_forall. split; intros Hd w Hw.
  - specialize (Hd w (proj1 (list_elem_of_In _ _) Hw)). by destruct w.
  - apply list_elem_of_In in Hw. by rewrite (Hd w Hw).
Qed.

Lemma targets_done_spec s : targets_done s = true ↔ Forall (λ t, t = TExited) (lf_targets s).
Proof.
  unfold targets_done. rewrite forallb_forall, Forall_forall. split; intros Hd t Ht.
  - specialize (Hd t (proj1 (list_elem_of_In _ _) Ht)). by destruct t.
  - apply list_elem_of_In in Ht. by rewrite (Hd t Ht).
Qed.

Lemma exited_lookup {A} (x : A) l i y : Forall (λ z, z = x) l → l !! i = Some y → y = x.
Proof. intros Hl Hi. by eapply Forall_lookup_1 in Hl. Qed.

Lemma q_Wake_same s :
  lf_workers (q_Wake s).2 = lf_workers s ∧ lf_targets (q_Wake s).2 = lf_targets s ∧
  lf_main (q_Wake s).2 = lf_main s ∧ lf_stopper (q_Wake s).2 = lf_stopper s ∧
  lf_stopped (q_Wake s).2 = lf_stopped s ∧ lf_canceled (q_Wake s).2 = lf_canceled s ∧
  lf_hb_canceled (q_Wake s).2 = lf_hb_canceled s ∧ lf_stopping (q_Wake s).2 = lf_stopping s ∧
  lf_store (q_Wake s).2 = lf_store s ∧ lf_buffer (q_Wake s).2 = lf_buffer s.
Proof. unfold q_Wake. by destruct (lf_stopped s) eqn:E; cbn; rewrite ?E. Qed.

(** Instructions leave the goroutines alone. *)
Lemma do_instr_goroutines i todo s s' :
  do_instr i todo s = Some s' → lf_workers s' = lf_workers s ∧ lf_targets s' = lf_targets s.
Proof. destruct i; cbn; repeat case_match; intros [= <-]; done. Qed.

Lemma workers_done_step s s' : life_step s s' → workers_done s = true → workers_done s' = true.
Proof.
  rewrite !workers_done_spec. intros Hstep Hd.
  destruct Hstep; try done; try (by (eapply exited_lookup in Hd; [|eassumption])).
  - by rewrite (proj1 (q_Wake_same s)).
  - by rewrite (proj1 (do_instr_goroutines _ _ _ _ H0)).
Qed.

Lemma targets_done_step s s' : life_step s s' → targets_done s = true → targets_done s' = true.
Proof.
  rewrite !targets_done_spec. intros Hstep Hd.
  destruct Hstep; try done; try (by (eapply exited_lookup in Hd; [|eassumption])).
  - by rewrite (proj1 (proj2 (q_Wake_same s))).
  - by rewrite (proj2 (do_instr_goroutines _ _ _ _ H0)).
Qed.

(** ** Wake-ups *)

Definition wake_ok (s : life) : Prop :=
  (0 < lf_buffer s)%nat ∧ (lf_wake s ≤ lf_buffer s)%nat ∧
  (lf_due s = true → lf_stopped s = false → (0 < lf_wake s)%nat).

Lemma wake_ok_step s s' : life_step s s' → wake_ok s → wake_ok s'.
Proof.
  intros Hstep (Hb & Hle & Hdue).
  destruct Hstep; unfold wake_ok; cbn; try (by auto); try (split_and!; [done|lia|done]).
  - unfold q_Wake. destruct (lf_stopped s) eqn:Hs; cbn [snd lf_buffer lf_wake lf_due lf_stopped]; [by rewrite Hs|].
    destruct (Nat.ltb_spec (lf_wake s) (lf_buffer s)); split_and!; intros; lia.
  - destruct i; cbn in H0; repeat case_match; simplify_eq; cbn; auto; split_and!; done.
Qed.

Lemma wake_ok_started buffer workers targets :
  (0 < buffer)%nat → wake_ok (started buffer workers targets).
Proof. intros Hb. unfold wake_ok, started, q_Wake. cbn. destruct buffer; [lia|]. cbn. lia. Qed.

(** C30: no event is forgotten: as long as the queue is not stopped, an event
    announced by [Wake] after the last drain began has left a token in the
    channel, so some worker's next select can begin a drain that sees it, and
    the channel never holds more than its capacity. A full channel, which makes
    the send a no-op, is no exception. After [Stop] a [Wake] says no and
    changes nothing. *)
Theorem no_wakeup_lost buffer workers targets s :
  (0 < buffer)%nat → reachable buffer workers targets s →
  (lf_wake s ≤ lf_buffer s)%nat ∧
  (lf_due s = true → lf_stopped s = false → (0 < lf_wake s)%nat) ∧
  (∀ i, lf_due s = true → lf_stopped s = false → lf_workers s !! i = Some WSelect →
     ∃ s', life_step s s' ∧ lf_workers s' !! i = Some WDrain ∧ lf_due s' = false) ∧
  (lf_stopped s = true → q_Wake s = (false, s)).
Proof.
  intros Hb Hreach.
  assert (wake_ok s) as (Hb' & Hle & Hdue).
  { eapply (rtc_ind_r wake_ok); [by apply wake_ok_started| |exact Hreach].
    intros. by eapply wake_ok_step. }
  split; [done|]. split; [done|]. split.
  - intros i Hd Hs Hi. exists (begin_drain i (lf_wake s - 1) s).
    specialize (Hdue Hd Hs). split; [|split; [|done]].
    + apply LWorkerWoken; [done|lia].
    + cbn. apply list_lookup_insert_eq. by eapply lookup_lt_Some.
  - intros Hs. unfold q_Wake. by rewrite Hs.
Qed.

(** ** The history of [run] *)

(** What [run] executed so far, and what that established *)
Record established (done : list instr) (s : life) : Prop := {
  es_hb : StopHeartbeat ∈ done → lf_hb_canceled s = true;
  es_joined : JoinHeartbeat ∈ done → targets_done s = true;
  es_stopping : lf_stopping s = true → SetStopping ∈ done;
  es_canceled : CancelWorker ∈ done → lf_canceled s = true;
  es_stop_ch : CloseStopCh ∈ done → lf_stopped s = true;
  es_waited : WaitWorkers ∈ done → workers_done s = true;
  es_store : lf_store s = false → CloseStore ∈ done;
  es_closed : CloseStore ∈ done → lf_store s = false;
  es_go : GoStopQueue ∈ done → lf_stopper s ≠ NotStarted;
  es_stopper : lf_stopper s = Waiting → lf_stopped s = true;
  es_drained : lf_stopper s = Returned true → workers_done s = true;
}.

(** The programs [run] follows, and where it is in them *)
Definition history (done : list instr) (s : life) : Prop :=
  match lf_main s with
  | Serving => done = []
  | Doing todo =>
      (done ++ todo = on_server_error)%list ∨ ((done ++ todo = on_signal)%list ∧ todo ≠ []) ∨
      ∃ d b, done = (on_signal ++ d)%list ∧ (d ++ todo = after_drain b)%list ∧ lf_stopper s = Returned b
  end.

Definition life_ok (s : life) : Prop := ∃ done, established done s ∧ history done s.

(** A step of another goroutine establishes no less. *)
Lemma established_step done s s' :
  established done s → life_step s s' →
  (lf_hb_canceled s = true → lf_hb_canceled s' = true) →
  lf_stopping s' = lf_stopping s → (lf_canceled s = true → lf_canceled s' = true) →
  (lf_stopped s = true → lf_stopped s' = true) → lf_store s' = lf_store s →
  (lf_stopper s ≠ NotStarted → lf_stopper s' ≠ NotStarted) →
  (lf_stopper s' = Waiting → lf_stopped s' = true) →
  (lf_stopper s' = Returned true → lf_stopper s = Returned true ∨ workers_done s' = true) →
  established done s'.
Proof.
  intros [] Hstep Hhb Hst Hc Hsd Hs Hgo Hw Hd. split; try (by auto); rewrite ?Hst, ?Hs; try done.
  - intros ?. eapply targets_done_step; [exact Hstep|auto].
  - intros ?. eapply workers_done_step; [exact Hstep|auto].
  - intros [?|?]%Hd; [|done]. eapply workers_done_step; [exact Hstep|auto].
Qed.

(** An instruction adds what it is there for. *)
Lemma established_instr done i todo s s' :
  established done s → do_instr i todo s = Some s' → established (done ++ [i]) s'.
Proof.
  intros Hest Hdo.
  destruct i; cbn in Hdo; repeat case_match; simplify_eq; destruct Hest; split; cbn;
    rewrite ?elem_of_app, ?list_elem_of_singleton; intros; destruct_or?; try done; auto.
Qed.

Lemma history_join done todo :
  (done ++ JoinStopQueue :: todo = on_signal)%list → done ++ [JoinStopQueue] = on_signal.
Proof.
  intros Hd. assert (on_signal !! length done = Some JoinStopQueue) as Hi.
  { rewrite <-Hd. by apply list_lookup_middle. }
  assert (length done = 5)%nat as Hlen.
  { destruct (length done) as [|[|[|[|[|[|n]]]]]]; done. }
  assert (done = take 5 on_signal) as -> by (by rewrite <-Hd, take_app_length').
  done.
Qed.

Lemma joins_once done todo l :
  JoinStopQueue ∉ l → (done ++ JoinStopQueue :: todo)%list ≠ l.
Proof. intros Hn <-. apply Hn. rewrite elem_of_app, elem_of_cons. auto. Qed.

Lemma history_instr done i todo s s' :
  lf_main s = Doing (i :: todo) → do_instr i todo s = Some s' → history done s → history (done ++ [i]) s'.
Proof.
  intros Hm Hdo. unfold history. rewrite Hm.
  destruct (decide (i = JoinStopQueue)) as [->|Hne].
  - cbn in Hdo. destruct (lf_stopper s) as [| | |b] eqn:Hst; [done..|]. injection Hdo as <-.
    intros [Hh|[[Hh _]|(d & b' & -> & Hd & _)]].
    + by apply joins_once in Hh; [|unfold on_server_error, deferred; set_solver].
    + cbn. right; right. exists [], b. split; [by rewrite (history_join _ _ Hh)|]. done.
    + by apply joins_once in Hd; [|unfold after_drain, deferred; destruct b'; set_solver].
  - assert (lf_main s' = Doing todo ∧ (∀ b, lf_stopper s = Returned b → i ≠ GoStopQueue → lf_stopper s' = Returned b))
      as [Hm' Hb] by (destruct i; cbn in Hdo; repeat case_match; simplify_eq; done).
    rewrite Hm', <-app_assoc. cbn. intros [Hh|[[Hh _]|(d & b & -> & Hd & Hst)]]; [by left| |].
    { right; left. split; [done|]. intros ->. apply (f_equal last) in Hh.
      rewrite last_snoc in Hh. by injection Hh. }
    right; right. exists (d ++ [i]), b. split; [done|].
    split; [by rewrite <-app_assoc|]. apply Hb; [done|]. intros ->.
    assert (GoStopQueue ∈ after_drain b) as Hg by (rewrite <-Hd, elem_of_app, elem_of_cons; auto).
    unfold after_drain, deferred in Hg. destruct b; set_solver.
Qed.

(** Steps of the other goroutines *)
Lemma history_step done s s' :
  lf_main s' = lf_main s → (∀ b, lf_stopper s = Returned b → lf_stopper s' = Returned b) →
  history done s → history done s'.
Proof.
  intros Hm Hb. unfold history. rewrite Hm. destruct (lf_main s) as [|todo]; [done|].
  intros [?|[?|(d & b & ? & ? & ?)]]; [by left|by right; left|right; right]. exists d, b. auto.
Qed.

Lemma life_ok_step s s' : life_step s s' → life_ok s → life_ok s'.
Proof.
  intros Hstep (done & Hest & Hhist). pose proof Hstep as Hstep'.
  destruct Hstep as [s| | | | | | | | | | | |s Hm|s Hm|s s' i todo Hm Hdo].
  15: { exists (done ++ [i])%list. split; [by eapply established_instr|by eapply history_instr]. }
  13, 14: exists []; unfold history in Hhist; rewrite Hm in Hhist; subst done;
    (split; [|by (unfold history; cbn; auto)]); eapply established_step; [exact Hest|exact Hstep'|..];
    cbn; try done; first [by apply Hest|by auto].
  1: destruct (q_Wake_same s) as (Hw & Ht & Hm & Hq & Hsd & Hc & Hhb & Hsp & Hs & _).
  all: exists done; split; [eapply established_step; [exact Hest|exact Hstep'|..]|eapply history_step; [..|exact Hhist]].
  all: cbn; rewrite ?Hw, ?Ht, ?Hm, ?Hq, ?Hsd, ?Hc, ?Hhb, ?Hsp, ?Hs.
  all: try done; try (by apply Hest); try congruence; auto.
Qed.

Lemma life_ok_started buffer workers targets : life_ok (started buffer workers targets).
Proof.
  exists []. unfold started, history, q_Wake. cbn. split; [|done]. split; cbn; try done;
    by intros ?%not_elem_of_nil.
Qed.

Lemma reachable_ok buffer workers targets s : reachable buffer workers targets s → life_ok s.
Proof.
  intros Hreach. eapply (rtc_ind_r life_ok); [apply life_ok_started| |exact Hreach].
  intros. by eapply life_ok_step.
Qed.

(** ** The order of the shutdown *)

(** In every program of [run], the monitor is joined before the server is
    flagged as stopping, and the workers before the database is closed. *)
Definition ordered (done : list instr) (drained : bool) : Prop :=
  (SetStopping ∈ done → JoinHeartbeat ∈ done) ∧
  (CloseStore ∈ done → JoinHeartbeat ∈ done ∧ SetStopping ∈ done ∧ CancelWorker ∈ done ∧
     (drained = true ∨ WaitWorkers ∈ done)).

(** Checking the prefixes of a concrete program *)
Definition orderedb (drained : bool) (done : list instr) : bool :=
  let has i := bool_decide (i ∈ done) in
  (negb (has SetStopping) || has JoinHeartbeat) &&
  (negb (has CloseStore) || (has JoinHeartbeat && has SetStopping && has CancelWorker &&
     (drained || has WaitWorkers))).

Lemma orderedb_spec drained done : orderedb drained done = true → ordered done drained.
Proof.
  unfold orderedb, ordered. cbv zeta beta. intros Ho. apply andb_true_iff in Ho as [H1 H2].
  split; intros Hin.
  - apply orb_true_iff in H1 as [Hn|Hj]; bool_simpl; done.
  - apply orb_true_iff in H2 as [Hn|Hj]; bool_simpl; [done|]. split_and!; try done.
    match goal with Hw : drained = true ∨ _ |- _ => destruct Hw as [Hw|Hw]; [by left|right; by bool_simpl] end.
Qed.

Lemma prefix_ordered drained program done todo :
  forallb (λ n, orderedb drained (take n program)) (seq 0 (S (length program))) = true →
  (done ++ todo = program)%list → ordered done drained.
Proof.
  intros Hall <-. apply orderedb_spec. rewrite forallb_forall in Hall.
  rewrite <-(Hall (length done)); [by rewrite take_app_length|].
  apply in_seq. rewrite length_app. lia.
Qed.

Lemma history_ordered done s :
  history done s → ordered done (bool_decide (lf_stopper s = Returned true)).
Proof.
  unfold history. destruct (lf_main s) as [|todo].
  { intros ->. split; by intros ?%not_elem_of_nil. }
  intros [Hh|[[Hh _]|(d & b & -> & Hd & Hst)]].
  - eapply (prefix_ordered _ on_server_error); [|exact Hh]. by destruct (bool_decide _).
  - eapply (prefix_ordered _ on_signal); [|exact Hh]. by destruct (bool_decide _).
  - assert (bool_decide (lf_stopper s = Returned true) = b) as ->.
    { rewrite Hst. destruct b; [by apply bool_decide_true|by apply bool_decide_false]. }
    eapply (prefix_ordered _ (on_signal ++ after_drain b) _ todo); [by destruct b|].
    by rewrite <-Hd, app_assoc.
Qed.

Lemma closed_quiet s :
  life_ok s → lf_store s = false →
  Forall (λ w, w = WExited) (lf_workers s) ∧ Forall (λ t, t = TExited) (lf_targets s) ∧ lf_canceled s = true.
Proof.
  intros (done & Hest & Hhist) Hclosed. destruct (history_ordered done s Hhist) as [_ Hord].
  destruct (Hord (es_store _ _ Hest Hclosed)) as (Hj & _ & Hc & Hw).
  rewrite <-workers_done_spec, <-targets_done_spec. split_and!.
  - destruct Hw as [Hd|Hw]; [|by apply (es_waited _ _ Hest)].
    apply bool_decide_eq_true in Hd. by apply (es_drained _ _ Hest).
  - by apply (es_joined _ _ Hest).
  - by apply (es_canceled _ _ Hest).
Qed.

(** C31: the order of the shutdown holds however signals, server failures, expired
    budgets, workers and target loops interleave. The database is only closed
    when every worker and every target loop has returned, so nothing uses it
    afterwards; and while the server is flagged as stopping no target loop is
    running any more, so the monitor never reports a shutdown as a failure: a
    tick always finds the flag down. *)
Theorem shutdown_in_order buffer workers targets s :
  reachable buffer workers targets s →
  (lf_store s = false →
     Forall (λ w, w = WExited) (lf_workers s) ∧ Forall (λ t, t = TExited) (lf_targets s) ∧
     lf_canceled s = true) ∧
  (∀ i, lf_targets s !! i = Some TTick → lf_stopping s = false ∧ process_ready s = q_Ready s).
Proof.
  intros Hok%reachable_ok. split; [by apply closed_quiet|].
  destruct Hok as (done & Hest & Hhist). destruct (history_ordered done s Hhist) as [Hord _].
  intros i Hi. assert (lf_stopping s = false) as Hs.
  { apply not_true_is_false. intros Hs%(es_stopping _ _ Hest)%Hord%(es_joined _ _ Hest).
      apply targets_done_spec in Hs. by pose proof (exited_lookup _ _ _ _ Hs Hi). }
  split; [done|]. unfold process_ready. by rewrite Hs.
Qed.

(** ** The process can end *)

Definition worker_weight (w : worker_pc) : nat := match w with WDrain => 2 | WSelect => 1 | WExited => 0 end.
Definition target_weight (t : target_pc) : nat := match t with TTick => 2 | TSelect => 1 | TExited => 0 end.

Lemma sum_zero {A} (f : A → nat) l x :
  (∀ y, f y = 0%nat → y = x) → sum_list_with f l = 0%nat → Forall (λ y, y = x) l.
Proof.
  intros Hf. induction l as [|y l IH]; cbn; [by constructor|]. intros Hs.
  constructor; [apply Hf; lia|apply IH; lia].
Qed.

Lemma sum_pos {A} (f : A → nat) l :
  sum_list_with f l ≠ 0%nat → ∃ i y, l !! i = Some y ∧ f y ≠ 0%nat.
Proof.
  induction l as [|y l IH]; cbn; [done|]. intros Hs. destruct (decide (f y = 0%nat)) as [Hy|Hy].
  - destruct IH as (i & z & ? & ?); [lia|]. by exists (S i), z.
  - by exists 0%nat, y.
Qed.

(** A wait that is over in some run: only the goroutines waited for move. *)
Definition same_main (s s' : life) : Prop :=
  lf_main s' = lf_main s ∧ lf_stopper s' = lf_stopper s ∧ lf_stopped s' = lf_stopped s ∧
  lf_canceled s' = lf_canceled s ∧ lf_hb_canceled s' = lf_hb_canceled s.

Lemma workers_can_exit s :
  lf_canceled s = true →
  ∃ s', rtc life_step s s' ∧ same_main s s' ∧ workers_done s' = true.
Proof.
  remember (sum_list_with worker_weight (lf_workers s)) as n eqn:Hn. revert s Hn.
  induction n as [n IH] using lt_wf_ind. intros s -> Hc.
  destruct (decide (sum_list_with worker_weight (lf_workers s) = 0%nat)) as [Hz|Hz].
  { exists s. split; [done|]. split; [by split_and!|]. apply workers_done_spec.
    eapply sum_zero; [|exact Hz]. by intros []. }
  destruct (sum_pos _ _ Hz) as (i & w & Hi & Hw).
  assert (∃ w', life_step s (set_worker i w' s) ∧ (worker_weight w' < worker_weight w)%nat) as (w' & Hstep & Hlt).
  { destruct w; [exists WExited|exists WSelect|done]; (split; [|cbn; lia]); by constructor. }
  pose proof (sum_list_insert worker_weight _ i w w' Hi) as Hs.
  destruct (IH (sum_list_with worker_weight (lf_workers (set_worker i w' s)))) with (s := set_worker i w' s)
    as (s' & Hr & Hsame & Hd); [cbn; lia|done|done|].
  exists s'. split; [by eapply rtc_l|]. by split.
Qed.

Lemma targets_can_exit s :
  lf_hb_canceled s = true →
  ∃ s', rtc life_step s s' ∧ same_main s s' ∧ targets_done s' = true.
Proof.
  remember (sum_list_with target_weight (lf_targets s)) as n eqn:Hn. revert s Hn.
  induction n as [n IH] using lt_wf_ind. intros s -> Hc.
  destruct (decide (sum_list_with target_weight (lf_targets s) = 0%nat)) as [Hz|Hz].
  { exists s. split; [done|]. split; [by split_and!|]. apply targets_done_spec.
    eapply sum_zero; [|exact Hz]. by intros []. }
  destruct (sum_pos _ _ Hz) as (i & t & Hi & Hw).
  assert (∃ t', life_step s (set_target i t' s) ∧ (target_weight t' < target_weight t)%nat) as (t' & Hstep & Hlt).
  { destruct t; [exists TExited|exists TSelect|done]; (split; [|cbn; lia]); by constructor. }
  pose proof (sum_list_insert target_weight _ i t t' Hi) as Hs.
  destruct (IH (sum_list_with target_weight (lf_targets (set_target i t' s)))) with (s := set_target i t' s)
    as (s' & Hr & Hsame & Hd); [cbn; lia|done|done|].
  exists s'. split; [by eapply rtc_l|]. by split.
Qed.

(** What makes a blocking instruction end *)
Definition needed (i : instr) : option instr :=
  match i with
  | JoinHeartbeat => Some StopHeartbeat
  | JoinStopQueue => Some GoStopQueue
  | WaitWorkers => Some CancelWorker
  | _ => None
  end.

Definition neededb (program : list instr) (n : nat) : bool :=
  match program !! n with
  | Some i => match needed i with Some j => bool_decide (j ∈ take n program) | None => true end
  | None => true
  end.

Lemma prefix_needed program done i todo j :
  forallb (neededb program) (seq 0 (S (length program))) = true →
  (done ++ i :: todo = program)%list → needed i = Some j → j ∈ done.
Proof.
  intros Hall <- Hi. rewrite forallb_forall in Hall. specialize (Hall (length done)).
  unfold neededb in Hall. rewrite list_lookup_middle, Hi, take_app_length in Hall by done.
  apply (bool_decide_eq_true (j ∈ done)), Hall, in_seq. rewrite length_app. cbn. lia.
Qed.

Lemma history_needed done s i todo j :
  lf_main s = Doing (i :: todo) → history done s → needed i = Some j → j ∈ done.
Proof.
  intros Hm. unfold history. rewrite Hm. intros [Hh|[[Hh _]|(d & b & -> & Hd & _)]].
  - by apply (prefix_needed on_server_error _ _ todo).
  - by apply (prefix_needed on_signal _ _ todo).
  - apply (prefix_needed (on_signal ++ after_drain b) _ _ todo); [by destruct b|].
    by rewrite <-app_assoc, Hd.
Qed.

(** The next instruction of [run] can be carried out in some run. *)
Lemma instr_can_run s i todo :
  lf_main s = Doing (i :: todo) → life_ok s →
  ∃ s1 s2, rtc life_step s s1 ∧ lf_main s1 = Doing (i :: todo) ∧ do_instr i todo s1 = Some s2.
Proof.
  intros Hm (done & Hest & Hhist). pose proof (history_needed done s i todo) as Hneed.
  destruct i; try (by exists s; eexists; split; [apply rtc_refl|split; [exact Hm|reflexivity]]).
  - specialize (Hneed _ Hm Hhist eq_refl).
    destruct (targets_can_exit s) as (s1 & Hr & (Hm1 & _) & Hd); [by apply (es_hb _ _ Hest)|].
    exists s1. eexists. split; [exact Hr|]. split; [by rewrite Hm1|]. cbn. by rewrite Hd.
  - specialize (Hneed _ Hm Hhist eq_refl). pose proof (es_go _ _ Hest Hneed) as Hgo.
    destruct (lf_stopper s) as [| | |b] eqn:Hst; [done|..].
    + exists (set_stopper (Returned false) (set_stopper Waiting (close_stop_ch s))). eexists.
      split; [|split; [exact Hm|reflexivity]].
      eapply rtc_l; [by apply LStopperCloses|]. eapply rtc_l; [by apply LStopperExpired|].
      apply rtc_refl.
    + exists (set_stopper (Returned false) s). eexists. split; [|split; [exact Hm|reflexivity]].
      by apply rtc_once, LStopperExpired.
    + exists s. eexists. split; [apply rtc_refl|]. split; [exact Hm|]. cbn. by rewrite Hst.
  - specialize (Hneed _ Hm Hhist eq_refl).
    destruct (workers_can_exit s) as (s1 & Hr & (Hm1 & _) & Hd); [by apply (es_canceled _ _ Hest)|].
    exists s1. eexists. split; [exact Hr|]. split; [by rewrite Hm1|]. cbn. by rewrite Hd.
Qed.

Lemma life_ok_steps s s' : rtc life_step s s' → life_ok s → life_ok s'.
Proof. induction 1; eauto using life_ok_step. Qed.

Definition remaining (todo : list instr) : nat :=
  length todo + 8 * length (filter (λ i, i = JoinStopQueue) todo).

Lemma remaining_instr i todo s s' :
  do_instr i todo s = Some s' →
  ∃ todo', lf_main s' = Doing todo' ∧ (remaining todo' < remaining (i :: todo))%nat.
Proof.
  intros Hdo. destruct (decide (i = JoinStopQueue)) as [->|Hne].
  - cbn in Hdo. destruct (lf_stopper s) as [| | |b]; [done..|]. injection Hdo as <-.
    exists (after_drain b). split; [done|].
    assert (remaining (after_drain b) ≤ 7)%nat by (destruct b; vm_compute; lia).
    unfold remaining at 2. rewrite filter_cons_True by done. cbn [length]. lia.
  - exists todo. split; [by destruct i; cbn in Hdo; repeat case_match; simplify_eq|].
    unfold remaining. rewrite filter_cons_False by done. cbn [length]. lia.
Qed.

Lemma main_can_end s todo :
  lf_main s = Doing todo → life_ok s → ∃ s', rtc life_step s s' ∧ lf_main s' = Doing [].
Proof.
  remember (remaining todo) as n eqn:Hn. revert s todo Hn.
  induction n as [n IH] using lt_wf_ind. intros s todo -> Hm Hok.
  destruct todo as [|i todo]; [by exists s|].
  destruct (instr_can_run s i todo Hm Hok) as (s1 & s2 & Hr & Hm1 & Hdo).
  destruct (remaining_instr _ _ _ _ Hdo) as (todo' & Hm2 & Hlt).
  assert (life_step s1 s2) as Hstep by (by eapply LInstr).
  destruct (IH _ Hlt s2 todo' eq_refl Hm2) as (s' & Hr' & Hend).
  { eapply life_ok_step; [exact Hstep|]. by eapply life_ok_steps. }
  exists s'. split; [|done]. etrans; [exact Hr|]. by eapply rtc_l.
Qed.

(** At the end of [run] everything was closed. *)
Lemma ended_closed s : life_ok s → lf_main s = Doing [] → lf_store s = false.
Proof.
  intros (done & Hest & Hhist) Hm. apply (es_closed _ _ Hest). unfold history in Hhist. rewrite Hm in Hhist.
  destruct Hhist as [Hh|[[_ ?]|(d & b & -> & Hd & _)]]; [|done|].
  - rewrite app_nil_r in Hh. subst done. apply (bool_decide_eq_true (CloseStore ∈ on_server_error)). reflexivity.
  - rewrite app_nil_r in Hd. subst d. apply (bool_decide_eq_true (CloseStore ∈ on_signal ++ after_drain b)).
    by destruct b.
Qed.

(** C32: there is no deadlock: from every state the process can reach, whatever was
    going on, a run leads to the end of [run], where the database is closed
    and every worker and target loop has returned. *)
Theorem process_can_end buffer workers targets s :
  reachable buffer workers targets s →
  ∃ s', rtc life_step s s' ∧ lf_main s' = Doing [] ∧ lf_store s' = false ∧
    Forall (λ w, w = WExited) (lf_workers s') ∧ Forall (λ t, t = TExited) (lf_targets s').
Proof.
  intros Hreach. pose proof (reachable_ok _ _ _ _ Hreach) as Hok.
  assert (∃ s1 todo, rtc life_step s s1 ∧ lf_main s1 = Doing todo) as (s1 & todo & Hr1 & Hm1).
  { destruct (lf_main s) as [|todo] eqn:Hm; [|by exists s, todo].
    eexists _, _. split; [by apply rtc_once, LSignal|reflexivity]. }
  destruct (main_can_end s1 todo Hm1) as (s' & Hr & Hm); [by eapply life_ok_steps|].
  assert (life_ok s') as Hok'.
  { eapply life_ok_steps; [|exact Hok]. by etrans. }
  exists s'. split; [by etrans|]. split; [done|]. pose proof (ended_closed s' Hok' Hm) as Hst.
  split; [done|]. by destruct (closed_quiet s' Hok' Hst) as (? & ? & _).
Qed.

(** ** A process with two workers and one target *)

Module Demo.

(** The monitor is sampling, a worker drains, and somebody asked for the end. *)
Definition busy : life :=
  set_main (Doing on_signal) (begin_drain 0 0 (set_target 0 TTick (started 1 2 1))).

Lemma busy_reachable : reachable 1 2 1 busy.
Proof.
  eapply rtc_l; [by apply (LTargetTick _ 0%nat)|].
  eapply rtc_l; [by apply (LWorkerWoken _ 0%nat 0%nat)|].
  eapply rtc_l; [by apply LSignal|]. apply rtc_refl.
Qed.

End Demo.

Lemma no_wakeup_lost_witness :
  ∃ s', life_step (started 1 2 1) s' ∧ lf_workers s' !! 1%nat = Some WDrain.
Proof.
  destruct (no_wakeup_lost 1 2 1 (started 1 2 1)) as (_ & _ & Hdrain & _); [lia|apply rtc_refl|].
  destruct (Hdrain 1%nat) as (s' & Hs & Hw & _); [reflexivity..|]. by exists s'.
Defined.

Lemma shutdown_in_order_witness :
  lf_targets Demo.busy !! 0%nat = Some TTick ∧ lf_stopping Demo.busy = false.
Proof.
  destruct (shutdown_in_order 1 2 1 Demo.busy Demo.busy_reachable) as [_ Htick].
  split; [reflexivity|]. by apply (Htick 0%nat).
Defined.

Lemma process_can_end_witness :
  ∃ s', rtc life_step Demo.busy s' ∧ lf_store s' = false.
Proof.
  destruct (process_can_end 1 2 1 Demo.busy Demo.busy_reachable) as (s' & Hr & _ & Hs & _).
  by exists s'.
Defined.
