(* ===== verification/Main.v ===== *)
(** * Starting the process: [cmd/server/main.go]

    [run] up to the start of the goroutines, as a program over the database it
    opens: the configuration, the scrubbing of stored plans, the recovery of
    interrupted events, and the construction of the queue, the server and the
    monitor. Then [retentionLoop]. The goroutines and the shutdown are in
    [Lifecycle]. *)

From S2P Require Import Prelude GoLib Sha256 Sql StoreSchema Store Snapshots Http Config ConfigLoad Handler HttpAction ExecAction Heartbeat Policy Secrets Server Queue.

#[local] Open Scope string_scope.

(** context.Background(): the same environment, but nothing cancels it. *)
Definition background (E : Env) : Env :=
  {| fault := fault; clock := clock; canceled _ := false;
     rand_int64n := rand_int64n; rand_int64n_range := rand_int64n_range |}.

Section Main.
Context `{E : Env, SqlOrder, Regexp, Json, Net, Url, Runtime, MapOrder, LongestFirst}.
(** os.LookupEnv, and what the two handlers call *)
Context (LookupEnv : string → option string).
Context (json_Valid : string → bool) (ParseTime : string → option Z).
Context (resolve_reference : url → string → option url).
Context (roundtrip : nat → OutRequest → list url → url → result go_error HttpAction.Response).
Context (start : nat → command → result go_error process_run).
(** [store.Open]: the file, its schema and its migrations *)
Context (Open : string → option (conn DB)).

(** How [run] ends before it serves, or what it serves with. The database of
    an error is the one the deferred [st.Close] leaves behind. *)
Record process : Type := Process {
  pr_cfg : Config;
  pr_queue : Queue;
  pr_drops : Counters;
  pr_server : Server;
  pr_state : sstate;
  pr_monitor : option (HeartbeatConfig * hb_world);
}.

Inductive boot_end : Type :=
| ConfigChecked
| BootFailed (what : string) (left_db : option (conn DB))
| Booted (p : process).

(** [newOwnerID]: eight random bytes in hexadecimal *)
Definition newOwnerID : St (conn DB) (result string string) := λ c,
  let c' := Conn (cn_db c) (S (cn_tick c)) in
  match rand_bytes (cn_tick c) with
  | None => (Err "rand", c')
  | Some b => (Ok (EncodeToString b), c')
  end.

(** The migration of stored credentials: nothing to do without a secret. *)
Definition scrub_stored (cfg : Config) : M (conn DB) string unit := λ c,
  let replacements := ActionSecretReplacements LookupEnv (cn_tick c) (Some cfg) in
  if bool_decide (replacements = ∅) then (Ok tt, c)
  else match @RewriteActionSnapshots (background E) _ _ (ScrubSnapshotSecrets (cn_tick c) replacements) c with
  | (Some (_, None), c') => (Ok tt, c')
  | (_, c') => (Err "scrub stored action credentials: %w", c')
  end.

Definition registry : Registry :=
  NewRegistry [HTTP LookupEnv json_Valid ParseTime resolve_reference clock roundtrip;
               Exec LookupEnv start].

Definition new_process (cfg : Config) (owner : string) (c : conn DB) : process :=
  let '(q, drops) := Queue.New (cf_queue cfg) registry (Some cfg) owner in
  let '(api, s) := Server.New cfg (WithDefaults (sv_rate_limit (cf_server cfg))) c in
  Process cfg q drops api s
    (match hc_targets (cf_heartbeat cfg) with
     | [] => None
     | _ => Some (monitor_New (cf_heartbeat cfg) c)
     end).

(** [run]; the file has been decoded. *)
Definition boot (checkConfig : bool) (decoded : option Config) : boot_end :=
  match Load LookupEnv decoded with
  | Err _ => BootFailed "load config: %w" None
  | Ok cfg =>
      if checkConfig then ConfigChecked
      else match Open (st_path (cf_store cfg)) with
      | None => BootFailed "open store: %w" None
      | Some c0 =>
          match scrub_stored cfg c0 with
          | (Err e, c) => BootFailed e (Some c)
          | (Ok _, c1) =>
              match newOwnerID c1 with
              | (Err _, c) => BootFailed "owner id: %w" (Some c)
              | (Ok owner, c2) =>
                  match RequeueAllProcessing c2 with
                  | (Err _, c) => BootFailed "requeue processing: %w" (Some c)
                  | (Ok _, c3) => Booted (new_process cfg owner c3)
                  end
              end
          end
      end
  end.

End Main.

(** ** [retentionLoop] *)

Section Retention.
Context `{Env}.

(** One purge; its error is only logged. *)
Definition purge (retention : Z) : St (conn DB) unit := λ c,
  match time_now c with
  | (Ok now, c1) => (tt, (PurgeOlderThan (now - retention) c1).2)
  | (Err _, c1) => (tt, c1)
  end.

(** The loop: [true] for a tick of the timer, [false] when the context ends. *)
Fixpoint retention_rounds (retention : Z) (events : list bool) : St (conn DB) unit :=
  match events with
  | true :: events' => purge retention ≫= λ _, retention_rounds retention events'
  | _ => mret tt
  end.

Definition retentionLoop (retention : Z) (events : list bool) : St (conn DB) unit :=
  if (retention <=? 0)%Z then mret tt
  else purge retention ≫= λ _, retention_rounds retention events.

End Retention.
