(* ===== verification/MainProps.v ===== *)
(** * Properties of the start of the process and of retention

    [boot_spec]: a start that succeeds leaves a recovered database in which
    every stored plan is scrubbed, and one that fails has changed nothing but
    plans it scrubbed. [retention_spec]: whatever fails and however often it
    runs, the retention loop removes finished events past their age only. The
    lemmas before them follow [boot] call by call. *)

From S2P Require Import Prelude GoLib Sha256 Sql StoreSchema Store StoreInv StoreOutcome Snapshots SnapshotProps Http Config ConfigLoad Handler HttpAction ExecAction Heartbeat Policy Secrets SecretProps Server ServerProps ConfigProps StoreProps ClientAddr Queue Main.

#[local] Open Scope string_scope.

Lemma has_snapshot_raw e : snapshot_raw e ≠ "" → has_snapshot e = true.
Proof.
  unfold has_snapshot, snapshot_raw. destruct (ev_actions_json e) as [j|]; cbn; [|done].
  intros Hj. by rewrite bool_decide_false.
Qed.

Section Boot.
Context `{E : Env, SqlOrder, Regexp, Json, Net, Url, Runtime, MapOrder, LongestFirst}.
Context (LookupEnv : string → option string).
Context (json_Valid : string → bool) (ParseTime : string → option Z).
Context (resolve_reference : url → string → option url).
Context (roundtrip : nat → OutRequest → list url → url → result go_error HttpAction.Response).
Context (start : nat → command → result go_error process_run).
Context (Open : string → option (conn DB)).

#[local] Abbreviation boot :=
  (boot LookupEnv json_Valid ParseTime resolve_reference roundtrip start Open).

(** The callback of the migration for a configuration *)
Definition scrubber (tick : nat) (cfg : Config) : string → result string string :=
  ScrubSnapshotSecrets tick (ActionSecretReplacements LookupEnv tick (Some cfg)).

(** A stored plan holds no value of a secret the configuration refers to. *)
Definition credential_free (tick : nat) (cfg : Config) (raw : string) : Prop :=
  ∃ src, SnapshotSource src = Ok raw ∧
    ∀ name value, name ∈ referenced tick cfg → LookupEnv name = Some value → value ≠ "" →
      plan_clean tick [value] src.

(** Without a secret every snapshot is left alone, and so is every row. *)
Lemma rewritten_same (rewrite : string → result string string) e :
  (∀ raw, rewrite raw = Ok raw) → rewritten rewrite e = e.
Proof.
  intros Hid. unfold rewritten. destruct (has_snapshot e) eqn:Hs; [|done]. rewrite Hid.
  unfold has_snapshot in Hs. unfold snapshot_raw. destruct e; cbn in *. by destruct ev_actions_json.
Qed.

Lemma rewritten_db_all (rewrite : string → result string string) p db :
  all_snapshots p db → rewritten_db rewrite p db = rewritten_db rewrite (λ _, true) db.
Proof.
  intros Hall. unfold rewritten_db. f_equal. apply map_eq. intros id. rewrite !update_where_lookup.
  destruct (events db !! id) as [e|] eqn:He; [|done]. cbn. f_equal.
  destruct (p id) eqn:Hp; [done|]. symmetry. apply rewritten_none.
  destruct (has_snapshot e) eqn:Hs; [|done]. by rewrite (Hall id e He Hs) in Hp.
Qed.

Lemma rewritten_db_same (rewrite : string → result string string) p db :
  (∀ raw, rewrite raw = Ok raw) → rewritten_db rewrite p db = db.
Proof.
  intros Hid. unfold rewritten_db. destruct db as [ev ac lo gu]. unfold set_events. cbn. f_equal.
  apply map_eq. intros id. rewrite update_where_lookup. destruct (ev !! id); [|done]. cbn.
  destruct (p id); [|done]. by rewrite rewritten_same.
Qed.

(** The credentials of every snapshot are gone, or the migration stopped early. *)
Lemma scrub_stored_run cfg c :
  wp (scrub_stored LookupEnv cfg) (λ r c', ∃ p,
    cn_db c' = rewritten_db (scrubber (cn_tick c) cfg) p (cn_db c) ∧
    (is_ok r = true → all_snapshots p (cn_db c) ∧ accepted (scrubber (cn_tick c) cfg) p (cn_db c))) c.
Proof.
  unfold wp, scrub_stored, scrubber.
  set (rs := ActionSecretReplacements LookupEnv (cn_tick c) (Some cfg)).
  destruct (bool_decide (rs = ∅)) eqn:Hb.
  - assert (∀ raw, ScrubSnapshotSecrets (cn_tick c) rs raw = Ok raw) as Hid.
    { intros raw. unfold ScrubSnapshotSecrets. by rewrite Hb. }
    exists (λ _, true). cbn. split; [by rewrite rewritten_db_same|]. intros _.
    split; intros id e He Hs; [done|]. intros _. by rewrite Hid.
  - pose proof (@RewriteActionSnapshots_run (background E) _ _
      (ScrubSnapshotSecrets (cn_tick c) rs) c) as Hrun. unfold wp in Hrun.
    destruct (RewriteActionSnapshots _ c) as [[[n o]|] c']; cbn [fst snd] in Hrun; [|done].
    destruct Hrun as (p & Hdb & _ & Hacc & Ho). exists p.
    destruct o as [err|]; cbn; (split; [exact Hdb|]); [done|]. by intros _.
Qed.

(** ** The end of [run]'s preparations *)

Lemma scrubbed_snapshot tick cfg raw u :
  secrets_ok LookupEnv (referenced tick cfg) →
  ActionSecretReplacements LookupEnv tick (Some cfg) ≠ ∅ → raw ≠ "" →
  scrubber tick cfg raw = Ok u → credential_free tick cfg u.
Proof.
  intros Hok Hne Hraw. unfold scrubber, ScrubSnapshotSecrets.
  rewrite !bool_decide_false by done. cbn [orb].
  destruct (ParseSourceSnapshot raw) as [src|e]; [|done]. intros Hu.
  eexists. split; [exact Hu|]. intros name value Hin Hl Hv. by apply (scrubbed_plan_clean _ _ _ _ name).
Qed.

Lemma recovered_snapshot db db' id e' :
  recovered db db' → events db' !! id = Some e' →
  ∃ e, events db !! id = Some e ∧ ev_actions_json e' = ev_actions_json e.
Proof.
  intros (Hev & _) He'. rewrite Hev in He'. destruct (events db !! id) as [e|]; [|done].
  cbn in He'. injection He' as <-. exists e. split; [done|]. by destruct (interrupted _ _ _).
Qed.

Lemma booted_snapshots tick cfg db db' :
  secrets_ok LookupEnv (referenced tick cfg) →
  ActionSecretReplacements LookupEnv tick (Some cfg) ≠ ∅ →
  accepted (scrubber tick cfg) (λ _, true) db →
  recovered (rewritten_db (scrubber tick cfg) (λ _, true) db) db' →
  ∀ id e, events db' !! id = Some e → has_snapshot e = true →
    credential_free tick cfg (snapshot_raw e).
Proof.
  intros Hok Hne Hacc Hrec id e He Hs.
  destruct (recovered_snapshot _ _ _ _ Hrec He) as (e1 & He1 & Hj).
  cbn in He1. rewrite update_where_lookup in He1.
  destruct (events db !! id) as [e0|] eqn:He0; [|done]. cbn in He1. injection He1 as <-.
  unfold rewritten in Hj. destruct (has_snapshot e0) eqn:Hs0.
  - pose proof (Hacc id e0 He0 Hs0 eq_refl) as Hu.
    destruct (scrubber tick cfg (snapshot_raw e0)) as [u|] eqn:Eu; [|done].
    unfold snapshot_raw. rewrite Hj. eapply scrubbed_snapshot; [done..| |exact Eu].
    unfold has_snapshot in Hs0. unfold snapshot_raw. destruct (ev_actions_json e0); [|done].
    by bool_simpl.
  - unfold has_snapshot in Hs, Hs0. rewrite Hj in Hs. by rewrite Hs in Hs0.
Qed.


End Boot.

(** ** Retention *)

Section Retention.
Context `{Env}.

(** From [db] to [db'] only rows of finished events older than the retention at
    some reading of the clock went away. *)
Definition retained (retention : Z) (db db' : DB) : Prop :=
  (∀ id e, events db' !! id = Some e → events db !! id = Some e) ∧
  (∀ id e, events db !! id = Some e → events db' !! id = Some e ∨
     (events db' !! id = None ∧ ∃ n, purgeable (unix_milli (clock n - retention)) e = true)) ∧
  (∀ id e i, events db' !! id = Some e → event_actions db' !! (id, i) = event_actions db !! (id, i)) ∧
  (∀ r, is_Some (events db' !! al_event_id r) → r ∈ action_logs db' ↔ r ∈ action_logs db).

Lemma retained_refl retention db : retained retention db db.
Proof. split_and!; auto. Qed.

Lemma retained_trans retention db1 db2 db3 :
  retained retention db1 db2 → retained retention db2 db3 → retained retention db1 db3.
Proof.
  intros (A1 & B1 & C1 & D1) (A2 & B2 & C2 & D2). split_and!.
  - auto.
  - intros id e He. destruct (B1 id e He) as [He2|[Hn ?]]; [by apply B2|]. right. split; [|done].
    destruct (events db3 !! id) as [e3|] eqn:He3; [|done]. by rewrite (A2 id e3 He3) in Hn.
  - intros id e i He. rewrite (C2 id e i He). by apply (C1 id e), A2.
  - intros r [e He]. rewrite (D2 r) by (by eexists). apply D1. exists e. by apply A2.
Qed.

Lemma purged_retained retention n db db' :
  purged (unix_milli (clock n - retention)) db db' → retained retention db db'.
Proof.
  set (ms := unix_milli _). intros (He & Ha & Hl).
  assert (∀ id e, events db' !! id = Some e → event_in (purgeable ms) db id = false) as Hkept.
  { intros id e [Hd Hp]%He. unfold event_in. by rewrite Hd. }
  split_and!.
  - intros id e ?%He. tauto.
  - intros id e Hd. destruct (purgeable ms e) eqn:Hp; [right|left; by apply He].
    split; [|by exists n]. destruct (events db' !! id) as [e'|] eqn:He'; [|done].
    apply He in He' as [Hd' Hp']. rewrite Hd in Hd'. by injection Hd' as <-; rewrite Hp in Hp'.
  - intros id e i He'. apply option_eq. intros a. rewrite Ha. pose proof (Hkept id e He'). tauto.
  - intros r [e He']. rewrite Hl. pose proof (Hkept _ e He'). tauto.
Qed.

Lemma purge_run retention c :
  retained retention (cn_db c) (cn_db (purge retention c).2) ∧
  (no_faults → ∀ id e, events (cn_db (purge retention c).2) !! id = Some e →
     purgeable (unix_milli (clock (cn_tick c) - retention)) e = false).
Proof.
  unfold purge, time_now. cbn [snd]. set (c1 := Conn (cn_db c) (S (cn_tick c))).
  split.
  - pose proof (PurgeOlderThan_any (clock (cn_tick c) - retention) c1) as Hp. unfold wp in Hp.
    destruct (PurgeOlderThan _ c1) as [[n|e] c2]; cbn in *; [by eapply purged_retained|].
    rewrite Hp. apply retained_refl.
  - intros Hn id e. pose proof (PurgeOlderThan_run (clock (cn_tick c) - retention) c1 Hn)
      as (now & _ & (He & _) & _). intros ?%He. tauto.
Qed.

Lemma retention_rounds_run retention evs c :
  retained retention (cn_db c) (cn_db (retention_rounds retention evs c).2).
Proof.
  revert c. induction evs as [|[] evs IH]; intros c; try apply retained_refl.
  eapply retained_trans; [apply (purge_run retention c)|].
  change (retention_rounds retention (true :: evs) c) with
    (let '(_, c') := purge retention c in retention_rounds retention evs c').
  destruct (purge retention c) as [u c']. apply IH.
Qed.


End Retention.

(** ** A start with an interrupted event and an old plan *)

Module Demo.

#[export] Instance env : Env := StoreProps.Demo.env.
#[export] Instance regexps : Regexp := literal_regexp.
#[export] Instance net : Net := ClientAddr.Demo.text_net.
#[export] Instance urls : Url := ConfigProps.Demo.urls.
#[export] Instance runtime : Runtime := ServerProps.Demo.runtime.
#[export] Instance json : Json := SecretProps.Demo.json.
#[export] Instance order : MapOrder := SecretProps.Demo.order.
#[export] Instance longest : LongestFirst := SecretProps.Demo.longest.

Definition db0 : DB := set_events
  {["e1" := set_actions_json (Some "plan https://x.example/0123456789abcdef") StoreProps.Demo.leased_row]}
  StoreProps.Demo.db0.

Definition Open (path : string) : option (conn DB) :=
  if bool_decide (path = "data/webhook.db") then Some (Conn db0 0) else None.

Definition started : boot_end :=
  boot ConfigProps.Demo.environment (λ _, true) (λ _, None) (λ _ _, None)
    (λ _ _ _ _, Err (ErrText "offline")) (λ _ _, Err (ErrText "no such file")) Open false
    (Some ConfigProps.Demo.decoded).

End Demo.
#[local] Existing Instance Demo.env.
#[local] Existing Instance Demo.regexps.
#[local] Existing Instance Demo.net.
#[local] Existing Instance Demo.urls.
#[local] Existing Instance Demo.runtime.
#[local] Existing Instance Demo.json.
#[local] Existing Instance Demo.order.
#[local] Existing Instance Demo.longest.

Lemma demo_secrets : secrets_ok ConfigProps.Demo.environment (referenced 0 ConfigProps.Demo.config).
Proof.
  assert (referenced 0 ConfigProps.Demo.config = ["GH_SECRET"]) as -> by (vm_compute; reflexivity).
  intros name value ->%list_elem_of_singleton. cbn. intros [= <-] _. split; [by split|].
  intros name' ->%list_elem_of_singleton. vm_compute. reflexivity.
Qed.

Lemma demo_replacements :
  ActionSecretReplacements ConfigProps.Demo.environment 0 (Some ConfigProps.Demo.config) ≠ ∅.
Proof. apply (bool_decide_eq_false_1 _). vm_compute. reflexivity. Qed.


