(* ===== verification/Exposition.v ===== *)
(** * The text format of the metrics page

    [prometheusQuote] of [internal/server/observability.go], the verb [%.9g],
    and the lines the page is made of, with a reader of the format as their
    reference. *)

From Stdlib Require Import Ascii SpecFloat.
From stdpp Require Import pretty.
From S2P Require Import Prelude GoLib Placeholders JsonText Float64.

#[local] Open Scope nat_scope.
#[local] Open Scope string_scope.

Definition newline : ascii := ascii_of_nat 10.
Definition nl : string := String newline "".
Definition dq : string := String quote "".

(** ** prometheusQuote *)

(** The loop over the runes; [copy] bytes of a rune are still to be written. *)
Fixpoint quote_runes (copy : nat) (s : string) : string :=
  match s with
  | "" => ""
  | String a s' =>
      match copy with
      | S k => String a (quote_runes k s')
      | O =>
          let n := nat_of_ascii a in
          if Nat.eqb n 92 then String backslash (String backslash (quote_runes 0 s'))
          else if Nat.eqb n 34 then String backslash (String quote (quote_runes 0 s'))
          else if Nat.eqb n 10 then String backslash (String "n" (quote_runes 0 s'))
          else if Nat.ltb n 32 || Nat.eqb n 127 then replacement +:+ quote_runes 0 s'
          else if Nat.ltb n 128 then String a (quote_runes 0 s')
          else match rune_tail n s' with
               | Some k => String a (quote_runes k s')
               | None => replacement +:+ quote_runes 0 s'
               end
      end
  end.

Definition prometheusQuote (value : string) : string := dq +:+ quote_runes 0 value +:+ dq.

(** ** The verb [%.9g] of a float64 *)

(** The decimal exponent of [num / den], with the fraction scaled to [1, 10). *)
Fixpoint scale10 (fuel : nat) (num den exp : Z) : Z * Z * Z :=
  match fuel with
  | O => (num, den, exp)
  | S fuel' =>
      if (num <? den)%Z then scale10 fuel' (num * 10) den (exp - 1)
      else if (10 * den <=? num)%Z then scale10 fuel' num (den * 10) (exp + 1)
      else (num, den, exp)
  end.

(** Nine digits, rounded half to even, and the exponent of the first. *)
Definition nine_digits (num den : Z) : Z * Z :=
  let '(num, den, exp) := scale10 700 num den 0 in
  let q := (num * 10 ^ 8 / den)%Z in
  let r := (num * 10 ^ 8 - q * den)%Z in
  let q := if (den <? 2 * r)%Z || ((2 * r =? den)%Z && Z.odd q) then (q + 1)%Z else q in
  if (q =? 10 ^ 9)%Z then (10 ^ 8, exp + 1)%Z else (q, exp).

Fixpoint zeros (n : nat) : string := match n with O => "" | S n' => String "0" (zeros n') end.

Definition two_digits (n : Z) : string := if (n <? 10)%Z then "0" +:+ Itoa n else Itoa n.

Definition print_g (digits : string) (exp : Z) : string :=
  let nd := String.length digits in
  let dp := (exp + 1)%Z in
  let eprec := if Nat.ltb nd 9 && (dp <=? Z.of_nat nd)%Z then Z.of_nat nd else 9%Z in
  if (exp <? -4)%Z || (eprec <=? exp)%Z then
    String.substring 0 1 digits
      +:+ (if Nat.eqb nd 1 then "" else "." +:+ drop 1 digits)
      +:+ "e" +:+ (if (exp <? 0)%Z then "-" else "+") +:+ two_digits (Z.abs exp)
  else if (dp <=? 0)%Z then "0." +:+ zeros (Z.to_nat (- dp)) +:+ digits
  else if (Z.of_nat nd <=? dp)%Z then digits +:+ zeros (Z.to_nat dp - nd)
  else String.substring 0 (Z.to_nat dp) digits +:+ "." +:+ drop (Z.to_nat dp) digits.

Definition format_g9 (f : float64) : string :=
  match f with
  | S754_zero s => if s then "-0" else "0"
  | S754_infinity s => if s then "-Inf" else "+Inf"
  | S754_nan => "NaN"
  | S754_finite s m e =>
      let '(q, exp) := nine_digits (Z.pos m * 2 ^ Z.max e 0) (2 ^ Z.max (- e) 0) in
      (if s then "-" else "") +:+ print_g (TrimRight (Itoa q) "0") exp
  end.

(** ** Lines *)

(** A label whose value is constant in the source, and one that is quoted *)
Definition const_label (name value : string) : string := name +:+ "=" +:+ dq +:+ value +:+ dq.
Definition label (name value : string) : string := name +:+ "=" +:+ prometheusQuote value.

Definition sample_line (name labels value : string) : string :=
  name +:+ (if bool_decide (labels = "") then "" else "{" +:+ labels +:+ "}")
    +:+ " " +:+ value +:+ nl.

Definition help (name text : string) : string := "# HELP " +:+ name +:+ " " +:+ text +:+ nl.
Definition type (name kind : string) : string := "# TYPE " +:+ name +:+ " " +:+ kind +:+ nl.

Example g9_ex :
  (format_g9 <$> [f64_div (f64_of_Z 1) (f64_of_Z 3); f64_of_Z 0; f64_of_Z 1;
    f64_div (f64_of_Z 1) (f64_of_Z 8); f64_div (f64_of_Z 2) (f64_of_Z 3); f64_of_Z 120;
    f64_div (f64_of_Z 1) (f64_of_Z 30000); f64_of_Z 12345678901;
    f64_div (f64_of_Z 999999999999) (f64_of_Z 1000000000000)])
  = ["0.333333333"; "0"; "1"; "0.125"; "0.666666667"; "120"; "3.33333333e-05"; "1.23456789e+10"; "1"].
Proof. vm_compute. reflexivity. Qed.

(** ** A reader of the format *)

Record sample : Type := Sample { sm_name : string; sm_labels : list (string * string); sm_value : string }.

#[global] Instance sample_eq_dec : EqDecision sample.
Proof. solve_decision. Defined.

(** The value of a label, up to the quote that ends it, and what follows *)
Fixpoint read_label_value (s : string) : option (string * string) :=
  match s with
  | "" => None
  | String a s' =>
      if Ascii.eqb a quote then Some ("", s')
      else if Ascii.eqb a newline then None
      else if Ascii.eqb a backslash then
        match s' with
        | String b s'' =>
            match nat_of_ascii b with
            | 92 => prepend (String backslash "") (read_label_value s'')
            | 34 => prepend dq (read_label_value s'')
            | 110 => prepend nl (read_label_value s'')
            | _ => None
            end
        | "" => None
        end
      else prepend (String a "") (read_label_value s')
  end.

Definition name_byte (n : nat) : bool :=
  in_range 97 122 n || in_range 65 90 n || in_range 48 57 n || Nat.eqb n 95.

Fixpoint read_labels (fuel : nat) (s : string) : option (list (string * string) * string) :=
  match fuel with
  | O => None
  | S fuel' =>
      let '(name, r) := take_while name_byte s in
      match match_text ("=" +:+ dq) r with
      | None => None
      | Some r =>
          match read_label_value r with
          | None => None
          | Some (v, r) =>
              match match_text "," r, match_text "}" r with
              | Some r, _ => '(l, r) ← read_labels fuel' r; Some ((name, v) :: l, r)
              | _, Some r => Some ([(name, v)], r)
              | _, _ => None
              end
          end
      end
  end.

Definition read_sample (line : string) : option sample :=
  let '(name, r) := take_while name_byte line in
  match match_text "{" r with
  | Some r =>
      '(labels, r) ← read_labels (String.length r) r;
      v ← match_text " " r; Some (Sample name labels v)
  | None => v ← match_text " " r; Some (Sample name [] v)
  end.

Definition is_comment (line : string) : bool := bool_decide (line = "") || has_prefix line "#".

Fixpoint read_lines (lines : list string) : option (list sample) :=
  match lines with
  | [] => Some []
  | line :: lines' =>
      if is_comment line then read_lines lines'
      else x ← read_sample line; l ← read_lines lines'; Some (x :: l)
  end.

Definition scrape (page : string) : option (list sample) := read_lines (Split page newline).

(** ** What a label shows *)

(** Control bytes other than the newline have no escape. *)
Fixpoint no_controls (s : string) : string :=
  match s with
  | "" => ""
  | String a s' =>
      let n := nat_of_ascii a in
      (if (Nat.ltb n 32 && negb (Nat.eqb n 10)) || Nat.eqb n 127 then replacement else String a "")
        +:+ no_controls s'
  end.

Definition shown (value : string) : string := no_controls (sanitized value).

Definition printable (value : string) : bool :=
  utf8_valid value
  && all_bytes (λ n, negb ((Nat.ltb n 32 && negb (Nat.eqb n 10)) || Nat.eqb n 127)) value.

Lemma no_controls_id s :
  all_bytes (λ n, negb ((Nat.ltb n 32 && negb (Nat.eqb n 10)) || Nat.eqb n 127)) s = true →
  no_controls s = s.
Proof.
  induction s as [|a s IH]; [done|]. cbn [all_bytes no_controls]. intros [Ha Hs]%andb_true_iff.
  rewrite IH by done. destruct (_ || _) in Ha |- *; [done|]. done.
Qed.

Lemma shown_id value : printable value = true → shown value = value.
Proof.
  intros [Hv Hc]%andb_true_iff. unfold shown, sanitized. rewrite to_valid_id by done.
  by apply no_controls_id.
Qed.

Lemma no_controls_keep a s :
  (Nat.ltb (nat_of_ascii a) 32 && negb (Nat.eqb (nat_of_ascii a) 10)) || Nat.eqb (nat_of_ascii a) 127 = false →
  no_controls (String a s) = String a (no_controls s).
Proof. intros Ha. cbn [no_controls]. by rewrite Ha. Qed.

Lemma no_controls_drop a s :
  (Nat.ltb (nat_of_ascii a) 32 && negb (Nat.eqb (nat_of_ascii a) 10)) || Nat.eqb (nat_of_ascii a) 127 = true →
  no_controls (String a s) = replacement +:+ no_controls s.
Proof. intros Ha. cbn [no_controls]. by rewrite Ha. Qed.

(** ** Reading back what was written *)

Lemma read_plain a t :
  Ascii.eqb a quote = false → Ascii.eqb a newline = false → Ascii.eqb a backslash = false →
  read_label_value (String a t) = prepend (String a "") (read_label_value t).
Proof. intros Hq Hn Hb. cbn [read_label_value]. by rewrite Hq, Hn, Hb. Qed.

Lemma byte_not a n b : nat_of_ascii a = n → nat_of_ascii b ≠ n → Ascii.eqb a b = false.
Proof. intros Ha Hb. apply Ascii.eqb_neq. by intros ->. Qed.

Lemma high_not a b : (128 ≤ nat_of_ascii a)%nat → (nat_of_ascii b < 128)%nat → Ascii.eqb a b = false.
Proof. intros Ha Hb. apply (byte_not a _ _ eq_refl). lia. Qed.

Lemma read_replacement t :
  read_label_value (replacement +:+ t) = prepend replacement (read_label_value t).
Proof.
  change (read_label_value (replacement +:+ t)) with
    (prepend (String (ascii_of_nat 239) "") (prepend (String (ascii_of_nat 191) "")
      (prepend (String (ascii_of_nat 189) "") (read_label_value t)))).
  by rewrite !prepend_prepend.
Qed.

Lemma read_quote_runes s : ∀ copy rest, conts copy s = true →
  read_label_value (quote_runes copy s +:+ String quote rest) =
    Some (no_controls (to_valid replacement copy s), rest).
Proof.
  induction s as [|a s IH]; intros copy rest Hc; [by destruct copy|].
  cbn [quote_runes to_valid]. destruct copy as [|k].
  - destruct (Nat.eqb_spec (nat_of_ascii a) 92) as [Hn|H92].
    { apply byte_is in Hn as ->. change (Nat.ltb (nat_of_ascii (ascii_of_nat 92)) 128) with true. cbv iota.
      rewrite no_controls_keep by done.
      change (prepend (String backslash "") (read_label_value (quote_runes 0 s +:+ String quote rest))
        = Some (String backslash (no_controls (to_valid replacement 0 s)), rest)).
      by rewrite IH. }
    destruct (Nat.eqb_spec (nat_of_ascii a) 34) as [Hn|H34].
    { apply byte_is in Hn as ->. change (Nat.ltb (nat_of_ascii (ascii_of_nat 34)) 128) with true. cbv iota.
      rewrite no_controls_keep by done.
      change (prepend dq (read_label_value (quote_runes 0 s +:+ String quote rest))
        = Some (String quote (no_controls (to_valid replacement 0 s)), rest)).
      by rewrite IH. }
    destruct (Nat.eqb_spec (nat_of_ascii a) 10) as [Hn|H10].
    { apply byte_is in Hn as ->. change (Nat.ltb (nat_of_ascii (ascii_of_nat 10)) 128) with true. cbv iota.
      rewrite no_controls_keep by done.
      change (prepend nl (read_label_value (quote_runes 0 s +:+ String quote rest))
        = Some (String newline (no_controls (to_valid replacement 0 s)), rest)).
      by rewrite IH. }
    destruct (Nat.ltb (nat_of_ascii a) 32 || Nat.eqb (nat_of_ascii a) 127) eqn:Ec.
    { assert (Nat.ltb (nat_of_ascii a) 128 = true) as ->.
      { apply orb_true_iff in Ec as [E%Nat.ltb_lt|E%Nat.eqb_eq]; apply Nat.ltb_lt; lia. }
      rewrite no_controls_drop.
      2: { apply orb_true_iff in Ec as [E|E]; rewrite E; [|by rewrite orb_true_r].
           by destruct (Nat.eqb_spec (nat_of_ascii a) 10). }
      rewrite str_app_assoc, read_replacement, IH by done. done. }
    apply orb_false_iff in Ec as [E32 E127].
    assert (∀ t, read_label_value (String a t) = prepend (String a "") (read_label_value t)) as Hplain.
    { intros t. apply read_plain; by apply (byte_not a _ _ eq_refl), not_eq_sym. }
    assert (∀ t, no_controls (String a t) = String a (no_controls t)) as Hkeep.
    { intros t. apply no_controls_keep. by rewrite E32, E127. }
    destruct (Nat.ltb (nat_of_ascii a) 128) eqn:E128.
    { by rewrite str_app_cons, Hplain, Hkeep, IH. }
    destruct (rune_tail (nat_of_ascii a) s) as [k|] eqn:Et.
    + rewrite str_app_cons, Hplain, Hkeep, IH by (by eapply rune_tail_conts). done.
    + rewrite str_app_assoc, read_replacement, IH by done. done.
  - cbn [conts] in Hc. apply andb_true_iff in Hc as [Ha Hc].
    unfold cont, in_range in Ha. apply andb_true_iff in Ha as [Ha%Nat.leb_le _].
    rewrite str_app_cons, read_plain.
    + rewrite IH, no_controls_keep; [done| |done].
      destruct (Nat.ltb_spec (nat_of_ascii a) 32); [lia|]. destruct (Nat.eqb_spec (nat_of_ascii a) 127); [lia|done].
    + apply high_not; [done|cbv; lia].
    + apply high_not; [done|cbv; lia].
    + apply high_not; [done|cbv; lia].
Qed.

(** *** Labels *)

(** Labels as pairs, the way a line shows them *)
Definition label_text (l : list (string * string)) : string :=
  Join ((λ kv, label kv.1 kv.2) <$> l) ",".

Definition shown_labels (l : list (string * string)) : list (string * string) :=
  (λ kv, (kv.1, shown kv.2)) <$> l.

Lemma read_label_value_quote v rest :
  read_label_value (quote_runes 0 v +:+ dq +:+ rest) = Some (shown v, rest).
Proof. exact (read_quote_runes v 0 rest eq_refl). Qed.

Lemma read_label name v rest fuel :
  all_bytes name_byte name = true →
  read_labels (S fuel) (label name v +:+ rest) =
    match match_text "," rest, match_text "}" rest with
    | Some r, _ => '(l, r) ← read_labels fuel r; Some ((name, shown v) :: l, r)
    | _, Some r => Some ([(name, shown v)], r)
    | _, _ => None
    end.
Proof.
  intros Hn. unfold label, prometheusQuote. cbn [read_labels]. rewrite !str_app_assoc.
  change ("=" +:+ ?x) with (String "=" x). rewrite take_while_app by done.
  change (String "=" ?x) with ("=" +:+ x).
  change ("=" +:+ dq +:+ ?x) with (("=" +:+ dq) +:+ x). rewrite match_text_app.
  by rewrite read_label_value_quote.
Qed.

Lemma label_text_cons kv kv' l :
  label_text (kv :: kv' :: l) = label kv.1 kv.2 +:+ "," +:+ label_text (kv' :: l).
Proof. unfold label_text. cbn [fmap list_fmap]. done. Qed.

Lemma read_labels_text l rest : ∀ fuel, l ≠ [] → (length l ≤ fuel)%nat →
  Forall (λ kv, all_bytes name_byte kv.1 = true) l →
  read_labels fuel (label_text l +:+ "}" +:+ rest) = Some (shown_labels l, rest).
Proof.
  induction l as [|[name v] [|kv' l] IH]; intros [|fuel] Hne Hf Hl; try done; cbn in Hf; try lia.
  - apply Forall_cons in Hl as [Hn _]. unfold label_text. cbn [fmap list_fmap]. change (Join [?x] ?y) with x. cbn [fst snd].
    rewrite read_label by done. change (match_text "," ("}" +:+ rest)) with (@None string). cbv iota.
    by rewrite match_text_app.
  - apply Forall_cons in Hl as [Hn Hl]. rewrite label_text_cons, !str_app_assoc, read_label by done.
    rewrite match_text_app, IH by (done || cbn; lia). done.
Qed.


(** *** Lines *)

Definition one_line (s : string) : bool := all_bytes (λ n, negb (Nat.eqb n 10)) s.

Lemma one_line_app s t : one_line (s +:+ t) = one_line s && one_line t.
Proof.
  induction s as [|a s IH]; [done|]. rewrite str_app_cons. unfold one_line in *. cbn [all_bytes].
  by rewrite IH, andb_assoc.
Qed.

Lemma Split_line s rest : one_line s = true → Split (s +:+ nl +:+ rest) newline = s :: Split rest newline.
Proof.
  intros Hs. change (nl +:+ rest) with (String newline rest). rewrite Split_concat.
  assert (Split s newline = [s]) as ->; [|done].
  induction s as [|a s IH]; [done|]. unfold one_line in *. cbn [all_bytes] in Hs.
  apply andb_true_iff in Hs as [Ha Hs]. cbn [Split].
  destruct (Ascii.eqb_spec a newline) as [->|]; [done|]. by rewrite IH.
Qed.

Lemma scrape_comment s rest : one_line s = true → scrape (("#" +:+ s) +:+ nl +:+ rest) = scrape rest.
Proof.
  intros Hs. unfold scrape. rewrite Split_line by (by rewrite one_line_app, Hs).
  cbn [read_lines]. unfold is_comment. rewrite has_prefix_app, orb_true_r. done.
Qed.

Lemma scrape_help name text rest :
  one_line name = true → one_line text = true → scrape (help name text +:+ rest) = scrape rest.
Proof.
  intros Hn Ht. unfold help. change ("# HELP " +:+ ?x) with ("#" +:+ " HELP " +:+ x).
  replace (("#" +:+ " HELP " +:+ name +:+ " " +:+ text +:+ nl) +:+ rest)
    with (("#" +:+ " HELP " +:+ name +:+ " " +:+ text) +:+ nl +:+ rest) by (by rewrite !str_app_assoc).
  apply scrape_comment. by rewrite !one_line_app, Hn, Ht.
Qed.

Lemma scrape_type name kind rest :
  one_line name = true → one_line kind = true → scrape (type name kind +:+ rest) = scrape rest.
Proof.
  intros Hn Ht. unfold type. change ("# TYPE " +:+ ?x) with ("#" +:+ " TYPE " +:+ x).
  replace (("#" +:+ " TYPE " +:+ name +:+ " " +:+ kind +:+ nl) +:+ rest)
    with (("#" +:+ " TYPE " +:+ name +:+ " " +:+ kind) +:+ nl +:+ rest) by (by rewrite !str_app_assoc).
  apply scrape_comment. by rewrite !one_line_app, Hn, Ht.
Qed.

Lemma one_line_cons a s : one_line (String a s) = negb (Nat.eqb (nat_of_ascii a) 10) && one_line s.
Proof. done. Qed.

Lemma one_line_quote_runes s : ∀ copy, conts copy s = true → one_line (quote_runes copy s) = true.
Proof.
  induction s as [|a s IH]; intros copy Hc; [by destruct copy|]. cbn [quote_runes].
  destruct copy as [|k].
  - destruct (Nat.eqb (nat_of_ascii a) 92); [by rewrite !one_line_cons, IH|].
    destruct (Nat.eqb (nat_of_ascii a) 34); [by rewrite !one_line_cons, IH|].
    destruct (Nat.eqb (nat_of_ascii a) 10) eqn:E10; [by rewrite !one_line_cons, IH|].
    destruct (_ || _); [by rewrite one_line_app, IH|].
    destruct (Nat.ltb _ 128); [by rewrite one_line_cons, E10, IH|].
    destruct (rune_tail _ s) as [k|] eqn:Et; [|by rewrite one_line_app, IH].
    rewrite one_line_cons, E10, IH; [done|]. by eapply rune_tail_conts.
  - cbn [conts] in Hc. apply andb_true_iff in Hc as [Ha Hc]. rewrite one_line_cons, IH by done.
    unfold cont, in_range in Ha. apply andb_true_iff in Ha as [Ha%Nat.leb_le _].
    destruct (Nat.eqb_spec (nat_of_ascii a) 10); [lia|done].
Qed.

Lemma name_one_line s : all_bytes name_byte s = true → one_line s = true.
Proof.
  unfold one_line. induction s as [|a s IH]; [done|]. cbn [all_bytes]. intros [Ha Hs]%andb_true_iff.
  rewrite IH by done. destruct (Nat.eqb_spec (nat_of_ascii a) 10) as [E|]; [|done]. by rewrite E in Ha.
Qed.

Lemma one_line_label name v : all_bytes name_byte name = true → one_line (label name v) = true.
Proof.
  intros Hn. unfold label, prometheusQuote.
  rewrite !one_line_app, name_one_line, one_line_quote_runes by done. done.
Qed.

Lemma one_line_labels l :
  Forall (λ kv, all_bytes name_byte kv.1 = true) l → one_line (label_text l) = true.
Proof.
  induction l as [|[n v] [|kv' l] IH]; intros Hl; [done| |].
  - apply Forall_cons in Hl as [Hn _]. by apply one_line_label.
  - apply Forall_cons in Hl as [Hn Hl]. rewrite label_text_cons, !one_line_app, IH by done.
    cbn [fst snd]. by rewrite one_line_label.
Qed.

Lemma labels_fuel l : (length l ≤ String.length (label_text l) + 1)%nat.
Proof.
  induction l as [|kv [|kv' l] IH]; [cbn; lia..|].
  rewrite label_text_cons, !str_app_length. cbn [length] in *. change (String.length ",") with 1%nat. lia.
Qed.

Lemma label_text_nonempty l : l ≠ [] → label_text l ≠ "".
Proof.
  destruct l as [|[n v] l]; [done|]. intros _ Hl. apply (f_equal String.length) in Hl. revert Hl.
  destruct l as [|kv' l]; [|rewrite label_text_cons];
    unfold label_text, label; cbn [fmap list_fmap fst snd]; rewrite ?str_app_length;
    change (String.length "=") with 1%nat; [|cbn; lia].
  change (Join [?x] ?y) with x. rewrite !str_app_length. change (String.length "=") with 1%nat. cbn; lia.
Qed.

(** A line of a sample gives back the sample. *)
Lemma scrape_sample name l value rest :
  name ≠ "" → all_bytes name_byte name = true → one_line value = true →
  Forall (λ kv, all_bytes name_byte kv.1 = true) l →
  scrape (sample_line name (label_text l) value +:+ rest) =
    (samples ← scrape rest; Some (Sample name (shown_labels l) value :: samples)).
Proof.
  intros Hne Hn Hv Hl.
  set (mid := if bool_decide (label_text l = "") then "" else "{" +:+ label_text l +:+ "}").
  assert (one_line mid = true) as Hmid.
  { unfold mid. case_bool_decide; [done|]. by rewrite !one_line_app, one_line_labels. }
  replace (sample_line name (label_text l) value +:+ rest) with
    ((name +:+ mid +:+ " " +:+ value) +:+ nl +:+ rest)
    by (unfold sample_line; fold mid; by rewrite !str_app_assoc).
  unfold scrape. rewrite Split_line by (by rewrite !one_line_app, (name_one_line name), Hmid, Hv).
  cbn [read_lines].
  assert (is_comment (name +:+ mid +:+ " " +:+ value) = false) as ->.
  { destruct name as [|a name]; [done|]. unfold is_comment. rewrite bool_decide_false by done.
    rewrite str_app_cons. cbn [has_prefix orb]. destruct (Ascii.eqb_spec "#" a) as [<-|]; [done|].
    by destruct (Ascii.eqb_spec a "#") as [->|]. }
  assert (read_sample (name +:+ mid +:+ " " +:+ value) = Some (Sample name (shown_labels l) value)) as ->;
    [|done].
  unfold read_sample, mid. destruct l as [|kv l].
  - rewrite bool_decide_true by done. change ("" +:+ ?x) with x. change (" " +:+ value) with (String " " value).
    rewrite take_while_app by done. change (match_text "{" (String " " value)) with (@None string).
    cbv iota. change (String " " value) with (" " +:+ value). by rewrite match_text_app.
  - rewrite bool_decide_false by (by apply label_text_nonempty). rewrite !str_app_assoc.
    change ("{" +:+ ?x) with (String "{" x) at 1. rewrite take_while_app by done.
    change (match_text "{" (String "{" ?x)) with (match_text "{" ("{" +:+ x)). rewrite match_text_app.
    rewrite read_labels_text; [cbn [mbind option_bind]; by rewrite match_text_app|done| |done].
    pose proof (labels_fuel (kv :: l)) as Hf. rewrite str_app_length, (str_app_length "}").
    change (String.length "}") with 1%nat. lia.
Qed.

(** ** Pages written piece by piece *)

Definition writes (l : list string) : string := foldr String.append "" l.

(** A text adds samples to the page it starts. *)
Definition adds (text : string) (samples : list sample) : Prop := ∀ rest,
  scrape (text +:+ rest) = (λ l, (samples ++ l)%list) <$> scrape rest.

Lemma adds_nil : adds "" [].
Proof. intros rest. change ("" +:+ rest) with rest. by destruct (scrape rest). Qed.

Lemma adds_app s xs t ys : adds s xs → adds t ys → adds (s +:+ t) (xs ++ ys)%list.
Proof.
  intros Hs Ht rest. rewrite str_app_assoc, Hs, Ht. destruct (scrape rest); [|done]. cbn.
  by rewrite app_assoc.
Qed.

Lemma adds_help name text : one_line name = true → one_line text = true → adds (help name text) [].
Proof. intros Hn Ht rest. rewrite scrape_help by done. by destruct (scrape rest). Qed.

Lemma adds_type name kind : one_line name = true → one_line kind = true → adds (type name kind) [].
Proof. intros Hn Ht rest. rewrite scrape_type by done. by destruct (scrape rest). Qed.

Lemma adds_sample name l value :
  name ≠ "" → all_bytes name_byte name = true → one_line value = true →
  Forall (λ kv, all_bytes name_byte kv.1 = true) l →
  adds (sample_line name (label_text l) value) [Sample name (shown_labels l) value].
Proof. intros Hne Hn Hv Hl rest. rewrite scrape_sample by done. by destruct (scrape rest). Qed.

Lemma adds_writes {A} (f : A → string) (g : A → list sample) l :
  (∀ x, x ∈ l → adds (f x) (g x)) → adds (writes (f <$> l)) (l ≫= g).
Proof.
  induction l as [|x l IH]; intros Hl; [apply adds_nil|].
  apply (adds_app (f x) (g x)); [apply Hl; by left|]. apply IH. intros y Hy. apply Hl. by right.
Qed.

Lemma adds_scrape text samples : adds text samples → scrape text = Some samples.
Proof. intros Ha. specialize (Ha ""). rewrite str_app_nil in Ha. rewrite Ha.
  change (scrape "") with (Some (@nil sample)). cbn [fmap option_fmap option_map].
  f_equal. apply app_nil_r.
Qed.

Create HintDb exposition.
#[export] Hint Resolve adds_nil adds_app adds_help adds_type : exposition.

(** *** Numbers take one line. *)

Lemma one_line_pretty_N x : ∀ s, one_line s = true → one_line (pretty_N_go x s) = true.
Proof.
  induction x as [x IH] using (well_founded_ind N.lt_wf_0). intros s Hs.
  destruct (decide (x = 0%N)) as [->|Hx]; [by rewrite pretty_N_go_0|].
  rewrite pretty_N_go_step by lia. apply IH; [apply N.div_lt; lia|].
  rewrite one_line_cons, Hs, andb_true_r. pose proof (N.mod_lt x 10 ltac:(done)) as Hm.
  destruct (x `mod` 10)%N as [|q] eqn:E; [done|].
  do 4 (destruct q as [q|q|]; try done; try lia).
Qed.

Lemma one_line_Itoa n : one_line (Itoa n) = true.
Proof.
  assert (∀ p, one_line (@pretty positive _ p) = true) as Hpos.
  { intros p. unfold pretty, pretty_positive, pretty, pretty_N. rewrite decide_False by done.
    by apply one_line_pretty_N. }
  unfold Itoa, pretty, pretty_Z. destruct n as [|p|p]; [done|apply Hpos|].
  change (String ?a ?x) with (String a "" +:+ x). by rewrite one_line_app, Hpos.
Qed.

Lemma one_line_str_rev s acc : one_line (str_rev s acc) = one_line s && one_line acc.
Proof.
  revert acc. induction s as [|a s IH]; intros acc; [done|]. cbn [str_rev].
  rewrite IH, !one_line_cons. by destruct (negb _), (one_line s).
Qed.

Lemma one_line_drop n s : one_line s = true → one_line (drop n s) = true.
Proof.
  revert n. induction s as [|a s IH]; intros [|n]; try done. rewrite one_line_cons.
  intros [_ Hs]%andb_true_iff. by apply IH.
Qed.

Lemma one_line_substring n s : one_line s = true → one_line (String.substring 0 n s) = true.
Proof.
  revert n. induction s as [|a s IH]; intros [|n]; try done. rewrite one_line_cons.
  intros [Ha Hs]%andb_true_iff. cbn [String.substring]. by rewrite one_line_cons, Ha, IH.
Qed.

Lemma one_line_drop_while c s : one_line s = true → one_line (drop_while c s) = true.
Proof.
  induction s as [|a s IH]; [done|]. rewrite one_line_cons. intros [Ha Hs]%andb_true_iff.
  cbn [drop_while]. destruct (Ascii.eqb a c); [by apply IH|]. by rewrite one_line_cons, Ha, Hs.
Qed.

Lemma one_line_TrimRight s c : one_line s = true → one_line (TrimRight s c) = true.
Proof.
  intros Hs. unfold TrimRight. rewrite one_line_str_rev, one_line_drop_while; [done|].
  by rewrite one_line_str_rev, Hs.
Qed.

Lemma one_line_zeros n : one_line (zeros n) = true.
Proof. induction n as [|n IH]; [done|]. cbn [zeros]. by rewrite one_line_cons, IH. Qed.

Create Rewrite HintDb one_line_app.
Create HintDb one_line.
#[local] Hint Rewrite one_line_app one_line_Itoa one_line_zeros : one_line_app.
#[local] Hint Resolve one_line_drop one_line_substring one_line_TrimRight one_line_Itoa : one_line.

Lemma one_line_print_g digits exp : one_line digits = true → one_line (print_g digits exp) = true.
Proof.
  intros Hd. pose proof (λ n, one_line_drop n _ Hd) as Hdrop.
  pose proof (λ n, one_line_substring n _ Hd) as Hsub. unfold print_g, two_digits.
  repeat case_match; autorewrite with one_line_app; rewrite ?Hd, ?Hdrop, ?Hsub; done.
Qed.

Lemma one_line_g9 f : one_line (format_g9 f) = true.
Proof.
  destruct f as [[]|[]| |s m e]; [done..|]. unfold format_g9.
  destruct (nine_digits _ _) as [q exp]. rewrite one_line_app.
  rewrite one_line_print_g by eauto with one_line. by destruct s.
Qed.

#[export] Hint Resolve one_line_Itoa one_line_g9 : exposition.
