(* ===== verification/Metrics.v ===== *)
(** * The operator's pages

    [queueStats] and [metrics] of [internal/server/server.go], the rest of
    [internal/server/observability.go], and what the queue and the monitor
    hand to them. *)

From S2P Require Import Prelude GoLib Float64 Sql StoreSchema Store StoreStats Http Config Policy HeartbeatLogs Heartbeat Server Exposition.

#[local] Open Scope string_scope.

(** [DropSummary] and [DropSnapshot] of the queue, which may be nil *)
Definition DropSummary (drops : option Counters) : string :=
  match drops with None => "dropped: none" | Some c => Summary c end.
Definition DropSnapshot (drops : option Counters) : gmap string (gmap string Z) :=
  match drops with None => ∅ | Some c => Snapshot c end.

Section Pages.
Context `{Env, SqlOrder, Regexp, Json, Net, Runtime}.
#[local] Abbreviation W := (St sstate).

(** The JSON of a page is not modelled beyond its data. *)
Definition queueStats : W (Response + QueueStats) :=
  now ← s_now;
  r ← on_store (Stats now);
  match r with
  | Err _ => mret (inl (Respond 500 "store error"))
  | Ok stats => mret (inr stats)
  end.

(** [limit] is the query parameter, empty when it is absent. *)
Definition heartbeatLogs (limit : string) : W (Response + list heartbeat_log_row) :=
  let n := if bool_decide (limit = "") then Some 20%Z
           else match ParseInt limit with
                | Some n => if (n <? 1)%Z || (100 <? n)%Z then None else Some n
                | None => None
                end in
  match n with
  | None => mret (inl (Respond 400 "limit must be 1..100"))
  | Some n =>
      r ← on_store (ListHeartbeatErrors n);
      match r with
      | Err _ => mret (inl (Respond 503 "store error"))
      | Ok entries => mret (inr entries)
      end
  end.

(** ** The metrics page *)

Definition event_line (status : string) (n : Z) : string :=
  sample_line "general_webhook_events" (const_label "status" status) (Itoa n).
Definition action_line (status : string) (n : Z) : string :=
  sample_line "general_webhook_actions" (const_label "status" status) (Itoa n).
Definition attempts_line (window res : string) (n : Z) : string :=
  sample_line "general_webhook_action_attempts"
    (const_label "window" window +:+ "," +:+ const_label "result" res) (Itoa n).
Definition ratio_line (window : string) (f : float64) : string :=
  sample_line "general_webhook_action_failure_ratio" (const_label "window" window) (format_g9 f).

Definition stats_text (st : QueueStats) : string := writes [
  help "general_webhook_events" "Current events by durable state.";
  type "general_webhook_events" "gauge";
  event_line "pending" (qs_pending st); event_line "processing" (qs_processing st);
  event_line "retrying" (qs_retrying st); event_line "dead" (qs_dead st);
  event_line "partial" (qs_partial st); event_line "error" (qs_error st);
  event_line "done" (qs_done st); event_line "skipped" (qs_skipped st);
  help "general_webhook_actions" "Current actions by durable retry state.";
  type "general_webhook_actions" "gauge";
  action_line "retrying" (qs_actions_retrying st); action_line "dead" (qs_actions_dead st);
  help "general_webhook_action_attempts" "Action attempts in a rolling window.";
  type "general_webhook_action_attempts" "gauge";
  attempts_line "5m" "all" (qs_attempts_5m st); attempts_line "5m" "failure" (qs_failures_5m st);
  attempts_line "1h" "all" (qs_attempts_1h st); attempts_line "1h" "failure" (qs_failures_1h st);
  help "general_webhook_action_failure_ratio"
    "Failed attempts divided by all attempts in a rolling window.";
  type "general_webhook_action_failure_ratio" "gauge";
  ratio_line "5m" (qs_rate_5m st); ratio_line "1h" (qs_rate_1h st);
  help "general_webhook_oldest_pending_age_milliseconds" "Age of the oldest unfinished event.";
  type "general_webhook_oldest_pending_age_milliseconds" "gauge";
  sample_line "general_webhook_oldest_pending_age_milliseconds" "" (Itoa (qs_oldest_age_ms st))].

Definition drop_line (src : string) (kv : string * Z) : string :=
  sample_line "general_webhook_policy_drops_total"
    (label "source" src +:+ "," +:+ label "reason" kv.1) (Itoa kv.2).

(** The sources are sorted. A source has one reason, so the order of the inner
    loop does not matter. *)
Definition drops_text (snapshot : gmap string (gmap string Z)) : string :=
  help "general_webhook_policy_drops_total" "Allowlist rejections by configured source and bounded reason."
  +:+ type "general_webhook_policy_drops_total" "counter"
  +:+ writes ((λ src, writes (drop_line src <$> map_to_list (default ∅ (snapshot !! src)))) <$>
        sort_strings ((map_to_list snapshot).*1)).

Definition rate_layers : list string := ["pre_auth_ip"; "authenticated_global"; "source_ip"; "admin_ip"].

Definition rejections_text (rejected : gmap Z Z) : string :=
  help "general_webhook_rate_limit_rejections_total" "Requests rejected by rate limit layer."
  +:+ type "general_webhook_rate_limit_rejections_total" "counter"
  +:+ writes ((λ ir : nat * string,
        sample_line "general_webhook_rate_limit_rejections_total" (label "layer" ir.2)
          (Itoa (default 0%Z (rejected !! Z.of_nat ir.1)))) <$> imap pair rate_layers).

(** [heartbeatMetrics] *)
Definition target_text (m : TargetMetrics) : string :=
  let labels := label "target" (tm_name m) +:+ "," +:+ label "mode" (tm_mode m) in
  writes [
    sample_line "general_webhook_heartbeat_target_attempts_total" labels (Itoa (tm_attempts m));
    sample_line "general_webhook_heartbeat_target_failures_total" labels (Itoa (tm_failures m));
    sample_line "general_webhook_heartbeat_target_log_failures_total" labels (Itoa (tm_log_failures m));
    sample_line "general_webhook_heartbeat_target_last_success_timestamp" labels (Itoa (tm_last_success m));
    sample_line "general_webhook_heartbeat_target_last_duration_milliseconds" labels
      (Itoa (tm_last_duration_ms m))].

Definition heartbeatMetrics (ms : list TargetMetrics) : string := writes [
  help "general_webhook_heartbeat_target_attempts_total" "Push attempts per configured target.";
  type "general_webhook_heartbeat_target_attempts_total" "counter";
  help "general_webhook_heartbeat_target_failures_total" "Failed pushes per configured target.";
  type "general_webhook_heartbeat_target_failures_total" "counter";
  help "general_webhook_heartbeat_target_log_failures_total"
    "Heartbeat errors that could not be persisted.";
  type "general_webhook_heartbeat_target_log_failures_total" "counter";
  help "general_webhook_heartbeat_target_last_success_timestamp"
    "Last accepted push per target, including down signals.";
  type "general_webhook_heartbeat_target_last_success_timestamp" "gauge";
  help "general_webhook_heartbeat_target_last_duration_milliseconds"
    "Duration of the last target attempt.";
  type "general_webhook_heartbeat_target_last_duration_milliseconds" "gauge";
  writes (target_text <$> ms)].

Definition heartbeat_text (hb : option hb_world) : string :=
  match hb with
  | None => ""
  | Some w => writes [
      help "general_webhook_heartbeat_last_success_timestamp"
        "Unix seconds of the last deadman heartbeat push accepted by any target (0 = never).";
      type "general_webhook_heartbeat_last_success_timestamp" "gauge";
      sample_line "general_webhook_heartbeat_last_success_timestamp" "" (Itoa (LastSuccess w));
      heartbeatMetrics (MetricsSnapshot w)]
  end.

(** [hasQueue] is [s.q != nil]. *)
Definition metrics_page (st : QueueStats) (hasQueue : bool) (drops : option Counters)
    (rejected : gmap Z Z) (hb : option hb_world) : string := writes [
  stats_text st;
  if hasQueue then drops_text (DropSnapshot drops) else "";
  rejections_text rejected;
  heartbeat_text hb].

(** The counters of rejected requests, as they are read *)
Definition rejections : W (gmap Z Z) := λ s, (ss_rateRejected s, s).

Definition metrics (hasQueue : bool) (drops : option Counters) (hb : option hb_world) : W Response :=
  now ← s_now;
  r ← on_store (Stats now);
  match r with
  | Err _ => http_error "store error" 500
  | Ok st =>
      rejected ← rejections;
      mret (Respond 200 (metrics_page st hasQueue drops rejected hb))
  end.

End Pages.
