(* ===== verification/MetricsProps.v ===== *)
(** * The metrics page, read back

    The page of [Metrics.metrics], read by [Exposition]'s reader of its text
    format, gives the samples of the database, the counters and the targets,
    and nothing else: a label value cannot forge a sample. *)

From S2P Require Import Prelude GoLib Float64 Sql StoreSchema Store StoreStats Http Config Policy Heartbeat Server ServerProps Exposition Metrics.

#[local] Open Scope string_scope.

Section Pages.
Context `{Env, SqlOrder, Regexp, Json, Net, Runtime}.

(** ** What the page says *)

Definition gauge (name : string) (labels : list (string * string)) (n : Z) : sample :=
  Sample name (shown_labels labels) (Itoa n).

Definition stats_samples (st : QueueStats) : list sample := [
  gauge "general_webhook_events" [("status", "pending")] (qs_pending st);
  gauge "general_webhook_events" [("status", "processing")] (qs_processing st);
  gauge "general_webhook_events" [("status", "retrying")] (qs_retrying st);
  gauge "general_webhook_events" [("status", "dead")] (qs_dead st);
  gauge "general_webhook_events" [("status", "partial")] (qs_partial st);
  gauge "general_webhook_events" [("status", "error")] (qs_error st);
  gauge "general_webhook_events" [("status", "done")] (qs_done st);
  gauge "general_webhook_events" [("status", "skipped")] (qs_skipped st);
  gauge "general_webhook_actions" [("status", "retrying")] (qs_actions_retrying st);
  gauge "general_webhook_actions" [("status", "dead")] (qs_actions_dead st);
  gauge "general_webhook_action_attempts" [("window", "5m"); ("result", "all")] (qs_attempts_5m st);
  gauge "general_webhook_action_attempts" [("window", "5m"); ("result", "failure")] (qs_failures_5m st);
  gauge "general_webhook_action_attempts" [("window", "1h"); ("result", "all")] (qs_attempts_1h st);
  gauge "general_webhook_action_attempts" [("window", "1h"); ("result", "failure")] (qs_failures_1h st);
  Sample "general_webhook_action_failure_ratio" [("window", "5m")] (format_g9 (qs_rate_5m st));
  Sample "general_webhook_action_failure_ratio" [("window", "1h")] (format_g9 (qs_rate_1h st));
  gauge "general_webhook_oldest_pending_age_milliseconds" [] (qs_oldest_age_ms st)].

Definition drop_samples (snapshot : gmap string (gmap string Z)) : list sample :=
  sort_strings ((map_to_list snapshot).*1) ≫= λ src,
    map_to_list (default ∅ (snapshot !! src)) ≫= λ kv,
      [gauge "general_webhook_policy_drops_total" [("source", src); ("reason", kv.1)] kv.2].

Definition rejection_samples (rejected : gmap Z Z) : list sample :=
  imap pair rate_layers ≫= λ ir : nat * string,
    [gauge "general_webhook_rate_limit_rejections_total" [("layer", ir.2)]
       (default 0%Z (rejected !! Z.of_nat ir.1))].

Definition target_samples (m : TargetMetrics) : list sample :=
  (λ nv : string * Z, gauge nv.1 [("target", tm_name m); ("mode", tm_mode m)] nv.2) <$>
  [("general_webhook_heartbeat_target_attempts_total", tm_attempts m);
   ("general_webhook_heartbeat_target_failures_total", tm_failures m);
   ("general_webhook_heartbeat_target_log_failures_total", tm_log_failures m);
   ("general_webhook_heartbeat_target_last_success_timestamp", tm_last_success m);
   ("general_webhook_heartbeat_target_last_duration_milliseconds", tm_last_duration_ms m)].

Definition heartbeat_samples (hb : option hb_world) : list sample :=
  match hb with
  | None => []
  | Some w => gauge "general_webhook_heartbeat_last_success_timestamp" [] (LastSuccess w)
              :: (MetricsSnapshot w ≫= target_samples)
  end.

Definition page_samples (st : QueueStats) (hasQueue : bool) (drops : option Counters)
    (rejected : gmap Z Z) (hb : option hb_world) : list sample :=
  (stats_samples st ++ (if hasQueue then drop_samples (DropSnapshot drops) else [])
   ++ rejection_samples rejected ++ heartbeat_samples hb)%list.

(** ** Reading the page back *)

(** A gauge whose labels [l] are written as [labels] *)
Lemma adds_gauge name l labels n :
  labels = label_text l → name ≠ "" → all_bytes name_byte name = true →
  Forall (λ kv, all_bytes name_byte kv.1 = true) l →
  adds (sample_line name labels (Itoa n)) [gauge name l n].
Proof. intros -> Hne Hn Hl. apply adds_sample; auto with exposition. Qed.

Lemma adds_ratio window f :
  one_line window = true → shown window = window →
  const_label "window" window = label "window" window →
  adds (ratio_line window f) [Sample "general_webhook_action_failure_ratio" [("window", window)] (format_g9 f)].
Proof.
  intros Hw Hs Ht. unfold ratio_line. rewrite Ht.
  pose proof (adds_sample "general_webhook_action_failure_ratio" [("window", window)] (format_g9 f)) as Ha.
  unfold shown_labels in Ha. cbn [fmap list_fmap fst snd] in Ha. rewrite Hs in Ha.
  apply Ha; [done|done|apply one_line_g9|by constructor].
Qed.

Lemma adds_skip s t ys : adds s [] → adds t ys → adds (s +:+ t) ys.
Proof. intros Hs Ht. by apply (adds_app s []). Qed.
Lemma adds_one s x t ys : adds s [x] → adds t ys → adds (s +:+ t) (x :: ys).
Proof. intros Hs Ht. by apply (adds_app s [x]). Qed.

(** The next piece of a text that is written line by line *)
Ltac write_line :=
  first
    [ apply adds_nil
    | apply adds_skip; [first [apply adds_help; reflexivity | apply adds_type; reflexivity]|]
    | apply adds_one;
      [first [apply adds_ratio; reflexivity
             | apply adds_gauge; [reflexivity|done|reflexivity|repeat (constructor; [reflexivity|]); constructor]]|] ].

Lemma adds_stats st : adds (stats_text st) (stats_samples st).
Proof. unfold stats_text, stats_samples, writes. cbn [foldr]. repeat write_line. Qed.

Lemma adds_drops snapshot : adds (drops_text snapshot) (drop_samples snapshot).
Proof.
  unfold drops_text, drop_samples. repeat write_line. apply adds_writes. intros src _.
  apply adds_writes. intros kv _. apply adds_gauge; [reflexivity|done|reflexivity|].
  repeat (constructor; [reflexivity|]). constructor.
Qed.

Lemma adds_rejections rejected : adds (rejections_text rejected) (rejection_samples rejected).
Proof.
  unfold rejections_text, rejection_samples. do 2 write_line. apply adds_writes. intros ir _.
  apply adds_gauge; [reflexivity|done|reflexivity|]. repeat (constructor; [reflexivity|]). constructor.
Qed.

Lemma adds_target m : adds (target_text m) (target_samples m).
Proof. unfold target_text, target_samples, writes. cbn [foldr fmap list_fmap fst snd]. repeat write_line. Qed.

Lemma adds_heartbeat hb : adds (heartbeat_text hb) (heartbeat_samples hb).
Proof.
  destruct hb as [w|]; [|apply adds_nil]. unfold heartbeat_text, heartbeat_samples, heartbeatMetrics, writes.
  cbn [foldr]. rewrite !str_app_nil. repeat write_line. apply adds_writes. intros m _. apply adds_target.
Qed.

Lemma adds_page st hasQueue drops rejected hb :
  adds (metrics_page st hasQueue drops rejected hb) (page_samples st hasQueue drops rejected hb).
Proof.
  unfold metrics_page, page_samples. cbn [writes foldr]. rewrite str_app_nil.
  apply adds_app; [apply adds_stats|]. apply adds_app; [destruct hasQueue; [apply adds_drops|apply adds_nil]|].
  apply adds_app; [apply adds_rejections|apply adds_heartbeat].
Qed.


End Pages.

Example page_ex :
  scrape (drops_text {[ "api" := {["allowlist_rejected" := 3%Z]}; "x" := ∅ ]}) =
    Some [Sample "general_webhook_policy_drops_total"
            [("source", "api"); ("reason", "allowlist_rejected")] "3"].
Proof. vm_compute. reflexivity. Qed.

(** ** A page with a drop counter and a target *)

Module Demo.

Definition drops : Counters := MkCounters {["api" := 3%Z; "other" := 0%Z]} ["api"; "other"].
Definition target : TargetMetrics := MkMetrics "kuma" "kuma" 5 2 0 0 1700000000 0 12 200 None.
Definition monitor : hb_world := HbWorld (Conn empty_db 0) [target] 1700000000.

End Demo.
#[local] Existing Instance ServerProps.Demo.env.
#[local] Existing Instance ServerProps.Demo.regexps.
#[local] Existing Instance ServerProps.Demo.net.
#[local] Existing Instance ServerProps.Demo.runtime.
#[local] Existing Instance ServerProps.Demo.json.

