(* ===== verification/QueueFrame.v ===== *)
(** * What a pass may touch

    A worker that holds an event only changes the rows of that event, never
    the plan stored in it, and time passes: a frame rule for the programs of
    the store and of the worker, derived from their statements. *)

From S2P Require Import Prelude GoLib Sql StoreSchema Store StoreLookup StoreInv StoreCalls Config Handler Policy Queue QueueSteps.

(** ** The frame of one event *)

(** The columns that decide what is executed *)
Definition same_plan (e e' : event_row) : Prop :=
  ev_actions_json e' = ev_actions_json e ∧ ev_source e' = ev_source e ∧
  ev_received_at_ms e' = ev_received_at_ms e.

Definition frame (id : string) (db db' : DB) : Prop :=
  (∀ k, k ≠ id → events db' !! k = events db !! k) ∧
  (∀ k i, k ≠ id → event_actions db' !! (k, i) = event_actions db !! (k, i)) ∧
  option_Forall2 same_plan (events db !! id) (events db' !! id).

#[global] Instance same_plan_refl : Reflexive same_plan.
Proof. done. Qed.
#[global] Instance same_plan_trans : Transitive same_plan.
Proof. intros e1 e2 e3 (? & ? & ?) (? & ? & ?). split_and!; congruence. Qed.

Section Frame.
Context (id : string).

#[global] Instance frame_refl : Reflexive (frame id).
Proof. intros db. split_and!; [done..|]. destruct (events db !! id); by constructor. Qed.

#[global] Instance frame_trans : Transitive (frame id).
Proof.
  intros db1 db2 db3 (A1 & B1 & C1) (A2 & B2 & C2). split_and!.
  - intros k Hk. by rewrite A2, A1.
  - intros k i Hk. by rewrite B2, B1.
  - etrans; [exact C1|exact C2].
Qed.

(** The statements of a pass *)
Lemma frame_events p f db db' :
  (∀ k, events db' !! k = (λ e, if bool_decide (k = id) && p e then f e else e) <$> events db !! k) →
  event_actions db' = event_actions db → (∀ e, same_plan e (f e)) → frame id db db'.
Proof.
  intros He Ha Hf. split_and!.
  - intros k Hk. rewrite He, bool_decide_false by done. by destruct (events db !! k).
  - intros k i _. by rewrite Ha.
  - rewrite He, bool_decide_true by done. destruct (events db !! id) as [e|]; constructor. cbn.
    by destruct (p e); [|done].
Qed.

Lemma frame_actions db db' :
  events db' = events db →
  (∀ k i, k ≠ id → event_actions db' !! (k, i) = event_actions db !! (k, i)) → frame id db db'.
Proof.
  intros He Ha. split_and!; [by intros; rewrite He|done|]. rewrite He. apply frame_refl.
Qed.

Lemma update_event_frame p f db : (∀ e, same_plan e (f e)) → frame id db (update_event id p f db).2.
Proof.
  intros Hf. apply (frame_events p f); [|done|done]. intros k. apply update_event_lookup.
Qed.

Lemma requeue_frame p db :
  frame id db (requeue_events (λ k e, bool_decide (k = id) && p e) db).2.
Proof.
  apply (frame_events p requeue_row); [|done|done]. intros k. apply requeue_events_lookup.
Qed.

Lemma lease_frame t owner ms db : frame id db (lease_event id t owner ms db).2.
Proof.
  apply (frame_events (claimable ms) (λ e, set_lease_owner (Some owner)
    (set_lease_until (Some t) (Some (unix_milli t)) (set_status "processing" e)))); [|done|done].
  intros k. apply lease_event_lookup.
Qed.

Lemma update_action_frame i p f db : frame id db (update_action id i p f db).2.
Proof.
  apply frame_actions; [done|]. intros k j Hk. rewrite update_action_lookup, bool_decide_false by congruence.
  by destruct (event_actions db !! (k, j)).
Qed.

Lemma start_stmt_frame i ms db : frame id db (start_stmt id i ms db).2.
Proof. rewrite start_stmt_snd. apply update_action_frame. Qed.

Lemma insert_action_frame i ms db : frame id db (insert_action id i ms db).2.
Proof.
  apply frame_actions; [apply insert_action_events|]. intros k j Hk. rewrite insert_action_lookup.
  destruct (event_actions db !! (k, j)); [done|]. by rewrite bool_decide_false by congruence.
Qed.

Lemma release_frame db : frame id db (release_running (λ k, bool_decide (k = id)) db).2.
Proof.
  apply frame_actions; [done|]. intros k j Hk. rewrite release_running_lookup. cbn [fst].
  rewrite bool_decide_false by done. destruct (event_actions db !! (k, j)); [|done]. cbn. by rewrite andb_false_r.
Qed.

End Frame.

(** ** Programs of the store *)

Section Local.
Context `{Env, SqlOrder}.
#[local] Abbreviation SM := (M (conn DB) store_err).

(** Only rows of [id] change, and the ticks go on. *)
Definition local {A} (id : string) (m : SM A) : Prop := ∀ c,
  frame id (cn_db c) (cn_db (m c).2) ∧ (cn_tick c ≤ cn_tick (m c).2)%nat.

Lemma local_ret {A} id (a : A) : local id (mret a).
Proof. intros c. split; [apply frame_refl|done]. Qed.

Lemma local_fail {A} id e : local id (fail (A := A) e).
Proof. intros c. split; [apply frame_refl|done]. Qed.

Lemma local_bind {A B} id (m : SM A) (f : A → SM B) :
  local id m → (∀ a, local id (f a)) → local id (m ≫= f).
Proof.
  intros Hm Hf c. unfold mbind, M_bind. destruct (Hm c) as [Fm Tm].
  destruct (m c) as [[a|e] c1]; cbn [snd] in *; [|done].
  destruct (Hf a c1) as [Ff Tf]. split; [by etrans|lia].
Qed.

Lemma local_call id : local id sql_call.
Proof. intros c. unfold sql_call. destruct (fault _); cbn; (split; [apply frame_refl|lia]). Qed.

Lemma local_exec {A} id (f : DB → A * DB) : (∀ db, frame id db (f db).2) → local id (exec f).
Proof.
  intros Hf. unfold exec. apply local_bind; [apply local_call|]. intros _ c. unfold apply_stmt.
  pose proof (Hf (cn_db c)) as Hc. destruct (f (cn_db c)) as [a db]. by split.
Qed.

Lemma local_query {A} id (f : DB → A) : local id (query f).
Proof. unfold query. apply (local_exec id (λ db, (f db, db))). intros db. apply frame_refl. Qed.

Lemma local_now id : local id time_now.
Proof. intros c. cbn. split; [apply frame_refl|lia]. Qed.

Lemma local_transaction {A} id (body : SM (tx_end A)) : local id body → local id (transaction body).
Proof.
  intros Hb c. unfold transaction. destruct (local_call id c) as [_ T0].
  assert (cn_db (sql_call c).2 = cn_db c) as Hcall by (unfold sql_call; by destruct (fault _)).
  destruct (sql_call c) as [[u|e] c1]; cbn [snd] in *; [|rewrite Hcall; split; [apply frame_refl|done]].
  destruct (Hb c1) as [F1 T1]. destruct (body c1) as [[[a|a]|e] c2]; cbn [snd] in *.
  - destruct (local_call id c2) as [F2 T2].
    destruct (sql_call c2) as [[u'|e] c3]; cbn [snd cn_db cn_tick] in *.
    + rewrite <- Hcall. split; [by etrans|lia].
    + rewrite Hcall. split; [apply frame_refl|lia].
  - cbn. rewrite Hcall. split; [apply frame_refl|lia].
  - cbn. rewrite Hcall. split; [apply frame_refl|lia].
Qed.

End Local.

Create HintDb local.
#[export] Hint Resolve local_ret local_fail local_query local_now update_event_frame requeue_frame
  lease_frame update_action_frame start_stmt_frame insert_action_frame release_frame frame_refl : local.

Ltac local_step :=
  lazymatch goal with
  | |- local _ (transaction _) => apply local_transaction
  | |- local _ (exec _) => apply local_exec; intros ?; auto with local
  | |- local _ (query _) => apply local_query
  | |- local _ (_ ≫= _) => apply local_bind; [|intros ?]
  | |- local _ _ => first [solve [auto with local] | case_match]
  end.

Section Operations.
Context `{Env, SqlOrder}.

Lemma UpdateEventStatus_local id status t : local id (UpdateEventStatus id status t).
Proof. unfold UpdateEventStatus. repeat local_step. by apply update_event_frame. Qed.

Lemma RequeueEvent_local id : local id (RequeueEvent id).
Proof. unfold RequeueEvent. repeat local_step. Qed.

Lemma ClearPayload_local id : local id (ClearPayload id).
Proof. unfold ClearPayload. repeat local_step. by apply update_event_frame. Qed.

Lemma insert_actions_local id i count ms : local id (insert_actions id i count ms).
Proof.
  revert i. induction count as [|count IH]; intros i; cbn [insert_actions]; [apply local_ret|].
  apply local_bind; [repeat local_step|]. by intros _.
Qed.

Lemma PrepareEvent_local id vars count clear t : local id (PrepareEvent id vars count clear t).
Proof.
  unfold PrepareEvent. repeat local_step; try (by apply update_event_frame). apply insert_actions_local.
Qed.

Lemma StartAction_local id i t : local id (StartAction id i t).
Proof. unfold StartAction. repeat local_step. Qed.

Lemma updateRunningAction_local id i f : local id (updateRunningAction id i f).
Proof. unfold updateRunningAction. repeat local_step. Qed.

Lemma CompleteAction_local id i t : local id (CompleteAction id i t).
Proof. apply updateRunningAction_local. Qed.

Lemma DeadAction_local id i d t : local id (DeadAction id i d t).
Proof. apply updateRunningAction_local. Qed.

Lemma ScheduleActionRetry_local id i n d r : local id (ScheduleActionRetry id i n d r).
Proof. apply updateRunningAction_local. Qed.

Lemma ExpireAction_local id i t : local id (ExpireAction id i t).
Proof. unfold ExpireAction. repeat local_step. Qed.

Lemma SaveActionAttemptLog_local id j i g a t n s d dur at_ :
  local id (SaveActionAttemptLog j i g a t n s d dur at_).
Proof.
  unfold SaveActionAttemptLog. repeat local_step. unfold insert_action_log. cbn. by apply frame_actions.
Qed.

Lemma RefreshEventStatus_local id t : local id (RefreshEventStatus id t).
Proof.
  unfold RefreshEventStatus. repeat local_step. unfold refresh_stmt. destruct (refresh_plan _ _) as [[s p] d].
  by apply update_event_frame.
Qed.

Lemma ListActionStates_local id j : local id (ListActionStates j).
Proof. apply local_query. Qed.

Lemma GetPayload_local id j : local id (GetPayload j).
Proof. unfold GetPayload. repeat local_step. Qed.

End Operations.

#[export] Hint Resolve UpdateEventStatus_local RequeueEvent_local ClearPayload_local PrepareEvent_local
  StartAction_local CompleteAction_local DeadAction_local ScheduleActionRetry_local ExpireAction_local SaveActionAttemptLog_local
  RefreshEventStatus_local ListActionStates_local GetPayload_local : local.

(** ** Programs of a worker that is alone *)

Section Worker.
Context `{Env, SqlOrder, Regexp, Json, Url, Peers}.
Context (gjson : string → string → option string).
Context (Halone : alone).
#[local] Abbreviation W := (St world).

(** Only rows of [id] change, time passes, the database stays well formed. *)
Definition moves (id : string) (w w' : world) : Prop :=
  frame id (w_db w) (w_db w') ∧ (w_tick w ≤ w_tick w')%nat ∧ (db_ok (w_db w) → db_ok (w_db w')).

Definition localW {A} (id : string) (m : W A) : Prop := ∀ w, moves id w (m w).2.

#[global] Instance moves_trans id : Transitive (moves id).
Proof. intros w1 w2 w3 (F1 & T1 & O1) (F2 & T2 & O2). split_and!; [by etrans|lia|auto]. Qed.

Lemma localW_ret {A} id (a : A) : localW id (mret a).
Proof. intros w. split; [apply frame_refl|done]. Qed.

Lemma localW_bind {A B} id (m : W A) (f : A → W B) :
  localW id m → (∀ a, localW id (f a)) → localW id (m ≫= f).
Proof.
  intros Hm Hf w. unfold mbind, St_bind. specialize (Hm w).
  destruct (m w) as [a w1]; cbn [snd] in *. etrans; [exact Hm|apply Hf].
Qed.

Lemma localW_store {A} id (m : M (conn DB) store_err A) :
  local id m → preserves db_ok m → localW id (run_store m).
Proof using Halone.
  intros Hm Hp w. unfold run_store. rewrite Halone. destruct (Hm (Conn (w_db w) (w_tick w))) as [F T].
  specialize (Hp (Conn (w_db w) (w_tick w))). unfold wp in Hp. by destruct (m _).
Qed.

(** A step that is no store call *)
Lemma localW_other {A} id (m : W A) :
  (∀ w, w_db (m w).2 = w_db w ∧ (w_tick w ≤ w_tick (m w).2)%nat) → localW id m.
Proof. intros Hm w. destruct (Hm w) as [E T]. split_and!; rewrite ?E; [apply frame_refl|done|done]. Qed.

Lemma localW_now id : localW id now.
Proof. apply localW_other. intros w. cbn. split; [done|lia]. Qed.
Lemma localW_isCanceled id : localW id isCanceled.
Proof. apply localW_other. intros w. cbn. split; [done|lia]. Qed.
Lemma localW_isStopped id : localW id isStopped.
Proof. apply localW_other. intros w. cbn. split; [done|lia]. Qed.
Lemma localW_jitter id cap : localW id (jitter cap).
Proof. apply localW_other. intros w. unfold jitter. destruct (cap <=? 0); cbn; split; done || lia. Qed.
Lemma localW_drop id name : localW id (count_drop name).
Proof. by apply localW_other. Qed.
Lemma localW_match id rules vars : localW id (match_rules_cached rules vars).
Proof.
  apply localW_other. intros w. unfold match_rules_cached. by destruct (Match _ _ _).
Qed.
Lemma localW_handle id h meta ac vars t : localW id (handle h meta ac vars t).
Proof. apply localW_other. intros w. cbn. split; [done|lia]. Qed.

Lemma wp_moves {A} id (m : W A) w : localW id m → wp m (λ _ w', moves id w w') w.
Proof. intros Hm. specialize (Hm w). unfold wp. by destruct (m w). Qed.

End Worker.

#[export] Hint Resolve localW_ret localW_now localW_isCanceled localW_isStopped localW_jitter
  localW_drop localW_match localW_handle : local.

(** The store programs of a pass keep the database well formed. *)
Create HintDb keeps.
#[export] Hint Resolve RequeueEvent_ok PrepareEvent_ok StartAction_ok ExpireAction_ok RefreshEventStatus_ok
  UpdateEventStatus_ok ClearPayload_ok SaveActionAttemptLog_ok updateRunningAction_ok complete_row_ok
  retry_row_ok dead_row_ok preserves_read_only read_only_GetPayload read_only_ListActionStates : keeps.
#[export] Hint Extern 4 (preserves _ (CompleteAction _ _ _)) => apply updateRunningAction_ok : keeps.
#[export] Hint Extern 4 (preserves _ (DeadAction _ _ _ _)) => apply updateRunningAction_ok : keeps.
#[export] Hint Extern 4 (preserves _ (ScheduleActionRetry _ _ _ _ _)) => apply updateRunningAction_ok : keeps.

Ltac localW_step :=
  lazymatch goal with
  | |- localW _ (run_store _) => apply localW_store; [assumption|solve [auto with local]|solve [auto with keeps]]
  | |- localW _ (_ ≫= _) => apply localW_bind; [|intros ?]
  | |- localW _ _ => first [solve [auto with local] | case_match]
  end.

Section Pass.
Context `{Env, SqlOrder, Regexp, Json, Url, Peers}.
Context (gjson : string → string → option string).
Context (Halone : alone) (q : Queue) (ev : PendingEvent).
#[local] Set Default Proof Using "Halone".

Lemma requeue_local : localW (pe_id ev) (requeue (pe_id ev)).
Proof. unfold requeue. repeat localW_step. Qed.

Lemma end_event_local status :
  one_of status ["dead"; "skipped"]%string = true → localW (pe_id ev) (end_event (pe_id ev) status).
Proof. intros Hs. unfold end_event. repeat localW_step. Qed.

Lemma logAction_local j a t n s d dur : localW (pe_id ev) (logAction ev j a t n s d dur).
Proof. unfold logAction. repeat localW_step. Qed.

#[local] Hint Resolve requeue_local end_event_local logAction_local : local.

Lemma skip_event_local counted : localW (pe_id ev) (skip_event q ev counted).
Proof. unfold skip_event. repeat localW_step. Qed.

#[local] Hint Resolve skip_event_local : local.

Lemma executionVars_local src : localW (pe_id ev) (executionVars gjson q ev src).
Proof. unfold executionVars. repeat localW_step. Qed.

Lemma or_requeue_local r : localW (pe_id ev) (or_requeue (pe_id ev) r).
Proof. unfold or_requeue. repeat localW_step. Qed.

#[local] Hint Resolve or_requeue_local : local.

Lemma retryDelay_local attempt : localW (pe_id ev) (retryDelay q attempt).
Proof. apply localW_jitter. Qed.

#[local] Hint Resolve retryDelay_local : local.

Lemma after_failure_local j attempt e : localW (pe_id ev) (after_failure q ev j attempt e).
Proof.
  unfold after_failure. repeat localW_step.
Qed.

#[local] Hint Resolve after_failure_local : local.

Lemma run_attempt_local vars j ac attempt : localW (pe_id ev) (run_attempt q ev vars j ac attempt).
Proof. unfold run_attempt. repeat localW_step. Qed.

#[local] Hint Resolve run_attempt_local : local.

Lemma process_action_local vars states j ac : localW (pe_id ev) (process_action q ev vars states j ac).
Proof. unfold process_action. repeat localW_step. Qed.

Lemma process_actions_local vars states i actions :
  localW (pe_id ev) (process_actions q ev vars states i actions).
Proof.
  revert i. induction actions as [|ac actions IH]; intros i; cbn [process_actions]; [apply localW_ret|].
  apply localW_bind; [apply process_action_local|]. intros []; [apply IH|apply localW_ret].
Qed.

#[local] Hint Resolve executionVars_local process_actions_local : local.

Lemma process_local src : localW (pe_id ev) (process gjson q ev src).
Proof. unfold process, finish_pass. repeat localW_step. Qed.

End Pass.
