(* ===== verification/QueueProgress.v ===== *)
(** * Every pass makes progress

    A worker that is alone, is not cancelled and whose driver does not fail:
    each action it looks at is ended, waits for a time still to come, or has
    used up one of its attempts. *)

From S2P Require Import Prelude GoLib Sql StoreSchema Store StoreLookup StoreInv StoreCalls StoreSpec StoreLifecycle StoreOutcome Config Handler Policy Queue QueueSteps QueuePass QueueOutcome QueueTiming QueueFrame.

(** ** A steady worker *)

Section Steady.
Context `{Env, SqlOrder, Regexp, Json, Url, Peers}.

(** No failures, no cancellation and nobody else, a clock that does not run
    backwards, handlers that do not report a cancellation nobody asked for,
    and json.Marshal, which does not fail on a map of strings. *)
Record steady (q : Queue) : Prop := {
  sd_faults : no_faults;
  sd_alone : alone;
  sd_canceled : ∀ n, canceled n = false;
  sd_clock : ∀ n m, (n ≤ m)%nat → clock n ≤ clock m;
  sd_handlers : ∀ typ h n meta ac vars e, Get (q_reg q) typ = Some h →
    (h_handle h n meta ac vars).2 = Some e → is_canceled_error e = false;
  sd_marshal : ∀ vars, is_Some (vars_marshal vars);
}.

Lemma alone_respects id : alone → respects id.
Proof.
  intros Ha. split; intros *; rewrite ?Ha; try done; [by eauto|].
  intros He Hs He'. by simplify_eq.
Qed.

End Steady.

(** ** The weight of an action: the attempts it still has *)

Definition used (a : action_row) : Z :=
  ac_attempt_count (if action_is "running" a then release_action a else a).

Definition row_weight (cap : Z) (a : option action_row) : nat :=
  match a with
  | None => S (Z.to_nat cap)
  | Some a => if action_is "done" a || action_is "dead" a then 0 else S (Z.to_nat (cap - used a))
  end.

Lemma ended_weight cap a : action_ended a → row_weight cap (Some a) = 0%nat.
Proof. intros [Ha|Ha]; unfold row_weight; by rewrite Ha, ?orb_true_r. Qed.

Lemma waiting_weight cap a :
  action_waiting a = true → row_weight cap (Some a) = S (Z.to_nat (cap - ac_attempt_count a)).
Proof.
  intros Hw. unfold row_weight, used, action_is. unfold action_waiting, action_is in Hw.
  apply orb_true_iff in Hw as [Hs|Hs]; apply bool_decide_eq_true in Hs; rewrite Hs; done.
Qed.

Lemma release_weight cap a :
  action_is "running" a = true → row_weight cap (Some (release_action a)) = row_weight cap (Some a).
Proof.
  intros Hr. rewrite waiting_weight by done. unfold row_weight, used. rewrite Hr.
  unfold action_is in *. apply bool_decide_eq_true in Hr. by rewrite Hr.
Qed.

(** What one iteration does to the row of its action: nothing, because the
    action has ended or is due only after [T]; or it costs weight. *)
Definition progressed (cap T : Z) (a a' : action_row) : Prop :=
  (a' = a ∧ (action_ended a ∨
     (action_is "retrying" a = true ∧ unix_milli T < coalesce (ac_next_attempt_at_ms a) 0))) ∨
  ((row_weight cap (Some a') < row_weight cap (Some a))%nat ∧
   (action_ended a' ∨ action_is "retrying" a' = true)).

(** No waiting action that is not a retry waits for a time after [T]. *)
Definition ready (T : Z) (a : action_row) : Prop :=
  action_is "pending" a = true → coalesce (ac_next_attempt_at_ms a) 0 ≤ unix_milli T.

(** ** The loop over the actions *)

Section Loop.
Context `{Env, SqlOrder, Regexp, Json, Url, Peers}.
Context (q : Queue) (Hq : steady q) (ev : PendingEvent).
#[local] Set Default Proof Using "Hq".

#[local] Abbreviation id := (pe_id ev).
#[local] Abbreviation acts_ := (acts (pe_id ev)).
#[local] Abbreviation cap := (q_maxRetries q + 1).

Lemma steady_respects : respects id.
Proof. apply alone_respects, (sd_alone q Hq). Qed.

Lemma not_canceled {B} (k : bool → St world B) Q w : wp (k false) Q (tick w) → wp (isCanceled ≫= k) Q w.
Proof. intros Hk. apply wp_bind_St, wp_isCanceled. intros b ->. by rewrite (sd_canceled q Hq). Qed.

(** Only the row of action [j] changed, to [a']. *)
Definition wrote (j : Z) (a' : action_row) (w w' : world) : Prop :=
  acts_ w' j = Some a' ∧ ∀ j', j' ≠ j → acts_ w' j' = acts_ w j'.

Lemma update_row p f err j a w :
  acts_ w j = Some a → p a = true →
  wp (run_store (n ← exec (update_action id j p f); if n =? 0 then fail err else mret tt))
     (λ r w', r = Ok tt ∧ wrote j (f a) w w') w.
Proof.
  intros Ha Hp. apply wp_run_store. rewrite (sd_alone q Hq). pose proof (sd_faults q Hq) as Hnf.
  do 2 wp_step_ok.
  assert (((update_action id j p f (w_db w)).1 =? 0) = false) as Hn
    by (apply update_action_count; eauto).
  cbn [cn_db]. rewrite Hn. wp_step. split; [done|]. unfold wrote, acts in *. cbn [w_db set_conn cn_db].
  rewrite update_action_lookup, Ha. cbn. rewrite bool_decide_true, Hp by done. split; [done|].
  intros j' Hj. rewrite update_action_lookup. destruct (event_actions (w_db w) !! (id, j')); [|done].
  cbn. by rewrite bool_decide_false by congruence.
Qed.

Lemma start_row_run j t a w :
  acts_ w j = Some a →
  wp (run_store (StartAction id j t)) (λ r w',
    if action_due (unix_milli t) a
    then r = Ok (ac_attempt_count a + 1) ∧ wrote j (start_row a) w w'
    else r = Err ErrNoRows ∧ ∀ j', acts_ w' j' = acts_ w j') w.
Proof.
  intros Ha. apply wp_run_store. rewrite (sd_alone q Hq). pose proof (sd_faults q Hq) as Hnf.
  unfold StartAction. do 2 wp_step_ok. cbn [cn_db]. rewrite start_stmt_fst.
  unfold wrote, acts in *. rewrite Ha.
  assert (∀ j', event_actions (start_stmt id j (unix_milli t) (w_db w)).2 !! (id, j') =
    (λ b, if bool_decide (j' = j) && action_due (unix_milli t) b then start_row b else b)
      <$> event_actions (w_db w) !! (id, j')) as Hl.
  { intros j'. rewrite start_stmt_snd, update_action_lookup.
    destruct (event_actions (w_db w) !! (id, j')); [|done]. cbn. f_equal.
    destruct (decide (j' = j)) as [->|Hne]; [by rewrite !bool_decide_true|].
    by rewrite !bool_decide_false by congruence. }
  destruct (action_due (unix_milli t) a) eqn:Hd; wp_step; cbn [w_db set_conn cn_db].
  - split; [done|]. split.
    + rewrite Hl, Ha. cbn. by rewrite bool_decide_true, Hd.
    + intros j' Hj. rewrite Hl. destruct (event_actions (w_db w) !! (id, j')); [|done]. cbn.
      by rewrite bool_decide_false.
  - split; [done|]. intros j'. rewrite Hl.
    destruct (event_actions (w_db w) !! (id, j')) as [b|] eqn:Hb; [|done]. cbn.
    destruct (decide (j' = j)) as [->|]; [|by rewrite bool_decide_false].
    rewrite Ha in Hb. injection Hb as <-. by rewrite Hd, andb_false_r.
Qed.

(** *** An attempt *)

(** After an attempt of the running row [a]: ended, or waiting for a retry
    within the budget. *)
Definition attempted (j : Z) (a : action_row) (w : world) (go : bool) (w' : world) : Prop :=
  go = true ∧ ∃ a', wrote j a' w w' ∧
    (action_ended a' ∨
     (action_is "retrying" a' = true ∧ ac_attempt_count a' = ac_attempt_count a ∧
      ac_attempt_count a < cap)).

(** The rows of the event are those of an earlier moment. *)
Definition unmoved (w0 w : world) : Prop := ∀ j, acts_ w j = acts_ w0 j.

Lemma end_attempted j f a w0 w :
  unmoved w0 w → acts_ w0 j = Some a → action_is "running" a = true →
  (action_ended (f a) ∨ (action_is "retrying" (f a) = true ∧
     ac_attempt_count (f a) = ac_attempt_count a ∧ ac_attempt_count a < cap)) →
  wp (run_store (updateRunningAction id j f) ≫= or_requeue id) (attempted j a w0) w.
Proof.
  intros Hs Ha Hr Hf. apply wp_bind_St. eapply wp_mono; [apply (update_row _ _ _ j a); [by rewrite Hs|done]|].
  intros r w' [-> [Hw Ho]]. apply wp_ret_St. split; [done|]. exists (f a). split; [split; [done|]|done].
  intros j' Hj. by rewrite Ho, Hs.
Qed.

Lemma dead_attempted j d t a w0 w :
  unmoved w0 w → acts_ w0 j = Some a → action_is "running" a = true →
  wp (run_store (DeadAction id j d t) ≫= or_requeue id) (attempted j a w0) w.
Proof. intros Hs Ha Hr. apply (end_attempted j _ a); [done..|]. left. by right. Qed.

Lemma after_failure_attempted j attempt e a w0 w :
  unmoved w0 w → acts_ w0 j = Some a → action_is "running" a = true → ac_attempt_count a = attempt →
  is_canceled_error e = false →
  wp (after_failure q ev j attempt e) (attempted j a w0) w.
Proof.
  intros Hs Ha Hr Hatt Hc. unfold after_failure. apply not_canceled. rewrite Hc. cbn [orb].
  destruct (IsNonRetryable (Some e) || (cap <=? attempt)) eqn:Hlast.
  { apply now_step. intros t _. by apply dead_attempted. }
  apply orb_false_iff in Hlast as [_ Hlast%Z.leb_gt]. apply wp_bind_St.
  eapply wp_mono with (Q := λ _ w', unmoved w0 w').
  { destruct (_ <=? 0); [|by apply wp_ret_St].
    eapply wp_mono; [apply (jitter_idle id steady_respects)|]. intros d w' [Hi _] j'. rewrite Hi. apply Hs. }
  intros delay w1 Hs1; cbn beta in Hs1. apply now_step. intros t _. destruct (_ <=? t + delay).
  - apply now_step. intros t' _. by apply dead_attempted.
  - apply (end_attempted j _ a); [done..|]. right. cbn. split; [done|]. split; [done|lia].
Qed.

Lemma log_unmoved w0 w j t n a s d dur :
  unmoved w0 w → wp (logAction ev j t n a s d dur) (λ _ w', unmoved w0 w') w.
Proof.
  intros Hs. eapply wp_mono; [apply (log_idle id steady_respects)|]. intros u w' [Hi _] j'. rewrite Hi. apply Hs.
Qed.

Lemma run_attempt_attempted vars j ac attempt a w :
  acts_ w j = Some a → action_is "running" a = true → ac_attempt_count a = attempt →
  wp (run_attempt q ev vars j ac attempt) (attempted j a w) w.
Proof.
  intros Ha Hr Hatt. unfold run_attempt. destruct (Get _ _) as [h|] eqn:Hget.
  - apply now_step. intros t _. apply wp_bind_St. unfold wp at 1. cbn [handle fst snd].
    set (w1 := World _ _ _ _ _). apply now_step. intros fin _.
    pose proof (λ e, sd_handlers q Hq (ac_type ac) h (w_tick (tick w)) (MkMeta id j attempt) ac
      (attempt_vars vars attempt j) e Hget) as Hcan.
    destruct (h_handle h (w_tick (tick w)) (MkMeta id j attempt) ac (attempt_vars vars attempt j))
      as [res [e|]]; cbn [fst snd] in *; apply wp_bind_St;
      (eapply wp_mono; [by apply (log_unmoved w)|]); intros ? w2 Hs; cbn beta in Hs.
    + apply (after_failure_attempted j attempt e a w w2); try done. by apply Hcan.
    + apply now_step. intros t' _. apply (end_attempted j _ a); [done..|]. left. by left.
  - apply wp_bind_St. eapply wp_mono; [by apply (log_unmoved w)|]. intros ? w2 Hs; cbn beta in Hs.
    apply now_step. intros t' _. by apply (dead_attempted j _ _ a).
Qed.

(** *** One iteration *)

Lemma waiting_cases a :
  action_ok a → action_is "running" a = false → one_of (ac_status a) ["done"; "dead"]%string = false →
  action_waiting a = true.
Proof using.
  intros Ha Hr Ho. unfold action_waiting, action_is in *.
  destruct Ha as [Hs|Hs|Hs|Hs|Hs]; rewrite Hs in *; done.
Qed.

(** The iteration goes on, and only the row of its action changed: it
    progressed. *)
Definition step_on (T j : Z) (a : action_row) (w : world) (go : bool) (w' : world) : Prop :=
  go = true ∧ ∃ a', wrote j a' w w' ∧ progressed cap T a a'.

Lemma process_action_progress vars states j ac a T w :
  acts_ w j = Some a → states !! j = Some (action_state j a) →
  action_ok a → action_is "running" a = false → ready T a → T ≤ clock (w_tick w) →
  wp (process_action q ev vars states j ac) (step_on T j a w) w.
Proof.
  intros Ha Hst Hok Hr Hready HT. unfold process_action. apply not_canceled. rewrite Hst.
  assert (progressed cap T a a → ∀ w', unmoved w w' → step_on T j a w true w') as Hskip.
  { intros Hp w' Hu. split; [done|]. exists a. split; [split; [by rewrite Hu|by intros; rewrite Hu]|done]. }
  cbn [as_status action_state].
  destruct (one_of (ac_status a) ["done"; "dead"]%string) eqn:Hend.
  { apply wp_ret_St, Hskip; [|done]. left. split; [done|]. left. unfold action_ended, action_is.
    one_of_cases Hend; rewrite Hend; [by left|by right]. }
  pose proof (waiting_cases a Hok Hr Hend) as Hw. apply now_step. intros t ->. cbn [w_tick tick].
  assert (unix_milli T ≤ unix_milli (clock (S (w_tick w)))) as HT'.
  { apply unix_milli_mono. etrans; [exact HT|]. apply (sd_clock q Hq). lia. }
  revert HT'. generalize (clock (S (w_tick w))) as t. intros t HT'. clear HT.
  destruct (one_of _ _ && _).
  { apply wp_bind_St. eapply wp_mono; [by apply (update_row _ _ _ j a)|].
    intros r w' [-> [Hw' Ho]]. apply wp_ret_St. split; [done|].
    exists (dead_row "maximum retry age exceeded" (unix_milli t) a). split; [done|]. right.
    rewrite (waiting_weight cap a Hw), ended_weight by (by right). split; [lia|]. left. by right. }
  cbn [as_next_attempt_ms action_state]. destruct (bool_decide (_ = _) && _) eqn:Hlater.
  { apply wp_ret_St, Hskip; [|done]. left. split; [done|]. right. unfold action_is. bool_simpl.
    split; [by apply bool_decide_eq_true|]. lia. }
  assert (action_due (unix_milli t) a = true) as Hdue.
  { unfold action_due. rewrite Hw. cbn. apply Z.leb_le. unfold action_waiting in Hw.
    apply orb_true_iff in Hw as [Hp|Hp]; [specialize (Hready Hp); lia|].
    unfold action_is in Hp. rewrite Hp in Hlater. cbn in Hlater. lia. }
  apply wp_bind_St. eapply wp_mono; [by apply (start_row_run j t a)|]. rewrite Hdue.
  intros r w1 [-> [Hs Ho]]. eapply wp_mono; [by apply (run_attempt_attempted _ _ _ _ (start_row a))|].
  intros go w' (-> & a' & [Ha' Ho'] & Hout). split; [done|]. exists a'. split.
  - split; [done|]. intros j' Hj. by rewrite Ho', Ho.
  - right. rewrite (waiting_weight cap a Hw). destruct Hout as [He|(Hret & Hc & Hlt)].
    + split; [rewrite ended_weight by done; lia|by left].
    + split; [|by right]. rewrite waiting_weight by (unfold action_waiting; by rewrite Hret, orb_true_r).
      cbn in Hc, Hlt. lia.
Qed.

(** *** The loop *)

(** The rows from [i] on can be run: they are as listed, not running, and do
    not wait for a time after [T] unless they are retries. *)
Definition runnable (T : Z) (states : gmap Z ActionState) (i : Z) (n : nat) (w : world) : Prop :=
  ∀ j, i ≤ j < i + Z.of_nat n → ∃ a, acts_ w j = Some a ∧ states !! j = Some (action_state j a) ∧
    action_ok a ∧ action_is "running" a = false ∧ ready T a.

(** The rows from [i] on have progressed, the others are unchanged. *)
Definition loop_on (T i : Z) (n : nat) (w : world) (go : bool) (w' : world) : Prop :=
  go = true ∧ ∀ j, if decide (i ≤ j < i + Z.of_nat n)
    then ∀ a, acts_ w j = Some a → ∃ a', acts_ w' j = Some a' ∧ progressed cap T a a'
    else acts_ w' j = acts_ w j.

Lemma process_actions_progress vars states actions i T w :
  runnable T states i (length actions) w → T ≤ clock (w_tick w) →
  wp (process_actions q ev vars states i actions) (loop_on T i (length actions) w) w.
Proof.
  revert i w. induction actions as [|ac actions IH]; intros i w Hrun HT; cbn [process_actions length] in *.
  { apply wp_ret_St. split; [done|]. intros j. by rewrite decide_False by lia. }
  destruct (Hrun i ltac:(lia)) as (a & Ha & Hst & Hok & Hr & Hready). apply wp_bind_St.
  eapply wp_mono; [apply (wp_and _ _ _ w
    (wp_moves id _ w (process_action_local (sd_alone q Hq) q ev vars states i ac))
    (process_action_progress vars states i ac a T w Ha Hst Hok Hr Hready HT))|].
  intros go w1 [(_ & Htick & _) (-> & a' & [Ha' Ho] & Hp)].
  eapply wp_mono; [apply IH|].
  - intros j Hj. destruct (Hrun j ltac:(lia)) as (b & Hb & Hrest). exists b. by rewrite Ho by lia.
  - etrans; [exact HT|]. by apply (sd_clock q Hq).
  - intros go w2 [-> Hl]. split; [done|]. intros j. specialize (Hl j).
    destruct (decide (j = i)) as [->|Hne].
    + rewrite decide_True by lia. rewrite decide_False in Hl by lia. intros b Hb.
      rewrite Ha in Hb. injection Hb as <-. exists a'. by rewrite Hl.
    + destruct (decide (i + 1 ≤ j < i + 1 + Z.of_nat (length actions))).
      * rewrite decide_True by lia. by rewrite <- (Ho j Hne).
      * rewrite decide_False by lia. by rewrite Hl, Ho.
Qed.

End Loop.
