(* ===== verification/QueueWeight.v ===== *)
(** * The weight of an event

    Under the conditions of [steady], a pass takes weight from the event it
    works on: the attempts its actions still have. It ends the event or leaves
    it waiting for the earliest of its retries. *)

From S2P Require Import Prelude GoLib Sql StoreSchema Store StoreLookup StoreInv StoreCalls StoreSpec StoreLifecycle StoreOutcome Config Handler Policy Queue QueueSteps QueuePass QueueOutcome QueueTiming QueueFrame QueueProgress.

(** ** Sums *)

Lemma sum_with_le {A} (f g : A → nat) l :
  (∀ x, x ∈ l → f x ≤ g x)%nat → (sum_list_with f l ≤ sum_list_with g l)%nat.
Proof.
  induction l as [|x l IH]; intros Hle; cbn; [done|].
  pose proof (Hle x ltac:(left)). specialize (IH (λ y Hy, Hle y (list_elem_of_further _ _ _ Hy))). lia.
Qed.

Lemma sum_with_lt {A} (f g : A → nat) l x :
  (∀ x, x ∈ l → f x ≤ g x)%nat → x ∈ l → (f x < g x)%nat → (sum_list_with f l < sum_list_with g l)%nat.
Proof.
  intros Hle Hx Hlt. induction Hx as [y l|z l' y Hx IH]; cbn.
  - pose proof (sum_with_le f g l (λ y Hy, Hle y (list_elem_of_further _ _ _ Hy))). lia.
  - pose proof (Hle _ ltac:(left)). specialize (IH (λ y Hy, Hle y (list_elem_of_further _ _ _ Hy)) Hlt). lia.
Qed.

(** ** The weight of the rows of a plan *)

Definition plan_weight (cap : Z) (n : nat) (A : Z → option action_row) : nat :=
  sum_list_with (λ i, row_weight cap (A (Z.of_nat i))) (seq 0 n).

Lemma plan_weight_le cap n (A A' : Z → option action_row) :
  (∀ j, 0 ≤ j < Z.of_nat n → (row_weight cap (A' j) ≤ row_weight cap (A j))%nat) →
  (plan_weight cap n A' ≤ plan_weight cap n A)%nat.
Proof. intros Hle. apply sum_with_le. intros i Hi%elem_of_seq. apply Hle. lia. Qed.

Lemma plan_weight_lt cap n (A A' : Z → option action_row) j :
  (∀ j, 0 ≤ j < Z.of_nat n → (row_weight cap (A' j) ≤ row_weight cap (A j))%nat) →
  0 ≤ j < Z.of_nat n → (row_weight cap (A' j) < row_weight cap (A j))%nat →
  (plan_weight cap n A' < plan_weight cap n A)%nat.
Proof.
  intros Hle Hj Hlt. apply (sum_with_lt _ _ _ (Z.to_nat j)).
  - intros i Hi%elem_of_seq. apply Hle. lia.
  - apply elem_of_seq. lia.
  - by rewrite Z2Nat.id by lia.
Qed.

Lemma plan_weight_ext cap n (A A' : Z → option action_row) :
  (∀ j, 0 ≤ j < Z.of_nat n → row_weight cap (A' j) = row_weight cap (A j)) →
  plan_weight cap n A' = plan_weight cap n A.
Proof. intros He. apply (anti_symm Nat.le); apply plan_weight_le; intros j Hj; by rewrite He. Qed.

Lemma progressed_weight cap T a a' :
  progressed cap T a a' → (row_weight cap (Some a') ≤ row_weight cap (Some a))%nat.
Proof. intros [[-> _]|[Hlt _]]; lia. Qed.

Lemma progressed_shape cap T a a' : progressed cap T a a' → action_ended a' ∨ action_is "retrying" a' = true.
Proof. intros [[-> [He|[Hr _]]]|[_ He]]; auto. Qed.

(** A retry that is due costs weight. *)
Lemma progressed_due cap T a a' :
  progressed cap T a a' → action_is "retrying" a = true → coalesce (ac_next_attempt_at_ms a) 0 ≤ unix_milli T →
  (row_weight cap (Some a') < row_weight cap (Some a))%nat.
Proof.
  intros [[-> [He|[_ Hlt]]]|[Hlt _]] Hr Hd; [|lia|done]. exfalso.
  unfold action_is in Hr. apply bool_decide_eq_true in Hr.
  destruct He as [He|He]; unfold action_is in He; by rewrite Hr in He.
Qed.

(** ** One pass *)

Section Pass.
Context `{Env, SqlOrder, Regexp, Json, Url, Peers}.
Context (gjson : string → string → option string).
Context (q : Queue) (Hq : steady q) (ev : PendingEvent).
#[local] Set Default Proof Using "Hq".

#[local] Abbreviation id := (pe_id ev).
#[local] Abbreviation acts_ := (acts (pe_id ev)).
#[local] Abbreviation cap := (q_maxRetries q + 1).
#[local] Abbreviation held_ := (held ev).
#[local] Abbreviation quiet_ := (quiet ev).

(** The event is not waiting for anything any more. *)
Definition gone (w : world) : Prop :=
  ∀ e, events (w_db w) !! id = Some e → live_status (ev_status e) = false.

Lemma end_event_gone status w :
  live_status status = false → held_ w → quiet_ w →
  wp (end_event id status) (λ r w', is_ok r = true ∧ gone w' ∧ ∀ j, acts_ w' j = acts_ w j) w.
Proof.
  intros Hs Hh Hc. eapply wp_mono; [apply wp_and; [by apply (end_event_end q ev (sd_faults q Hq) (steady_respects q Hq ev) status)|
    by apply (end_event_idle id (steady_respects q Hq ev) status)]|].
  intros r w' [(Hr & _ & e & He & Hst) [Ha _]]. split_and!; [done| |done].
  intros e'. rewrite He. intros [= <-]. by rewrite Hst.
Qed.

(** Whatever ends the pass before its loop ends the event, and leaves its
    actions alone. *)
Definition out (w w' : world) : Prop := gone w' ∧ ∀ j, acts_ w' j = acts_ w j.

Lemma end_out {A} w : held_ w → quiet_ w →
  wp (end_event id "dead" ≫= λ _, mret (M := St world) (A := option A) None) (λ v w', v = None ∧ out w w') w.
Proof.
  intros Hh Hc. apply wp_bind_St. eapply wp_mono; [by apply end_event_gone|].
  intros r w' (_ & Hg & Ha). by apply wp_ret_St.
Qed.

Lemma skip_out counted w : held_ w → quiet_ w → wp (skip_event q ev counted) (λ _, out w) w.
Proof.
  intros Hh Hc. unfold skip_event. apply wp_bind_St. eapply wp_mono; [by apply end_event_gone|].
  intros r w1 (Hr & Hg & Ha). destruct r as [u|x]; [|done]. apply wp_bind_St.
  eapply wp_mono with (Q := λ _ w', w_db w' = w_db w1).
  { destruct counted; [done|by apply wp_ret_St]. }
  intros u2 w2 Hdb; cbn beta in Hdb.
  assert (out w w2) as Hout.
  { unfold out, gone, acts. rewrite Hdb. by split. }
  destruct (drops_payload q); [|by apply wp_ret_St].
  apply wp_bind_St, wp_run_store. rewrite (sd_alone q Hq). pose proof (sd_faults q Hq) as Hnf.
  unfold ClearPayload. do 3 wp_step_ok. apply wp_ret_St.
  destruct Hout as [Hg2 Ha2]. split; [|exact Ha2]. intros e. cbn [w_db set_conn cn_db].
  rewrite update_event_lookup. destruct (events (w_db w2) !! id) as [e0|] eqn:He0; [|done]. cbn.
  rewrite bool_decide_true by done. intros [= <-]. exact (Hg2 e0 He0).
Qed.

Lemma executionVars_out src w : held_ w → quiet_ w →
  wp (executionVars gjson q ev src) (λ v w', match v with
    | Some _ => w_db w' = w_db w
    | None => out w w' end) w.
Proof.
  intros Hh Hc. unfold executionVars. pose proof (sd_faults q Hq) as Hnf.
  set (Q := λ (v : option (gmap string string)) w', match v with Some _ => _ | None => out w w' end).
  assert (∀ w1 (m : St world (option (gmap string string))), wp m (λ v w', v = None ∧ out w w') w1 →
    wp m Q w1) as Hnone.
  { intros w1 m Hm. eapply wp_mono; [exact Hm|]. by intros v w' [-> Ho]. }
  assert (∀ w1, w_db w1 = w_db w → held_ w1 ∧ quiet_ w1 ∧ ∀ w', out w1 w' → out w w') as Hsame.
  { intros w1 Hdb. unfold held, quiet, out, acts in *. by rewrite Hdb. }
  assert (∀ w1, w_db w1 = w_db w → wp (end_event id "dead" ≫= λ _, mret (M := St world) (A := option (gmap string string)) None)
    (λ v w', v = None ∧ out w w') w1) as Hdead.
  { intros w1 Hdb. destruct (Hsame w1 Hdb) as (Hh1 & Hc1 & Ho).
    eapply wp_mono; [by apply end_out|]. intros v w' [-> Hw]. auto. }
  assert (∀ w1 counted, w_db w1 = w_db w → wp (skip_event q ev counted ≫= λ _, mret (M := St world) (A := option (gmap string string)) None)
    (λ v w', v = None ∧ out w w') w1) as Hskip.
  { intros w1 counted Hdb. destruct (Hsame w1 Hdb) as (Hh1 & Hc1 & Ho). apply wp_bind_St.
    eapply wp_mono; [by apply skip_out|]. intros u w' Hw. apply wp_ret_St. auto. }
  destruct (negb _).
  { destruct (vars_unmarshal _) as [[v|]|]; [by apply wp_ret_St|by apply Hnone, Hdead|by apply Hnone, Hdead]. }
  apply wp_bind_St. eapply wp_mono with (Q := λ p w', is_Some p ∧ w_db w' = w_db w).
  { destruct (bool_decide _); [|apply wp_ret_St; by split; [eexists|]].
    apply wp_bind_St, wp_run_store. rewrite (sd_alone q Hq). unfold GetPayload. do 2 wp_step_ok.
    destruct Hh as [_ (e & He & _)]. cbn [cn_db]. rewrite He. wp_step_ok. apply wp_ret_St.
    by split; [eexists|]. }
  intros p w1 ([payload ->] & Hdb). destruct (bool_decide _); [by apply Hnone, Hdead|].
  destruct (negb _); [by apply Hnone, Hskip|].
  apply wp_bind_St. unfold wp at 1, match_rules_cached. destruct (Match _ _ _) as [m cache]. cbn [fst snd].
  destruct m as [[|]|x]; [by apply wp_ret_St|by apply Hnone, Hskip|by apply Hnone, Hdead].
Qed.

(** *** The loop and what follows it *)

(** The rows of a pass that reached its loop, from those before it. *)
Definition processed_rows (T : Z) (n : nat) (w w' : world) : Prop := ∀ j,
  if decide (0 ≤ j < Z.of_nat n)
  then ∃ a a', (acts_ w j = Some a ∨
                (acts_ w j = None ∧ ac_attempt_count a = 0 ∧ action_is "pending" a = true)) ∧
               acts_ w' j = Some a' ∧ progressed cap T a a'
  else acts_ w' j = None.

Lemma processed_weight T n w w' :
  processed_rows T n w w' →
  (∀ j, 0 ≤ j < Z.of_nat n → (row_weight cap (acts_ w' j) ≤ row_weight cap (acts_ w j))%nat) ∧
  (∀ j a, acts_ w j = Some a → 0 ≤ j < Z.of_nat n → action_is "retrying" a = true →
     coalesce (ac_next_attempt_at_ms a) 0 ≤ unix_milli T →
     (row_weight cap (acts_ w' j) < row_weight cap (acts_ w j))%nat).
Proof using.
  intros Hp. split; intros j.
  - intros Hj. specialize (Hp j). rewrite decide_True in Hp by done.
    destruct Hp as (a & a' & Ha & -> & Hpr). apply progressed_weight in Hpr.
    destruct Ha as [->|(-> & Hc & Hw)]; [done|]. rewrite (waiting_weight cap a) in Hpr.
    + by rewrite Hc, Z.sub_0_r in Hpr.
    + unfold action_waiting. by rewrite Hw.
  - intros a Ha Hj Hr Hd. specialize (Hp j). rewrite decide_True in Hp by done.
    destruct Hp as (a0 & a' & [Ha0|(Ha0 & _)] & -> & Hpr); [|by rewrite Ha in Ha0].
    rewrite Ha. rewrite Ha in Ha0. injection Ha0 as <-. by apply (progressed_due cap T).
Qed.

Lemma processed_shape T n w w' j a' :
  processed_rows T n w w' → acts_ w' j = Some a' →
  0 ≤ j < Z.of_nat n ∧ (action_ended a' ∨ action_is "retrying" a' = true).
Proof using.
  intros Hp Ha'. specialize (Hp j). destruct (decide _) as [Hj|]; [|by rewrite Hp in Ha'].
  destruct Hp as (a & a2 & _ & Ha2 & Hpr). simplify_eq. split; [done|]. by eapply progressed_shape.
Qed.

(** Where a pass leaves its event: ended, or waiting for the earliest of its
    retries with a smaller weight. *)
Definition pass_outcome (T : Z) (n : nat) (w w' : world) : Prop :=
  gone w' ∨
  ∃ e m j a, events (w_db w') !! id = Some e ∧ ev_status e = "retrying"%string ∧
    ev_next_attempt_at_ms e = Some m ∧ 0 ≤ j < Z.of_nat n ∧ acts_ w' j = Some a ∧
    action_is "retrying" a = true ∧ ac_next_attempt_at_ms a = Some m ∧
    (plan_weight cap n (acts_ w') ≤ plan_weight cap n (acts_ w))%nat ∧
    (∀ j a, acts_ w j = Some a → 0 ≤ j < Z.of_nat n → action_is "retrying" a = true →
       coalesce (ac_next_attempt_at_ms a) 0 ≤ unix_milli T →
       (plan_weight cap n (acts_ w') < plan_weight cap n (acts_ w))%nat).

Definition pass_rows (n : nat) (w w' : world) : Prop := ∀ j a', acts_ w' j = Some a' →
  0 ≤ j < Z.of_nat n ∧ (acts_ w j = Some a' ∨ action_is "pending" a' = false).

Lemma finish_outcome T n w0 w :
  (0 < n)%nat → processed_rows T n w0 w → held_ w → quiet_ w →
  wp (finish_pass ev) (λ _ w', pass_rows n w0 w' ∧ pass_outcome T n w0 w') w.
Proof.
  intros Hn Hp Hh Hc. unfold finish_pass. apply now_step. intros t _. apply wp_bind_St, wp_run_store.
  rewrite (sd_alone q Hq). destruct Hh as [Hok (e & He & _)].
  eapply wp_mono; [by apply RefreshEventStatus_run; [apply (sd_faults q Hq)|]|]. cbn [cn_db tick w_db].
  intros [s|x] c Hr; cycle 1.
  { exfalso. destruct Hr as [_ [Hno|Hno]]; [|by rewrite He in Hno].
    specialize (Hp 0). rewrite decide_True in Hp by lia. destruct Hp as (a & a' & _ & Ha' & _).
    apply (Hno a'). by exists 0. }
  destruct Hr as (Hv & _ & Ha & e' & He' & Hst & _ & _ & _ & _ & Hret & _). apply wp_ret_St.
  assert (∀ j, acts_ (set_conn c (tick w)) j = acts_ w j) as Hacts.
  { intros j. unfold acts. cbn [w_db set_conn]. by rewrite Ha. }
  split.
  { intros j a'. rewrite Hacts. intros Ha'. destruct (processed_shape _ _ _ _ _ _ Hp Ha') as [Hj Hs].
    split; [done|]. right. unfold action_ended, action_is in *.
    destruct Hs as [[Hs|Hs]|Hs]; apply bool_decide_eq_true in Hs; by rewrite Hs. }
  destruct (processed_weight _ _ _ _ Hp) as [Hle Hlt]. destruct Hv as [Hd|Hd He2|Hd|Hd He2].
  - left. intros e2. cbn [w_db set_conn]. rewrite He'. intros [= <-]. by rewrite Hst.
  - left. intros e2. cbn [w_db set_conn]. rewrite He'. intros [= <-]. by rewrite Hst.
  - right. destruct Hret as (_ & m & [(a & [j Haj] & Hra & Hma) _] & Hnext); [done|].
    destruct (processed_shape _ _ _ _ j a Hp Haj) as [Hj _].
    exists e', m, j, a. cbn [w_db set_conn]. rewrite Hacts. do 7 (split; [done|]). split.
    + apply plan_weight_le. intros i Hi. rewrite Hacts. by apply Hle.
    + intros i b Hb Hi Hrb Hdb. eapply (plan_weight_lt _ _ _ _ i); [|done|].
      * intros k Hk. rewrite Hacts. by apply Hle.
      * rewrite Hacts. by apply (Hlt i b).
  - exfalso. destruct He2 as (a & [j Haj] & Hne). destruct (processed_shape _ _ _ _ j a Hp Haj) as [_ [|Hs]]; [done|].
    by rewrite (Hd a) in Hs by (by exists j).
Qed.

(** *** Before the loop *)

(** A store call of the worker that is alone: its statement about the
    database, and the frame. *)
Lemma run_moves {A} (m : M (conn DB) store_err A) (P : result store_err A → DB → Prop) w :
  local id m → preserves db_ok m →
  wp m (λ r c, P r (cn_db c)) (Conn (w_db w) (w_tick w)) →
  wp (run_store m) (λ r w', moves id w w' ∧ P r (w_db w')) w.
Proof.
  intros Hl Hp Hm. apply wp_and; [by apply wp_moves, localW_store; [apply (sd_alone q Hq)|..]|].
  apply wp_run_store. rewrite (sd_alone q Hq). eapply wp_mono; [exact Hm|]. done.
Qed.

(** PrepareEvent creates the missing rows and keeps the event held. *)
Lemma prepare_step vars n clear t w :
  held_ w → quiet_ w →
  wp (run_store (PrepareEvent id vars n clear t)) (λ r w', r = Ok tt ∧ moves id w w' ∧ held_ w' ∧
    prepared_actions id n (unix_milli t) (w_db w) (w_db w')) w.
Proof.
  intros [Hok (e & He & Hs)] Hc. eapply wp_mono; [apply (run_moves _ (λ r db', r = Ok tt ∧
    (∃ e', events db' !! id = Some e' ∧ status_is "processing" e' = true) ∧
    prepared_actions id n (unix_milli t) (w_db w) db')); [apply PrepareEvent_local|apply PrepareEvent_ok|]|].
  - eapply wp_mono; [by apply PrepareEvent_run, (sd_faults q Hq)|]. cbn [cn_db].
    intros [[]|x] c Hr; [|destruct Hr as (_ & _ & Hr); by rewrite (Hr e He) in Hs].
    destruct Hr as (_ & (e0 & He0 & Hs0 & He') & Hp). split; [done|]. split; [|done].
    exists (prepared_row vars clear e0). split; [done|]. unfold prepared_row. by destruct clear.
  - intros r w' (Hm & -> & He' & Hp). do 2 (split; [done|]). split; [|done]. split; [by apply Hm|done].
Qed.

Lemma list_step w :
  wp (run_store (ListActionStates id)) (λ r w', r = Ok (select_action_states id (w_db w)) ∧
    w_db w' = w_db w ∧ (w_tick w ≤ w_tick w')%nat) w.
Proof.
  eapply wp_mono; [apply (run_moves _ (λ r db', r = Ok (select_action_states id (w_db w)) ∧ db' = w_db w));
    [apply ListActionStates_local|apply preserves_read_only, read_only_ListActionStates|]|].
  - unfold ListActionStates. pose proof (sd_faults q Hq) as Hnf. by wp_step_ok.
  - by intros r w' [(_ & Ht & _) [-> Hdb]].
Qed.

Lemma ready_mono T T' a : T ≤ T' → ready T a → ready T' a.
Proof using. intros HT Hr Hp. etrans; [by apply Hr|]. by apply unix_milli_mono. Qed.

(** What a pass starts from *)
Definition pass_pre (T : Z) (n : nat) (w : world) : Prop :=
  held_ w ∧ quiet_ w ∧ T ≤ clock (w_tick w) ∧ (0 < n)%nat ∧
  ∀ j a, acts_ w j = Some a → 0 ≤ j < Z.of_nat n ∧ ready T a.

Lemma progressed_earlier T T' a a' : T ≤ T' → progressed cap T' a a' → progressed cap T a a'.
Proof using.
  intros HT [[-> [He|[Hr Hlt]]]|Hp]; [by left; split; [|left]| |by right]. left. split; [done|]. right.
  split; [done|]. pose proof (unix_milli_mono T T' HT). lia.
Qed.

(** The rows the loop works on: those that existed, and fresh ones. *)
Definition prepared_from (ms : Z) (n : nat) (w w' : world) : Prop := ∀ j,
  acts_ w' j = match acts_ w j with
  | Some a => Some a
  | None => if (0 <=? j) && (j <? Z.of_nat n)
            then Some (ActionRow "pending" 0 (Some ms) None None None) else None
  end.

Lemma in_plan n j : 0 ≤ j < Z.of_nat n → (0 <=? j) && (j <? Z.of_nat n) = true.
Proof using. intros Hj. apply andb_true_iff. lia. Qed.

Lemma prepared_quiet ms n w w' : prepared_from ms n w w' → quiet_ w → quiet_ w'.
Proof using.
  intros Hp Hc j a. rewrite Hp. destruct (acts_ w j) eqn:E; [intros [= <-]; by apply (Hc j)|].
  destruct (_ && _); [by intros [= <-]|done].
Qed.

Lemma prepared_runnable T T' ms n w w' :
  prepared_from ms n w w' → T ≤ T' → ms ≤ unix_milli T' → held_ w' → quiet_ w' →
  (∀ j a, acts_ w j = Some a → 0 ≤ j < Z.of_nat n ∧ ready T a) →
  runnable ev T' (state_by_index (select_action_states id (w_db w'))) 0 n w'.
Proof using.
  intros Hp HT Hms Hh Hc Hcov j Hj. rewrite state_by_index_select.
  change (event_actions (w_db w') !! (id, j)) with (acts_ w' j). rewrite Z.add_0_l in Hj.
  assert (∃ a, acts_ w' j = Some a ∧ ready T' a) as (a & Ha & Hr).
  { rewrite Hp. destruct (acts_ w j) as [a|] eqn:E.
    - exists a. split; [done|]. eapply ready_mono; [exact HT|]. by apply (Hcov j).
    - rewrite in_plan by done. eexists. split; [done|]. by intros _. }
  exists a. rewrite Ha. do 2 (split; [done|]).
  split; [by eapply (dok_actions _ (proj1 Hh))|]. split; [by apply (Hc j)|done].
Qed.

Lemma loop_processed T T' ms n w w1 go w2 :
  prepared_from ms n w w1 → T ≤ T' → (∀ j a, acts_ w j = Some a → 0 ≤ j < Z.of_nat n) →
  loop_on q ev T' 0 n w1 go w2 → processed_rows T n w w2.
Proof using.
  intros Hp HT Hcov [_ Hl] j. specialize (Hl j). rewrite Z.add_0_l, (Hp j) in Hl.
  destruct (decide (0 ≤ j < Z.of_nat n)) as [Hj|Hj].
  - rewrite in_plan in Hl by done. destruct (acts_ w j) as [a|];
      destruct (Hl _ eq_refl) as (a' & Ha' & Hpr);
      refine (ex_intro _ _ (ex_intro _ a' (conj _ (conj Ha' (progressed_earlier _ _ _ _ HT Hpr)))));
      [by left|by right].
  - rewrite Hl. destruct (acts_ w j) as [a|] eqn:E; [by destruct Hj; apply (Hcov j a)|].
    destruct (0 <=? j) eqn:?, (j <? Z.of_nat n) eqn:?; try done. bool_simpl. lia.
Qed.

Lemma process_progress src T w :
  pass_pre T (length (so_actions src)) w →
  wp (process gjson q ev src) (λ _ w',
    pass_rows (length (so_actions src)) w w' ∧ pass_outcome T (length (so_actions src)) w w') w.
Proof.
  set (n := length (so_actions src)). intros (Hh & Hc & HT & Hn & Hcov). unfold process. apply wp_bind_St.
  eapply wp_mono; [apply (wp_and _ _ _ w (wp_moves id _ w (executionVars_local gjson (sd_alone q Hq) q ev src))
    (executionVars_out src w Hh Hc))|].
  intros v w1 [(_ & Ht1 & _) Hv]. destruct v as [vars|]; cycle 1.
  { apply wp_ret_St. destruct Hv as [Hg Ha]. split; [|by left]. intros j a'. rewrite Ha. intros Ha'.
    split; [by apply (Hcov j a')|by left]. }
  destruct (sd_marshal q Hq vars) as [varsJSON ->].
  assert (held_ w1 ∧ quiet_ w1) as [Hh1 Hc1] by (unfold held, quiet, acts in *; by rewrite Hv).
  apply now_step. intros t ->. apply wp_bind_St.
  eapply wp_mono; [by apply (prepare_step varsJSON n _ _ (tick w1))|].
  intros r w2 (-> & (_ & Ht2 & _) & Hh2 & Hp2). cbn [w_tick w_db tick] in Ht2, Hp2.
  apply wp_bind_St. eapply wp_mono; [apply list_step|]. intros r w3 (-> & Hdb3 & Ht3). rewrite <- Hdb3.
  assert (prepared_from (unix_milli (clock (w_tick w1))) n w w3) as Hp3.
  { intros j. unfold acts. rewrite Hdb3, (Hp2 j). by rewrite Hv. }
  assert (held_ w3) as Hh3 by (unfold held; by rewrite Hdb3).
  pose proof (prepared_quiet _ _ _ _ Hp3 Hc) as Hc3. set (T' := clock (w_tick w3)).
  assert (T ≤ T') as HTT by (etrans; [exact HT|apply (sd_clock q Hq); lia]).
  assert (unix_milli (clock (w_tick w1)) ≤ unix_milli T') as Hms by (apply unix_milli_mono, (sd_clock q Hq); lia).
  apply wp_bind_St. eapply wp_mono; [apply (wp_and _ _ _ w3
    (process_actions_go q ev (sd_faults q Hq) (steady_respects q Hq ev) vars _ (so_actions src) 0 w3 Hh3 Hc3)
    (process_actions_progress q Hq ev vars _ (so_actions src) 0 T' w3
       (prepared_runnable T T' _ n w w3 Hp3 HTT Hms Hh3 Hc3 Hcov) (Z.le_refl T')))|].
  intros go w4 [Hg Hl]. pose proof (proj1 Hl) as ->. destruct Hg as [Hh4 Hc4].
  apply finish_outcome; [done| |done|done].
  apply (loop_processed T T' _ n w w3 true w4 Hp3 HTT); [|done]. intros j a Ha. by apply (Hcov j a).
Qed.

End Pass.
