(* ===== verification/QueueDrain.v ===== *)
(** * The worker drains what is due

    Every iteration of [drain] that goes on takes weight from the database, so
    the loop, which the code does not bound, ends; and it leaves nothing that
    is due. *)

From S2P Require Import Prelude GoLib Sql StoreSchema Store StoreLookup StoreInv StoreCalls StoreSpec StoreLifecycle StoreOutcome Config Handler Policy Queue QueueSteps QueuePass QueueOutcome QueueTiming QueueFrame QueueProgress QueueWeight.

(** ** Store calls take time *)

Section Ticks.
Context `{Env, SqlOrder}.
#[local] Abbreviation SM := (M (conn DB) store_err).

Definition ticks {A} (m : SM A) : Prop := ∀ c, (cn_tick c ≤ cn_tick (m c).2)%nat.

Lemma ticks_ret {A} (a : A) : ticks (mret a).
Proof. by intros c. Qed.

Lemma ticks_fail {A} e : ticks (fail (A := A) e).
Proof. by intros c. Qed.

Lemma ticks_bind {A B} (m : SM A) (f : A → SM B) : ticks m → (∀ a, ticks (f a)) → ticks (m ≫= f).
Proof.
  intros Hm Hf c. unfold mbind, M_bind. specialize (Hm c).
  destruct (m c) as [[a|e] c1]; cbn [snd] in *; [|done]. specialize (Hf a c1). lia.
Qed.

Lemma ticks_call : ticks sql_call.
Proof. intros c. unfold sql_call. destruct (fault _); cbn; lia. Qed.

Lemma ticks_exec {A} (f : DB → A * DB) : ticks (exec f).
Proof. apply ticks_bind; [apply ticks_call|]. intros _ c. unfold apply_stmt. by destruct (f (cn_db c)). Qed.

Lemma ticks_transaction {A} (body : SM (tx_end A)) : ticks body → ticks (transaction body).
Proof.
  intros Hb c. unfold transaction. pose proof (ticks_call c) as T0.
  destruct (sql_call c) as [[u|e] c1]; cbn [snd] in *; [|done]. specialize (Hb c1).
  destruct (body c1) as [[[a|a]|e] c2]; cbn [snd cn_tick] in *; [|lia..].
  pose proof (ticks_call c2). destruct (sql_call c2) as [[u'|e] c3]; cbn [snd cn_tick] in *; lia.
Qed.

Lemma RequeueExpiredLeases_ticks t : ticks (RequeueExpiredLeases t).
Proof.
  apply ticks_transaction. repeat (apply ticks_bind; [first [apply ticks_exec|apply ticks_ret]|intros ?]).
  apply ticks_ret.
Qed.

Lemma ClaimPending_ticks lease t owner : ticks (ClaimPending lease t owner).
Proof.
  apply ticks_transaction, ticks_bind; [apply ticks_exec|]. intros [[id e]|]; [|apply ticks_ret].
  destruct (scan_pending id e); [|apply ticks_fail]. apply ticks_bind; [apply ticks_exec|].
  intros n. destruct (n =? 0); [apply ticks_ret|]. apply ticks_bind; [apply ticks_exec|intros _; apply ticks_ret].
Qed.

End Ticks.

Section Drain.
Context `{Env, SqlOrder, Regexp, Json, Url, Peers}.
Context (gjson : string → string → option string).
Context (q : Queue).

#[local] Abbreviation cap := (q_maxRetries q + 1).

(** ** The weight of the database *)

(** The source an event is processed with. *)
Definition plan_of (id : string) (e : event_row) : option Source :=
  scan_pending id e ≫= resolveSource (q_cfg q).

Definition plan_length (id : string) (e : event_row) : nat :=
  match plan_of id e with Some src => length (so_actions src) | None => 0 end.

(** Waiting for a retry that is due when the event is. *)
Definition ripe (n : nat) (e : event_row) (A : Z → option action_row) : bool :=
  status_is "retrying" e &&
  existsb (λ i, match A (Z.of_nat i) with
    | Some a => action_is "retrying" a &&
        (coalesce (ac_next_attempt_at_ms a) 0 <=? coalesce (ev_next_attempt_at_ms e) 0)
    | None => false end) (seq 0 n).

Definition event_weight (id : string) (e : option event_row) (A : Z → option action_row) : nat :=
  match e with
  | Some e =>
      if live_status (ev_status e)
      then 1 + (if ripe (plan_length id e) e A then 0 else 1) + 2 * plan_weight cap (plan_length id e) A
      else 0
  | None => 0
  end.

Definition weight_of (db : DB) (id : string) : nat :=
  event_weight id (events db !! id) (λ j, event_actions db !! (id, j)).

(** How many iterations a drain may still make *)
Definition drain_bound (db : DB) : nat :=
  sum_list_with (weight_of db) (elements (dom (events db))).

Lemma ripe_ext n e A A' : (∀ j, A' j = A j) → ripe n e A' = ripe n e A.
Proof.
  intros HA. unfold ripe. f_equal. induction (seq 0 n) as [|i l IH]; cbn; [done|]. by rewrite HA, IH.
Qed.

Lemma event_weight_ext id e A A' : (∀ j, A' j = A j) → event_weight id e A' = event_weight id e A.
Proof.
  intros HA. destruct e as [e|]; [|done]. cbn [event_weight]. rewrite (ripe_ext _ _ A A') by done.
  by rewrite (plan_weight_ext _ _ A A') by (intros; by rewrite HA).
Qed.

Lemma plan_of_same id e e' : same_plan e e' → plan_of id e' = plan_of id e.
Proof.
  intros (Ha & Hs & Hr). unfold plan_of, scan_pending. rewrite Hr.
  destruct (ev_received_at_ms e); [|done]. cbn. unfold resolveSource. cbn [pe_actions_json pe_source].
  by rewrite Ha, Hs.
Qed.

Lemma plan_length_same id e e' : same_plan e e' → plan_length id e' = plan_length id e.
Proof. intros Hs. unfold plan_length. by rewrite (plan_of_same id e e'). Qed.

Lemma drain_bound_lt db db' id :
  dom (events db') = dom (events db) → is_Some (events db !! id) →
  (∀ k, k ≠ id → weight_of db' k = weight_of db k) → (weight_of db' id < weight_of db id)%nat →
  (drain_bound db' < drain_bound db)%nat.
Proof.
  intros Hdom Hid Ho Hlt. unfold drain_bound. rewrite Hdom. apply (sum_with_lt _ _ _ id).
  - intros k _. destruct (decide (k = id)) as [->|Hne]; [lia|]. by rewrite Ho.
  - by apply elem_of_elements, elem_of_dom.
  - done.
Qed.

Lemma drain_bound_eq db db' :
  dom (events db') = dom (events db) → (∀ k, weight_of db' k = weight_of db k) →
  drain_bound db' = drain_bound db.
Proof.
  intros Hdom Hw. unfold drain_bound. rewrite Hdom. apply (anti_symm Nat.le); apply sum_with_le; intros k _; by rewrite Hw.
Qed.

(** ** What holds before each iteration *)

(** The plans of the live events have actions, and cover their rows. *)
Definition plans_cover (db : DB) : Prop := ∀ id e src,
  events db !! id = Some e → live_status (ev_status e) = true → plan_of id e = Some src →
  (0 < length (so_actions src))%nat ∧
  ∀ j a, event_actions db !! (id, j) = Some a → 0 ≤ j < Z.of_nat (length (so_actions src)).

Record drainable (w : world) : Prop := {
  dr_ok : db_ok (w_db w);
  dr_plans : plans_cover (w_db w);
  dr_ready : ∀ k a, event_actions (w_db w) !! k = Some a → ready (clock (w_tick w)) a;
  dr_epoch : 0 ≤ clock (w_tick w);
}.

(** The statements that release running actions and touch only the status
    columns of events keep all of it, and the weights. *)
Definition eased (db db' : DB) : Prop :=
  dom (events db') = dom (events db) ∧
  (∀ id e', events db' !! id = Some e' → ∃ e, events db !! id = Some e ∧ same_plan e e' ∧
     (live_status (ev_status e') = true → live_status (ev_status e) = true)) ∧
  (∀ k a', event_actions db' !! k = Some a' → ∃ a, event_actions db !! k = Some a ∧
     (a' = a ∨ (action_is "running" a = true ∧ a' = release_action a))).

Lemma eased_cover db db' : eased db db' → plans_cover db → plans_cover db'.
Proof.
  intros (_ & He & Ha) Hp id e' src He' Hl Hsrc. destruct (He id e' He') as (e & He0 & Hs & Hl0).
  rewrite (plan_of_same id e e' Hs) in Hsrc. destruct (Hp id e src He0 (Hl0 Hl) Hsrc) as [Hn Hj].
  split; [done|]. intros j a' Ha'. destruct (Ha _ _ Ha') as (a & Ha0 & _). by apply (Hj j a).
Qed.

Lemma eased_ready db db' T : 0 ≤ T → eased db db' →
  (∀ k a, event_actions db !! k = Some a → ready T a) → ∀ k a, event_actions db' !! k = Some a → ready T a.
Proof.
  intros HT (_ & _ & Ha) Hr k a' Ha'. destruct (Ha k a' Ha') as (a & Ha0 & [->|[_ ->]]); [by apply (Hr k)|].
  intros _. cbn. by apply Z.div_pos.
Qed.

(** ** Requeueing and claiming *)

(** Rows of which some running ones were released *)
Definition rows_eased (A A' : Z → option action_row) : Prop := ∀ j, match A j with
  | Some a => A' j = Some a ∨ (action_is "running" a = true ∧ A' j = Some (release_action a))
  | None => A' j = None
  end.

Lemma rows_eased_weight n A A' : rows_eased A A' → plan_weight cap n A' = plan_weight cap n A.
Proof.
  intros Hr. apply plan_weight_ext. intros j _. specialize (Hr j).
  destruct (A j) as [a|]; [|by rewrite Hr]. destruct Hr as [->|[Ha ->]]; [done|]. by apply release_weight.
Qed.

Lemma status_is_live s e : status_is s e = true → live_status s = true → live_status (ev_status e) = true.
Proof using. unfold status_is. intros Hs. bool_simpl. by rewrite Hs. Qed.

Lemma requeue_row_plan e : same_plan e (requeue_row e).
Proof. done. Qed.

Lemma expired_requeued nowMS db db' :
  requeued_where (λ _ e, lease_expired nowMS e) db db' →
  released_where (event_in (lease_expired nowMS) db) db db' →
  eased db db' ∧ ∀ k, weight_of db' k = weight_of db k.
Proof.
  intros Hev Hac. split; [split_and!|].
  - apply set_eq. intros k. rewrite !elem_of_dom, Hev. by rewrite fmap_is_Some.
  - intros k e'. rewrite Hev. destruct (events db !! k) as [e|]; [|done]. intros [= <-]. exists e.
    split; [done|]. destruct (lease_expired nowMS e) eqn:Hx; [|done]. split; [done|]. intros _.
    apply status_is_live with "processing"%string; [|done]. unfold lease_expired in Hx. by bool_simpl.
  - intros k a'. rewrite Hac. destruct (event_actions db !! k) as [a|]; [|done]. intros [= <-]. exists a.
    split; [done|]. destruct (action_is "running" a && _) eqn:Hx; [|by left]. right. by bool_simpl.
  - intros k. unfold weight_of. rewrite Hev. destruct (events db !! k) as [e|] eqn:He; [|done].
    cbn [fmap option_fmap option_map]. destruct (lease_expired nowMS e) eqn:Hx.
    + assert (status_is "processing" e = true) as Hs by (unfold lease_expired in Hx; by bool_simpl).
      cbn [event_weight]. rewrite (plan_length_same k e (requeue_row e) (requeue_row_plan e)).
      rewrite (status_is_live "processing" e Hs) by done. unfold ripe at 2.
      rewrite (status_excl _ "retrying" e Hs) by done. f_equal. f_equal. apply rows_eased_weight.
      intros j. rewrite Hac. cbn [fst]. destruct (event_actions db !! (k, j)) as [a|]; [|done]. cbn.
      destruct (action_is "running" a) eqn:Hr, (event_in _ _ _); cbn; [right|left..]; done.
    + apply event_weight_ext. intros j. rewrite Hac. cbn [fst]. unfold event_in. rewrite He, Hx.
      destruct (event_actions db !! (k, j)) as [a|]; [|done]. cbn. by rewrite andb_false_r.
Qed.

Lemma leased_plan until owner e : same_plan e (leased until owner e).
Proof. done. Qed.

Lemma claimed_rows id until owner db db' k :
  claimed id until owner db db' →
  rows_eased (λ j, event_actions db !! (k, j)) (λ j, event_actions db' !! (k, j)) ∧
  (k ≠ id → ∀ j, event_actions db' !! (k, j) = event_actions db !! (k, j)).
Proof.
  intros (_ & Ha & _). split.
  - intros j. rewrite Ha. cbn [fst]. destruct (event_actions db !! (k, j)) as [a|]; [|done]. cbn.
    destruct (bool_decide (k = id)), (action_is "running" a) eqn:Hr; cbn; [right|left..]; done.
  - intros Hk j. rewrite Ha. cbn [fst]. rewrite (bool_decide_false (k = id)) by done.
    by destruct (event_actions db !! (k, j)).
Qed.

Lemma claimed_eased id until owner ms e db db' :
  events db !! id = Some e → claimable ms e = true → claimed id until owner db db' → eased db db'.
Proof.
  intros He Hcl Hc. pose proof Hc as (Hev & Ha & _). split_and!.
  - apply set_eq. intros k. rewrite !elem_of_dom, Hev. by rewrite fmap_is_Some.
  - intros k e'. rewrite Hev. destruct (events db !! k) as [e0|] eqn:He0; [|done]. intros [= <-]. exists e0.
    split; [done|]. case_bool_decide; [|done]. subst. split; [done|]. intros _.
    rewrite He in He0. injection He0 as <-. by eapply claimable_live.
  - intros k a'. rewrite Ha. destruct (event_actions db !! k) as [a|]; [|done]. intros [= <-]. exists a.
    split; [done|]. destruct (_ && action_is "running" a) eqn:Hx; [|by left]. right. by bool_simpl.
Qed.

Lemma claimed_others id until owner db db' k :
  claimed id until owner db db' → k ≠ id → weight_of db' k = weight_of db k.
Proof.
  intros Hc Hk. pose proof Hc as (Hev & _). unfold weight_of. rewrite Hev.
  replace ((λ e, if bool_decide (k = id) then leased until owner e else e) <$> events db !! k)
    with (events db !! k) by (rewrite bool_decide_false by done; by destruct (events db !! k)).
  apply event_weight_ext. by apply (claimed_rows _ _ _ _ _ k Hc).
Qed.

(** A ripe event that is claimed has a retry that is due. *)
Lemma ripe_due n e A A' nowMS :
  ripe n e A = true → claimable nowMS e = true → rows_eased A A' →
  ∃ j a, 0 ≤ j < Z.of_nat n ∧ A' j = Some a ∧ action_is "retrying" a = true ∧
    coalesce (ac_next_attempt_at_ms a) 0 ≤ nowMS.
Proof.
  unfold ripe. intros [Hs Hex]%andb_true_iff Hcl HA.
  assert (coalesce (ev_next_attempt_at_ms e) 0 ≤ nowMS) as Hdue.
  { unfold claimable in Hcl. rewrite (status_excl _ "pending" e Hs), Hs, (status_excl _ "processing" e Hs) in Hcl by done.
    cbn in Hcl. rewrite orb_false_r in Hcl. by apply Z.leb_le. }
  apply existsb_exists in Hex as (i & Hi & Hrow). apply in_seq in Hi.
  destruct (A (Z.of_nat i)) as [a|] eqn:Ha; [|done]. apply andb_true_iff in Hrow as [Hr Hn].
  exists (Z.of_nat i), a. split; [lia|]. split; [|split; [done|lia]].
  specialize (HA (Z.of_nat i)). rewrite Ha in HA. destruct HA as [HA|[Hrun _]]; [done|].
  exfalso. unfold action_is in *. bool_simpl. congruence.
Qed.

(** ** A pass takes weight from its event *)

Lemma pass_weight ev src T w w' e e1 A :
  events (w_db w) !! pe_id ev = Some e1 → same_plan e e1 → claimable (unix_milli T) e = true →
  rows_eased A (acts (pe_id ev) w) → plan_of (pe_id ev) e = Some src →
  moves (pe_id ev) w w' → pass_outcome q ev T (length (so_actions src)) w w' →
  (event_weight (pe_id ev) (events (w_db w') !! pe_id ev) (acts (pe_id ev) w') <
   event_weight (pe_id ev) (Some e) A)%nat.
Proof.
  intros He1 Hs1 Hcl HA Hsrc ((_ & _ & Hf) & _ & _) Hout. rewrite He1 in Hf.
  destruct (events (w_db w') !! pe_id ev) as [e'|] eqn:He'; inversion_clear Hf as [? ? Hs2|].
  assert (plan_length (pe_id ev) e = length (so_actions src)) as Hn by (unfold plan_length; by rewrite Hsrc).
  cbn [event_weight]. rewrite (claimable_live _ _ Hcl).
  destruct Hout as [Hg|(e2 & m & j & a & He2 & Hst & Hnext & Hj & Ha & Hr & Hma & Hle & Hlt)].
  { rewrite (Hg e' He'). lia. }
  rewrite He2 in He'. injection He' as <-.
  rewrite (status_is_live "retrying" e2) by (unfold status_is; by rewrite ?Hst).
  rewrite (plan_length_same _ e1 e2), (plan_length_same _ e e1), Hn by done.
  rewrite <- (rows_eased_weight _ _ _ HA). set (n := length (so_actions src)) in *.
  assert (ripe n e2 (acts (pe_id ev) w') = true) as Hripe.
  { unfold ripe, status_is. rewrite Hst. cbn [andb bool_decide]. apply andb_true_iff. split; [done|].
    apply existsb_exists. exists (Z.to_nat j). split; [apply in_seq; lia|]. rewrite Z2Nat.id by lia.
    rewrite Ha, Hr, Hma, Hnext. cbn. apply Z.leb_refl. }
  rewrite Hripe.
  destruct (ripe n e A) eqn:Hrp; [|lia].
  destruct (ripe_due _ _ _ _ _ Hrp Hcl HA) as (i & b & Hi & Hb & Hrb & Hdb).
  specialize (Hlt i b Hb Hi Hrb Hdb). lia.
Qed.

(** ** One iteration *)

Lemma moved_drainable id w w' :
  steady q → drainable w → moves id w w' →
  (∀ e, events (w_db w) !! id = Some e → live_status (ev_status e) = true) →
  (∀ j a', acts id w' j = Some a' → acts id w j = Some a' ∨ (action_is "pending" a' = false ∧
     ∀ e src, events (w_db w) !! id = Some e → plan_of id e = Some src →
       0 ≤ j < Z.of_nat (length (so_actions src)))) →
  drainable w'.
Proof.
  intros Hq [Hok Hp Hr H0'] ((Fe & Fa & Fp) & Ht & Hok') Hl Hrows.
  assert (clock (w_tick w) ≤ clock (w_tick w')) as Hclk by (by apply (sd_clock q Hq)).
  split; [by apply Hok'| | |by etrans].
  - intros k e' src He' Hl' Hsrc. destruct (decide (k = id)) as [->|Hk].
    + rewrite He' in Fp. destruct (events (w_db w) !! id) as [e|] eqn:He; inversion_clear Fp as [? ? Hs|].
      rewrite (plan_of_same id e e' Hs) in Hsrc. destruct (Hp id e src He (Hl e eq_refl) Hsrc) as [Hn Hj].
      split; [done|]. intros j a' Ha'. destruct (Hrows j a' Ha') as [Ha|[_ Hin]]; [by apply (Hj j a')|].
      by apply (Hin e src).
    + rewrite Fe in He' by done. destruct (Hp k e' src He' Hl' Hsrc) as [Hn Hj]. split; [done|].
      intros j a'. rewrite Fa by done. apply Hj.
  - intros [k j] a' Ha'. eapply ready_mono; [exact Hclk|]. destruct (decide (k = id)) as [->|Hk].
    + destruct (Hrows j a' Ha') as [Ha|[Hnp _]]; [by apply (Hr (id, j))|]. intros Hpd. congruence.
    + rewrite Fa in Ha' by done. by apply (Hr (k, j)).
Qed.

(** The loop ended because it was told to, or because nothing is due. *)
Definition halted (w w' : world) : Prop :=
  (∃ n, stop_requested n = true) ∨
  ∃ n, (w_tick w ≤ n ≤ w_tick w')%nat ∧
    ∀ id e, events (w_db w') !! id = Some e → claimable (unix_milli (clock n)) e = false.

Definition step_end (w : world) (go : bool) (w' : world) : Prop :=
  (w_tick w ≤ w_tick w')%nat ∧
  if go then drainable w' ∧ (drain_bound (w_db w') < drain_bound (w_db w))%nat else halted w w'.

(** A claimed event, in the state the claim left. *)
Record taken (ev : PendingEvent) (e : event_row) (T : Z) (db : DB) (w : world) : Prop := {
  tk_row : events db !! pe_id ev = Some e;
  tk_due : claimable (unix_milli T) e = true;
  tk_scan : scan_pending (pe_id ev) e = Some ev;
  tk_claimed : ∃ until owner, claimed (pe_id ev) until owner db (w_db w);
  tk_drainable : drainable w;
  tk_clock : T ≤ clock (w_tick w);
  tk_ready : ∀ j a, acts (pe_id ev) w j = Some a → ready T a;
}.

Lemma taken_held ev e T db w : taken ev e T db w → held ev w ∧ quiet ev w.
Proof.
  intros [He Hc _ (until & owner & Hev & Ha & _) Hd _ _]. split.
  - split; [apply Hd|]. exists (leased until owner e). by rewrite Hev, He, bool_decide_true.
  - intros j a. unfold acts. rewrite Ha. cbn [fst]. rewrite bool_decide_true by done.
    destruct (event_actions db !! (pe_id ev, j)) as [a0|]; [|done]. cbn.
    destruct (action_is "running" a0) eqn:Hr; [by intros [= <-]|]. intros [= <-]. exact Hr.
Qed.

Lemma moves_dom id w w' : moves id w w' → dom (events (w_db w')) = dom (events (w_db w)).
Proof.
  intros ((Fe & _ & Fp) & _). apply set_eq. intros k. rewrite !elem_of_dom.
  destruct (decide (k = id)) as [->|Hk]; [|by rewrite Fe]. by destruct Fp.
Qed.

(** What is left of a step once its event is claimed. *)
Lemma taken_step ev e T db w w' :
  steady q → taken ev e T db w → moves (pe_id ev) w w' →
  (∀ j a', acts (pe_id ev) w' j = Some a' → acts (pe_id ev) w j = Some a' ∨
     (action_is "pending" a' = false ∧ ∀ src, plan_of (pe_id ev) e = Some src →
       0 ≤ j < Z.of_nat (length (so_actions src)))) →
  (event_weight (pe_id ev) (events (w_db w') !! pe_id ev) (acts (pe_id ev) w') < weight_of db (pe_id ev))%nat →
  drainable w' ∧ (drain_bound (w_db w') < drain_bound db)%nat.
Proof.
  intros Hq Htk Hm Hrows Hlt. destruct (taken_held _ _ _ _ _ Htk) as [(_ & e1 & He1 & Hs1) _].
  destruct Htk as [He Hcl _ (until & owner & Hcd) Hd _ _]. split.
  - eapply moved_drainable; [done|exact Hd|exact Hm| |].
    + intros e2. rewrite He1. intros [= <-]. by apply (status_is_live "processing").
    + intros j a' Ha'. destruct (Hrows j a' Ha') as [Ha|[Hp Hin]]; [by left|right]. split; [done|].
      intros e2 src He2. destruct Hcd as (Hev & _). rewrite Hev, He in He2. cbn in He2.
      rewrite bool_decide_true in He2 by done. injection He2 as <-. apply Hin.
  - apply (drain_bound_lt _ _ (pe_id ev)); [|by rewrite He| |exact Hlt].
    + rewrite (moves_dom _ _ _ Hm). apply (claimed_eased _ _ _ _ _ _ _ He Hcl Hcd).
    + intros k Hk. rewrite <- (claimed_others _ _ _ _ _ k Hcd Hk). destruct Hm as ((Fe & Fa & _) & _).
      unfold weight_of. rewrite Fe by done. apply event_weight_ext. intros j. by apply Fa.
Qed.

Lemma process_step_end ev src e T db w :
  steady q → taken ev e T db w → plans_cover db → resolveSource (q_cfg q) ev = Some src →
  wp (process gjson q ev src) (λ _ w', (w_tick w ≤ w_tick w')%nat ∧
    drainable w' ∧ (drain_bound (w_db w') < drain_bound db)%nat) w.
Proof.
  intros Hq Htk Hpl Hsrc. destruct (taken_held _ _ _ _ _ Htk) as [Hh Hc].
  pose proof Htk as [He Hcl Hscan (until & owner & Hcd) Hd Hclk Hready].
  assert (plan_of (pe_id ev) e = Some src) as Hplan by (unfold plan_of; by rewrite Hscan).
  destruct (Hpl _ _ _ He (claimable_live _ _ Hcl) Hplan) as [Hn Hcov].
  destruct (claimed_rows _ _ _ _ _ (pe_id ev) Hcd) as [Hrows _].
  assert (pass_pre ev T (length (so_actions src)) w) as Hpre.
  { split_and!; try done. intros j a Ha. split; [|by apply (Hready j)].
    specialize (Hrows j). cbn beta in Hrows. change (event_actions (w_db w) !! (pe_id ev, j)) with (acts (pe_id ev) w j) in Hrows.
    destruct (event_actions db !! (pe_id ev, j)) as [a0|] eqn:Ha0; [by apply (Hcov j a0)|congruence]. }
  eapply wp_mono; [apply (wp_and _ _ _ w (wp_moves _ _ w (process_local gjson (sd_alone q Hq) q ev src))
    (process_progress gjson q Hq ev src T w Hpre))|].
  intros _ w' (Hm & Hpr & Hout). split; [apply Hm|].
  apply (taken_step ev e T db w); [done..| |].
  - intros j a' Ha'. destruct (Hpr j a' Ha') as [Hj [Ha|Hp]]; [by left|right]. split; [done|].
    intros src'. rewrite Hplan. by intros [= <-].
  - destruct Hcd as (Hev & _). unfold weight_of. rewrite He.
    apply (pass_weight ev src T w w' e (leased until owner e)); try done.
    rewrite Hev, He. cbn. by rewrite bool_decide_true.
Qed.

Lemma unresolved_step_end ev e T db w :
  steady q → taken ev e T db w →
  wp (end_event (pe_id ev) "dead") (λ _ w', (w_tick w ≤ w_tick w')%nat ∧
    drainable w' ∧ (drain_bound (w_db w') < drain_bound db)%nat) w.
Proof.
  intros Hq Htk. destruct (taken_held _ _ _ _ _ Htk) as [Hh Hc].
  eapply wp_mono; [apply (wp_and _ _ _ w (wp_moves _ _ w (end_event_local (sd_alone q Hq) ev "dead" eq_refl))
    (end_event_gone q Hq ev "dead" w eq_refl Hh Hc))|].
  intros r w' (Hm & _ & Hg & Ha). split; [apply Hm|].
  apply (taken_step ev e T db w); [done..| |].
  - intros j a'. rewrite Ha. by left.
  - destruct Htk as [He Hcl _ _ _ _ _]. unfold weight_of. rewrite He. cbn [event_weight].
    rewrite (claimable_live _ _ Hcl). destruct (events (w_db w') !! pe_id ev) as [e'|] eqn:He'; cbn [event_weight]; [|lia].
    rewrite (Hg e' He'). lia.
Qed.

Lemma run_ticks {A} (m : M (conn DB) store_err A) (P : result store_err A → DB → Prop) w :
  steady q → ticks m → wp m (λ r c, P r (cn_db c)) (Conn (w_db w) (w_tick w)) →
  wp (run_store m) (λ r w', (w_tick w ≤ w_tick w')%nat ∧ P r (w_db w')) w.
Proof.
  intros Hq Ht Hm. apply wp_run_store. rewrite (sd_alone q Hq). specialize (Ht (Conn (w_db w) (w_tick w))).
  unfold wp in *. destruct (m _) as [r c]. by split.
Qed.

Lemma eased_drainable w w' :
  steady q → eased (w_db w) (w_db w') → db_ok (w_db w') → (w_tick w ≤ w_tick w')%nat → drainable w → drainable w'.
Proof.
  intros Hq He Hok Ht [_ Hp Hr H0']. pose proof (sd_clock q Hq _ _ Ht) as Hclk.
  split; [done|by eapply eased_cover| |by etrans].
  intros k a Ha. eapply ready_mono; [exact Hclk|]. by eapply eased_ready.
Qed.

Lemma requeue_expired_run t c :
  no_faults → db_ok (cn_db c) →
  wp (RequeueExpiredLeases t) (λ r c', is_ok r = true ∧ db_ok (cn_db c') ∧ eased (cn_db c) (cn_db c') ∧
    ∀ k, weight_of (cn_db c') k = weight_of (cn_db c) k) c.
Proof.
  intros Hnf Hok. pose proof (RequeueExpiredLeases_run t c Hnf) as Hrun.
  assert (preserves db_ok (RequeueExpiredLeases t)) as Hkeep by apply requeueProcessing_ok.
  specialize (Hkeep c Hok). unfold wp in *. destruct (RequeueExpiredLeases t c) as [r c'].
  destruct Hrun as (-> & Hev & Hac & _). destruct (expired_requeued _ _ _ Hev Hac). by split_and!.
Qed.

Lemma drain_step_end w :
  steady q → drainable w → wp (drain_step gjson q) (step_end w) w.
Proof.
  intros Hq Hd. unfold drain_step. apply (not_canceled q Hq).
  apply wp_bind_St, wp_isStopped. intros b Hb. destruct b.
  { apply wp_ret_St. split; [cbn; lia|]. left. by eexists. }
  apply wp_bind_St, wp_isStopped. intros b Hb2. destruct b.
  { apply wp_ret_St. split; [cbn; lia|]. left. by eexists. }
  apply now_step. intros t Ht. cbn [w_tick tick] in Ht. set (w1 := tick _).
  assert (w_tick w1 = S (S (S (S (w_tick w))))) as Hw1 by done. assert (w_db w1 = w_db w) as Hdb1 by done.
  clearbody w1. clear Hb Hb2. pose proof (sd_clock q Hq (w_tick w) (S (S (S (w_tick w)))) ltac:(lia)) as Hclk.
  rewrite <- Ht in Hclk. apply wp_bind_St.
  eapply wp_mono; [apply (run_ticks _ (λ r db', is_ok r = true ∧ db_ok db' ∧ eased (w_db w) db' ∧
    ∀ k, weight_of db' k = weight_of (w_db w) k) w1 Hq (RequeueExpiredLeases_ticks t))|].
  { rewrite Hdb1. by apply (requeue_expired_run t (Conn _ _) (sd_faults q Hq) (dr_ok _ Hd)). }
  intros r w2 (Ht2 & Hr & Hok2 & Heased & Hw2). destruct r as [k|x]; [|done].
  assert (drainable w2) as Hd2 by (eapply eased_drainable; [done|exact Heased|done|lia|done]).
  pose proof (drain_bound_eq _ _ (proj1 Heased) Hw2) as Hbd. apply wp_bind_St.
  eapply wp_mono; [apply (run_ticks _ (λ r db', claim_result (q_lease q) t (q_owner q) (w_db w2) r db' ∧ db_ok db') w2 Hq
    (ClaimPending_ticks _ _ _))|].
  { apply wp_and; [by apply ClaimPending_run; [apply (sd_faults q Hq)|]|by apply ClaimPending_ok]. }
  intros r w3 (Ht3 & Hr3 & Hok3). destruct r as [[ev|]|x]; [| |done]; cycle 1.
  { apply wp_ret_St. split; [lia|]. right. exists (S (S (S (w_tick w)))). split; [lia|].
    destruct Hr3 as [-> Hn]. by rewrite <- Ht. }
  destruct Hr3 as (e & He & Hcl & Hscan & _ & Hcd). pose proof (claimed_eased _ _ _ _ _ _ _ He Hcl Hcd) as He3.
  assert (taken ev e t (w_db w2) w3) as Htk.
  { split; try done; [by eauto|by eapply eased_drainable| |].
    - rewrite Ht. apply (sd_clock q Hq). lia.
    - intros j a Ha. eapply (eased_ready (w_db w2)); [|exact He3| |exact Ha].
      + etrans; [apply (dr_epoch _ Hd)|done].
      + eapply (eased_ready (w_db w)); [|exact Heased|]; [etrans; [apply (dr_epoch _ Hd)|done]|].
        intros k' a' Ha'. eapply ready_mono; [exact Hclk|]. by apply (dr_ready _ Hd k'). }
  destruct (resolveSource (q_cfg q) ev) as [src|] eqn:Hsrc; apply wp_bind_St; eapply wp_mono.
  - by apply (process_step_end ev src e t (w_db w2)); [| |apply Hd2|].
  - intros ? w4 (Ht4 & Hd4 & Hlt). apply wp_ret_St. split; [lia|]. split; [done|lia].
  - by apply (unresolved_step_end ev e t (w_db w2)).
  - intros ? w4 (Ht4 & Hd4 & Hlt). apply wp_ret_St. split; [lia|]. split; [done|lia].
Qed.

End Drain.
