(* ===== verification/DrainProps.v ===== *)
(** * The worker loop ends, and leaves nothing due

    [drain_ends] puts [QueueDrain] together for the loop as a worker runs it:
    among other workers, from any database that satisfies [db_ok], with fuel
    one more than [drain_bound]. *)

From S2P Require Import Prelude GoLib Sql StoreSchema Store StoreLookup StoreInv StoreCalls StoreSpec StoreLifecycle StoreOutcome Config Handler Policy Queue QueueSteps QueuePass QueueOutcome QueueTiming QueueFrame QueueProgress QueueWeight QueueDrain.

Section Claims.
Context `{Env, SqlOrder, Regexp, Json, Url, Peers}.
Context (gjson : string → string → option string).

Lemma drain_from (q : Queue) (fuel : nat) (w : world) :
  steady q → drainable q w → (drain_bound q (w_db w) < fuel)%nat →
  drain gjson q fuel w = drain gjson q (S (drain_bound q (w_db w))) w ∧
  (w_tick w ≤ w_tick (drain gjson q fuel w).2)%nat ∧ halted w (drain gjson q fuel w).2.
Proof.
  intros Hq. remember (drain_bound q (w_db w)) as bound eqn:Hb.
  assert (drain_bound q (w_db w) ≤ bound)%nat as Hle by lia. clear Hb.
  revert fuel w Hle. induction bound as [bound IH] using lt_wf_ind; intros fuel w Hle Hd Hf.
  destruct fuel as [|fuel]; [lia|]. cbn [drain]. unfold mbind, St_bind.
  pose proof (drain_step_end gjson q w Hq Hd) as [Ht Hend].
  destruct (drain_step gjson q w) as [go w1]; cbn [fst snd] in *. destruct go; [|by split].
  destruct Hend as [Hd1 Hlt]. set (b1 := drain_bound q (w_db w1)) in *.
  destruct (IH b1 ltac:(lia) fuel w1 (le_n _) Hd1 ltac:(lia)) as (-> & Ht1 & Hh1).
  destruct (IH b1 ltac:(lia) bound w1 (le_n _) Hd1 ltac:(lia)) as (-> & _ & _).
  split; [done|]. split; [lia|]. destruct Hh1 as [Hs|(n & Hn & Hnone)]; [by left|right].
  exists n. split; [lia|done].
Qed.

(** C3: the worker loop, which the code does not bound, ends: with a
    driver that does not fail, no cancellation and nobody else at work, a clock
    that does not run backwards and handlers that report no cancellation, it
    makes at most [drain_bound] iterations, which counts, for each live event,
    twice the attempts its unfinished actions have left (and one more for each
    of them), plus at most two; more fuel changes nothing. Unless Stop was
    called, it ends because at a moment of the run no event was claimable:
    none pending, no retry due, no lease run out. *)
Theorem drain_ends (q : Queue) (fuel : nat) (w w' : world) :
  steady q → drainable q w → (drain_bound q (w_db w) < fuel)%nat →
  drain gjson q fuel w = (tt, w') →
  drain gjson q (S (drain_bound q (w_db w))) w = (tt, w') ∧
  ((∀ n, stop_requested n = false) →
   ∃ n, (w_tick w ≤ n ≤ w_tick w')%nat ∧
     ∀ id e, events (w_db w') !! id = Some e → claimable (unix_milli (clock n)) e = false).
Proof.
  intros Hq Hd Hf Hrun. destruct (drain_from q fuel w Hq Hd Hf) as (He & _ & Hh).
  rewrite He in Hrun. split; [done|]. rewrite He, Hrun in Hh. intros Hs.
  destruct Hh as [[n Hn]|Hh]; [by rewrite Hs in Hn|exact Hh].
Qed.

End Claims.

(** ** A concrete run *)

Module Demo.
#[local] Open Scope string_scope.

(** Time passes fast: ten seconds for each step. *)
#[export] Instance env : Env := calm (100 * Second) (10 * Second).
#[export] Instance regexps : Regexp := literal_regexp.
#[export] Instance urls : Url := plain_url.
#[export] Instance peers : Peers := {| others _ db := db; stop_requested _ := false |}.

(** Every map of variables is encoded, but only the empty one is read back. *)
#[export] Program Instance json : Json := {|
  snapshot_marshal _ := None;
  snapshot_unmarshal _ := None;
  vars_marshal m := Some (if bool_decide (m = ∅) then "{}" else "?");
  vars_unmarshal raw := if bool_decide (raw = "{}") then Some (Some ∅) else None;
  json_safe raw := bool_decide (raw = "{}");
  plans_marshal _ := None;
  json_valid _ := true;
|}.
Next Obligation. done. Qed.
Next Obligation.
  intros m raw. cbn. intros [= <-]. destruct (decide (m = ∅)) as [->|Hne]; [done|].
  by rewrite (bool_decide_false (m = ∅)).
Qed.
Next Obligation. done. Qed.

Definition no_gjson (_ _ : string) : option string := None.

(** Action 1 always answers 503 with Retry-After 30 s. *)
Definition busy : go_error := ErrWrap "post: http status 503: busy" [ErrHTTP (MkHTTPError 503 "busy" (30 * Second))].

Definition http : handler := MkHandler "http" (λ _ meta _ _,
  (MkResult "https://chat.example" "",
   if (md_action_index meta =? 1)%Z then Some busy else None)).

Definition action : ActionConfig := MkAction "http" "https://chat.example" "" ∅ "" [] false "" [] 0.
Definition source : Source := MkSource "github" no_auth ∅ [] [action; action] None None.
Definition config : Config :=
  MkConfig (MkServerConfig "" [] 0 0 (MkRates no_rate no_rate no_rate no_rate)) (MkAdmin "" "")
    (MkLogConfig "") (MkStoreConfig "" 0 None) (MkQueueConfig 0 0 0 0 0 0)
    (MkHbConfig 0 0 "" []) [source].

(** Two retries *)
Definition queue : Queue :=
  MkQueue 1 1 2 Second (15 * Minute) (24 * Hour) (5 * Minute) "w1" (NewRegistry [http]) (Some config).

Definition row : event_row :=
  set_vars_json (Some "{}") (new_event_row "github" "10.0.0.1" "{}" (5 * Second) "d-1" "ab" "" "").

Definition start : world :=
  World (MkDB {["e1" := row]} ∅ [] 0 ∅ ∅ [] 0) 0 [] (NewCounters []) empty_cache.

Lemma row_only id e : events (w_db start) !! id = Some e → id = "e1" ∧ e = row.
Proof. cbn [events w_db start]. rewrite lookup_singleton_Some. naive_solver. Qed.

Lemma start_ok : db_ok (w_db start).
Proof.
  split.
  - intros id e He. destruct (row_only _ _ He) as [_ ->]. split; vm_compute; intros; try done; eauto.
  - intros k a. cbn [event_actions w_db start]. by rewrite lookup_empty.
  - intros id i a. cbn [event_actions w_db start]. by rewrite lookup_empty.
  - intros id i a. cbn [event_actions w_db start]. by rewrite lookup_empty.
  - intros id1 id2 e1 e2 d He1 He2. destruct (row_only _ _ He1), (row_only _ _ He2). naive_solver.
Qed.

Lemma start_drainable : drainable queue start.
Proof.
  split; [apply start_ok| | |by vm_compute].
  - intros id e src He _. destruct (row_only _ _ He) as [-> ->].
    intros Hsrc. assert (plan_of queue "e1" row = Some source) as Hp by (vm_compute; reflexivity).
    rewrite Hp in Hsrc. injection Hsrc as <-. split; [cbn; lia|].
    intros j a. cbn [event_actions w_db start]. by rewrite lookup_empty.
  - intros k a. cbn [event_actions w_db start]. by rewrite lookup_empty.
Qed.

Lemma queue_steady : steady queue.
Proof.
  split; try done.
  - intros n m Hnm. cbn [clock env calm]. assert (0 < 10 * Second)%Z by done. nia.
  - intros typ h n meta ac vars e Hget. cbn [q_reg queue] in Hget.
    change (({["http" := http]} : gmap string handler) !! typ = Some h) in Hget.
    apply lookup_singleton_Some in Hget as [_ <-].
    cbn. destruct (_ =? 1)%Z; [|done]. by intros [= <-].
Qed.

End Demo.

Section Witness.
#[local] Open Scope string_scope.
Import Demo.

(** Three passes: the third attempt of action 1 is the last one, and the event
    is dead. *)
Lemma drain_ends_witness :
  drain_bound queue (w_db start) = 18%nat ∧
  (ev_status <$> events (w_db (drain no_gjson queue 19 start).2) !! "e1") = Some "dead" ∧
  ∃ n, (n ≤ w_tick (drain no_gjson queue 19 start).2)%nat ∧
    ∀ id e, events (w_db (drain no_gjson queue 19 start).2) !! id = Some e →
      claimable (unix_milli (clock n)) e = false.
Proof.
  split; [vm_compute; reflexivity|]. split; [vm_compute; reflexivity|].
  destruct (drain_ends no_gjson queue 19 start (drain no_gjson queue 19 start).2
    queue_steady start_drainable) as [_ Hleft].
  - vm_compute. lia.
  - by destruct (drain _ _ _ _) as [[] w'].
  - destruct (Hleft (λ _, eq_refl)) as (n & Hn & Hc). exists n. split; [lia|exact Hc].
Defined.

End Witness.
