(* ===== verification/GoTime.v ===== *)
(** * Times as text: what the program uses of Go's [time]

    The proleptic Gregorian calendar, [time.Parse] for the layouts of
    [parseSQLiteTime] of [internal/store/store.go]. A time is its number of
    nanoseconds since 1970. *)

From Stdlib Require Import Ascii.
From stdpp Require Import pretty.
From S2P Require Import Prelude GoLib.

#[local] Open Scope string_scope.
#[local] Open Scope Z_scope.

(** ** The calendar *)

Definition is_leap (y : Z) : bool :=
  (y mod 4 =? 0) && (negb (y mod 100 =? 0) || (y mod 400 =? 0)).

(** daysIn *)
Definition days_in (m y : Z) : Z :=
  if m =? 2 then (if is_leap y then 29 else 28)
  else if (m =? 4) || (m =? 6) || (m =? 9) || (m =? 11) then 30 else 31.

(** The days of the months before [m] of year [y]. *)
Definition month_start (leap : bool) (m : Z) : Z :=
  let l := if leap then 1 else 0 in
  match m with
  | 1 => 0 | 2 => 31 | 3 => 59 + l | 4 => 90 + l | 5 => 120 + l | 6 => 151 + l
  | 7 => 181 + l | 8 => 212 + l | 9 => 243 + l | 10 => 273 + l | 11 => 304 + l | _ => 334 + l
  end.

(** The days from 1 January of year 1 to that of year [y]. *)
Definition year_start (y : Z) : Z :=
  let p := y - 1 in 365 * p + p / 4 - p / 100 + p / 400.

(** The days from 1 January 1970; 719162 days separate it from year 1. *)
Definition day_number (y m d : Z) : Z :=
  year_start y + month_start (is_leap y) m + (d - 1) - 719162.

(** time.Date in UTC *)
Definition Date (y m d h mi s ns : Z) : Z :=
  (day_number y m d * 86400 + h * 3600 + mi * 60 + s) * Second + ns.

(** The year, month and day of a day number. *)
Definition year_of (n : Z) : Z * Z :=
  let n := n + 719162 in
  let q := n / 146097 in let n := n mod 146097 in
  let a := Z.min 3 (n / 36524) in let n := n - 36524 * a in
  let b := n / 1461 in let n := n mod 1461 in
  let c := Z.min 3 (n / 365) in
  (400 * q + 100 * a + 4 * b + c + 1, n - 365 * c).

Definition month_of (leap : bool) (yday : Z) : Z :=
  default 1 (List.find (λ m, month_start leap m <=? yday) [12; 11; 10; 9; 8; 7; 6; 5; 4; 3; 2; 1]).

Definition civil (n : Z) : Z * Z * Z :=
  let '(y, yday) := year_of n in
  let m := month_of (is_leap y) yday in
  (y, m, yday - month_start (is_leap y) m + 1).

(** ** time.Parse *)

(** The elements of a layout. *)
Inductive chunk : Type :=
| stdLongYear | stdZeroMonth | stdZeroDay | stdHour | stdZeroMinute | stdZeroSecond
| stdFracSecond9 | stdNumTZ | stdNumColonTZ | stdISO8601ColonTZ | stdTZ
| literal (a : ascii).

Definition chunk_names : list (string * chunk) :=
  [("2006", stdLongYear); ("01", stdZeroMonth); ("02", stdZeroDay); ("15", stdHour);
   ("04", stdZeroMinute); ("05", stdZeroSecond); (".999999999", stdFracSecond9);
   ("-0700", stdNumTZ); ("-07:00", stdNumColonTZ); ("Z07:00", stdISO8601ColonTZ); ("MST", stdTZ)].

(** nextStdChunk, for the elements that the program's layouts use *)
Fixpoint layout_chunks (fuel : nat) (layout : string) : list chunk :=
  match fuel, layout with
  | O, _ | _, "" => []
  | S fuel', String a layout' =>
      match List.find (λ c, has_prefix layout c.1) chunk_names with
      | Some (name, c) => c :: layout_chunks fuel' (drop (String.length name) layout)
      | None => literal a :: layout_chunks fuel' layout'
      end
  end.

Definition chunks_of (layout : string) : list chunk := layout_chunks (String.length layout) layout.

Definition digit_of (a : ascii) : option Z :=
  let n := Ascii.nat_of_ascii a in if digit n then Some (Z.of_nat n - 48) else None.

(** getnum *)
Definition getnum (s : string) (fixed : bool) : option (Z * string) :=
  match s with
  | String a s1 =>
      x ← digit_of a;
      match s1 with
      | String b s2 =>
          match digit_of b with
          | Some y => Some (10 * x + y, s2)
          | None => if fixed then None else Some (x, s1)
          end
      | "" => if fixed then None else Some (x, s1)
      end
  | "" => None
  end.

(** The leading digits of a text and the rest *)
Fixpoint span_digits (s : string) : string * string :=
  match s with
  | String a s' =>
      match digit_of a with
      | Some _ => let '(ds, rest) := span_digits s' in (String a ds, rest)
      | None => ("", s)
      end
  | "" => ("", "")
  end.

(** parseNanoseconds of a fraction with digits [ds]: nine of them count. *)
Definition nanoseconds (ds : string) : option Z :=
  let ds := String.substring 0 9 ds in
  n ← parse_digits ds 0;
  Some (n * 10 ^ (9 - Z.of_nat (String.length ds))).

(** A fraction at the front of a value: a comma or period and a digit. *)
Definition fraction (s : string) : option (Z * string) :=
  match s with
  | String p s' =>
      if Ascii.eqb p "." || Ascii.eqb p "," then
        let '(ds, rest) := span_digits s' in
        if bool_decide (ds = "") then None else n ← nanoseconds ds; Some (n, rest)
      else None
  | "" => None
  end.

(** The time being constructed. *)
Record ptime : Type := MkPtime {
  pt_year : Z; pt_month : Z; pt_day : Z; pt_hour : Z; pt_min : Z; pt_sec : Z; pt_nsec : Z;
  pt_utc : bool; pt_offset : option Z;
}.

(** Month and day are 1 when the layout has none. *)
Definition no_time : ptime := MkPtime 0 1 1 0 0 0 0 false None.

Definition set_clock (h mi s ns : Z) (t : ptime) : ptime :=
  MkPtime (pt_year t) (pt_month t) (pt_day t) h mi s ns (pt_utc t) (pt_offset t).
Definition set_zone (utc : bool) (offset : option Z) (t : ptime) : ptime :=
  MkPtime (pt_year t) (pt_month t) (pt_day t) (pt_hour t) (pt_min t) (pt_sec t) (pt_nsec t) utc offset.

(** [cond] or a range error *)
Definition in_bounds (cond : bool) : option unit := if cond then Some tt else None.

(** The sign, hour and minute of a numeric zone *)
Definition zone_offset (sign : ascii) (hour min : string) : option Z :=
  h ← getnum hour true;
  m ← getnum min true;
  _ ← in_bounds (h.1 <=? 24);
  _ ← in_bounds (m.1 <=? 60);
  let off := (h.1 * 60 + m.1) * 60 in
  if Ascii.eqb sign "+" then Some off else if Ascii.eqb sign "-" then Some (- off) else None.

(** parseSignedOffset: the length of the text consumed *)
Definition parseSignedOffset (value : string) : nat :=
  match value with
  | String sign rest =>
      if Ascii.eqb sign "-" || Ascii.eqb sign "+" then
        let '(ds, _) := span_digits rest in
        match parse_digits ds 0 with
        | Some x => if bool_decide (ds = "") || (23 <? x) then 0%nat else S (String.length ds)
        | None => 0%nat
        end
      else 0%nat
  | "" => 0%nat
  end.

(** The upper-case letters at the front of a value, six at most *)
Fixpoint upper_run (n : nat) (value : string) : nat :=
  match n, value with
  | S n', String a value' =>
      if in_range 65 90 (Ascii.nat_of_ascii a) then S (upper_run n' value') else 0%nat
  | _, _ => 0%nat
  end.

Definition byte_at (n : nat) (s : string) (a : ascii) : bool :=
  match String.get n s with Some b => Ascii.eqb a b | None => false end.

(** parseTimeZone: the length of a zone abbreviation at the front of a value *)
Definition parseTimeZone (value : string) : option nat :=
  if Nat.ltb (String.length value) 3 then None
  else if has_prefix value "ChST" || has_prefix value "MeST" then Some 4%nat
  else if has_prefix value "GMT" then Some (3 + parseSignedOffset (drop 3 value))%nat
  else if byte_at 0 value "+" || byte_at 0 value "-" then
    let n := parseSignedOffset value in if Nat.eqb n 0 then None else Some n
  else match upper_run 6 value with
  | 5%nat => if byte_at 4 value "T" then Some 5%nat else None
  | 4%nat => if byte_at 3 value "T" || has_prefix value "WITA" then Some 4%nat else None
  | 3%nat => Some 3%nat
  | _ => None
  end.

(** cutspace *)
Fixpoint cutspace (s : string) : string :=
  match s with String a s' => if Ascii.eqb a " " then cutspace s' else s | "" => "" end.

(** skip, for one character of the layout *)
Definition skip_char (a : ascii) (value : string) : option string :=
  if Ascii.eqb a " " then
    match value with
    | String b _ => if Ascii.eqb b " " then Some (cutspace value) else None
    | "" => Some ""
    end
  else match value with
  | String b value' => if Ascii.eqb a b then Some value' else None
  | "" => None
  end.

(** The next element of the rest of the layout is a fraction. *)
Definition fraction_next (layout : list chunk) : bool :=
  match List.find (λ c, match c with literal _ => false | _ => true end) layout with
  | Some stdFracSecond9 => true
  | _ => false
  end.

(** stdNumColonTZ: a sign, two digits, a colon, two digits *)
Definition parse_colon_zone (t : ptime) (value : string) : option (ptime * string) :=
  match value with
  | String sign (String a (String b (String colon (String c (String d v))))) =>
      if Ascii.eqb colon ":" then
        off ← zone_offset sign (String a (String b "")) (String c (String d ""));
        Some (set_zone (pt_utc t) (Some off) t, v)
      else None
  | _ => None
  end.

(** One element of the layout against the value; [rest] is the layout after it. *)
Definition parse_chunk (c : chunk) (rest : list chunk) (t : ptime) (value : string) :
    option (ptime * string) :=
  match c with
  | literal a => v ← skip_char a value; Some (t, v)
  | stdLongYear =>
      match value with
      | String a (String b (String c (String d v))) =>
          x ← digit_of a; y ← digit_of b; z ← digit_of c; w ← digit_of d;
          Some (MkPtime (1000 * x + 100 * y + 10 * z + w) (pt_month t) (pt_day t) (pt_hour t)
                  (pt_min t) (pt_sec t) (pt_nsec t) (pt_utc t) (pt_offset t), v)
      | _ => None
      end
  | stdZeroMonth =>
      r ← getnum value true;
      _ ← in_bounds ((0 <? r.1) && (r.1 <=? 12));
      Some (MkPtime (pt_year t) r.1 (pt_day t) (pt_hour t) (pt_min t) (pt_sec t) (pt_nsec t)
              (pt_utc t) (pt_offset t), r.2)
  | stdZeroDay =>
      r ← getnum value true;
      Some (MkPtime (pt_year t) (pt_month t) r.1 (pt_hour t) (pt_min t) (pt_sec t) (pt_nsec t)
              (pt_utc t) (pt_offset t), r.2)
  | stdHour =>
      r ← getnum value false;
      _ ← in_bounds (r.1 <? 24);
      Some (set_clock r.1 (pt_min t) (pt_sec t) (pt_nsec t) t, r.2)
  | stdZeroMinute =>
      r ← getnum value true;
      _ ← in_bounds (r.1 <? 60);
      Some (set_clock (pt_hour t) r.1 (pt_sec t) (pt_nsec t) t, r.2)
  | stdZeroSecond =>
      r ← getnum value true;
      _ ← in_bounds (r.1 <? 60);
      let t := set_clock (pt_hour t) (pt_min t) r.1 (pt_nsec t) t in
      match fraction r.2 with
      | Some (ns, v) => if fraction_next rest then Some (t, r.2)
                        else Some (set_clock (pt_hour t) (pt_min t) r.1 ns t, v)
      | None => Some (t, r.2)
      end
  | stdFracSecond9 =>
      match fraction value with
      | Some (ns, v) => Some (set_clock (pt_hour t) (pt_min t) (pt_sec t) ns t, v)
      | None => Some (t, value)
      end
  | stdNumTZ =>
      match value with
      | String sign (String a (String b (String c (String d v)))) =>
          off ← zone_offset sign (String a (String b "")) (String c (String d ""));
          Some (set_zone (pt_utc t) (Some off) t, v)
      | _ => None
      end
  | stdNumColonTZ => parse_colon_zone t value
  | stdISO8601ColonTZ =>
      match value with
      | String z v => if Ascii.eqb z "Z" then Some (set_zone true (pt_offset t) t, v)
                      else parse_colon_zone t value
      | "" => None
      end
  | stdTZ =>
      if has_prefix value "UTC" then Some (set_zone true (pt_offset t) t, drop 3 value)
      else n ← parseTimeZone value; Some (t, drop n value)
  end.

(** The loop of time.Parse; the value must be used up. *)
Fixpoint parse_chunks (layout : list chunk) (t : ptime) (value : string) : option ptime :=
  match layout with
  | [] => if bool_decide (value = "") then Some t else None
  | c :: rest => r ← parse_chunk c rest t value; parse_chunks rest r.1 r.2
  end.

(** time.Parse. A value in UTC ignores a numeric offset; a value with neither
    is in UTC; the abbreviation of a zone is only looked at when there is no
    numeric offset, which the layouts here do not have. *)
Definition Parse (layout value : string) : option Z :=
  t ← parse_chunks (chunks_of layout) no_time value;
  _ ← in_bounds ((1 <=? pt_day t) && (pt_day t <=? days_in (pt_month t) (pt_year t)));
  let utc := Date (pt_year t) (pt_month t) (pt_day t) (pt_hour t) (pt_min t) (pt_sec t) (pt_nsec t) in
  Some (if pt_utc t then utc else utc - default 0 (pt_offset t) * Second).

Definition RFC3339 : string := "2006-01-02T15:04:05Z07:00".
Definition RFC3339Nano : string := "2006-01-02T15:04:05.999999999Z07:00".

Example parse_z : Parse RFC3339 "1970-01-02T00:00:01.5Z" = Some 86401500000000.
Proof. vm_compute. reflexivity. Qed.
Example parse_offset : Parse "2006-01-02 15:04:05.999999999 -0700 MST" "1970-01-01 01:00:00 +0100 CET" = Some 0.
Proof. vm_compute. reflexivity. Qed.
Example parse_2024 :
  Parse "2006-01-02 15:04:05.999999999 -0700 MST" "2024-01-02 03:04:05.123456789 +0000 UTC" =
    Some 1704164645123456789.
Proof. vm_compute. reflexivity. Qed.
Example parse_leap : Parse "2006-01-02" "2023-02-29" = None.
Proof. vm_compute. reflexivity. Qed.
