(* ===== verification/TimeText.v ===== *)
(** * Reading back the text of a time

    [Time.String] in UTC, as older releases wrote times into their DATETIME
    columns, and the proof that [time.Parse] with the layout of that text gives
    the time back, for the years that have four digits. *)

From Stdlib Require Import Ascii.
From stdpp Require Import pretty.
From S2P Require Import Prelude GoLib GoTime.

#[local] Open Scope string_scope.
#[local] Open Scope Z_scope.

(** lia with division and remainder by constants *)
Ltac zdiv := Z.to_euclidean_division_equations; lia.

(** ** The text *)

Definition digit_char (d : Z) : ascii := Ascii.ascii_of_nat (Z.to_nat (48 + d)).

(** A number with two or four digits *)
Definition pad2 (n : Z) (rest : string) : string :=
  String (digit_char (n / 10)) (String (digit_char (n mod 10)) rest).
Definition pad4 (n : Z) (rest : string) : string := pad2 (n / 100) (pad2 (n mod 100) rest).

(** The [k] digits of [n] without their trailing zeros *)
Fixpoint digits (k : nat) (n : Z) : string :=
  match k with
  | O => ""
  | S k' => if n =? 0 then "" else String (digit_char (n / 10 ^ Z.of_nat k')) (digits k' (n mod 10 ^ Z.of_nat k'))
  end.

Definition frac (ns : Z) (rest : string) : string :=
  if ns =? 0 then rest else String "." (digits 9 ns +:+ rest)%string.

(** "2006-01-02 15:04:05.999999999 -0700 MST" *)
Definition time_string (t : Z) : string :=
  let secs := t / Second in
  let '(y, m, d) := civil (secs / 86400) in
  let s := secs mod 86400 in
  pad4 y (String "-" (pad2 m (String "-" (pad2 d (String " " (pad2 (s / 3600) (String ":"
    (pad2 (s mod 3600 / 60) (String ":" (pad2 (s mod 60) (frac (t mod Second) " +0000 UTC"))))))))))).

Example time_string_ex : time_string 1704164645123000000 = "2024-01-02 03:04:05.123 +0000 UTC".
Proof. vm_compute. reflexivity. Qed.

(** ** The calendar *)

Lemma year_of_spec n :
  let '(y, yday) := year_of n in
  year_start y + yday - 719162 = n ∧ 0 ≤ yday < (if is_leap y then 366 else 365).
Proof.
  unfold year_of. set (N := n + 719162). set (q := N / 146097). set (r := N mod 146097).
  assert (N = 146097 * q + r ∧ 0 ≤ r < 146097) as [HN Hr] by (split; [apply Z.div_mod|apply Z.mod_pos_bound]; lia).
  clearbody q r. set (a := Z.min 3 (r / 36524)).
  assert (0 ≤ a ≤ 3 ∧ 36524 * a ≤ r ∧ (r < 36524 * (a + 1) ∨ a = 3 ∧ r ≤ 36524 * 4)) as (Ha & Har & Har')
    by (unfold a; zdiv).
  clearbody a. set (r1 := r - 36524 * a) in *. set (b := r1 / 1461). set (r2 := r1 mod 1461).
  assert (r1 = 1461 * b + r2 ∧ 0 ≤ r2 < 1461 ∧ 0 ≤ b ≤ 24) as (Hr1 & Hr2 & Hb) by (unfold b, r2, r1; zdiv).
  clearbody b r2. set (c := Z.min 3 (r2 / 365)).
  assert (0 ≤ c ≤ 3 ∧ 365 * c ≤ r2 ∧ (r2 < 365 * (c + 1) ∨ c = 3 ∧ r2 ≤ 365 * 4)) as (Hc & Hcr & Hcr')
    by (unfold c; zdiv).
  clearbody c. set (p := 400 * q + 100 * a + 4 * b + c).
  assert (p / 4 = 100 * q + 25 * a + b) as H4 by (symmetry; apply Z.div_unique with c; unfold p; lia).
  assert (p / 100 = 4 * q + a) as H100 by (symmetry; apply Z.div_unique with (4 * b + c); unfold p; lia).
  assert (p / 400 = q) as H400 by (symmetry; apply Z.div_unique with (100 * a + 4 * b + c); unfold p; lia).
  unfold year_start. replace (p + 1 - 1) with p by lia. rewrite H4, H100, H400. split; [unfold p, N, r1 in *; lia|].
  split; [lia|]. unfold is_leap.
  destruct (Z.eqb_spec ((p + 1) mod 4) 0) as [E4|E4], (Z.eqb_spec ((p + 1) mod 100) 0) as [E100|E100],
    (Z.eqb_spec ((p + 1) mod 400) 0) as [E400|E400]; cbn [andb orb negb]; unfold p, r1 in *; zdiv.
Qed.

(** Every day of a year is in one month: 731 cases. *)
Definition month_ok (leap : bool) (yday : Z) : bool :=
  let m := month_of leap yday in
  (1 <=? m) && (m <=? 12) && (month_start leap m <=? yday) &&
  (yday - month_start leap m <? days_in m (if leap then 2000 else 2001)).

Lemma month_of_spec (leap : bool) yday :
  0 ≤ yday < (if leap then 366 else 365)%Z → month_ok leap yday = true.
Proof.
  intros Hy. assert (forallb (λ i : nat, month_ok leap (Z.of_nat i)) (seq 0 (if leap then 366 else 365)%nat) = true) as Hall
    by (destruct leap; vm_compute; reflexivity).
  rewrite forallb_forall in Hall. specialize (Hall (Z.to_nat yday)). rewrite Z2Nat.id in Hall by lia.
  apply Hall, in_seq. destruct leap; lia.
Qed.

Lemma civil_spec n :
  let '(y, m, d) := civil n in
  day_number y m d = n ∧ 1 ≤ m ≤ 12 ∧ 1 ≤ d ≤ days_in m y.
Proof.
  unfold civil. pose proof (year_of_spec n) as Hy. destruct (year_of n) as [y yday]. destruct Hy as [Hn Hyday].
  pose proof (month_of_spec (is_leap y) yday Hyday) as Hm. unfold month_ok in Hm.
  set (m := month_of (is_leap y) yday) in *.
  assert (days_in m (if is_leap y then 2000 else 2001) = days_in m y) as Hd.
  { unfold days_in. destruct (is_leap y) eqn:E; [change (is_leap 2000) with true|change (is_leap 2001) with false]; done. }
  rewrite Hd in Hm. rewrite !andb_true_iff in Hm. destruct Hm as (((Hm1 & Hm2) & Hm3) & Hm4).
  unfold day_number. lia.
Qed.

Lemma days_in_le m y : days_in m y ≤ 31.
Proof. unfold days_in. repeat case_match; lia. Qed.

(** ** Digits *)

Lemma digit_of_char d : 0 ≤ d < 10 → digit_of (digit_char d) = Some d.
Proof.
  intros Hd. assert (forallb (λ i : nat, bool_decide (digit_of (digit_char (Z.of_nat i)) = Some (Z.of_nat i)))
    (seq 0 10) = true) as Hall by (vm_compute; reflexivity).
  rewrite forallb_forall in Hall. specialize (Hall (Z.to_nat d)). rewrite Z2Nat.id in Hall by lia.
  apply bool_decide_eq_true in Hall; [done|]. apply in_seq. lia.
Qed.

Lemma digit_of_parse d s acc : 0 ≤ d < 10 →
  parse_digits (String (digit_char d) s) acc = parse_digits s (acc * 10 + d).
Proof.
  intros Hd. pose proof (digit_of_char d Hd) as H. unfold digit_of in H. cbn [parse_digits].
  destruct (digit _); [|done]. injection H as ->. done.
Qed.

Lemma getnum_pad2 n rest fixed : 0 ≤ n < 100 → getnum (pad2 n rest) fixed = Some (n, rest).
Proof.
  intros Hn. unfold getnum, pad2. rewrite !digit_of_char by zdiv. cbn [mbind option_bind].
  repeat f_equal. zdiv.
Qed.

Lemma span_none rest :
  (∀ a s, rest = String a s → digit_of a = None) → span_digits ("" +:+ rest) = ("", rest).
Proof.
  intros Hr. change ("" +:+ rest) with rest. destruct rest as [|a s]; [done|].
  cbn [span_digits]. by rewrite (Hr a s).
Qed.

Lemma digits_span k n rest :
  0 ≤ n < 10 ^ Z.of_nat k → (∀ a s, rest = String a s → digit_of a = None) →
  span_digits (digits k n +:+ rest) = (digits k n, rest).
Proof.
  intros Hn Hr. revert n Hn. induction k as [|k IH]; intros n Hn; cbn [digits].
  - by apply span_none.
  - destruct (n =? 0).
    { by apply span_none. }
    assert (0 < 10 ^ Z.of_nat k) as Hk by lia. rewrite Nat2Z.inj_succ, Z.pow_succ_r in Hn by lia.
    change (String ?a ?b +:+ rest) with (String a (b +:+ rest)). cbn [span_digits].
    rewrite digit_of_char, IH; [done| |].
    + apply Z.mod_pos_bound. lia.
    + split; [apply Z.div_pos; lia|apply Z.div_lt_upper_bound; lia].
Qed.

Lemma digits_length k n : (String.length (digits k n) ≤ k)%nat.
Proof. revert n. induction k as [|k IH]; intros n; cbn [digits]; [done|]. case_match; cbn; [lia|]. specialize (IH (n mod 10 ^ Z.of_nat k)). lia. Qed.

Lemma digits_value k n acc :
  0 ≤ n < 10 ^ Z.of_nat k →
  ∃ v, parse_digits (digits k n) acc = Some v ∧
    v * 10 ^ (Z.of_nat k - Z.of_nat (String.length (digits k n))) = acc * 10 ^ Z.of_nat k + n.
Proof.
  revert n acc. induction k as [|k IH]; intros n acc Hn; cbn [digits].
  - exists acc. cbn in *. split; [done|lia].
  - destruct (Z.eqb_spec n 0) as [->|Hne].
    { exists acc. split; [done|]. cbn [String.length]. by rewrite Z.sub_0_r, Z.add_0_r. }
    assert (0 < 10 ^ Z.of_nat k) as Hk by lia.
    pose proof Hn as Hn'. rewrite Nat2Z.inj_succ, Z.pow_succ_r in Hn' by lia.
    set (d := n / 10 ^ Z.of_nat k). set (r := n mod 10 ^ Z.of_nat k).
    assert (0 ≤ d < 10) as Hd by (split; [apply Z.div_pos; lia|apply Z.div_lt_upper_bound; lia]).
    destruct (IH r (acc * 10 + d)) as (v & Hv & Hval); [by apply Z.mod_pos_bound|].
    exists v. rewrite digit_of_parse by done. split; [done|]. cbn [String.length].
    replace (Z.of_nat (S k) - Z.of_nat (S (String.length (digits k r))))
      with (Z.of_nat k - Z.of_nat (String.length (digits k r))) by lia.
    rewrite Hval, Nat2Z.inj_succ, Z.pow_succ_r by lia.
    pose proof (Z.div_mod n (10 ^ Z.of_nat k) ltac:(lia)). fold d r in H. lia.
Qed.

Lemma fraction_frac ns rest :
  0 < ns < Second → (∀ a s, rest = String a s → digit_of a = None) →
  fraction (frac ns rest) = Some (ns, rest).
Proof.
  intros Hns Hr. unfold frac. rewrite (proj2 (Z.eqb_neq ns 0)) by lia. unfold fraction.
  change (Ascii.eqb "." "." || Ascii.eqb "." ",") with true. cbn iota.
  rewrite digits_span by (done || (split; [lia|change (10 ^ Z.of_nat 9) with Second; lia])).
  destruct (digits_value 9 ns 0) as (v & Hv & Hval); [change (10 ^ Z.of_nat 9) with Second; lia|].
  rewrite bool_decide_false.
  2: { intros He. rewrite He in Hv, Hval. cbn in Hv. injection Hv as <-. lia. }
  unfold nanoseconds. rewrite substring_all by apply digits_length. rewrite Hv. cbn [mbind option_bind].
  repeat f_equal. change (Z.of_nat 9) with 9 in Hval. lia.
Qed.

(** ** The layout of the text *)

Definition string_layout : string := "2006-01-02 15:04:05.999999999 -0700 MST".

Lemma string_chunks : chunks_of string_layout =
  [stdLongYear; literal "-"; stdZeroMonth; literal "-"; stdZeroDay; literal " ";
   stdHour; literal ":"; stdZeroMinute; literal ":"; stdZeroSecond; stdFracSecond9;
   literal " "; stdNumTZ; literal " "; stdTZ].
Proof. vm_compute. reflexivity. Qed.

Lemma parse_step c rest t v t' v' :
  parse_chunk c rest t v = Some (t', v') → parse_chunks (c :: rest) t v = parse_chunks rest t' v'.
Proof. intros Hc. cbn [parse_chunks]. by rewrite Hc. Qed.

Lemma parse_year rest y v : 0 ≤ y < 10000 →
  parse_chunk stdLongYear rest no_time (pad4 y v) = Some (MkPtime y 1 1 0 0 0 0 false None, v).
Proof.
  intros Hy. unfold parse_chunk, pad4, pad2. rewrite !digit_of_char by zdiv. cbn [mbind option_bind].
  repeat f_equal. zdiv.
Qed.

Lemma parse_literal a rest t v : Ascii.eqb a " " = false →
  parse_chunk (literal a) rest t (String a v) = Some (t, v).
Proof. intros Ha. cbn [parse_chunk]. unfold skip_char. by rewrite Ha, Ascii.eqb_refl. Qed.

Lemma digit_no_space d : 0 ≤ d < 10 → Ascii.eqb (digit_char d) " " = false.
Proof.
  intros Hd. destruct (Ascii.eqb_spec (digit_char d) " ") as [E|]; [|done].
  pose proof (digit_of_char d Hd) as H. by rewrite E in H.
Qed.

Lemma parse_space rest t n v : 0 ≤ n < 100 →
  parse_chunk (literal " ") rest t (String " " (pad2 n v)) = Some (t, pad2 n v).
Proof.
  intros Hn. cbn [parse_chunk]. unfold skip_char, pad2. cbn [cutspace].
  change (Ascii.eqb " " " ") with true. cbn iota. by rewrite digit_no_space by zdiv.
Qed.

Lemma parse_month rest t n v : 1 ≤ n ≤ 12 →
  parse_chunk stdZeroMonth rest t (pad2 n v) =
    Some (MkPtime (pt_year t) n (pt_day t) (pt_hour t) (pt_min t) (pt_sec t) (pt_nsec t) (pt_utc t) (pt_offset t), v).
Proof.
  intros Hn. cbn [parse_chunk]. rewrite getnum_pad2 by lia. cbn [mbind option_bind fst snd].
  rewrite (proj2 (Z.ltb_lt 0 n)), (proj2 (Z.leb_le n 12)) by lia. done.
Qed.

Lemma parse_day rest t n v : 0 ≤ n < 100 →
  parse_chunk stdZeroDay rest t (pad2 n v) =
    Some (MkPtime (pt_year t) (pt_month t) n (pt_hour t) (pt_min t) (pt_sec t) (pt_nsec t) (pt_utc t) (pt_offset t), v).
Proof. intros Hn. cbn [parse_chunk]. by rewrite getnum_pad2 by lia. Qed.

Lemma parse_hour rest t n v : 0 ≤ n < 24 →
  parse_chunk stdHour rest t (pad2 n v) = Some (set_clock n (pt_min t) (pt_sec t) (pt_nsec t) t, v).
Proof.
  intros Hn. cbn [parse_chunk]. rewrite getnum_pad2 by lia. cbn [mbind option_bind fst snd].
  rewrite (proj2 (Z.ltb_lt n 24)) by lia. done.
Qed.

Lemma parse_minute rest t n v : 0 ≤ n < 60 →
  parse_chunk stdZeroMinute rest t (pad2 n v) = Some (set_clock (pt_hour t) n (pt_sec t) (pt_nsec t) t, v).
Proof.
  intros Hn. cbn [parse_chunk]. rewrite getnum_pad2 by lia. cbn [mbind option_bind fst snd].
  rewrite (proj2 (Z.ltb_lt n 60)) by lia. done.
Qed.

(** The seconds leave a fraction to the layout when it has one. *)
Lemma parse_second rest t n v : 0 ≤ n < 60 → fraction_next rest = true →
  parse_chunk stdZeroSecond rest t (pad2 n v) = Some (set_clock (pt_hour t) (pt_min t) n (pt_nsec t) t, v).
Proof.
  intros Hn Hf. cbn [parse_chunk]. rewrite getnum_pad2 by lia. cbn [mbind option_bind fst snd].
  rewrite (proj2 (Z.ltb_lt n 60)) by lia. cbn [in_bounds]. rewrite Hf. by destruct (fraction v) as [[]|].
Qed.

Lemma parse_frac rest t ns v :
  0 ≤ ns < Second → pt_nsec t = 0 → fraction v = None → (∀ a s, v = String a s → digit_of a = None) →
  parse_chunk stdFracSecond9 rest t (frac ns v) = Some (set_clock (pt_hour t) (pt_min t) (pt_sec t) ns t, v).
Proof.
  intros Hns Ht Hv Hd. cbn [parse_chunk]. destruct (decide (ns = 0)) as [->|Hne].
  - change (frac 0 v) with v. rewrite Hv. destruct t. cbn in *. by subst.
  - by rewrite fraction_frac by (done || lia).
Qed.

Lemma time_parts t :
  let secs := t / Second in
  t = (secs / 86400 * 86400 + secs mod 86400 / 3600 * 3600 + secs mod 86400 mod 3600 / 60 * 60
       + secs mod 86400 mod 60) * Second + t mod Second ∧
  0 ≤ secs mod 86400 / 3600 < 24 ∧ 0 ≤ secs mod 86400 mod 3600 / 60 < 60 ∧
  0 ≤ secs mod 86400 mod 60 < 60 ∧ 0 ≤ t mod Second < Second.
Proof.
  intros secs. pose proof (Z.div_mod t Second ltac:(done)) as Ht. fold secs in Ht.
  pose proof (Z.mod_pos_bound t Second ltac:(done)). clearbody secs.
  assert (secs / 86400 * 86400 + secs mod 86400 / 3600 * 3600 + secs mod 86400 mod 3600 / 60 * 60
       + secs mod 86400 mod 60 = secs) as -> by zdiv.
  split; [lia|]. split; [zdiv|]. split; [zdiv|]. split; [zdiv|done].
Qed.

(** The years a text of this layout can hold *)
Definition four_digits (t : Z) : Prop := 0 ≤ (civil (t / Second / 86400)).1.1 ≤ 9999.

Lemma Parse_time_string t : four_digits t → Parse string_layout (time_string t) = Some t.
Proof.
  unfold four_digits, time_string. intros Hy. pose proof (civil_spec (t / Second / 86400)) as Hciv.
  destruct (civil (t / Second / 86400)) as [[y m] d]. destruct Hciv as (Hn & Hm & Hd). cbn [fst] in Hy.
  pose proof (days_in_le m y) as Hd31. destruct (time_parts t) as (Ht & Hh & Hmi & Hs & Hns).
  set (h := (t / Second) mod 86400 / 3600) in *. set (mi := (t / Second) mod 86400 mod 3600 / 60) in *.
  set (sec := (t / Second) mod 86400 mod 60) in *. unfold Parse. rewrite string_chunks.
  rewrite (parse_step _ _ _ _ _ _ (parse_year _ y _ ltac:(lia))).
  rewrite (parse_step _ _ _ _ _ _ (parse_literal "-" _ _ _ eq_refl)).
  rewrite (parse_step _ _ _ _ _ _ (parse_month _ _ m _ ltac:(lia))).
  rewrite (parse_step _ _ _ _ _ _ (parse_literal "-" _ _ _ eq_refl)).
  rewrite (parse_step _ _ _ _ _ _ (parse_day _ _ d _ ltac:(lia))).
  rewrite (parse_step _ _ _ _ _ _ (parse_space _ _ h _ ltac:(lia))).
  rewrite (parse_step _ _ _ _ _ _ (parse_hour _ _ h _ Hh)).
  rewrite (parse_step _ _ _ _ _ _ (parse_literal ":" _ _ _ eq_refl)).
  rewrite (parse_step _ _ _ _ _ _ (parse_minute _ _ mi _ Hmi)).
  rewrite (parse_step _ _ _ _ _ _ (parse_literal ":" _ _ _ eq_refl)).
  rewrite (parse_step _ _ _ _ _ _ (parse_second [stdFracSecond9; literal " "; stdNumTZ; literal " "; stdTZ] _ sec _ Hs eq_refl)).
  erewrite parse_step; [|apply (parse_frac _ _ (t mod Second) " +0000 UTC" Hns); [done|done|];
    by intros a s [= <- <-]].
  set (t1 := set_clock _ _ _ _ _).
  assert (parse_chunks [literal " "; stdNumTZ; literal " "; stdTZ] t1 " +0000 UTC" =
    Some (set_zone true (Some 0) t1)) as -> by reflexivity.
  cbn [mbind option_bind set_zone pt_day pt_month pt_year pt_utc t1 set_clock pt_hour pt_min pt_sec pt_nsec].
  rewrite (proj2 (Z.leb_le 1 d)), (proj2 (Z.leb_le d _)) by lia. cbn [in_bounds mbind option_bind andb].
  f_equal. unfold Date. rewrite Hn. exact (eq_sym Ht).
Qed.
