(* ===== verification/Migration.v ===== *)
(** * Opening an older database: [migrate] of [internal/store/store.go]

    The tables here are those SQLite sees: a table has a set of columns, a row
    gives untyped values to them. [migrate] adds what is missing, reads the
    times older releases stored as text, and renames their statuses. Only the
    rows of [events], [action_logs] and [_ready_check] can change. *)

From Stdlib Require Import Ascii.
From S2P Require Import Prelude GoLib GoTime Sql.

#[local] Open Scope string_scope.

(** ** parseSQLiteTime *)

(** The text before the first occurrence of [p] *)
Fixpoint before (p s : string) : string :=
  if has_prefix s p then ""
  else match s with "" => "" | String a s' => String a (before p s') end.

Definition layouts : list string :=
  [RFC3339Nano; RFC3339;
   "2006-01-02 15:04:05.999999999 -0700 MST";
   "2006-01-02 15:04:05 -0700 MST";
   "2006-01-02 15:04:05.999999999-07:00";
   "2006-01-02 15:04:05.999999999+00:00";
   "2006-01-02 15:04:05.999999999";
   "2006-01-02 15:04:05"; "2006-01-02T15:04:05Z"; "2006-01-02T15:04:05"].

Fixpoint first_layout (ls : list string) (raw : string) : option Z :=
  match ls with
  | [] => None
  | l :: ls' => match Parse l raw with Some t => Some t | None => first_layout ls' raw end
  end.

Definition parseSQLiteTime (raw : string) : option Z :=
  let raw := TrimSpace raw in
  let raw := before " m=" raw in
  match ParseInt raw with
  | Some epoch =>
      if ((-100000000000 <? epoch) && (epoch <? 100000000000))%Z
      then Some (epoch * Second)%Z else Some (of_unix_milli epoch)
  | None => first_layout layouts raw
  end.

(** ** Tables of untyped values *)

Inductive value : Type :=
| VNull
| VInt (n : Z)
| VText (s : string).

#[global] Instance value_eq_dec : EqDecision value.
Proof. solve_decision. Defined.

Abbreviation raw_row := (gmap string value).

(** A column the row does not have is NULL. *)
Definition col (c : string) (r : raw_row) : value := default VNull (r !! c).

Definition is_null (v : value) : bool := match v with VNull => true | _ => false end.

(** CAST(v AS TEXT) *)
Definition cast_text (v : value) : option string :=
  match v with VNull => None | VInt n => Some (Itoa n) | VText s => Some s end.

(** The file: the columns of each table, the indexes, and the rows of the
    tables that migrate changes. *)
Record schema : Type := MkSchema {
  sc_tables : gmap string (gset string);
  sc_indexes : gset string;
  sc_events : gmap string raw_row;
  sc_logs : gmap Z raw_row;
  sc_ready : gmap Z raw_row;
}.

Definition set_tables (t : gmap string (gset string)) (s : schema) : schema :=
  MkSchema t (sc_indexes s) (sc_events s) (sc_logs s) (sc_ready s).
Definition set_indexes (i : gset string) (s : schema) : schema :=
  MkSchema (sc_tables s) i (sc_events s) (sc_logs s) (sc_ready s).
Definition set_event_rows (t : gmap string raw_row) (s : schema) : schema :=
  MkSchema (sc_tables s) (sc_indexes s) t (sc_logs s) (sc_ready s).
Definition set_log_rows (t : gmap Z raw_row) (s : schema) : schema :=
  MkSchema (sc_tables s) (sc_indexes s) (sc_events s) t (sc_ready s).
Definition set_ready_rows (t : gmap Z raw_row) (s : schema) : schema :=
  MkSchema (sc_tables s) (sc_indexes s) (sc_events s) (sc_logs s) t.

(** The tables of [base] *)
Definition event_columns : list string :=
  ["id"; "source"; "remote_ip"; "payload"; "status"; "received_at"; "processed_at";
   "external_delivery_id"; "body_sha256"; "lease_until"; "lease_owner"; "config_hash";
   "actions_json"; "vars_json"; "received_at_ms"; "processed_at_ms"; "lease_until_ms";
   "next_attempt_at_ms"; "replay_generation"; "replayed_at_ms"; "replay_reason"].

Definition base_tables : list (string * list string) :=
  [("events", event_columns);
   ("action_logs", ["id"; "event_id"; "action"; "action_index"; "replay_generation"; "target";
      "attempt"; "success"; "detail"; "duration_ms"; "created_at"; "created_at_ms"]);
   ("event_actions", ["event_id"; "action_index"; "status"; "attempt_count"; "next_attempt_at_ms";
      "last_error"; "retry_after_ms"; "completed_at_ms"]);
   ("replay_guard", ["source"; "body_sha256"; "expires_at_ms"]);
   ("_ready_check", ["id"; "nonce"]);
   ("heartbeat_logs", ["id"; "target"; "origin"; "mode"; "health"; "error"; "http_status";
      "duration_ms"; "created_at"; "created_at_ms"])].

(** CREATE TABLE IF NOT EXISTS *)
Definition create_table (name : string) (cols : list string) (s : schema) : schema :=
  match sc_tables s !! name with
  | Some _ => s
  | None => set_tables (<[name := list_to_set cols]> (sc_tables s)) s
  end.

(** The columns an older table may lack, with their declarations *)
Definition new_columns (table : string) : gmap string string :=
  if bool_decide (table = "events") then list_to_map
    [("external_delivery_id", "TEXT"); ("body_sha256", "TEXT"); ("lease_until", "DATETIME");
     ("lease_owner", "TEXT"); ("config_hash", "TEXT"); ("actions_json", "TEXT"); ("vars_json", "TEXT");
     ("received_at_ms", "INTEGER"); ("processed_at_ms", "INTEGER"); ("lease_until_ms", "INTEGER");
     ("next_attempt_at_ms", "INTEGER"); ("replay_generation", "INTEGER NOT NULL DEFAULT 0");
     ("replayed_at_ms", "INTEGER"); ("replay_reason", "TEXT")]
  else if bool_decide (table = "action_logs") then list_to_map
    [("action_index", "INTEGER NOT NULL DEFAULT -1"); ("replay_generation", "INTEGER NOT NULL DEFAULT 0");
     ("created_at_ms", "INTEGER")]
  else if bool_decide (table = "_ready_check") then {["nonce" := "INTEGER NOT NULL DEFAULT 0"]}
  else ∅.

(** The value existing rows get for a new column *)
Definition column_default (typ : string) : value :=
  if HasSuffix typ " DEFAULT 0" then VInt 0
  else if HasSuffix typ " DEFAULT -1" then VInt (-1) else VNull.

Definition alter_rows (table : string) (f : raw_row → raw_row) (s : schema) : schema :=
  if bool_decide (table = "events") then set_event_rows (f <$> sc_events s) s
  else if bool_decide (table = "action_logs") then set_log_rows (f <$> sc_logs s) s
  else if bool_decide (table = "_ready_check") then set_ready_rows (f <$> sc_ready s) s
  else s.

(** ALTER TABLE ... ADD COLUMN: [None] when SQLite refuses it. *)
Definition add_column (table name typ : string) (s : schema) : option schema :=
  match sc_tables s !! table with
  | None => None
  | Some cols =>
      if bool_decide (name ∈ cols) then None
      else Some (alter_rows table <[name := column_default typ]>
                   (set_tables (<[table := {[name]} ∪ cols]> (sc_tables s)) s))
  end.

(** The unique index: two events of one source with the same delivery id *)
Definition delivery_key (r : raw_row) : option (value * value) :=
  match col "external_delivery_id" r with
  | VNull => None
  | d => if bool_decide (d = VText "") then None else Some (col "source" r, d)
  end.

Definition deliveries_unique (t : gmap string raw_row) : Prop :=
  map_Forall (λ id r, map_Forall (λ id' r',
    delivery_key r ≠ None → delivery_key r = delivery_key r' → id = id') t) t.

#[global] Instance deliveries_unique_dec t : Decision (deliveries_unique t).
Proof. unfold deliveries_unique. apply _. Defined.

Definition index_names : list string :=
  ["idx_events_source"; "idx_events_status_due"; "idx_events_delivery"; "idx_events_body_hash";
   "idx_action_event"; "idx_action_log_created"; "idx_event_actions_due"; "idx_heartbeat_log_created"].

(** CREATE INDEX IF NOT EXISTS *)
Definition create_index (name : string) (s : schema) : option schema :=
  if bool_decide (name ∈ sc_indexes s) then Some s
  else if bool_decide (name = "idx_events_delivery") && negb (bool_decide (deliveries_unique (sc_events s)))
  then None
  else Some (set_indexes ({[name]} ∪ sc_indexes s) s).

(** ** Statements on the rows *)

(** WHERE received_at_ms IS NULL OR (processed_at IS NOT NULL AND processed_at_ms IS NULL) *)
Definition lacks_times (r : raw_row) : bool :=
  is_null (col "received_at_ms" r) ||
  (negb (is_null (col "processed_at" r)) && is_null (col "processed_at_ms" r)).

(** UPDATE events SET received_at_ms = ?, processed_at_ms = ? WHERE id = ? *)
Definition set_times (received : Z) (processed : value) (r : raw_row) : raw_row :=
  <["processed_at_ms" := processed]> (<["received_at_ms" := VInt received]> r).

(** UPDATE events SET status = 'pending' WHERE status IN ('received', 'rejected') *)
Definition fix_status (r : raw_row) : raw_row :=
  if bool_decide (col "status" r = VText "received") || bool_decide (col "status" r = VText "rejected")
  then <["status" := VText "pending"]> r else r.

(** SQLite's strftime('%s', v), as an integer *)
Class SqliteTime : Type := { strftime_s : value → option Z }.

(** How many rows a SELECT delivers before its iteration breaks off: with a
    failure that only rows.Err would report, which backfillEpochColumns does
    not ask for. *)
Class Scan : Type := { scan_cut : nat → option nat }.

Definition scans_complete `{Scan} : Prop := ∀ n, scan_cut n = None.

Section Migrate.
Context `{Env, SqlOrder, MapOrder, SqliteTime, Scan}.
#[local] Abbreviation SM := (M (conn schema) store_err).

(** UPDATE action_logs SET created_at_ms = CAST(strftime('%s', created_at) AS INTEGER) * 1000
    WHERE created_at_ms IS NULL *)
Definition log_strftime (r : raw_row) : raw_row :=
  if is_null (col "created_at_ms" r) then
    <["created_at_ms" := match strftime_s (col "created_at" r) with
                         | Some n => VInt (n * 1000) | None => VNull end]> r
  else r.

(** A statement SQLite may refuse *)
Definition stmt (f : schema → option schema) : SM unit :=
  ok ← exec (λ s, match f s with Some s' => (true, s') | None => (false, s) end);
  if ok : bool then mret tt else fail SqlError.

(** Several statements in one Exec *)
Fixpoint stmts (l : list (schema → option schema)) : SM unit :=
  match l with [] => mret tt | f :: l' => _ ← stmt f; stmts l' end.

(** A SELECT without ORDER BY whose rows are read until Next stops *)
Definition scan_rows {A} (f : schema → list A) : SM (list A) := λ c,
  match query f c with
  | (Ok rows, c') =>
      let rows := order_by (λ _ _, true) rows in
      (Ok (match scan_cut (cn_tick c') with Some n => take n rows | None => rows end), c')
  | (Err e, c') => (Err e, c')
  end.

(** columnSet *)
Definition columnSet (table : string) : SM (gset string) :=
  query (λ s, default ∅ (sc_tables s !! table)).

Definition range_columns (cols : gmap string string) : SM (list (string * string)) := λ c,
  (Ok (range (cn_tick c) 0 cols), c).

Fixpoint add_columns (table : string) (existing : gset string) (cols : list (string * string)) : SM unit :=
  match cols with
  | [] => mret tt
  | (name, typ) :: cols' =>
      _ ← (if bool_decide (name ∈ existing) then mret tt else stmt (add_column table name typ));
      add_columns table existing cols'
  end.

Definition ensureColumns (table : string) (cols : gmap string string) : SM unit :=
  existing ← columnSet table;
  order ← range_columns cols;
  add_columns table existing order.

(** *** backfillEpochColumns *)

(** Scan of a NULL into a string fails. *)
Definition scan_event (row : string * raw_row) : option (string * string * option string) :=
  received ← cast_text (col "received_at" row.2);
  Some (row.1, received, cast_text (col "processed_at" row.2)).

Definition backfill_event (row : string * string * option string) : SM unit :=
  let '(id, received, processed) := row in
  match parseSQLiteTime received with
  | None => fail (ErrEvent id "parse received_at")
  | Some t =>
      processed ← match processed with
        | None | Some "" => mret VNull
        | Some raw => match parseSQLiteTime raw with
            | None => fail (ErrEvent id "parse processed_at")
            | Some t => mret (VInt (unix_milli t))
            end
        end;
      stmt (λ s, Some (set_event_rows (alter (set_times (unix_milli t) processed) id (sc_events s)) s))
  end.

Fixpoint for_each {A} (f : A → SM unit) (l : list A) : SM unit :=
  match l with [] => mret tt | x :: l' => _ ← f x; for_each f l' end.

Definition scan_log (row : Z * raw_row) : option (Z * string) :=
  created ← cast_text (col "created_at" row.2); Some (row.1, created).

Definition backfill_log (row : Z * string) : SM unit :=
  let '(id, created) := row in
  match parseSQLiteTime created with
  | None => fail (ErrEvent (Itoa id) "parse action log created_at")
  | Some t =>
      stmt (λ s, Some (set_log_rows (alter <["created_at_ms" := VInt (unix_milli t)]> id (sc_logs s)) s))
  end.

(** The rows of a SELECT, each scanned; the first one that cannot be scanned
    ends the function. *)
Definition scanned {A B} (f : A → option B) (rows : list A) : SM (list B) :=
  match mapM f rows with Some l => mret l | None => fail SqlError end.

Definition backfillEpochColumns : SM unit :=
  rows ← scan_rows (λ s, map_to_list (select (λ (_ : string) r, lacks_times r) (sc_events s)));
  events ← scanned scan_event rows;
  _ ← for_each backfill_event events;
  _ ← stmt (λ s, Some (set_log_rows (log_strftime <$> sc_logs s) s));
  rows ← scan_rows (λ s, map_to_list (select (λ (_ : Z) r, is_null (col "created_at_ms" r)) (sc_logs s)));
  logs ← scanned scan_log rows;
  for_each backfill_log logs.

Definition migrate : SM unit :=
  _ ← stmts ((λ t, λ s, Some (create_table t.1 t.2 s)) <$> base_tables);
  _ ← ensureColumns "events" (new_columns "events");
  _ ← ensureColumns "action_logs" (new_columns "action_logs");
  _ ← ensureColumns "_ready_check" (new_columns "_ready_check");
  _ ← backfillEpochColumns;
  _ ← stmt (λ s, Some (set_indexes (sc_indexes s ∖ {["idx_events_hmac_body"]}) s));
  _ ← stmt (λ s, Some (set_event_rows (fix_status <$> sc_events s) s));
  stmts (create_index <$> index_names).

End Migrate.

Example parse_legacy : parseSQLiteTime "2024-01-02 03:04:05.123456789 +0000 UTC m=+0.5" = Some 1704164645123456789.
Proof. vm_compute. reflexivity. Qed.
Example parse_sqlite : parseSQLiteTime "2024-01-02 03:04:05" = Some 1704164645000000000.
Proof. vm_compute. reflexivity. Qed.
Example parse_epoch : parseSQLiteTime "1704164645" = Some 1704164645000000000.
Proof. vm_compute. reflexivity. Qed.
Example parse_millis : parseSQLiteTime "1704164645123" = Some 1704164645123000000.
Proof. vm_compute. reflexivity. Qed.
Example parse_garbage : parseSQLiteTime "yesterday" = None.
Proof. vm_compute. reflexivity. Qed.
