(* ===== verification/LegacyTime.v ===== *)
(** * The times of older databases, read back

    [parseSQLiteTime] on the texts that the releases before the epoch columns
    stored: Go's [Time.String], with or without its monotonic reading, and
    epoch numbers. *)

From Stdlib Require Import Ascii.
From stdpp Require Import pretty.
From S2P Require Import Prelude GoLib GoTime TimeText Migration.

#[local] Open Scope string_scope.
#[local] Open Scope Z_scope.

(** ** Trimming *)

Definition starts (a : ascii) (r : string) : bool := match r with String b _ => Ascii.eqb b a | "" => true end.

(** A byte that no space starts or ends with *)
Definition solid (a : ascii) : bool :=
  negb (existsb (starts a) (space_runes ++ ((λ r, str_rev r "") <$> space_runes)))%list.

Lemma trim_left_solid runes a s fuel :
  existsb (starts a) runes = false → trim_left runes fuel (String a s) = String a s.
Proof.
  intros Ha. destruct fuel as [|fuel]; [done|]. cbn [trim_left].
  assert (List.find (has_prefix (String a s)) runes = None) as ->; [|done].
  induction runes as [|r runes IH]; [done|]. cbn [existsb List.find] in *.
  apply orb_false_iff in Ha as [Hr Hrs]. destruct r as [|b r]; [done|]. cbn in *. rewrite Hr. by apply IH.
Qed.

Lemma solid_starts a : solid a = true →
  existsb (starts a) space_runes = false ∧ existsb (starts a) ((λ r, str_rev r "") <$> space_runes) = false.
Proof. unfold solid. intros Ha%negb_true_iff. by rewrite existsb_app, orb_false_iff in Ha. Qed.

(** A text that begins and ends with such bytes is left as it is. *)
Lemma TrimSpace_solid s a u w b :
  s = String a u → s = (w +:+ String b "")%string → solid a = true → solid b = true → TrimSpace s = s.
Proof.
  intros Hs Hs' [Ha _]%solid_starts [_ Hb]%solid_starts. unfold TrimSpace.
  assert (trim_left space_runes (String.length s) s = s) as -> by (rewrite Hs; by apply trim_left_solid).
  rewrite Hs' at 2. rewrite str_rev_app. cbn [str_rev]. change (String b "" +:+ str_rev w "")%string with (String b (str_rev w "")).
  rewrite trim_left_solid by done. rewrite Hs'. change (String b (str_rev w "")) with (String b "" +:+ str_rev w "")%string.
  rewrite str_rev_app, str_rev_involutive. done.
Qed.

Lemma solid_digit d : 0 ≤ d < 10 → solid (digit_char d) = true.
Proof.
  intros Hd. assert (forallb (λ i : nat, solid (digit_char (Z.of_nat i))) (seq 0 10) = true) as Hall by (vm_compute; reflexivity).
  rewrite forallb_forall in Hall. specialize (Hall (Z.to_nat d)). rewrite Z2Nat.id in Hall by lia.
  apply Hall, in_seq. lia.
Qed.

(** ** The monotonic reading *)

Definition no_m (s : string) : bool := all_bytes (λ n, negb (Nat.eqb n 109)) s.

Lemma no_m_cons a s : no_m (String a s) = true → Ascii.eqb "m" a = false ∧ no_m s = true.
Proof.
  unfold no_m. cbn [all_bytes]. intros [Ha Hs]%andb_true_iff. split; [|done].
  destruct (Ascii.eqb_spec "m" a) as [<-|]; done.
Qed.

Lemma before_m_here w x : no_m w = true → before " m=" (w +:+ " m=" +:+ x)%string = w.
Proof.
  induction w as [|a w IH]; intros Hw; [by destruct x|]. destruct (no_m_cons _ _ Hw) as [Ha Hw'].
  change (String a w +:+ " m=" +:+ x)%string with (String a (w +:+ " m=" +:+ x)). cbn [before].
  rewrite (IH Hw'). assert (has_prefix (String a (w +:+ " m=" +:+ x)) " m=" = false) as ->; [|done].
  cbn [has_prefix]. destruct (Ascii.eqb " " a); [|done]. destruct w as [|b w]; [done|].
  destruct (no_m_cons _ _ Hw') as [Hb _]. change (String b w +:+ " m=" +:+ x)%string with (String b (w +:+ " m=" +:+ x)).
  cbn [andb has_prefix]. by rewrite Hb.
Qed.

Lemma before_m_none w : no_m w = true → before " m=" w = w.
Proof.
  induction w as [|a w IH]; intros Hw; [done|]. destruct (no_m_cons _ _ Hw) as [Ha Hw']. cbn [before].
  rewrite (IH Hw'). assert (has_prefix (String a w) " m=" = false) as ->; [|done].
  cbn [has_prefix]. destruct (Ascii.eqb " " a); [|done]. destruct w as [|b w]; [done|].
  destruct (no_m_cons _ _ Hw') as [Hb _]. cbn [andb has_prefix]. by rewrite Hb.
Qed.

Lemma no_m_digit d s : 0 ≤ d < 10 → no_m (String (digit_char d) s) = no_m s.
Proof.
  intros Hd. unfold no_m. cbn [all_bytes].
  destruct (Nat.eqb_spec (Ascii.nat_of_ascii (digit_char d)) 109) as [E|]; [|done].
  pose proof (digit_of_char d Hd) as Hof. unfold digit_of in Hof. by rewrite E in Hof.
Qed.

Lemma no_m_pad2 n s : 0 ≤ n < 100 → no_m (pad2 n s) = no_m s.
Proof. intros Hn. unfold pad2. by rewrite !no_m_digit by zdiv. Qed.

Lemma no_m_digits k n s : 0 ≤ n < 10 ^ Z.of_nat k → no_m (digits k n +:+ s)%string = no_m s.
Proof.
  revert n. induction k as [|k IH]; intros n Hn; cbn [digits]; [done|]. case_match; [done|].
  rewrite Nat2Z.inj_succ, Z.pow_succ_r in Hn by lia. rewrite str_app_cons, no_m_digit.
  - apply IH, Z.mod_pos_bound. lia.
  - split; [apply Z.div_pos; lia|apply Z.div_lt_upper_bound; lia].
Qed.

Lemma no_m_frac ns s : 0 ≤ ns < Second → no_m (frac ns s) = no_m s.
Proof.
  intros Hns. unfold frac. case_match; [done|]. change (no_m (String "." (digits 9 ns +:+ s)%string)) with (no_m (digits 9 ns +:+ s)%string).
  by apply no_m_digits.
Qed.

(** ** The text of a time *)

Definition ends (c : ascii) (s : string) : Prop := ∃ w, s = (w +:+ String c "")%string.

Lemma ends_app c w s : ends c s → ends c (w +:+ s)%string.
Proof. intros [v ->]. exists (w +:+ v)%string. by rewrite str_app_assoc. Qed.

Lemma ends_cons c a s : ends c s → ends c (String a s).
Proof. apply (ends_app c (String a "")). Qed.

Definition clock_string (h mi s ns : Z) : string :=
  pad2 h (String ":" (pad2 mi (String ":" (pad2 s (frac ns " +0000 UTC"))))).

Lemma clock_no_m h mi s ns : 0 ≤ h < 24 → 0 ≤ mi < 60 → 0 ≤ s < 60 → 0 ≤ ns < Second →
  no_m (clock_string h mi s ns) = true.
Proof.
  intros. unfold clock_string. rewrite no_m_pad2 by lia. change (no_m (String ":" ?s)) with (no_m s).
  rewrite no_m_pad2 by lia. change (no_m (String ":" ?s)) with (no_m s). by rewrite no_m_pad2, no_m_frac by lia.
Qed.

Lemma clock_ends h mi s ns : ends "C" (clock_string h mi s ns).
Proof.
  assert (ends "C" " +0000 UTC") as Hutc by (by exists " +0000 UT").
  unfold clock_string, pad2. do 8 apply ends_cons. unfold frac. case_match; [done|]. by apply ends_cons, ends_app.
Qed.

(** The date of a time, and the text after it *)
Lemma time_string_shape t : four_digits t →
  ∃ y m d rest, 0 ≤ y < 10000 ∧ 1 ≤ m ≤ 12 ∧ 0 ≤ d < 100 ∧ no_m rest = true ∧ ends "C" rest ∧
    time_string t = pad4 y (String "-" (pad2 m (String "-" (pad2 d (String " " rest))))).
Proof.
  unfold four_digits, time_string. intros Hy. pose proof (civil_spec (t / Second / 86400)) as Hciv.
  destruct (civil (t / Second / 86400)) as [[y m] d]. destruct Hciv as (_ & Hm & Hd). cbn [fst] in Hy.
  pose proof (days_in_le m y) as Hd31. destruct (time_parts t) as (_ & Hh & Hmi & Hs & Hns).
  exists y, m, d, (clock_string ((t / Second) mod 86400 / 3600) ((t / Second) mod 86400 mod 3600 / 60)
    ((t / Second) mod 86400 mod 60) (t mod Second)).
  do 3 (split; [lia|]). split; [by apply clock_no_m|]. split; [apply clock_ends|reflexivity].
Qed.

(** Without a sign, ParseInt reads digits. *)
Lemma ParseInt_digit d s :
  0 ≤ d < 10 → ParseInt (String (digit_char d) s) =
    v ← parse_digits (String (digit_char d) s) 0; if (- 2^63 <=? v) && (v <? 2^63) then Some v else None.
Proof.
  intros Hd. unfold ParseInt.
  assert (d ∈ [0; 1; 2; 3; 4; 5; 6; 7; 8; 9]) as Hin by (change (d ∈ seqZ 0 10); apply elem_of_seqZ; lia).
  by repeat (apply elem_of_cons in Hin as [->|Hin]; [done|]); apply elem_of_nil in Hin.
Qed.

Section Shape.
Context (y m d : Z) (rest : string) (Hy : 0 ≤ y < 10000) (Hm : 1 ≤ m ≤ 12) (Hd : 0 ≤ d < 100).
#[local] Set Default Proof Using "All".

Definition dated : string := pad4 y (String "-" (pad2 m (String "-" (pad2 d (String " " rest))))).

(** It is no number, *)
Lemma ParseInt_dated : ParseInt dated = None.
Proof.
  assert (parse_digits dated 0 = None) as Hp.
  { unfold dated, pad4, pad2. by rewrite !digit_of_parse by zdiv. }
  unfold dated, pad4, pad2 in *. rewrite ParseInt_digit by zdiv. by rewrite Hp.
Qed.

(** and no time in the layouts that have a T after the date. *)
Lemma Parse_dated layout rest' :
  chunks_of layout =
    stdLongYear :: literal "-" :: stdZeroMonth :: literal "-" :: stdZeroDay :: literal "T" :: rest' →
  Parse layout dated = None.
Proof.
  intros Hl. unfold Parse, dated. rewrite Hl.
  rewrite (parse_step _ _ _ _ _ _ (parse_year _ y _ Hy)).
  rewrite (parse_step _ _ _ _ _ _ (parse_literal "-" _ _ _ eq_refl)).
  rewrite (parse_step _ _ _ _ _ _ (parse_month _ _ m _ Hm)).
  rewrite (parse_step _ _ _ _ _ _ (parse_literal "-" _ _ _ eq_refl)).
  by rewrite (parse_step _ _ _ _ _ _ (parse_day _ _ d _ Hd)).
Qed.

Lemma dated_no_m : no_m rest = true → no_m dated = true.
Proof.
  intros Hr. unfold dated, pad4. rewrite !no_m_pad2 by zdiv. change (no_m (String "-" ?s)) with (no_m s).
  rewrite no_m_pad2 by lia. change (no_m (String "-" ?s)) with (no_m s). rewrite no_m_pad2 by lia. exact Hr.
Qed.

Lemma dated_starts : ∃ a u, dated = String a u ∧ solid a = true.
Proof. eexists _, _. split; [reflexivity|]. apply solid_digit. zdiv. Qed.

Lemma dated_ends c : ends c rest → ends c dated.
Proof. intros Hr. unfold dated, pad4, pad2. by repeat apply ends_cons. Qed.

(** A text that only leaves a date is read by the first layout that has one. *)
Lemma parseSQLiteTime_dated raw t :
  before " m=" (TrimSpace raw) = dated → Parse string_layout dated = Some t → parseSQLiteTime raw = Some t.
Proof.
  intros Hraw Hp. unfold parseSQLiteTime. rewrite Hraw, ParseInt_dated. cbn [layouts first_layout].
  rewrite (Parse_dated RFC3339Nano [stdHour; literal ":"; stdZeroMinute; literal ":"; stdZeroSecond; stdFracSecond9; stdISO8601ColonTZ])
    by (vm_compute; reflexivity).
  rewrite (Parse_dated RFC3339 [stdHour; literal ":"; stdZeroMinute; literal ":"; stdZeroSecond; stdISO8601ColonTZ])
    by (vm_compute; reflexivity).
  fold string_layout. by rewrite Hp.
Qed.

End Shape.

Lemma TrimSpace_ends s a u b : s = String a u → solid a = true → ends b s → solid b = true → TrimSpace s = s.
Proof. intros Hs Ha [w Hw] Hb. by eapply TrimSpace_solid. Qed.

Lemma parseSQLiteTime_text t : four_digits t → parseSQLiteTime (time_string t) = Some t.
Proof.
  intros Ht. pose proof (Parse_time_string t Ht) as Hp.
  destruct (time_string_shape t Ht) as (y & m & d & rest & Hy & Hm & Hd & Hno & He & Hs).
  change (time_string t = dated y m d rest) in Hs. rewrite Hs in *.
  apply (parseSQLiteTime_dated y m d rest); [done..| |done].
  destruct (dated_starts y m d rest Hy Hm Hd) as (a & u & Ha & Hsolid).
  rewrite (TrimSpace_ends _ a u "C" Ha Hsolid); [|by apply dated_ends|done]. by apply before_m_none, dated_no_m.
Qed.

(** A monotonic reading ends in a digit. *)
Lemma parseSQLiteTime_monotonic t m : four_digits t → (∃ n, 0 ≤ n < 10 ∧ ends (digit_char n) m) →
  parseSQLiteTime (time_string t +:+ " m=" +:+ m)%string = Some t.
Proof.
  intros Ht (n & Hn & Hend). pose proof (Parse_time_string t Ht) as Hp.
  destruct (time_string_shape t Ht) as (y & mo & d & rest & Hy & Hm & Hd & Hno & He & Hs).
  change (time_string t = dated y mo d rest) in Hs. rewrite Hs in *.
  apply (parseSQLiteTime_dated y mo d rest); [done..| |done].
  destruct (dated_starts y mo d rest Hy Hm Hd) as (a & u & Ha & Hsolid).
  rewrite (TrimSpace_ends _ a (u +:+ " m=" +:+ m)%string (digit_char n)).
  - by apply before_m_here, dated_no_m.
  - by rewrite Ha.
  - done.
  - by do 2 apply ends_app.
  - by apply solid_digit.
Qed.

(** ** Epoch numbers *)

Lemma pretty_digit_char n : (n < 10)%N → pretty_N_char n = digit_char (Z.of_N n).
Proof.
  intros Hn. assert (Z.of_N n ∈ [0; 1; 2; 3; 4; 5; 6; 7; 8; 9]) as Hin
    by (change (Z.of_N n ∈ seqZ 0 10); apply elem_of_seqZ; lia).
  rewrite <- (N2Z.id n). generalize dependent (Z.of_N n). intros z Hin.
  by repeat (apply elem_of_cons in Hin as [->|Hin]; [done|]); apply elem_of_nil in Hin.
Qed.

Lemma mod10 x : (x mod 10 < 10)%N ∧ 0 ≤ Z.of_N (x mod 10) < 10.
Proof.
  pose proof (N.mod_lt x 10 ltac:(done)) as Hm. split; [done|]. split; [apply N2Z.is_nonneg|by apply (N2Z.inj_lt _ 10)].
Qed.

(** The digits of a number before a text *)
Lemma pretty_go_spec x s : ∃ w, pretty_N_go x s = (w +:+ s)%string ∧
  ((0 < x)%N → ∃ d u, w = String (digit_char d) u ∧ 0 ≤ d < 10) ∧
  parse_digits (pretty_N_go x s) 0 = parse_digits s (Z.of_N x).
Proof.
  revert s. induction (N.lt_wf_0 x) as [x _ IH]. intros s.
  destruct (decide (x = 0%N)) as [->|Hx]; [by exists ""|].
  rewrite pretty_N_go_step by lia. destruct (mod10 x) as [Hmod Hdig].
  rewrite pretty_digit_char by done.
  destruct (IH (x `div` 10)%N ltac:(apply N.div_lt; lia) (String (digit_char (Z.of_N (x `mod` 10))) s))
    as (w & Hw & Hhead & Hp).
  exists (w +:+ String (digit_char (Z.of_N (x `mod` 10))) "")%string. split; [by rewrite str_app_assoc|]. split.
  - intros _. destruct (decide (x `div` 10 = 0)%N) as [H0|H0].
    + rewrite H0, pretty_N_go_0 in Hw. destruct w as [|a w].
      * eexists _, "". split; [reflexivity|done].
      * exfalso. apply (f_equal String.length) in Hw. rewrite str_app_length in Hw. cbn in Hw. lia.
    + destruct (Hhead ltac:(by apply N.neq_0_lt_0)) as (d & u & -> & Hd). by exists d, (u +:+ String (digit_char (Z.of_N (x `mod` 10))) "")%string.
  - rewrite Hp, digit_of_parse by done. f_equal.
    rewrite N2Z.inj_div, N2Z.inj_mod. pose proof (Z.div_mod (Z.of_N x) 10). lia.
Qed.

Lemma pretty_go_ends x s : (0 < x)%N → ∃ w d, pretty_N_go x s = (w +:+ String (digit_char d) s)%string ∧ 0 ≤ d < 10.
Proof.
  intros Hx. rewrite pretty_N_go_step by done. destruct (mod10 x) as [Hmod Hdig].
  rewrite pretty_digit_char by done. destruct (pretty_go_spec (x `div` 10)%N (String (digit_char (Z.of_N (x `mod` 10))) s))
    as (w & -> & _). exists w, (Z.of_N (x `mod` 10)). by split.
Qed.

Lemma Itoa_pos p : Itoa (Z.pos p) = pretty_N_go (N.pos p) "".
Proof. reflexivity. Qed.
Lemma Itoa_neg p : Itoa (Z.neg p) = String "-" (pretty_N_go (N.pos p) "").
Proof. reflexivity. Qed.

Lemma pretty_go_no_m x : no_m (pretty_N_go x "") = true.
Proof.
  assert (∀ s, no_m (pretty_N_go x s) = no_m s) as Hgo; [|by rewrite Hgo].
  induction (N.lt_wf_0 x) as [x _ IH]. intros s. destruct (decide (x = 0%N)) as [->|Hx]; [done|].
  rewrite pretty_N_go_step by lia. destruct (mod10 x) as [Hmod Hdig].
  rewrite IH by (apply N.div_lt; lia). rewrite pretty_digit_char by done. by apply no_m_digit.
Qed.

(** The decimal text of an int64 is read back. *)
Lemma ParseInt_Itoa n : int64_ok n → ParseInt (Itoa n) = Some n.
Proof.
  unfold int64_ok. intros Hn. destruct n as [|p|p]; [done| |].
  - rewrite Itoa_pos. destruct (pretty_go_spec (N.pos p) "") as (w & Hw & Hhead & Hp).
    destruct (Hhead ltac:(lia)) as (d & u & -> & Hd). rewrite Hw, str_app_nil in *.
    rewrite (ParseInt_digit d u Hd), Hp. cbn [parse_digits mbind option_bind].
    by rewrite (proj2 (Z.leb_le _ _)), (proj2 (Z.ltb_lt _ _)) by lia.
  - rewrite Itoa_neg. destruct (pretty_go_spec (N.pos p) "") as (w & Hw & Hhead & Hp).
    destruct (Hhead ltac:(lia)) as (d & u & -> & Hd). unfold ParseInt.
    rewrite bool_decide_false; [|by rewrite Hw, str_app_cons]. rewrite Hp. cbn [parse_digits mbind option_bind].
    change (- Z.of_N (N.pos p)) with (Z.neg p).
    by rewrite (proj2 (Z.leb_le _ _)), (proj2 (Z.ltb_lt _ _)) by lia.
Qed.

Lemma TrimSpace_Itoa n : TrimSpace (Itoa n) = Itoa n.
Proof.
  destruct n as [|p|p]; [reflexivity| |].
  - rewrite Itoa_pos. destruct (pretty_go_spec (N.pos p) "") as (w & Hw & Hhead & _).
    destruct (Hhead ltac:(lia)) as (d & u & -> & Hd). destruct (pretty_go_ends (N.pos p) "") as (v & e & He & Hed); [lia|].
    eapply TrimSpace_solid; [by rewrite Hw, str_app_cons|exact He|by apply solid_digit..].
  - rewrite Itoa_neg. destruct (pretty_go_ends (N.pos p) "") as (v & e & He & Hed); [lia|].
    eapply (TrimSpace_solid _ "-" _ (String "-" v)); [reflexivity|by rewrite He|reflexivity|by apply solid_digit].
Qed.

Lemma parseSQLiteTime_epoch n : int64_ok n →
  parseSQLiteTime (Itoa n) = Some (if (Z.abs n <? 100000000000) then n * Second else of_unix_milli n).
Proof.
  intros Hn. unfold parseSQLiteTime. rewrite TrimSpace_Itoa, before_m_none.
  - rewrite ParseInt_Itoa by done. f_equal.
    destruct (Z.ltb_spec (Z.abs n) 100000000000), (Z.ltb_spec (-100000000000) n), (Z.ltb_spec n 100000000000); try done; lia.
  - destruct n as [|p|p]; [done| |]; [rewrite Itoa_pos|rewrite Itoa_neg; change (no_m (String "-" ?s)) with (no_m s)];
      apply pretty_go_no_m.
Qed.
