(* ===== verification/MigrationSteps.v ===== *)
(** * The steps of the migration

    What an opened database holds, row by row, as functions of the row before
    ([event_goal], [log_goal], [ready_goal]); and that every statement of
    [migrate] leaves this target where it was: a migration that was broken off
    at any point can be taken up again. *)

From S2P Require Import Prelude GoLib GoTime Sql Migration.

#[local] Open Scope string_scope.
#[local] Open Scope Z_scope.

(** ** What becomes of a row *)

Definition defaults (table : string) : raw_row := column_default <$> new_columns table.

(** The new columns, with their default where the row has none *)
Definition complete (table : string) (r : raw_row) : raw_row := r ∪ defaults table.

Definition received_ms (r : raw_row) : option Z :=
  unix_milli <$> (cast_text (col "received_at" r) ≫= parseSQLiteTime).

Definition processed_ms (r : raw_row) : option value :=
  match cast_text (col "processed_at" r) with
  | None | Some "" => Some VNull
  | Some raw => (λ t, VInt (unix_milli t)) <$> parseSQLiteTime raw
  end.

(** The epoch columns are read from the texts when one of them is missing. *)
Definition timed (r : raw_row) : option raw_row :=
  if lacks_times r then m ← received_ms r; p ← processed_ms r; Some (set_times m p r) else Some r.

Definition log_timed (r : raw_row) : option raw_row :=
  if is_null (col "created_at_ms" r)
  then t ← cast_text (col "created_at" r) ≫= parseSQLiteTime; Some (<["created_at_ms" := VInt (unix_milli t)]> r)
  else Some r.

Definition event_goal (r : raw_row) : option raw_row := fix_status <$> timed (complete "events" r).

Section Goals.
Context `{SqliteTime}.

Definition log_goal (r : raw_row) : option raw_row := log_timed (log_strftime (complete "action_logs" r)).

End Goals.

Definition ready_goal (r : raw_row) : raw_row := complete "_ready_check" r.

Definition base_map : gmap string (gset string) :=
  list_to_map ((λ t, (t.1, list_to_set t.2)) <$> base_tables).

Definition tables_goal (t : gmap string (gset string)) : gmap string (gset string) :=
  map_imap (λ name cols, Some (cols ∪ dom (new_columns name))) (t ∪ base_map).

Definition indexes_goal (i : gset string) : gset string :=
  (i ∖ {["idx_events_hmac_body"]}) ∪ list_to_set index_names.

Lemma indexes_goal_drop i : indexes_goal (i ∖ {["idx_events_hmac_body"]}) = indexes_goal i.
Proof. unfold indexes_goal. set_solver. Qed.

Lemma indexes_goal_add i name : name ∈ index_names → indexes_goal ({[name]} ∪ i) = indexes_goal i.
Proof. intros Hn. apply (elem_of_list_to_set (C := gset string)) in Hn. unfold indexes_goal. set_solver. Qed.

(** ** Columns *)

Lemma col_insert c v r : col c (<[c := v]> r) = v.
Proof. unfold col. by rewrite lookup_insert_eq. Qed.

Lemma col_insert_ne c c' v r : c ≠ c' → col c (<[c' := v]> r) = col c r.
Proof. intros Hc. unfold col. by rewrite lookup_insert_ne. Qed.

Lemma col_set_times c m p r : c ≠ "received_at_ms" → c ≠ "processed_at_ms" → col c (set_times m p r) = col c r.
Proof. intros H1 H2. unfold set_times. by rewrite !col_insert_ne. Qed.

Lemma lookup_complete table c r :
  complete table r !! c = match r !! c with Some v => Some v | None => defaults table !! c end.
Proof. unfold complete. rewrite lookup_union. by destruct (r !! c), (defaults table !! c). Qed.

Lemma complete_insert table c v r :
  r !! c = None → defaults table !! c = Some v → complete table (<[c := v]> r) = complete table r.
Proof.
  intros Hr Hd. apply map_eq. intros c'. rewrite !lookup_complete.
  destruct (decide (c = c')) as [<-|Hne]; [by rewrite lookup_insert_eq, Hr, Hd|by rewrite lookup_insert_ne].
Qed.

Lemma complete_full table r : dom (defaults table) ⊆ dom r → complete table r = r.
Proof.
  intros Hd. apply map_eq. intros c. rewrite lookup_complete. destruct (r !! c) eqn:Hr; [done|].
  apply not_elem_of_dom. intros Hc. apply Hd, elem_of_dom in Hc. destruct Hc as [v Hv]. congruence.
Qed.

Lemma complete_idem table r : complete table (complete table r) = complete table r.
Proof. apply complete_full. unfold complete. rewrite dom_union_L. set_solver. Qed.

(** A changed value in a row that has the column *)
Lemma complete_update table c v r :
  is_Some (complete table r !! c) → complete table (<[c := v]> (complete table r)) = <[c := v]> (complete table r).
Proof.
  intros Hc. apply complete_full. rewrite dom_insert_L. unfold complete. rewrite dom_union_L. set_solver.
Qed.

(** ** Times *)

Lemma timed_received r r' : timed r = Some r' → is_null (col "received_at_ms" r') = false.
Proof.
  unfold timed. destruct (lacks_times r) eqn:Hl.
  - destruct (received_ms r); [|done]. destruct (processed_ms r); [|done]. cbn. intros [= <-].
    unfold set_times. by rewrite col_insert_ne, col_insert.
  - intros [= <-]. unfold lacks_times in Hl. by apply orb_false_iff in Hl as [Hl _].
Qed.

Lemma set_times_twice m p r : set_times m p (set_times m p r) = set_times m p r.
Proof.
  unfold set_times. apply map_eq. intros c.
  destruct (decide (c = "processed_at_ms")) as [->|H1]; [by rewrite !lookup_insert_eq|].
  destruct (decide (c = "received_at_ms")) as [->|H2]; [by do 2 rewrite lookup_insert_ne, lookup_insert_eq by done|].
  by rewrite !lookup_insert_ne by done.
Qed.

(** Reading the times again gives the same row. *)
Lemma timed_idem r r' : timed r = Some r' → timed r' = Some r'.
Proof.
  unfold timed at 1. destruct (lacks_times r) eqn:Hl; [|intros [= <-]; unfold timed; by rewrite Hl].
  destruct (received_ms r) as [m|] eqn:Hm; [|done]. destruct (processed_ms r) as [p|] eqn:Hp; [|done].
  cbn. intros [= <-]. unfold timed. destruct (lacks_times (set_times m p r)); [|done].
  assert (received_ms (set_times m p r) = Some m) as -> by (unfold received_ms; by rewrite col_set_times).
  assert (processed_ms (set_times m p r) = Some p) as -> by (unfold processed_ms; by rewrite col_set_times).
  cbn. f_equal. apply set_times_twice.
Qed.

Lemma timed_col r r' c : timed r = Some r' → c ≠ "received_at_ms" → c ≠ "processed_at_ms" → col c r' = col c r.
Proof.
  unfold timed. intros Ht H1 H2. destruct (lacks_times r); [|by injection Ht as <-].
  destruct (received_ms r); [|done]. destruct (processed_ms r); [|done]. injection Ht as <-.
  by apply col_set_times.
Qed.

Lemma timed_dom r r' : timed r = Some r' → {["received_at_ms"; "processed_at_ms"]} ⊆ dom r → dom r' = dom r.
Proof.
  unfold timed. intros Ht Hd. destruct (lacks_times r); [|by injection Ht as <-].
  destruct (received_ms r); [|done]. destruct (processed_ms r); [|done]. injection Ht as <-.
  unfold set_times. rewrite !dom_insert_L. set_solver.
Qed.

Lemma col_fix_status c r : c ≠ "status" → col c (fix_status r) = col c r.
Proof. intros Hc. unfold fix_status. case_match; [|done]. by rewrite col_insert_ne. Qed.

Lemma fix_status_dom r : dom (fix_status r) = dom r.
Proof.
  unfold fix_status. destruct (_ || _) eqn:E; [|done]. rewrite dom_insert_L.
  assert ("status" ∈ dom r); [|set_solver]. apply elem_of_dom. unfold col in E.
  destruct (r !! "status"); [done|]. cbn in E. by rewrite !bool_decide_false in E.
Qed.

Lemma fix_status_idem r : fix_status (fix_status r) = fix_status r.
Proof.
  unfold fix_status at 2 3. destruct (_ || _) eqn:E; unfold fix_status; [by rewrite col_insert|by rewrite E].
Qed.

(** The status does not matter to the times. *)
Lemma timed_status v r : timed (<["status" := v]> r) = (λ r', <["status" := v]> r') <$> timed r.
Proof.
  unfold timed, lacks_times, received_ms, processed_ms. rewrite !(col_insert_ne _ "status") by done.
  destruct (_ || _); [|done]. destruct (unix_milli <$> _); [|done]. cbn.
  destruct (match cast_text _ with None | Some "" => _ | Some _ => _ end) as [p|]; [|done]. cbn. f_equal.
  unfold set_times. rewrite (insert_insert_ne _ "received_at_ms" "status") by done.
  by rewrite (insert_insert_ne _ "processed_at_ms" "status").
Qed.

Lemma timed_fix_status r : timed r = Some r → fix_status <$> timed (fix_status r) = Some (fix_status r).
Proof.
  intros Ht. unfold fix_status at 2. destruct (_ || _) eqn:E.
  - rewrite timed_status, Ht. cbn. unfold fix_status. by rewrite col_insert, E.
  - by rewrite Ht.
Qed.

(** ** The statements leave the goal of a row where it was *)

Lemma event_goal_complete r : complete "events" r = r → event_goal r = fix_status <$> timed r.
Proof. intros Hr. unfold event_goal. by rewrite Hr. Qed.

Lemma complete_dom table r r' : dom r' = dom r → complete table r = r → complete table r' = r'.
Proof.
  intros Hd Hr. apply complete_full. rewrite Hd, <- Hr. unfold complete. rewrite dom_union_L. set_solver.
Qed.

Lemma complete_has table r c : complete table r = r → c ∈ dom (new_columns table) → c ∈ dom r.
Proof.
  intros Hr Hc. rewrite <- Hr. unfold complete, defaults. rewrite dom_union_L, dom_fmap_L. set_solver.
Qed.

Lemma timed_complete r r' : complete "events" r = r → timed r = Some r' → dom r' = dom r.
Proof.
  intros Hr Ht. apply (timed_dom r r' Ht). intros c Hc. apply (complete_has "events"); [done|].
  assert (c = "received_at_ms" ∨ c = "processed_at_ms") as [-> | ->] by set_solver;
    apply elem_of_dom; vm_compute; by eexists.
Qed.

Lemma event_goal_timed r r' :
  complete "events" r = r → timed r = Some r' → event_goal r' = event_goal r ∧ complete "events" r' = r'.
Proof.
  intros Hr Ht. pose proof (complete_dom "events" r r' (timed_complete r r' Hr Ht) Hr) as Hr'.
  split; [|done]. rewrite !event_goal_complete by done. by rewrite Ht, (timed_idem r r' Ht).
Qed.

Lemma event_goal_status r : complete "events" r = r → event_goal (fix_status r) = event_goal r.
Proof.
  intros Hr. rewrite !event_goal_complete by (done || (eapply complete_dom; [apply fix_status_dom|done])).
  unfold fix_status at 2. destruct (_ || _) eqn:E; [|done]. rewrite timed_status.
  destruct (timed r) as [r'|] eqn:Ht; [|done]. cbn. f_equal. unfold fix_status. rewrite col_insert.
  rewrite (timed_col r r' "status" Ht) by done. by rewrite E.
Qed.

Lemma log_timed_idem r r' : log_timed r = Some r' → log_timed r' = Some r' ∧ is_null (col "created_at_ms" r') = false.
Proof.
  unfold log_timed. destruct (is_null (col "created_at_ms" r)) eqn:Hn.
  - destruct (cast_text _ ≫= parseSQLiteTime) as [t|]; [|done]. cbn. intros [= <-]. by rewrite col_insert.
  - intros [= <-]. by rewrite Hn.
Qed.

Lemma log_timed_dom r r' : log_timed r = Some r' → "created_at_ms" ∈ dom r → dom r' = dom r.
Proof.
  unfold log_timed. intros Hl Hd. destruct (is_null _); [|by injection Hl as <-].
  destruct (cast_text _ ≫= parseSQLiteTime); [|done]. injection Hl as <-. rewrite dom_insert_L. set_solver.
Qed.

Section Logs.
Context `{SqliteTime}.

Lemma log_strftime_some r : is_null (col "created_at_ms" r) = false → log_strftime r = r.
Proof. intros Hr. unfold log_strftime. by rewrite Hr. Qed.

Lemma log_strftime_idem r : log_strftime (log_strftime r) = log_strftime r.
Proof.
  destruct (is_null (col "created_at_ms" r)) eqn:Hn; [|by rewrite !(log_strftime_some r)].
  unfold log_strftime at 2 3. rewrite Hn. unfold log_strftime. rewrite col_insert, (col_insert_ne "created_at") by done.
  destruct (strftime_s _); [done|]. cbn. by rewrite insert_insert_eq.
Qed.

Lemma log_strftime_dom r : "created_at_ms" ∈ dom r → dom (log_strftime r) = dom r.
Proof. intros Hd. unfold log_strftime. case_match; [|done]. rewrite dom_insert_L. set_solver. Qed.

Lemma created_complete r : complete "action_logs" r = r → "created_at_ms" ∈ dom r.
Proof. intros Hr. apply (complete_has "action_logs"); [done|]. apply elem_of_dom. vm_compute. by eexists. Qed.

Lemma log_goal_strftime r :
  complete "action_logs" r = r →
  log_goal (log_strftime r) = log_goal r ∧ complete "action_logs" (log_strftime r) = log_strftime r.
Proof.
  intros Hr. assert (complete "action_logs" (log_strftime r) = log_strftime r) as Hr'.
  { eapply complete_dom; [|exact Hr]. by apply log_strftime_dom, created_complete. }
  split; [|done]. unfold log_goal. by rewrite Hr', Hr, log_strftime_idem.
Qed.

Lemma log_goal_timed r r' :
  complete "action_logs" r = r → log_strftime r = r → log_timed r = Some r' →
  log_goal r' = log_goal r ∧ complete "action_logs" r' = r' ∧ log_strftime r' = r'.
Proof.
  intros Hr Hs Ht. destruct (log_timed_idem r r' Ht) as [Hi Hn].
  assert (complete "action_logs" r' = r') as Hr'.
  { eapply complete_dom; [|exact Hr]. by apply log_timed_dom, created_complete. }
  pose proof (log_strftime_some r' Hn) as Hs'. split; [|done]. unfold log_goal. by rewrite Hr', Hr, Hs, Hs', Ht.
Qed.

End Logs.
