(* ===== verification/MigrationRun.v ===== *)
(** * Runs of the migration

    A calculus of steps: what holds after a step that succeeds, and that one
    that fails, wherever it fails, has not moved the target of the migration;
    and [migrate] proved in it, statement by statement. *)

From S2P Require Import Prelude GoLib GoTime Sql Migration MigrationSteps.

#[local] Open Scope string_scope.

Section Run.
Context `{Env, SqlOrder, MapOrder, SqliteTime, Scan}.
#[local] Abbreviation SM := (M (conn schema) store_err).

(** ** Well-formed files and their target *)

(** Every row of a table has exactly the columns of the table. *)
Definition rows_fit {K} `{Countable K} (cols : option (gset string)) (t : gmap K raw_row) : Prop :=
  ∀ k r, t !! k = Some r → cols = Some (dom r).

Record wf (s : schema) : Prop := {
  wf_events : rows_fit (sc_tables s !! "events") (sc_events s);
  wf_logs : rows_fit (sc_tables s !! "action_logs") (sc_logs s);
  wf_ready : rows_fit (sc_tables s !! "_ready_check") (sc_ready s);
}.

Record same_target (s s' : schema) : Prop := {
  st_tables : tables_goal (sc_tables s') = tables_goal (sc_tables s);
  st_indexes : indexes_goal (sc_indexes s') = indexes_goal (sc_indexes s);
  st_events : event_goal <$> sc_events s' = event_goal <$> sc_events s;
  st_logs : log_goal <$> sc_logs s' = log_goal <$> sc_logs s;
  st_ready : ready_goal <$> sc_ready s' = ready_goal <$> sc_ready s;
}.

#[global] Instance same_target_refl : Reflexive same_target.
Proof. by split. Qed.
#[global] Instance same_target_trans : Transitive same_target.
Proof. intros s1 s2 s3 [] []. split; congruence. Qed.

(** Every time can be read, and no delivery id is used twice in a source. *)
Record readable (s : schema) : Prop := {
  rd_events : ∀ id r, sc_events s !! id = Some r → is_Some (event_goal r);
  rd_logs : ∀ id r, sc_logs s !! id = Some r → is_Some (log_goal r);
  rd_unique : deliveries_unique (omap event_goal (sc_events s));
}.

(** ** Steps *)

Context (s0 : schema).

Definition keeps (s : schema) : Prop := wf s ∧ same_target s0 s.

(** Nothing stands in the way of the migration. *)
Definition fine : Prop := no_faults ∧ scans_complete ∧ readable s0.

Definition step {A} (P : schema → Prop) (m : SM A) (Q : A → schema → Prop) : Prop := ∀ c,
  P (cn_db c) → wp m (λ r c', match r with
    | Ok a => Q a (cn_db c')
    | Err _ => keeps (cn_db c') ∧ (fine → False)
    end) c.

Lemma step_ret {A} (P : schema → Prop) (a : A) (Q : A → schema → Prop) :
  (∀ s, P s → Q a s) → step P (mret a) Q.
Proof. intros HQ c Hc. by apply wp_ret_M, HQ. Qed.

Lemma step_fail {A} (P : schema → Prop) e (Q : A → schema → Prop) :
  (∀ s, P s → keeps s ∧ (fine → False)) → step P (fail e) Q.
Proof. intros HQ c Hc. by apply wp_fail, HQ. Qed.

Lemma step_bind {A B} (P : schema → Prop) (m : SM A) (f : A → SM B) Q R :
  step P m Q → (∀ a, step (Q a) (f a) R) → step P (m ≫= f) R.
Proof.
  intros Hm Hf c Hc. apply wp_bind_M. eapply wp_mono; [by apply Hm|].
  intros [a|e] c' Hr; [by apply Hf|exact Hr].
Qed.

Lemma step_conseq {A} (P P' : schema → Prop) (m : SM A) (Q Q' : A → schema → Prop) :
  (∀ s, P s → P' s) → (∀ a s, Q' a s → Q a s) → step P' m Q' → step P m Q.
Proof.
  intros HP HQ Hm c Hc. eapply wp_mono; [by apply Hm, HP|]. intros [a|e] c' Hr; [by apply HQ|exact Hr].
Qed.

(** A driver call that fails is a failure of the driver. *)
Lemma step_call {A} (P : schema → Prop) (f : schema → A * schema) (Q : A → schema → Prop) :
  (∀ s, P s → keeps s) → (∀ s, P s → Q (f s).1 (f s).2) → step P (exec f) Q.
Proof.
  intros HP HQ c Hc. unfold exec, wp, mbind, M_bind, sql_call. destruct (fault (cn_tick c)) eqn:Hf; cbn [fst snd].
  - split; [by apply HP|]. intros (Hn & _). by rewrite Hn in Hf.
  - unfold apply_stmt. cbn [cn_db]. specialize (HQ _ Hc). by destruct (f (cn_db c)).
Qed.

Lemma step_stmt (P : schema → Prop) (f : schema → option schema) (Q : schema → Prop) :
  (∀ s, P s → keeps s) → (∀ s s', P s → f s = Some s' → Q s') → (∀ s, P s → f s = None → fine → False) →
  step P (stmt f) (λ _, Q).
Proof.
  intros HP HQ Hno. unfold stmt. eapply step_bind.
  - apply (step_call P _ (λ ok s, if ok : bool then Q s else P s ∧ (fine → False))); [done|].
    intros s Hs. destruct (f s) eqn:Hf; cbn; [by eapply HQ|]. split; [done|]. by apply (Hno s).
  - intros []; [by apply step_ret|]. apply step_fail. intros s [Hs Hno']. split; [by apply HP|done].
Qed.

Lemma step_query {A} (P : schema → Prop) (f : schema → A) :
  (∀ s, P s → keeps s) → step P (query f) (λ a s, P s ∧ a = f s).
Proof. intros HP. by apply (step_call P (λ db, (f db, db)) (λ a s, P s ∧ a = f s)). Qed.

(** What a SELECT delivers: some of its rows, all of them unless it is cut. *)
Lemma step_scan {A} (P : schema → Prop) (f : schema → list A) :
  (∀ s, P s → keeps s) →
  step P (scan_rows f) (λ l s, P s ∧ (∃ rest, l ++ rest ≡ₚ f s) ∧ (scans_complete → l ≡ₚ f s)).
Proof.
  intros HP c Hc. unfold scan_rows, wp. pose proof (step_query P f HP c Hc) as Hq. unfold wp in Hq.
  destruct (query f c) as [[rows|e] c']; cbn [fst snd] in *; [|exact Hq]. destruct Hq as [Hs ->].
  split; [done|]. pose proof (order_by_perm (λ _ _, true) (f (cn_db c'))) as Hp.
  destruct (scan_cut _) as [n|] eqn:Hcut; split.
  - exists (List.skipn n (order_by (λ _ _, true) (f (cn_db c')))). by rewrite (firstn_skipn n).
  - intros Hall. by rewrite Hall in Hcut.
  - exists []. by rewrite app_nil_r.
  - done.
Qed.

Lemma step_scanned {A B} (P : schema → Prop) (f : A → option B) (rows : list A) :
  (∀ s, P s → keeps s ∧ (mapM f rows = None → fine → False)) →
  step P (scanned f rows) (λ l s, P s ∧ mapM f rows = Some l).
Proof.
  intros HP. unfold scanned. destruct (mapM f rows) as [l|].
  - by apply step_ret.
  - apply step_fail. intros s Hs. destruct (HP s Hs). by split; [|auto].
Qed.

(** A list of steps with an invariant *)
Lemma step_stmts (P : schema → Prop) l :
  (∀ f, f ∈ l → step P (stmt f) (λ _, P)) → step P (stmts l) (λ _, P).
Proof.
  induction l as [|f l IH]; intros Hf; cbn [stmts]; [by apply step_ret|].
  eapply step_bind; [apply Hf; left|]. intros []. apply IH. intros g Hg. apply Hf. by right.
Qed.

(** ** Tables and columns *)

(** The table is there, with at least the columns [cols]. *)
Definition has (table : string) (cols : gset string) (s : schema) : Prop :=
  ∃ cols', sc_tables s !! table = Some cols' ∧ cols ⊆ cols'.

Definition haves (facts : list (string * gset string)) (s : schema) : Prop :=
  ∀ t cols, (t, cols) ∈ facts → has t cols s.

(** A stage of the migration: well formed, the target unmoved, and tables with
    columns. *)
Definition stage (facts : list (string * gset string)) (s : schema) : Prop := keeps s ∧ haves facts s.

Lemma keeps_change s s' : keeps s → wf s' → same_target s s' → keeps s'.
Proof. intros [_ Ht] Hw Ht'. split; [done|by etrans]. Qed.

Lemma tables_goal_create t name cols :
  t !! name = None → base_map !! name = Some (list_to_set cols) →
  tables_goal (<[name := list_to_set cols]> t) = tables_goal t.
Proof.
  intros Ht Hb. unfold tables_goal. f_equal. apply map_eq. intros k. rewrite !lookup_union.
  destruct (decide (k = name)) as [->|Hk]; [by rewrite lookup_insert_eq, Ht, Hb|by rewrite lookup_insert_ne].
Qed.

Lemma rows_fit_none {K} `{Countable K} cols (t : gmap K raw_row) : rows_fit None t → rows_fit cols t.
Proof. intros Hf k r Hr. by specialize (Hf k r Hr). Qed.

Lemma create_table_keeps s name cols :
  base_map !! name = Some (list_to_set cols) → keeps s → keeps (create_table name cols s).
Proof.
  intros Hb Hk. unfold create_table. destruct (sc_tables s !! name) as [cs|] eqn:Hn; [done|].
  apply (keeps_change s); [done| |].
  - destruct Hk as [[We Wl Wr] _]. split; cbn [sc_tables set_tables sc_events sc_logs sc_ready].
    + destruct (decide (name = "events")) as [->|Hne]; [rewrite Hn in We; by apply rows_fit_none|by rewrite lookup_insert_ne].
    + destruct (decide (name = "action_logs")) as [->|Hne]; [rewrite Hn in Wl; by apply rows_fit_none|by rewrite lookup_insert_ne].
    + destruct (decide (name = "_ready_check")) as [->|Hne]; [rewrite Hn in Wr; by apply rows_fit_none|by rewrite lookup_insert_ne].
  - split; try done. cbn [sc_tables set_tables]. by apply tables_goal_create.
Qed.

Lemma create_table_has s name cols t cols' :
  has t cols' s → has t cols' (create_table name cols s).
Proof.
  intros (c & Hc & Hsub). unfold create_table. destruct (sc_tables s !! name) eqn:Hn; [by exists c|].
  exists c. cbn [sc_tables set_tables]. rewrite lookup_insert_ne by congruence. done.
Qed.

Lemma create_table_new s name cols : has name ∅ (create_table name cols s).
Proof.
  unfold create_table. destruct (sc_tables s !! name) as [c|] eqn:Hn; [exists c; set_solver|].
  exists (list_to_set cols). cbn [sc_tables set_tables]. rewrite lookup_insert_eq. set_solver.
Qed.

Lemma step_create l facts :
  (∀ name cols, (name, cols) ∈ l → base_map !! name = Some (list_to_set cols)) →
  step (stage facts) (stmts ((λ t, λ s, Some (create_table t.1 t.2 s)) <$> l))
    (λ _, stage (reverse ((λ t, (t.1, ∅)) <$> l) ++ facts)).
Proof.
  revert facts. induction l as [|[name cols] l IH]; intros facts Hl; cbn [fmap list_fmap stmts]; [by apply step_ret|].
  eapply step_bind; [apply (step_stmt _ _ (stage ((name, ∅) :: facts)))|intros []].
  - by intros s [].
  - intros s s' [Hk Hh] [= <-]. split; [apply create_table_keeps; [apply Hl; left|done]|].
    intros t c [[= -> ->]|Hin]%elem_of_cons; [apply create_table_new|]. by apply create_table_has, Hh.
  - done.
  - rewrite reverse_cons, <- app_assoc. apply IH. intros n c Hin. apply Hl. by right.
Qed.

(** *** New columns *)

Definition altered (table : string) : Prop := table ∈ ["events"; "action_logs"; "_ready_check"].

Lemma tables_goal_add t table name cols :
  t !! table = Some cols → name ∈ dom (new_columns table) →
  tables_goal (<[table := {[name]} ∪ cols]> t) = tables_goal t.
Proof.
  intros Ht Hn. unfold tables_goal. apply map_eq. intros k. rewrite !map_lookup_imap, !lookup_union.
  destruct (decide (k = table)) as [->|Hk]; [|by rewrite lookup_insert_ne].
  rewrite lookup_insert_eq, Ht. destruct (base_map !! table); cbn; f_equal; set_solver.
Qed.

Lemma rows_fit_add {K} `{Countable K} cols name v (t : gmap K raw_row) :
  rows_fit (Some cols) t → rows_fit (Some ({[name]} ∪ cols)) ((<[name := v]>) <$> t).
Proof.
  intros Hf k r. rewrite lookup_fmap. destruct (t !! k) as [r0|] eqn:Hr; [|done]. cbn. intros [= <-].
  specialize (Hf k r0 Hr). injection Hf as ->. by rewrite dom_insert_L.
Qed.

(** A goal that only looks at the completed row does not see a new column. *)
Lemma goal_add {K A} `{Countable K} (g : raw_row → A) table cols name typ (t : gmap K raw_row) :
  (∀ r r', complete table r = complete table r' → g r = g r') →
  rows_fit (Some cols) t → name ∉ cols → new_columns table !! name = Some typ →
  g <$> ((<[name := column_default typ]>) <$> t) = g <$> t.
Proof.
  intros Hg Hf Hn Htyp. rewrite <- map_fmap_compose. apply map_fmap_ext. intros k r Hr. cbn. apply Hg.
  apply complete_insert.
  - apply not_elem_of_dom. specialize (Hf k r Hr). by injection Hf as <-.
  - unfold defaults. by rewrite lookup_fmap, Htyp.
Qed.

Lemma add_column_keeps table name typ s s' :
  altered table → new_columns table !! name = Some typ → keeps s →
  add_column table name typ s = Some s' → keeps s'.
Proof.
  intros Ha Htyp Hk. unfold add_column. destruct (sc_tables s !! table) as [cols|] eqn:Ht; [|done].
  case_bool_decide as Hin; [done|]. intros [= <-]. apply (keeps_change s); [done|..].
  all: destruct Hk as [[We Wl Wr] _];
    assert (name ∈ dom (new_columns table)) as Hd by (apply elem_of_dom; by eexists);
    pose proof (tables_goal_add _ _ _ _ Ht Hd) as Hgoal;
    repeat (apply elem_of_cons in Ha as [->|Ha]); try (by apply elem_of_nil in Ha).
  all: unfold alter_rows; repeat (rewrite bool_decide_false by done); rewrite bool_decide_true by done.
  all: split; cbn [sc_tables sc_events sc_logs sc_ready sc_indexes set_tables set_event_rows set_log_rows set_ready_rows];
    rewrite ?lookup_insert_eq, ?lookup_insert_ne by done; try done.
  all: rewrite Ht in *; try (by apply rows_fit_add).
  - eapply goal_add; [|done..]. unfold event_goal. by intros r r' ->.
  - eapply goal_add; [|done..]. unfold log_goal. by intros r r' ->.
  - eapply goal_add; [|done..]. unfold ready_goal. by intros r r' ->.
Qed.

Lemma add_column_tables table name typ s s' :
  add_column table name typ s = Some s' → ∃ cols, sc_tables s !! table = Some cols ∧ (name ∉ cols) ∧
    sc_tables s' = <[table := {[name]} ∪ cols]> (sc_tables s).
Proof.
  unfold add_column. destruct (sc_tables s !! table) as [cols|] eqn:Ht; [|done].
  case_bool_decide as Hin; [done|]. intros [= <-]. exists cols. do 2 (split; [done|]).
  unfold alter_rows. by repeat case_bool_decide.
Qed.

Lemma add_column_has table name typ s s' t cols :
  add_column table name typ s = Some s' → has t cols s → has t cols s'.
Proof.
  intros (cs & Hcs & _ & Ht)%add_column_tables (c & Hc & Hsub). unfold has. rewrite Ht.
  destruct (decide (t = table)) as [->|Hne].
  - rewrite lookup_insert_eq. eexists. split; [done|]. rewrite Hcs in Hc. injection Hc as <-. set_solver.
  - rewrite lookup_insert_ne by done. by exists c.
Qed.

(** Among the columns [names] the table has exactly those in [existing]. *)
Definition lacking (table : string) (existing : gset string) (names : list string) (s : schema) : Prop :=
  ∃ cols, sc_tables s !! table = Some cols ∧ existing ⊆ cols ∧ ∀ n, n ∈ names → n ∈ cols → n ∈ existing.

Lemma step_add_columns table existing cols facts got :
  altered table → NoDup (fst <$> cols) → (∀ n t, (n, t) ∈ cols → new_columns table !! n = Some t) →
  step (λ s, stage facts s ∧ lacking table existing (fst <$> cols) s ∧ has table got s)
    (add_columns table existing cols) (λ _ s, stage facts s ∧ has table (got ∪ list_to_set (fst <$> cols)) s).
Proof.
  intros Ha. revert got. induction cols as [|[name typ] cols IH]; intros got Hnd Hnew; cbn [add_columns].
  { apply step_ret. intros s (Hs & _ & (c & Hc & Hg)). split; [done|]. exists c. split; [done|]. set_solver. }
  cbn [fmap list_fmap fst] in *. apply NoDup_cons in Hnd as [Hname Hnd].
  eapply step_bind with (Q := λ _ s, stage facts s ∧ lacking table existing (fst <$> cols) s ∧
    has table (got ∪ {[name]}) s).
  - case_bool_decide as Hex.
    + apply step_ret. intros s (Hs & (c & Hc & Hsub & Hl) & (c' & Hc' & Hg)). split; [done|]. split.
      * exists c. split; [done|]. split; [done|]. intros n Hn. apply Hl. by right.
      * exists c'. split; [done|]. rewrite Hc in Hc'. injection Hc' as <-. set_solver.
    + apply step_stmt.
      * by intros s [[]].
      * intros s s' ([Hk Hh] & (c & Hc & Hsub & Hl) & (c' & Hc' & Hg)) Hadd.
        rewrite Hc in Hc'. injection Hc' as <-.
        destruct (add_column_tables _ _ _ _ _ Hadd) as (c2 & Hc2 & _ & Ht). rewrite Hc in Hc2. injection Hc2 as <-.
        split; [split; [eapply add_column_keeps; [done|apply Hnew; left|exact Hk|exact Hadd]|]|split].
        -- intros t cs Hin. eapply add_column_has; [exact Hadd|by apply Hh].
        -- exists ({[name]} ∪ c). rewrite Ht, lookup_insert_eq. split; [done|]. split; [set_solver|].
           intros n Hn [->%elem_of_singleton|Hin]%elem_of_union; [done|]. apply Hl; [by right|done].
        -- exists ({[name]} ∪ c). rewrite Ht, lookup_insert_eq. split; [done|]. set_solver.
      * intros s (_ & (c & Hc & Hsub & Hl) & _). unfold add_column. rewrite Hc.
        rewrite bool_decide_false; [done|]. intros Hin. apply Hex, Hl; [left|done].
  - intros []. eapply step_conseq; [by intros s Hs; exact Hs| |apply (IH (got ∪ {[name]}))]; [|done|].
    + intros [] s [Hs (c & Hc & Hsub)]. split; [done|]. exists c. split; [done|]. set_solver.
    + intros n t Hin. apply Hnew. by right.
Qed.

Lemma step_ensure table facts :
  altered table → (table, ∅) ∈ facts →
  step (stage facts) (ensureColumns table (new_columns table))
    (λ _, stage ((table, dom (new_columns table)) :: facts)).
Proof.
  intros Ha Hin. unfold ensureColumns. eapply step_bind.
  { apply (step_query (stage facts)). by intros s []. }
  intros existing. eapply step_bind with (Q := λ l s, stage facts s ∧ existing = default ∅ (sc_tables s !! table) ∧
    l ≡ₚ map_to_list (new_columns table)).
  { intros c [Hs Hex]. unfold wp, range_columns. cbn. split; [done|]. split; [done|]. apply range_perm. }
  intros l. destruct (decide (l ≡ₚ map_to_list (new_columns table))) as [Hl|Hl].
  2: { intros c (_ & _ & Hl'). done. }
  eapply step_conseq; [| |apply (step_add_columns table existing l facts ∅ Ha)].
  - intros s ([Hk Hh] & -> & _). split; [done|]. destruct (Hh table ∅ Hin) as (c & Hc & _).
    rewrite Hc. cbn. split; [|exists c; set_solver]. exists c. by split.
  - intros [] s [[Hk Hh] Hhas]. split; [done|]. intros t cs [[= -> ->]|Hin']%elem_of_cons; [|by apply Hh].
    destruct Hhas as (c & Hc & Hsub). exists c. split; [done|]. intros n Hn. apply Hsub, elem_of_union_r.
    apply elem_of_dom in Hn as [typ Hn]. apply elem_of_list_to_set, list_elem_of_fmap. exists (n, typ).
    split; [done|]. rewrite Hl. by apply elem_of_map_to_list.
  - rewrite Hl. apply NoDup_fst_map_to_list.
  - intros n t Hnt. rewrite Hl in Hnt. by apply elem_of_map_to_list.
Qed.

(** ** Loops that complete one row at a time *)

Section Loop.
Context {K X : Type} `{Countable K}.
Context (read : schema → gmap K raw_row) (write : gmap K raw_row → schema → schema).
Context (read_write : ∀ t s, read (write t s) = t).
Context (lacks : raw_row → bool) (timed' : raw_row → option raw_row).
Context (key : X → K) (matches : X → raw_row → Prop) (f : X → SM unit).
Context (P : schema → Prop).
Context (P_keeps : ∀ s, P s → keeps s).
Context (f_run : ∀ x r (Pr : schema → Prop),
  (∀ s, Pr s → keeps s ∧ read s !! key x = Some r) → matches x r → lacks r = true →
  (timed' r = None → ∀ s, Pr s → fine → False) →
  step Pr (f x) (λ _ s', ∃ r' s, Pr s ∧ timed' r = Some r' ∧ s' = write (<[key x := r']> (read s)) s)).
Context (P_keep : ∀ s k r r', P s → read s !! k = Some r → lacks r = true → timed' r = Some r' →
  P (write (<[k := r']> (read s)) s)).
#[local] Set Default Proof Using "Type*".

Definition row_ready (t : gmap K raw_row) (x : X) : Prop :=
  ∃ r, t !! key x = Some r ∧ matches x r ∧ lacks r = true ∧ (timed' r = None → fine → False).

Definition loop_result (t : gmap K raw_row) (ks : list K) (t' : gmap K raw_row) : Prop :=
  ∀ k r, t' !! k = Some r → ∃ r0, t !! k = Some r0 ∧
    ((k ∈ ks ∧ timed' r0 = Some r) ∨ ((k ∉ ks) ∧ r0 = r)).

Lemma step_loop l t :
  NoDup (key <$> l) → (∀ x, x ∈ l → row_ready t x) →
  step (λ s, P s ∧ read s = t) (for_each f l) (λ _ s, P s ∧ loop_result t (key <$> l) (read s)).
Proof.
  revert t. induction l as [|x l IH]; intros t Hnd Hrows; cbn [for_each].
  { apply step_ret. intros s [Hs <-]. split; [done|]. intros k r Hr. exists r. split; [done|]. right.
    split; [apply not_elem_of_nil|done]. }
  cbn [fmap list_fmap] in *. apply NoDup_cons in Hnd as [Hx Hnd].
  destruct (Hrows x ltac:(left)) as (r & Hr & Hm & Hl & Hno).
  eapply step_bind.
  - apply (f_run x r (λ s, P s ∧ read s = t)); [|done|done|].
    + intros s [Hs <-]. split; [by apply P_keeps|done].
    + intros Ht s _. by apply Hno.
  - intros []. destruct (timed' r) as [r'|] eqn:Ht; cycle 1.
    { intros c (r' & s & _ & Hr' & _). done. }
    eapply step_conseq; [| |apply (IH (<[key x := r']> t) Hnd)].
    + intros s (r2 & s1 & [Hs1 Hread] & [= <-] & ->). rewrite <- Hread. split; [|apply read_write].
      eapply P_keep; [done| |exact Hl|exact Ht]. by rewrite Hread.
    + intros [] s [Hs Hres]. split; [done|]. intros k rk Hk. destruct (Hres k rk Hk) as (r0 & Hr0 & Hcase).
      destruct (decide (k = key x)) as [->|Hne].
      * rewrite lookup_insert_eq in Hr0. injection Hr0 as <-. exists r. split; [done|]. left.
        split; [left|]. destruct Hcase as [[Hin _]|[_ <-]]; [done|done].
      * rewrite lookup_insert_ne in Hr0 by done. exists r0. split; [done|].
        destruct Hcase as [[Hin Ht0]|[Hnin <-]]; [left; split; [by right|done]|right].
        split; [|done]. by apply not_elem_of_cons.
    + intros y Hy. destruct (Hrows y ltac:(by right)) as (ry & Hry & Hrest). exists ry. split; [|done].
      rewrite lookup_insert_ne; [done|]. intros Heq. apply Hx. rewrite Heq. by apply list_elem_of_fmap_2.
Qed.

End Loop.

(** ** The times of the events *)

Lemma alter_insert_row {K} `{Countable K} (g : raw_row → raw_row) k r (t : gmap K raw_row) :
  t !! k = Some r → alter g k t = <[k := g r]> t.
Proof.
  intros Hr. apply map_eq. intros k'. destruct (decide (k = k')) as [<-|Hne].
  - by rewrite lookup_alter_eq, lookup_insert_eq, Hr.
  - by rewrite lookup_alter_ne, lookup_insert_ne.
Qed.

Definition event_matches (x : string * string * option string) (r : raw_row) : Prop :=
  scan_event (x.1.1, r) = Some x.

Lemma backfill_event_step x r (Pr : schema → Prop) :
  (∀ s, Pr s → keeps s ∧ sc_events s !! x.1.1 = Some r) → event_matches x r → lacks_times r = true →
  (timed r = None → ∀ s, Pr s → fine → False) →
  step Pr (backfill_event x) (λ _ s', ∃ r' s, Pr s ∧ timed r = Some r' ∧
    s' = set_event_rows (<[x.1.1 := r']> (sc_events s)) s).
Proof.
  intros HP Hm Hl Hno. destruct x as [[id received] processed]. unfold event_matches, scan_event in Hm.
  cbn [fst snd] in *. destruct (cast_text (col "received_at" r)) as [rec|] eqn:Hrec; [|done].
  injection Hm as -> Hproc. unfold timed in *. rewrite Hl in *. unfold received_ms in *. rewrite Hrec in *.
  cbn [mbind option_bind] in *. unfold backfill_event.
  destruct (parseSQLiteTime received) as [t|] eqn:Ht; cbn in Hno; cycle 1.
  { apply step_fail. intros s Hs. split; [by apply HP|]. by apply (Hno eq_refl s). }
  cbn [fmap option_fmap option_map mbind option_bind] in *. unfold processed_ms in *. rewrite Hproc in *.
  eapply step_bind with (Q := λ v s, Pr s ∧ match processed with
    | None | Some "" => Some VNull
    | Some raw => (λ t, VInt (unix_milli t)) <$> parseSQLiteTime raw end = Some v).
  - destruct processed as [[|a raw]|]; [by apply step_ret| |by apply step_ret].
    destruct (parseSQLiteTime (String a raw)); [by apply step_ret|]. apply step_fail.
    intros s Hs. split; [by apply HP|]. by apply (Hno eq_refl s).
  - intros v. apply step_stmt; [|intros s s' [Hs Hv] [= <-]|done].
    + intros s [Hs _]. by apply HP.
    + rewrite Hv. cbn. exists (set_times (unix_milli t) v r), s. do 2 (split; [done|]).
      rewrite (alter_insert_row _ _ r); [done|]. by apply HP.
Qed.

Lemma keeps_event s id r : keeps s → sc_events s !! id = Some r →
  ∃ r0, sc_events s0 !! id = Some r0 ∧ event_goal r0 = event_goal r.
Proof.
  intros [_ []] Hr. assert ((event_goal <$> sc_events s) !! id = Some (event_goal r)) as Hg by (by rewrite lookup_fmap, Hr).
  rewrite st_events0, lookup_fmap in Hg. destruct (sc_events s0 !! id) as [r0|]; [|done]. exists r0. by injection Hg as <-.
Qed.

Lemma keeps_log s id r : keeps s → sc_logs s !! id = Some r →
  ∃ r0, sc_logs s0 !! id = Some r0 ∧ log_goal r0 = log_goal r.
Proof.
  intros [_ []] Hr. assert ((log_goal <$> sc_logs s) !! id = Some (log_goal r)) as Hg by (by rewrite lookup_fmap, Hr).
  rewrite st_logs0, lookup_fmap in Hg. destruct (sc_logs s0 !! id) as [r0|]; [|done]. exists r0. by injection Hg as <-.
Qed.

(** In a stage with all columns every row is complete. *)
Definition columned (table : string) (facts : list (string * gset string)) : Prop :=
  (table, dom (new_columns table)) ∈ facts.

Lemma rows_complete {K} `{Countable K} table facts s (t : gmap K raw_row) k r :
  columned table facts → haves facts s → rows_fit (sc_tables s !! table) t → t !! k = Some r → complete table r = r.
Proof.
  intros Hc Hh Hf Hr. destruct (Hh _ _ Hc) as (cols & Hcols & Hsub). specialize (Hf k r Hr).
  rewrite Hcols in Hf. injection Hf as ->. apply complete_full. unfold defaults. by rewrite dom_fmap_L.
Qed.

Lemma event_complete facts s id r :
  columned "events" facts → stage facts s → sc_events s !! id = Some r → complete "events" r = r.
Proof. intros Hc [[[] _] Hh] Hr. by eapply rows_complete. Qed.

Lemma log_complete facts s id r :
  columned "action_logs" facts → stage facts s → sc_logs s !! id = Some r → complete "action_logs" r = r.
Proof. intros Hc [[[] _] Hh] Hr. by eapply rows_complete. Qed.

Lemma goal_insert {K A} `{Countable K} (g : raw_row → A) k r r' (t : gmap K raw_row) :
  t !! k = Some r → g r' = g r → g <$> <[k := r']> t = g <$> t.
Proof.
  intros Hr Hg. rewrite fmap_insert, Hg. apply map_eq. intros k'. destruct (decide (k = k')) as [<-|Hne].
  - by rewrite lookup_insert_eq, lookup_fmap, Hr.
  - by rewrite lookup_insert_ne.
Qed.

Lemma rows_fit_insert {K} `{Countable K} cols k r r' (t : gmap K raw_row) :
  t !! k = Some r → dom r' = dom r → rows_fit cols t → rows_fit cols (<[k := r']> t).
Proof.
  intros Hr Hd Hf k' x. destruct (decide (k = k')) as [<-|Hne].
  - rewrite lookup_insert_eq. intros [= <-]. rewrite Hd. by eapply Hf.
  - rewrite lookup_insert_ne by done. apply Hf.
Qed.

(** An event row is replaced by one with the same columns and goal. *)
Lemma event_row_keeps facts s id r r' :
  stage facts s → sc_events s !! id = Some r → dom r' = dom r → event_goal r' = event_goal r →
  stage facts (set_event_rows (<[id := r']> (sc_events s)) s).
Proof.
  intros [Hk Hh] Hr Hd Hg. split; [|exact Hh]. apply (keeps_change s); [done| |].
  - destruct Hk as [[We Wl Wr] _]. split; try done. by eapply rows_fit_insert.
  - split; try done. by eapply goal_insert.
Qed.

Lemma log_row_keeps facts s id r r' :
  stage facts s → sc_logs s !! id = Some r → dom r' = dom r → log_goal r' = log_goal r →
  stage facts (set_log_rows (<[id := r']> (sc_logs s)) s).
Proof.
  intros [Hk Hh] Hr Hd Hg. split; [|exact Hh]. apply (keeps_change s); [done| |].
  - destruct Hk as [[We Wl Wr] _]. split; try done. by eapply rows_fit_insert.
  - split; try done. by eapply goal_insert.
Qed.

End Run.
