(* ===== verification/MigrationLoops.v ===== *)
(** * The two loops of backfillEpochColumns, and migrate as a whole

    A loop selects rows that lack a time, scans them, and writes each one
    back; [Selection] treats both, and the end of the file puts the stages of
    [migrate] together. *)

From S2P Require Import Prelude GoLib GoTime Sql Migration MigrationSteps MigrationRun.

Section Steps.
Context `{Env, SqlOrder, MapOrder, SqliteTime, Scan}.
Context (s0 : schema).
#[local] Abbreviation SM := (M (conn schema) store_err).

(** The first loop of a function: its three parts, then the rest *)
Lemma step_seq3 {A B C} (P : schema → Prop) (m : SM A) (f : A → SM B) (g : B → SM unit) (k : SM C) Q R :
  step s0 P (x ← m; y ← f x; g y) Q → step s0 (Q tt) k R → step s0 P (x ← m; y ← f x; _ ← g y; k) R.
Proof.
  intros Hm Hk c Hc. specialize (Hm c Hc). unfold wp, mbind, M_bind in *. destruct (m c) as [[a|e] c1]; [|done].
  destruct (f a c1) as [[b|e] c2]; [|done]. destruct (g b c2) as [[[]|e] c3]; [|done]. by apply Hk.
Qed.

Lemma step_and {A} (P : schema → Prop) (F : Prop) (m : SM A) Q :
  (F → step s0 P m Q) → step s0 (λ s, P s ∧ F) m Q.
Proof. intros Hm c [Hc HF]. by apply Hm. Qed.

(** ** A loop over selected rows *)

Section Selection.
Context {K X : Type} `{Countable K}.
Context (read : schema → gmap K raw_row) (write : gmap K raw_row → schema → schema).
Context (read_write : ∀ t s, read (write t s) = t).
Context (lacks : raw_row → bool) (timed' : raw_row → option raw_row).
Context (timed'_full : ∀ r, lacks r = false → timed' r = Some r).
Context (timed'_idem : ∀ r r', timed' r = Some r' → timed' r' = Some r').
Context (key : X → K) (scan : K * raw_row → option X) (f : X → SM unit).
Context (scan_key : ∀ k r x, scan (k, r) = Some x → key x = k).
Context (scan_none : ∀ k r, scan (k, r) = None → lacks r = true → timed' r = None).
Context (P : schema → Prop).
Context (P_keeps : ∀ s, P s → keeps s0 s).
Context (P_fine : ∀ s k r, P s → read s !! k = Some r → timed' r = None → fine s0 → False).
Context (P_keep : ∀ s k r r', P s → read s !! k = Some r → lacks r = true → timed' r = Some r' →
  P (write (<[k := r']> (read s)) s)).

Definition scanned_from (x : X) (r : raw_row) : Prop := scan (key x, r) = Some x.

Context (f_run : ∀ x r (Pr : schema → Prop),
  (∀ s, Pr s → keeps s0 s ∧ read s !! key x = Some r) → scanned_from x r → lacks r = true →
  (timed' r = None → ∀ s, Pr s → fine s0 → False) →
  step s0 Pr (f x) (λ _ s', ∃ r' s, Pr s ∧ timed' r = Some r' ∧ s' = write (<[key x := r']> (read s)) s)).
#[local] Set Default Proof Using "Type*".

Definition lacking_rows (s : schema) : list (K * raw_row) := map_to_list (select (λ (_ : K) r, lacks r) (read s)).

Definition delivered (rows : list (K * raw_row)) (s : schema) : Prop :=
  (∃ rest, rows ++ rest ≡ₚ lacking_rows s) ∧ (scans_complete → rows ≡ₚ lacking_rows s).

Lemma elem_of_lacking k r s : (k, r) ∈ lacking_rows s ↔ read s !! k = Some r ∧ lacks r = true.
Proof.
  unfold lacking_rows. rewrite elem_of_map_to_list, select_lookup_Some. by destruct (lacks r); split; intros [].
Qed.

Lemma delivered_elem rows s k r : delivered rows s → (k, r) ∈ rows → read s !! k = Some r ∧ lacks r = true.
Proof. intros [[rest Hp] _] Hin. apply elem_of_lacking. rewrite <- Hp. apply elem_of_app. by left. Qed.

Lemma delivered_NoDup rows s : delivered rows s → NoDup rows.*1.
Proof.
  intros [[rest Hp] _]. assert (NoDup (rows ++ rest).*1) as Hnd.
  { rewrite Hp. apply NoDup_fst_map_to_list. }
  rewrite fmap_app in Hnd. by apply NoDup_app in Hnd as [Hnd _].
Qed.

(** The scanned rows have the keys of the rows, in their order. *)
Lemma mapM_keys rows l : mapM scan rows = Some l →
  key <$> l = rows.*1 ∧ ∀ x, x ∈ l → ∃ k r, (k, r) ∈ rows ∧ scan (k, r) = Some x.
Proof.
  intros Hm%mapM_Some_1. induction Hm as [|[k r] x rows l Hx Hm [IHk IH]]; cbn.
  { split; [done|]. by intros x Hx%elem_of_nil. }
  split.
  - by rewrite IHk, (scan_key _ _ _ Hx).
  - intros y [->|Hy]%elem_of_cons; [exists k, r; split; [left|done]|].
    destruct (IH y Hy) as (k' & r' & Hin & Hs). exists k', r'. split; [by right|done].
Qed.

Lemma step_selected rows :
  step s0 (λ s, P s ∧ delivered rows s) (xs ← scanned scan rows; for_each f xs)
    (λ _ s, P s ∧ (scans_complete → ∀ k r, read s !! k = Some r → timed' r = Some r)).
Proof.
  eapply step_bind; [apply step_scanned|].
  - intros s [Hs Hd]. split; [by apply P_keeps|]. intros Hnone.
    apply mapM_None_1, Exists_exists in Hnone as ([k r] & Hin & Hscan).
    destruct (delivered_elem _ _ _ _ Hd Hin) as [Hr Hl]. by eapply P_fine, scan_none.
  - intros xs. apply step_and. intros Hm. destruct (mapM_keys rows xs Hm) as [Hkeys Helem].
    intros c [HP Hd]. pose proof (delivered_NoDup _ _ Hd) as Hnd. rewrite <- Hkeys in Hnd.
    eapply wp_mono.
    + refine (step_loop s0 read write read_write lacks timed' key scanned_from f P P_keeps f_run P_keep xs
        (read (cn_db c)) Hnd _ c _); [|done].
      intros x (k & r & Hin & Hscan)%Helem. destruct (delivered_elem _ _ _ _ Hd Hin) as [Hr Hl].
      pose proof (scan_key _ _ _ Hscan) as Hk. subst k. exists r. do 3 (split; [done|]). intros Hno. by eapply P_fine.
    + intros [[]|e] c' Hr; [|exact Hr]. destruct Hr as [HP' Hres]. split; [done|].
      intros Hall k r Hk. destruct (Hres k r Hk) as (r0 & Hr0 & [[_ Ht]|[Hnin <-]]); [by eapply timed'_idem|].
      apply timed'_full. destruct (lacks r0) eqn:Hl; [|done]. exfalso. apply Hnin. rewrite Hkeys.
      destruct Hd as [_ Hd]. apply list_elem_of_fmap. exists (k, r0).
      split; [done|]. rewrite (Hd Hall). by apply elem_of_lacking.
Qed.

End Selection.

(** ** The stages *)

#[local] Open Scope string_scope.

Context (facts : list (string * gset string)).
Context (events_columned : columned "events" facts) (logs_columned : columned "action_logs" facts).

Lemma rows_fit_fmap {K} `{Countable K} cols (g : raw_row → raw_row) (t : gmap K raw_row) :
  (∀ k r, t !! k = Some r → dom (g r) = dom r) → rows_fit cols t → rows_fit cols (g <$> t).
Proof.
  intros Hg Hf k r Hr. apply lookup_fmap_Some in Hr as (r0 & <- & Hr). rewrite (Hg k r0 Hr). by apply (Hf k).
Qed.

Lemma goal_fmap {K A} `{Countable K} (goal : raw_row → A) (g : raw_row → raw_row) (t : gmap K raw_row) :
  (∀ k r, t !! k = Some r → goal (g r) = goal r) → goal <$> (g <$> t) = goal <$> t.
Proof. intros Hg. rewrite <- map_fmap_compose. by apply map_fmap_ext. Qed.

Lemma event_rows_keep (g : raw_row → raw_row) s :
  (∀ r, complete "events" r = r → dom (g r) = dom r ∧ event_goal (g r) = event_goal r) →
  stage s0 facts s → stage s0 facts (set_event_rows (g <$> sc_events s) s).
Proof using events_columned.
  intros Hg Hs. pose proof Hs as [Hk Hh]. split; [|exact Hh].
  assert (∀ k r, sc_events s !! k = Some r → dom (g r) = dom r ∧ event_goal (g r) = event_goal r) as Hrow.
  { intros k r Hr. by apply Hg, (event_complete s0 facts s k). }
  apply (keeps_change s0 s); [done| |].
  - destruct Hk as [[We Wl Wr] _]. split; [|done..]. apply rows_fit_fmap; [|done]. intros k r Hr. by apply (Hrow k).
  - split; try done. apply goal_fmap. intros k r Hr. by apply (Hrow k).
Qed.

Lemma log_rows_keep (g : raw_row → raw_row) s :
  (∀ r, complete "action_logs" r = r → dom (g r) = dom r ∧ log_goal (g r) = log_goal r) →
  stage s0 facts s → stage s0 facts (set_log_rows (g <$> sc_logs s) s).
Proof using logs_columned.
  intros Hg Hs. pose proof Hs as [Hk Hh]. split; [|exact Hh].
  assert (∀ k r, sc_logs s !! k = Some r → dom (g r) = dom r ∧ log_goal (g r) = log_goal r) as Hrow.
  { intros k r Hr. by apply Hg, (log_complete s0 facts s k). }
  apply (keeps_change s0 s); [done| |].
  - destruct Hk as [[We Wl Wr] _]. split; [done| |done]. apply rows_fit_fmap; [|done]. intros k r Hr. by apply (Hrow k).
  - split; try done. apply goal_fmap. intros k r Hr. by apply (Hrow k).
Qed.

(** *** The times of the events *)

Definition all_timed (s : schema) : Prop := ∀ id r, sc_events s !! id = Some r → timed r = Some r.

Lemma timed_full r : lacks_times r = false → timed r = Some r.
Proof. intros Hl. unfold timed. by rewrite Hl. Qed.

Lemma timed_fine s id r :
  stage s0 facts s → sc_events s !! id = Some r → timed r = None → fine s0 → False.
Proof using events_columned.
  intros Hs Hr Ht (_ & _ & Hread). destruct (keeps_event s0 s id r) as (r0 & Hr0 & Hg); [by destruct Hs|done|].
  destruct (rd_events _ Hread id r0 Hr0) as [g Hsome]. rewrite Hg, event_goal_complete, Ht in Hsome; [done|].
  by apply (event_complete s0 facts s id).
Qed.

Lemma scan_event_none id r : scan_event (id, r) = None → lacks_times r = true → timed r = None.
Proof.
  unfold scan_event, timed, received_ms. cbn. intros Hs ->. by destruct (cast_text (col "received_at" r)).
Qed.

Lemma scan_event_key id r x : scan_event (id, r) = Some x → x.1.1 = id.
Proof. unfold scan_event. cbn. destruct (cast_text (col "received_at" r)); [|done]. by intros [= <-]. Qed.

Lemma step_events :
  step s0 (stage s0 facts)
    (rows ← scan_rows (λ s, map_to_list (select (λ (_ : string) r, lacks_times r) (sc_events s)));
     events ← scanned scan_event rows; for_each backfill_event events)
    (λ _ s, stage s0 facts s ∧ (scans_complete → all_timed s)).
Proof using events_columned.
  eapply step_bind; [apply step_scan; by intros s []|]. intros rows.
  apply (step_selected sc_events set_event_rows (λ _ _, eq_refl) lacks_times timed timed_full timed_idem
    (λ x, x.1.1) scan_event backfill_event scan_event_key scan_event_none (stage s0 facts)).
  - by intros s [].
  - apply timed_fine.
  - intros s k r r' Hs Hr _ Ht. pose proof (event_complete s0 facts s k r events_columned Hs Hr) as Hc.
    eapply event_row_keeps; [done|done|by apply timed_complete|by apply event_goal_timed].
  - intros x r Pr. apply backfill_event_step.
Qed.

(** *** The times of the action logs *)

Definition times_stage (s : schema) : Prop := stage s0 facts s ∧ (scans_complete → all_timed s).

Definition logs_stage (s : schema) : Prop :=
  times_stage s ∧ ∀ id r, sc_logs s !! id = Some r → log_strftime r = r.

Definition all_logs_timed (s : schema) : Prop := ∀ id r, sc_logs s !! id = Some r → log_timed r = Some r.

Lemma step_strftime :
  step s0 times_stage (stmt (λ s, Some (set_log_rows (log_strftime <$> sc_logs s) s))) (λ _, logs_stage).
Proof using logs_columned.
  apply step_stmt; [by intros s [[]]| |done]. intros s s' [Hs Ht] [= <-]. split; [split; [|exact Ht]|].
  - apply log_rows_keep; [|done]. intros r Hr. split; [|by apply log_goal_strftime].
    by apply log_strftime_dom, created_complete.
  - intros id r Hr. apply lookup_fmap_Some in Hr as (r0 & <- & _). apply log_strftime_idem.
Qed.

Lemma log_timed_full r : is_null (col "created_at_ms" r) = false → log_timed r = Some r.
Proof. intros Hl. unfold log_timed. by rewrite Hl. Qed.

Lemma scan_log_key id r x : scan_log (id, r) = Some x → x.1 = id.
Proof. unfold scan_log. cbn. destruct (cast_text _); [|done]. by intros [= <-]. Qed.

Lemma scan_log_none id r : scan_log (id, r) = None → is_null (col "created_at_ms" r) = true → log_timed r = None.
Proof. unfold scan_log, log_timed. cbn. intros Hs ->. by destruct (cast_text _). Qed.

Lemma log_timed_fine s id r :
  logs_stage s → sc_logs s !! id = Some r → log_timed r = None → fine s0 → False.
Proof using logs_columned.
  intros [[Hs _] Hstrf] Hr Ht (_ & _ & Hread).
  destruct (keeps_log s0 s id r) as (r0 & Hr0 & Hg); [by destruct Hs|done|].
  destruct (rd_logs _ Hread id r0 Hr0) as [g Hsome]. unfold log_goal at 1 in Hg.
  fold (log_goal r0) in Hg. rewrite Hg in Hsome. unfold log_goal in Hsome.
  rewrite (log_complete s0 facts s id r), (Hstrf id r Hr), Ht in Hsome by done. done.
Qed.

Lemma backfill_log_step x r (Pr : schema → Prop) :
  (∀ s, Pr s → keeps s0 s ∧ sc_logs s !! x.1 = Some r) → scan_log (x.1, r) = Some x →
  is_null (col "created_at_ms" r) = true → (log_timed r = None → ∀ s, Pr s → fine s0 → False) →
  step s0 Pr (backfill_log x) (λ _ s', ∃ r' s, Pr s ∧ log_timed r = Some r' ∧
    s' = set_log_rows (<[x.1 := r']> (sc_logs s)) s).
Proof.
  intros HP Hm Hl Hno. destruct x as [id created]. unfold scan_log in Hm. cbn [fst snd] in *.
  unfold log_timed in *. rewrite Hl in *. destruct (cast_text (col "created_at" r)); [|done]. injection Hm as ->.
  cbn [mbind option_bind] in *. unfold backfill_log.
  destruct (parseSQLiteTime created) as [t|]; cbn [mbind option_bind] in *; cycle 1.
  { apply step_fail. intros s Hs. split; [by apply HP|]. by apply (Hno eq_refl s). }
  apply step_stmt; [by intros s Hs; apply HP| |done]. intros s s' Hs [= <-].
  eexists _, s. do 2 (split; [done|]). rewrite (alter_insert_row _ _ r); [done|]. by apply HP.
Qed.

Lemma step_logs :
  step s0 logs_stage
    (rows ← scan_rows (λ s, map_to_list (select (λ (_ : Z) r, is_null (col "created_at_ms" r)) (sc_logs s)));
     logs ← scanned scan_log rows; for_each backfill_log logs)
    (λ _ s, times_stage s ∧ (scans_complete → all_logs_timed s)).
Proof using logs_columned.
  eapply step_bind; [apply step_scan; by intros s [[[]]]|]. intros rows.
  eapply (step_conseq s0 _ _ _ _ (λ _ s, logs_stage s ∧ (scans_complete → all_logs_timed s)));
    [by intros s Hs; exact Hs|by intros [] s [[] ]|].
  apply (step_selected sc_logs set_log_rows (λ _ _, eq_refl) (λ r, is_null (col "created_at_ms" r)) log_timed
    log_timed_full (λ r r' Hr, proj1 (log_timed_idem r r' Hr))
    fst scan_log backfill_log scan_log_key scan_log_none logs_stage).
  - by intros s [[[]]].
  - apply log_timed_fine.
  - intros s k r r' [[Hs Ht] Hstrf] Hr _ Hlt. pose proof (log_complete s0 facts s k r logs_columned Hs Hr) as Hc.
    destruct (log_goal_timed r r' Hc (Hstrf k r Hr) Hlt) as (Hg & _ & Hi). split; [split; [|exact Ht]|].
    + eapply log_row_keeps; [done|done| |exact Hg]. by apply log_timed_dom, created_complete.
    + intros k' r2. cbn [sc_logs set_log_rows]. destruct (decide (k = k')) as [<-|Hne].
      * rewrite lookup_insert_eq. by intros [= <-].
      * rewrite lookup_insert_ne by done. apply Hstrf.
  - intros x r Pr. apply backfill_log_step.
Qed.

Lemma step_backfill :
  step s0 (stage s0 facts) backfillEpochColumns
    (λ _ s, times_stage s ∧ (scans_complete → all_logs_timed s)).
Proof using events_columned logs_columned.
  unfold backfillEpochColumns.
  apply step_seq3 with (Q := λ _, times_stage); [apply step_events|].
  eapply step_bind; [apply step_strftime|]. intros []. apply step_logs.
Qed.

(** *** The indexes *)

(** Every row is what the migration makes of it. *)
Definition rows_stage (s : schema) : Prop :=
  stage s0 facts s ∧ (scans_complete → ∀ id r, sc_events s !! id = Some r → event_goal r = Some r) ∧
  (scans_complete → ∀ id r, sc_logs s !! id = Some r → log_goal r = Some r) ∧
  "idx_events_hmac_body" ∉ sc_indexes s.

Lemma indexes_keep s i :
  stage s0 facts s → indexes_goal i = indexes_goal (sc_indexes s) → stage s0 facts (set_indexes i s).
Proof.
  intros [Hk Hh] Hi. split; [|exact Hh]. apply (keeps_change s0 s); [done| |by split].
  destruct Hk as [[We Wl Wr] _]. by split.
Qed.

(** The goal of a whole table that no row of which changes any more *)
Lemma goal_done {K} `{Countable K} (goal : raw_row → option raw_row) (t t0 : gmap K raw_row) :
  goal <$> t = goal <$> t0 → (∀ k r, t !! k = Some r → goal r = Some r) →
  Some <$> t = goal <$> t0 ∧ omap goal t0 = t.
Proof.
  intros Hg Hr. assert (Some <$> t = goal <$> t) as Hs.
  { apply map_fmap_ext. intros k r Hk. by rewrite (Hr k r Hk). }
  split; [by rewrite Hs|]. apply map_eq. intros k. rewrite lookup_omap.
  assert ((Some <$> t) !! k = (goal <$> t0) !! k) as Hk by (by rewrite Hs, Hg).
  rewrite !lookup_fmap in Hk. destruct (t !! k), (t0 !! k); naive_solver.
Qed.

Lemma create_index_fine name s :
  rows_stage s → create_index name s = None → fine s0 → False.
Proof.
  intros ([[_ Ht] _] & Hrows & _) Hc (_ & Hall & Hread). unfold create_index in Hc.
  case_bool_decide; [done|]. destruct (_ && _) eqn:E; [|done]. apply andb_true_iff in E as [_ Hu].
  apply negb_true_iff, bool_decide_eq_false in Hu. apply Hu.
  destruct (goal_done event_goal (sc_events s) (sc_events s0)) as [_ <-]; [by apply st_events|by apply Hrows|].
  by apply rd_unique.
Qed.

Lemma step_indexes l got :
  l ⊆ index_names →
  step s0 (λ s, rows_stage s ∧ got ⊆ sc_indexes s) (stmts (create_index <$> l))
    (λ _ s, rows_stage s ∧ got ∪ list_to_set l ⊆ sc_indexes s).
Proof using events_columned logs_columned.
  revert got. induction l as [|name l IH]; intros got Hl; cbn [fmap list_fmap stmts].
  { apply step_ret. intros s [Hs Hg]. split; [done|]. set_solver. }
  eapply step_bind with (Q := λ _ s, rows_stage s ∧ got ∪ {[name]} ⊆ sc_indexes s).
  - apply step_stmt; [by intros s [[[]]]| |].
    + intros s s' [(Hs & He & Hlog & Hd) Hg]. unfold create_index. case_bool_decide as Hin.
      { intros [= <-]. split; [done|]. set_solver. }
      destruct (_ && _); [done|]. intros [= <-].
      assert (name ∈ index_names) as Hname by (apply Hl; left).
      split; [|cbn [sc_indexes set_indexes]; set_solver]. split; [|split; [done|split; [done|]]].
      * apply indexes_keep; [done|]. by apply indexes_goal_add.
      * cbn [sc_indexes set_indexes]. assert ("idx_events_hmac_body" ∉ index_names) as Hnot.
        { apply (bool_decide_unpack _). by vm_compute. }
        set_solver.
    + intros s [Hs _] Hnone. by eapply create_index_fine.
  - intros []. eapply step_conseq; [by intros s Hs; exact Hs| |apply IH; set_solver].
    intros [] s [Hs Hg]. split; [done|]. set_solver.
Qed.

Lemma step_finish :
  step s0 (λ s, times_stage s ∧ (scans_complete → all_logs_timed s))
    (_ ← stmt (λ s, Some (set_indexes (sc_indexes s ∖ {["idx_events_hmac_body"]}) s));
     _ ← stmt (λ s, Some (set_event_rows (fix_status <$> sc_events s) s));
     stmts (create_index <$> index_names))
    (λ _ s, rows_stage s ∧ list_to_set index_names ⊆ sc_indexes s).
Proof using events_columned logs_columned.
  eapply step_bind with (Q := λ _ s, (times_stage s ∧ (scans_complete → all_logs_timed s)) ∧
    "idx_events_hmac_body" ∉ sc_indexes s).
  { apply step_stmt; [by intros s [[[]]]| |done]. intros s s' [[Hs Ht] Hl] [= <-].
    split; [split; [split; [|exact Ht]|exact Hl]|cbn [sc_indexes set_indexes]; set_solver].
    apply indexes_keep; [done|]. apply indexes_goal_drop. }
  intros []. eapply step_bind with (Q := λ _ s, rows_stage s ∧ ∅ ⊆ sc_indexes s).
  - apply step_stmt; [by intros s [[[[]]]]| |done]. intros s s' [[[Hs Ht] Hl] Hd] [= <-].
    assert (stage s0 facts (set_event_rows (fix_status <$> sc_events s) s)) as Hs'.
    { apply event_rows_keep; [|done]. intros r Hr. split; [apply fix_status_dom|by apply event_goal_status]. }
    split; [|set_solver]. split; [done|]. split; [|split; [|done]].
    + intros Hall id r Hr. rewrite event_goal_complete by (by eapply (event_complete s0 facts)).
      apply lookup_fmap_Some in Hr as (r0 & <- & Hr0). apply timed_fix_status, (Ht Hall id r0 Hr0).
    + intros Hall id r Hr. cbn [sc_logs set_event_rows] in Hr. specialize (Hl Hall id r Hr).
      destruct (log_timed_idem r r Hl) as [_ Hn]. unfold log_goal.
      by rewrite (log_complete s0 facts s id r), (log_strftime_some r Hn).
  - intros []. eapply step_conseq; [by intros s Hs; exact Hs| |by apply (step_indexes index_names ∅)].
    intros [] s [Hs Hg]. split; [done|]. set_solver.
Qed.

End Steps.
