(* ===== verification/MigrationProps.v ===== *)
(** * The migration of older databases: what it achieves

    [migrate_spec] says what an opened database holds, that an interrupted
    start loses nothing and can be repeated, and when the start succeeds;
    [parseSQLiteTime_legacy] that the times older releases wrote are read back
    exactly; [cut_scan] shows a start that succeeds although a broken off
    SELECT has left events without their times. *)

From S2P Require Import Prelude GoLib GoTime TimeText LegacyTime Sql Migration MigrationSteps MigrationRun MigrationLoops HttpProps.

#[local] Open Scope string_scope.

(** ** migrate *)

(** What becomes of an event: it has a reception time in milliseconds and no
    status of an older release, and every column but those of the times and
    the status is as it was, or as its declaration says where it is new. *)
Definition upgraded_row (r r' : raw_row) : Prop :=
  is_null (col "received_at_ms" r') = false ∧
  col "status" r' ≠ VText "received" ∧ col "status" r' ≠ VText "rejected" ∧
  ∀ c, c ≠ "received_at_ms" → c ≠ "processed_at_ms" → c ≠ "status" → col c r' = col c (complete "events" r).

Lemma event_goal_row r r' : event_goal r = Some r' → upgraded_row r r'.
Proof.
  unfold event_goal, upgraded_row. destruct (timed (complete "events" r)) as [t|] eqn:Ht; [|done]. intros [= <-].
  split; [|split; [|split]].
  - rewrite col_fix_status by done. by eapply timed_received.
  - unfold fix_status. destruct (_ || _) eqn:E; [by rewrite col_insert|].
    apply orb_false_iff in E as [E _]. by apply bool_decide_eq_false in E.
  - unfold fix_status. destruct (_ || _) eqn:E; [by rewrite col_insert|].
    apply orb_false_iff in E as [_ E]. by apply bool_decide_eq_false in E.
  - intros c H1 H2 H3. rewrite col_fix_status by done. by apply timed_col.
Qed.

Section Migrate.
Context `{Env, SqlOrder, MapOrder, SqliteTime, Scan}.

(** What an opened database holds, table by table and row by row *)
Record migrated (s0 s : schema) : Prop := {
  mg_tables : sc_tables s = tables_goal (sc_tables s0);
  mg_indexes : sc_indexes s = indexes_goal (sc_indexes s0);
  mg_events : Some <$> sc_events s = event_goal <$> sc_events s0;
  mg_logs : Some <$> sc_logs s = log_goal <$> sc_logs s0;
  mg_ready : sc_ready s = ready_goal <$> sc_ready s0;
  mg_rows : ∀ id r, sc_events s !! id = Some r → ∃ r0, sc_events s0 !! id = Some r0 ∧ upgraded_row r0 r;
}.

(** The columns every table has once they have been ensured *)
Definition ensured : list (string * gset string) :=
  ([("_ready_check", dom (new_columns "_ready_check")); ("action_logs", dom (new_columns "action_logs"));
   ("events", dom (new_columns "events"))] ++ reverse ((λ t, (t.1, ∅)) <$> base_tables) ++ [])%list.

Lemma ensured_base t cols : (t, cols) ∈ base_tables → (t, ∅) ∈ (reverse ((λ t, (t.1, ∅ : gset string)) <$> base_tables) ++ [])%list.
Proof. intros Hin. rewrite app_nil_r, elem_of_reverse. by apply (list_elem_of_fmap_2' _ _ (t, cols)). Qed.

Lemma base_map_lookup name cols : (name, cols) ∈ base_tables → base_map !! name = Some (list_to_set cols).
Proof.
  intros Hin. apply elem_of_list_to_map_1; [|by apply (list_elem_of_fmap_2' _ _ (name, cols))].
  apply (bool_decide_unpack _). by vm_compute.
Qed.

Lemma ensured_tables s0 s : stage s0 ensured s → tables_goal (sc_tables s) = sc_tables s.
Proof.
  intros [_ Hh]. unfold tables_goal. apply map_eq. intros k. rewrite map_lookup_imap, lookup_union.
  assert (∀ cols, (k, cols) ∈ base_tables → is_Some (sc_tables s !! k)) as Hbase.
  { intros cols Hin. destruct (Hh k ∅) as (c & Hc & _); [|by eexists].
    unfold ensured. apply elem_of_app. right. by eapply ensured_base. }
  destruct (sc_tables s !! k) as [cols|] eqn:Hk.
  - assert (Some cols ∪ base_map !! k = Some cols) as -> by (by destruct (base_map !! k)). cbn. f_equal.
    enough (dom (new_columns k) ⊆ cols) by set_solver.
    destruct (decide (k ∈ ["_ready_check"; "action_logs"; "events"])) as [Hin|Hin].
    + destruct (Hh k (dom (new_columns k))) as (c & Hc & Hsub);
        [|rewrite Hk in Hc; by injection Hc as <-].
      apply elem_of_app. left.
      repeat (apply elem_of_cons in Hin as [->|Hin]); [left|right; left|do 2 right; left|by apply elem_of_nil in Hin].
    + unfold new_columns. rewrite !bool_decide_false by (intros ->; apply Hin; rewrite !elem_of_cons; naive_solver).
      rewrite dom_empty_L. apply empty_subseteq.
  - destruct (base_map !! k) as [cols|] eqn:Hb; [|done]. exfalso.
    apply elem_of_list_to_map_2, list_elem_of_fmap in Hb as ([t c] & [= -> ->] & Hin).
    destruct (Hbase _ Hin) as [? ?]. done.
Qed.

Lemma migrate_step s0 :
  step s0 (stage s0 []) migrate (λ _ s, rows_stage s0 ensured s ∧ list_to_set index_names ⊆ sc_indexes s).
Proof.
  unfold migrate. eapply step_bind; [apply step_create, base_map_lookup|]. intros [].
  eapply step_bind; [apply step_ensure; [left|by eapply (ensured_base "events"); left]|]. intros [].
  eapply step_bind; [apply step_ensure; [right; left|right; by eapply (ensured_base "action_logs"); right; left]|].
  intros []. eapply step_bind; [apply step_ensure; [do 2 right; left|do 2 right; eapply (ensured_base "_ready_check")]|].
  { do 4 right. left. }
  intros []. assert (columned "events" ensured) as He by (do 2 right; left).
  assert (columned "action_logs" ensured) as Hl by (right; left).
  eapply step_bind; [by apply (step_backfill s0 ensured)|]. intros []. by apply step_finish.
Qed.

Lemma rows_stage_migrated s0 s :
  rows_stage s0 ensured s → list_to_set index_names ⊆ sc_indexes s → scans_complete → migrated s0 s.
Proof.
  intros (Hs & He & Hl & Hd) Hi Hall. pose proof Hs as [[Hw []] Hh]. split.
  - by rewrite <- st_tables, (ensured_tables s0).
  - rewrite <- st_indexes. unfold indexes_goal. set_solver.
  - by apply goal_done; [|apply He].
  - by apply goal_done; [|apply Hl].
  - rewrite <- st_ready. apply map_eq. intros k. rewrite lookup_fmap. destruct (sc_ready s !! k) as [r|] eqn:Hr; [|done].
    cbn. f_equal. symmetry. eapply (rows_complete "_ready_check" ensured s); [left|done|by apply wf_ready|done].
  - intros id r Hr. destruct (keeps_event s0 s id r) as (r0 & Hr0 & Hg); [by destruct Hs|done|].
    exists r0. split; [done|]. apply event_goal_row. rewrite Hg. by apply (He Hall id).
Qed.

(** One run of [migrate], whatever fails in it *)
Lemma migrate_outcome s0 c :
  wf (cn_db c) → same_target s0 (cn_db c) →
  let '(r, c') := migrate c in
  wf (cn_db c') ∧ same_target s0 (cn_db c') ∧
  (r = Ok tt → scans_complete → migrated s0 (cn_db c')) ∧
  (no_faults → scans_complete → readable s0 → r = Ok tt).
Proof.
  intros Hw Ht. assert (stage s0 [] (cn_db c)) as Hstage by (split; [by split|by intros t cols Hin%elem_of_nil]).
  pose proof (migrate_step s0 c Hstage) as Hrun. unfold wp in Hrun.
  destruct (migrate c) as [[[]|e] c']; cbn [fst snd] in Hrun.
  - destruct Hrun as [Hrows Hi]. pose proof Hrows as [[[Hw' Ht'] _] _]. do 2 (split; [done|]). split; [|done].
    intros _ Hall. by apply rows_stage_migrated.
  - destruct Hrun as [[Hw' Ht'] Hno]. do 2 (split; [done|]). split; [done|]. intros. by destruct Hno.
Qed.

(** C36: Opening a database of any earlier schema. [s0] is the file as
    the older release left it, and the start may find it partly migrated
    already (with the same target), as a start that was broken off leaves it.
    Whatever statement fails, the file stays well formed and its target where
    it was: no table, row or index is lost, and the next start takes over.
    When the start succeeds and its two SELECTs were delivered to the end, the
    file is the migrated one: every table and index of the schema is there,
    each event and action log has become [event_goal] and [log_goal] of its
    old row, with a time and a status that workers can claim it by, and nothing
    else has changed. And it does succeed, unless a statement fails, a SELECT
    is broken off, a stored time cannot be read or two events share a delivery
    id. *)
Theorem migrate_spec s0 c :
  wf (cn_db c) → same_target s0 (cn_db c) →
  let '(r, c') := migrate c in
  wf (cn_db c') ∧ same_target s0 (cn_db c') ∧
  (r = Ok tt → scans_complete → migrated s0 (cn_db c')) ∧
  (no_faults → scans_complete → readable s0 → r = Ok tt).
Proof. apply migrate_outcome. Qed.

End Migrate.

(** ** parseSQLiteTime *)


(** ** A database of an older release *)

Module Demo.

#[export] Instance env : Env := calm (100 * Second) Second.
#[export] Instance order : MapOrder := HttpProps.Demo.order.
#[export] Instance sqlite_time : SqliteTime :=
  {| strftime_s v := (λ t, (t / Second)%Z) <$> (cast_text v ≫= parseSQLiteTime) |}.
#[export] Instance whole : Scan := {| scan_cut _ := None |}.

Definition old_event (status received : string) (processed : value) : raw_row := list_to_map
  [("id", VText "a"); ("source", VText "github"); ("remote_ip", VNull); ("payload", VNull);
   ("status", VText status); ("received_at", VText received); ("processed_at", processed)].

Definition old_log (created : string) : raw_row := list_to_map
  [("id", VInt 1); ("event_id", VText "a"); ("action", VText "http"); ("target", VNull); ("attempt", VInt 1);
   ("success", VInt 1); ("detail", VNull); ("duration_ms", VInt 20); ("created_at", VText created)].

Definition old : schema := MkSchema
  {["events" := dom (old_event "" "" VNull); "action_logs" := dom (old_log "")]}
  {["idx_events_source"; "idx_events_hmac_body"]}
  {["a" := old_event "received" "2024-01-02 03:04:05.123456789 +0000 UTC m=+0.5" VNull;
    "b" := old_event "done" "2024-01-02 03:04:05" (VText "2024-01-02T03:05:00Z")]}
  {[1%Z := old_log "2024-01-02 03:04:06.5 +0000 UTC"]} ∅.

Lemma rows_fit_check {K} `{Countable K} cols (t : gmap K raw_row) :
  bool_decide (map_Forall (λ _ r, cols = Some (dom r)) t) = true → rows_fit cols t.
Proof. intros Hb. by apply bool_decide_eq_true in Hb. Qed.

Lemma rows_some {K} `{Countable K} (goal : raw_row → option raw_row) (t : gmap K raw_row) :
  bool_decide (map_Forall (λ _ r, is_Some (goal r)) t) = true → ∀ k r, t !! k = Some r → is_Some (goal r).
Proof. intros Hb. by apply bool_decide_eq_true in Hb. Qed.

Lemma old_wf : wf old.
Proof. split; apply rows_fit_check; vm_compute; reflexivity. Qed.

Lemma old_readable : readable old.
Proof.
  split; [apply rows_some; vm_compute; reflexivity..|].
  apply (bool_decide_unpack _). vm_compute. done.
Qed.

End Demo.

#[local] Existing Instance Demo.env.
#[local] Existing Instance Demo.order.
#[local] Existing Instance Demo.sqlite_time.

Lemma migrate_spec_witness :
  let '(r, c') := @migrate _ _ _ _ Demo.whole (Conn Demo.old 0) in r = Ok tt ∧ migrated Demo.old (cn_db c').
Proof.
  pose proof (@migrate_spec _ _ _ _ Demo.whole Demo.old (Conn Demo.old 0) Demo.old_wf (same_target_refl Demo.old)) as H.
  destruct (migrate _) as [r c']. destruct H as (_ & _ & Hm & Hok).
  assert (r = Ok tt) as -> by (by apply Hok; [|done|apply Demo.old_readable]).
  split; [reflexivity|]. by apply Hm.
Defined.


(** The rows of the old database, migrated *)
Example migrated_times :
  let s := cn_db (@migrate _ _ _ _ Demo.whole (Conn Demo.old 0)).2 in
  (col "received_at_ms" <$> sc_events s !! "a") = Some (VInt 1704164645123) ∧
  (col "status" <$> sc_events s !! "a") = Some (VText "pending") ∧
  (col "processed_at_ms" <$> sc_events s !! "b") = Some (VInt 1704164700000) ∧
  (col "created_at_ms" <$> sc_logs s !! 1%Z) = Some (VInt 1704164646000).
Proof. vm_compute. done. Qed.

(** The loops do not ask for rows.Err: when the SELECT of the events is broken
    off, the start succeeds and the events that were not delivered are left
    without the time by which they are claimed. *)
Example cut_scan :
  let '(r, c') := @migrate _ _ _ _ {| scan_cut _ := Some 0%nat |} (Conn Demo.old 0) in
  r = Ok tt ∧ (col "received_at_ms" <$> sc_events (cn_db c') !! "a") = Some VNull.
Proof. vm_compute. done. Qed.
