(* ===== verification/StoreFile.v ===== *)
(** * Opening the store: [Open] and [sqliteDSN] of [internal/store/store.go],
      the store file of [internal/store/sqlite.go]

    The disk is what [Open] can see and change: the permissions of directories
    and files by the names the program gives them, and the database in the
    file. It also records the connections SQLite opened, with the permissions
    the files had at that moment. Any system call may fail. *)

From Stdlib Require Import Ascii.
From S2P Require Import Prelude GoLib UrlPath Sql Migration.

#[local] Open Scope string_scope.
#[local] Open Scope Z_scope.

(** ** net/url: escaping *)

Definition unreserved (n : nat) : bool :=
  in_range 97 122 n || in_range 65 90 n || in_range 48 57 n || Nat.eqb n 45 || Nat.eqb n 95 || Nat.eqb n 46 || Nat.eqb n 126.

(** shouldEscape of a path *)
Definition path_escaped (n : nat) : bool :=
  negb (unreserved n || Nat.eqb n 36 || Nat.eqb n 38 || Nat.eqb n 43 || Nat.eqb n 44 || Nat.eqb n 47
        || Nat.eqb n 58 || Nat.eqb n 59 || Nat.eqb n 61 || Nat.eqb n 64).

Definition upper_hex (n : nat) : ascii := Ascii.ascii_of_nat (if Nat.ltb n 10 then 48 + n else 55 + n)%nat.

Definition percent (a : ascii) (rest : string) : string :=
  let n := Ascii.nat_of_ascii a in
  String "%" (String (upper_hex (n / 16)) (String (upper_hex (n mod 16)) rest)).

(** escape, of a path and of a part of a query *)
Fixpoint escape_path (s : string) : string :=
  match s with
  | "" => ""
  | String a s' => if path_escaped (Ascii.nat_of_ascii a) then percent a (escape_path s') else String a (escape_path s')
  end.

Fixpoint QueryEscape (s : string) : string :=
  match s with
  | "" => ""
  | String a s' =>
      if Ascii.eqb a " " then String "+" (QueryEscape s')
      else if unreserved (Ascii.nat_of_ascii a) then String a (QueryEscape s') else percent a (QueryEscape s')
  end.

(** Values.Encode, for the one key the program uses *)
Definition Encode (key : string) (values : list string) : string :=
  Join ((λ v, QueryEscape key +:+ "=" +:+ QueryEscape v) <$> values) "&".

(** ** path/filepath, where names are separated by slashes *)

(** The name up to its last slash *)
Fixpoint upto_slash (s : string) : string :=
  match s with
  | "" => ""
  | String a s' =>
      match upto_slash s' with
      | "" => if Ascii.eqb a slash then "/" else ""
      | r => String a r
      end
  end.

Definition Dir (path : string) : string := path_Clean (upto_slash path).

(** The directories above a name and itself, from the top *)
Fixpoint ancestors_from (above : string) (segs : list string) : list string :=
  match segs with
  | [] => []
  | x :: segs' =>
      let d := above +:+ x in
      (if bool_decide (x = "") then ancestors_from (d +:+ "/") segs' else d :: ancestors_from (d +:+ "/") segs')%list
  end.
Definition ancestors (dir : string) : list string := ancestors_from "" (Split dir slash).

(** ** The disk *)

Record disk : Type := MkDisk {
  dk_dirs : gmap string Z;
  dk_files : gmap string Z;
  dk_conns : list (string * gmap string Z);
  dk_db : schema;
}.

Definition set_dirs (t : gmap string Z) (d : disk) : disk := MkDisk t (dk_files d) (dk_conns d) (dk_db d).
Definition set_files (t : gmap string Z) (d : disk) : disk := MkDisk (dk_dirs d) t (dk_conns d) (dk_db d).
Definition set_conns (l : list (string * gmap string Z)) (d : disk) : disk := MkDisk (dk_dirs d) (dk_files d) l (dk_db d).
Definition set_schema (s : schema) (d : disk) : disk := MkDisk (dk_dirs d) (dk_files d) (dk_conns d) s.

(** The working directory and the umask of the process, and what SQLite makes
    of the files next to the database when it opens it: it gives the files it
    creates the permissions of the database file, and leaves all others. *)
Class Os : Type := {
  getwd : option string;
  getwd_rooted : ∀ wd, getwd = Some wd → has_prefix wd "/" = true;
  umask : Z;
  sqlite_files : string → gmap string Z → gmap string Z;
  sqlite_files_mode : ∀ path t f m, sqlite_files path t !! f = Some m → t !! f = Some m ∨ t !! path = Some m;
  sqlite_files_other : ∀ path t f, f ≠ path → f ≠ path +:+ "-wal" → f ≠ path +:+ "-shm" →
    sqlite_files path t !! f = t !! f;
}.

Definition mode_700 : Z := 448.
Definition mode_600 : Z := 384.

Section Open.
Context `{Env, SqlOrder, MapOrder, SqliteTime, Scan, Os}.
#[local] Abbreviation DM := (M (conn disk) store_err).

(** [_ = call] *)
Definition ignoring {A} (m : DM A) : DM unit := λ c, (Ok tt, (m c).2).

(** os.Chmod: [false] when there is no such file. *)
Definition chmod_file (f : string) (mode : Z) : DM bool :=
  exec (λ d, match dk_files d !! f with
             | Some _ => (true, set_files (<[f := mode]> (dk_files d)) d)
             | None => (false, d)
             end).
Definition chmod_dir (f : string) (mode : Z) : DM bool :=
  exec (λ d, match dk_dirs d !! f with
             | Some _ => (true, set_dirs (<[f := mode]> (dk_dirs d)) d)
             | None => (false, d)
             end).

(** os.IsNotExist of the error of os.Stat *)
Definition not_exist (dir : string) : DM bool := λ c,
  match query (λ d, bool_decide (dk_dirs d !! dir = None) && bool_decide (dk_files d !! dir = None)) c with
  | (Ok b, c') => (Ok b, c')
  | (Err _, c') => (Ok false, c')
  end.

(** mkdir of a name, unless it is a directory: [false] when it is a file. *)
Definition mkdir (mode : Z) (dir : string) : DM bool :=
  exec (λ d, match dk_dirs d !! dir, dk_files d !! dir with
             | Some _, _ => (true, d)
             | None, Some _ => (false, d)
             | None, None => (true, set_dirs (<[dir := Z.ldiff mode umask]> (dk_dirs d)) d)
             end).

(** The first [false] is an error. *)
Fixpoint all_ok {A} (f : A → DM bool) (l : list A) : DM unit :=
  match l with
  | [] => mret tt
  | x :: l' => ok ← f x; if ok : bool then all_ok f l' else fail SqlError
  end.

Definition MkdirAll (dir : string) (mode : Z) : DM unit := all_ok (mkdir mode) (ancestors dir).

(** os.OpenFile with O_CREATE *)
Definition create_file (f : string) (mode : Z) : DM bool :=
  exec (λ d, match dk_dirs d !! f, dk_files d !! f with
             | Some _, _ => (false, d)
             | None, Some _ => (true, d)
             | None, None => (true, set_files (<[f := Z.ldiff mode umask]> (dk_files d)) d)
             end).

(** filepath.Abs *)
Definition Abs (path : string) : option string :=
  if has_prefix path "/" then Some (path_Clean path)
  else wd ← getwd; Some (path_Clean (if bool_decide (path = "") then wd else wd +:+ "/" +:+ path)).

(** ** sqlite.go *)

Definition store_files (path : string) : list string := [path; path +:+ "-wal"; path +:+ "-shm"].

(** A file that does not exist is no error. *)
Definition tightenStorePermissions (path : string) : DM unit :=
  if bool_decide (path = ":memory:") then mret tt
  else all_ok (λ filename, _ ← chmod_file filename mode_600; mret true) (store_files path).

Definition prepareStoreFile (path : string) : DM unit :=
  if bool_decide (path = ":memory:") then mret tt
  else
    _ ← tightenStorePermissions path;
    ok ← create_file path mode_600;
    if ok : bool then sql_call (* file.Close *) else fail SqlError.

(** ** Open *)

Definition pragmas : list string :=
  ["busy_timeout(" +:+ Itoa sqliteBusyTimeoutMS +:+ ")"; "journal_mode(WAL)"; "synchronous(FULL)"].

Definition sqliteDSN (path : string) : option string :=
  if bool_decide (path = ":memory:") then Some (path +:+ "?" +:+ Encode "_pragma" pragmas)
  else
    abs ← Abs path;
    Some ("file://" +:+ escape_path abs +:+ "?" +:+ Encode "_pragma" pragmas).

(** The first statement on a [sql.DB] opens its connection. *)
Definition connect (dsn path : string) : DM unit :=
  exec (λ d, (tt, set_files (if bool_decide (path = ":memory:") then dk_files d else sqlite_files path (dk_files d))
                    (set_conns ((dsn, dk_files d) :: dk_conns d) d))).

Definition on_db (m : M (conn schema) store_err unit) : DM unit := λ c,
  let '(r, c') := m (Conn (dk_db (cn_db c)) (cn_tick c)) in
  (r, Conn (set_schema (cn_db c') (cn_db c)) (cn_tick c')).

Definition Open (path : string) : DM unit :=
  let dir := Dir path in
  _ ← (if bool_decide (dir = "") || bool_decide (dir = ".") then mret tt
       else
         created ← not_exist dir;
         _ ← MkdirAll dir mode_700;
         if created : bool then ignoring (chmod_dir dir mode_700) else mret tt);
  _ ← prepareStoreFile path;
  match sqliteDSN path with
  | None => fail SqlError
  | Some dsn =>
      _ ← sql_call (* sql.Open *);
      _ ← connect dsn path;
      _ ← on_db migrate;
      tightenStorePermissions path
  end.

End Open.

Example pragma_text : Encode "_pragma" pragmas =
  "_pragma=busy_timeout%28250%29&_pragma=journal_mode%28WAL%29&_pragma=synchronous%28FULL%29".
Proof. vm_compute. reflexivity. Qed.
Example escape_ex : escape_path "/data/a b?#50%.db" = "/data/a%20b%3F%2350%25.db".
Proof. vm_compute. reflexivity. Qed.
Example dir_ex : Dir "/data/x/store.db" = "/data/x" ∧ Dir "store.db" = "." ∧ ancestors "/data/x" = ["/data"; "/data/x"].
Proof. vm_compute. done. Qed.
