(* ===== verification/StoreFileProps.v ===== *)
(** * Opening the store: what is created, and who can read it

    A calculus for [Open]: what every step keeps ([frame]), that a step only
    fails when something stands in the way ([openable]), and the data source
    name read back. *)

From Stdlib Require Import Ascii.
From S2P Require Import Prelude GoLib UrlPath Sql SecretProps Migration MigrationSteps MigrationRun MigrationProps StoreFile HttpProps.

#[local] Open Scope string_scope.
#[local] Open Scope Z_scope.

(** ** Steps of Open *)

(** Nobody but the owner has access. *)
Definition private (mode : Z) : Prop := Z.land mode 63 = 0.

Lemma private_umask mode mask : private mode → private (Z.ldiff mode mask).
Proof.
  unfold private. intros Hm. apply Z.bits_inj'. intros n Hn. rewrite Z.bits_0, Z.land_spec, Z.ldiff_spec.
  assert (Z.testbit (Z.land mode 63) n = false) as Hz by (rewrite Hm; apply Z.bits_0). rewrite Z.land_spec in Hz.
  by destruct (Z.testbit mode n), (Z.testbit mask n), (Z.testbit 63 n).
Qed.

Section Open.
Context `{Env, SqlOrder, MapOrder, SqliteTime, Scan, Os}.
Context (path : string) (d0 : disk) (d0_wf : wf (dk_db d0)).
#[local] Abbreviation DM := (M (conn disk) store_err).

(** What SQLite opened: the data source of this path, when every file of the
    store there was belonged to the owner alone. *)
Definition private_conn (dsn : string) (files : gmap string Z) : Prop :=
  sqliteDSN path = Some dsn ∧
  (path ≠ ":memory:" → ∀ f m, f ∈ store_files path → files !! f = Some m → private m).

(** Only the files of the store and missing directories change. *)
Record frame (d : disk) : Prop := {
  fr_files : ∀ f, f ∉ store_files path → dk_files d !! f = dk_files d0 !! f;
  fr_dirs : ∀ a m, dk_dirs d0 !! a = Some m → dk_dirs d !! a = Some m;
  fr_new : ∀ a m, dk_dirs d !! a = Some m →
    dk_dirs d0 !! a = Some m ∨ private m ∧ a ∈ ancestors (Dir path);
  fr_conns : ∀ dsn files, (dsn, files) ∈ dk_conns d → (dsn, files) ∈ dk_conns d0 ∨ private_conn dsn files;
  fr_db : wf (dk_db d) ∧ same_target (dk_db d0) (dk_db d);
}.

(** Nothing stands in the way. *)
Record openable : Prop := {
  op_faults : no_faults;
  op_scans : scans_complete;
  op_rows : readable (dk_db d0);
  op_dsn : is_Some (sqliteDSN path);
  op_dirs : ∀ a, a ∈ ancestors (Dir path) → dk_files d0 !! a = None;
  op_path : dk_dirs d0 !! path = None ∧ (path ∉ ancestors (Dir path));
}.

Definition tri {A} (P : disk → Prop) (m : DM A) (Q : A → disk → Prop) : Prop := ∀ c,
  frame (cn_db c) → P (cn_db c) → wp m (λ r c', frame (cn_db c') ∧ match r with
    | Ok a => Q a (cn_db c')
    | Err _ => openable → False
    end) c.

Lemma tri_ret {A} (P : disk → Prop) (a : A) (Q : A → disk → Prop) : (∀ d, P d → Q a d) → tri P (mret a) Q.
Proof. intros HQ c Hf Hc. apply wp_ret_M. split; [done|]. by apply HQ. Qed.

Lemma tri_fail {A} (P : disk → Prop) e (Q : A → disk → Prop) :
  (∀ d, frame d → P d → openable → False) → tri P (fail e) Q.
Proof. intros HP c Hf Hc. apply wp_fail. split; [done|]. by apply (HP (cn_db c)). Qed.

Lemma tri_bind {A B} P (m : DM A) (f : A → DM B) Q R :
  tri P m Q → (∀ a, tri (Q a) (f a) R) → tri P (m ≫= f) R.
Proof.
  intros Hm Hf c Hfr Hc. apply wp_bind_M. eapply wp_mono; [by apply Hm|].
  intros [a|e] c' [Hfr' Hr]; [by apply Hf|by split].
Qed.

Lemma tri_conseq {A} (P P' : disk → Prop) (m : DM A) (Q Q' : A → disk → Prop) :
  (∀ d, frame d → P d → P' d) → (∀ a d, frame d → Q' a d → Q a d) → tri P' m Q' → tri P m Q.
Proof.
  intros HP HQ Hm c Hfr Hc. eapply wp_mono; [by apply Hm; [|apply HP]|].
  intros [a|e] c' [Hfr' Hr]; (split; [done|]); [by apply HQ|done].
Qed.

Lemma tri_exec {A} (P : disk → Prop) (f : disk → A * disk) (Q : A → disk → Prop) :
  (∀ d, frame d → P d → frame (f d).2 ∧ Q (f d).1 (f d).2) → tri P (exec f) Q.
Proof.
  intros HP c Hfr Hc. unfold exec, wp, mbind, M_bind, sql_call. destruct (fault (cn_tick c)) eqn:Hft; cbn [fst snd].
  - split; [done|]. intros Ho. by rewrite (op_faults Ho) in Hft.
  - unfold apply_stmt. cbn [cn_db]. specialize (HP _ Hfr Hc). by destruct (f (cn_db c)).
Qed.

Lemma tri_call (P : disk → Prop) : tri P sql_call (λ _, P).
Proof.
  intros c Hfr Hc. unfold wp, sql_call. destruct (fault (cn_tick c)) eqn:Hft; cbn; (split; [done|]); [|done].
  intros Ho. by rewrite (op_faults Ho) in Hft.
Qed.

(** A failing call whose error is dropped *)
Lemma tri_ignoring {A} (P : disk → Prop) (m : DM A) Q :
  tri P m (λ _, Q) → (∀ c, frame (cn_db c) → P (cn_db c) → match m c with (Err _, c') => Q (cn_db c') | _ => True end) →
  tri P (ignoring m) (λ _, Q).
Proof.
  intros Hm Herr c Hfr Hc. specialize (Hm c Hfr Hc). specialize (Herr c Hfr Hc). unfold wp, ignoring in *.
  destruct (m c) as [[a|e] c']; cbn [fst snd] in *; [done|]. by destruct Hm.
Qed.

Lemma tri_all_ok {X} (I : list X → disk → Prop) (f : X → DM bool) l :
  (∀ done x, x ∈ l → tri (I done) (f x) (λ ok d, (ok = true → I (x :: done) d) ∧ (ok = false → openable → False))) →
  ∀ done, tri (I done) (all_ok f l) (λ _, I (reverse l ++ done)%list).
Proof.
  induction l as [|x l IH]; intros Hf done; cbn [all_ok]; [by apply tri_ret|].
  eapply tri_bind; [apply Hf; left|]. intros [].
  - rewrite reverse_cons, <- app_assoc. eapply tri_conseq; [| |apply IH]; [by intros d _ [HI _]; apply HI|done|].
    intros done' y Hy. apply Hf. by right.
  - apply tri_fail. intros d _ [_ Hno]. by apply Hno.
Qed.

(** ** The operations *)

Lemma frame_file d f m : frame d → f ∈ store_files path → frame (set_files (<[f := m]> (dk_files d)) d).
Proof.
  intros [] Hin. split; try done. intros g Hg. cbn. rewrite lookup_insert_ne; [by apply fr_files0|].
  intros ->. done.
Qed.

Lemma frame_dir d a m : frame d → dk_dirs d0 !! a = None → a ∈ ancestors (Dir path) → private m →
  frame (set_dirs (<[a := m]> (dk_dirs d)) d).
Proof.
  intros [] Ha Hin Hm. split; try done; cbn.
  - intros b n Hb. rewrite lookup_insert_ne; [by apply fr_dirs0|]. intros ->. by rewrite Ha in Hb.
  - intros b n. destruct (decide (a = b)) as [<-|Hne].
    + rewrite lookup_insert_eq. intros [= <-]. by right.
    + rewrite lookup_insert_ne by done. apply fr_new0.
Qed.

Lemma frame_missing d a : frame d → dk_dirs d !! a = None → dk_dirs d0 !! a = None.
Proof. intros [] Ha. destruct (dk_dirs d0 !! a) eqn:E; [|done]. apply fr_dirs0 in E. congruence. Qed.

(** Nothing has touched the files yet. *)
Definition no_files_yet (d : disk) : Prop := dk_files d = dk_files d0.

Lemma tri_MkdirAll P :
  (∀ t d, P d → P (set_dirs t d)) → (∀ d, P d → no_files_yet d) →
  tri P (MkdirAll (Dir path) mode_700) (λ _, P).
Proof.
  intros Hst Hnf. refine (tri_all_ok (λ _, P) _ _ _ []). intros done a Ha. apply tri_exec. intros d Hfr HP.
  destruct (dk_dirs d !! a) eqn:Hd; [by split|]. destruct (dk_files d !! a) eqn:Hf; cbn.
  - split; [done|]. split; [done|]. intros _ Ho. rewrite (Hnf d HP), (op_dirs Ho a Ha) in Hf. done.
  - split; [|split; [by intros _; apply Hst|done]].
    apply frame_dir; [done|by apply frame_missing with d|done|exact (private_umask mode_700 umask eq_refl)].
Qed.

Definition tight (l : list string) (d : disk) : Prop := ∀ f m, f ∈ l → dk_files d !! f = Some m → m = mode_600.

Lemma tri_tighten (P : disk → Prop) :
  (∀ t d, P d → P (set_files t d)) →
  tri P (tightenStorePermissions path)
    (λ _ d, P d ∧ (path ≠ ":memory:" → tight (store_files path) d)).
Proof.
  intros Hst. unfold tightenStorePermissions. case_bool_decide as Hp; [by apply tri_ret|].
  eapply tri_conseq; [| |refine (tri_all_ok (λ l d, P d ∧ tight l d) _ (store_files path) _ [])]; cycle 2.
  - intros done x Hx. eapply tri_bind; [apply (tri_exec _ _ (λ _ d, P d ∧ tight (x :: done) d))|].
    + intros d Hfr [HP Ht]. destruct (dk_files d !! x) as [m0|] eqn:Hm; cbn.
      * split; [by apply frame_file|]. split; [by apply Hst|]. intros f m Hf. cbn.
        destruct (decide (x = f)) as [<-|Hne]; [rewrite lookup_insert_eq; by intros [= <-]|].
        rewrite lookup_insert_ne by done. apply Ht. by apply elem_of_cons in Hf as [->|Hf].
      * split; [done|]. split; [done|]. intros f m [->|Hf]%elem_of_cons; [by rewrite Hm|by apply Ht].
    + intros ok. apply tri_ret. intros d Hd. by split.
  - intros d _ HP. split; [exact HP|]. by intros f m Hf%elem_of_nil.
  - intros [] d _ [HP Ht]. split; [done|]. intros _ f m Hf. apply Ht. rewrite app_nil_r. by apply elem_of_reverse.
Qed.

(** Every file of the store that is there belongs to the owner alone. *)
Definition prepared (d : disk) : Prop :=
  path ≠ ":memory:" → ∀ f m, f ∈ store_files path → dk_files d !! f = Some m → private m.

Lemma tight_prepared d : tight (store_files path) d → prepared d.
Proof. intros Ht _ f m Hf Hm. by rewrite (Ht f m Hf Hm). Qed.

Lemma tri_prepare : tri (λ _, True) (prepareStoreFile path) (λ _, prepared).
Proof.
  unfold prepareStoreFile. case_bool_decide as Hp; [apply tri_ret; by intros d _ Hp'|].
  eapply tri_bind; [by apply tri_tighten|]. intros []. eapply tri_bind with
    (Q := λ ok d, prepared d ∧ (ok = false → openable → False)).
  - apply tri_exec. intros d Hfr [_ Ht]. specialize (Ht Hp).
    destruct (dk_dirs d !! path) as [m|] eqn:Hd; cbn.
    + split; [done|]. split; [by apply tight_prepared|]. intros _ Ho. destruct (op_path Ho) as [Hnone Hnot].
      destruct (fr_new _ Hfr path m Hd) as [Hd0|[_ Hin]]; [by rewrite Hnone in Hd0|done].
    + destruct (dk_files d !! path) as [m|] eqn:Hf; cbn; [by split; [|split; [apply tight_prepared|]]|].
      split; [apply frame_file; [done|left]|]. split; [|done]. intros _ f m Hin. cbn.
      destruct (decide (path = f)) as [<-|Hne]; [rewrite lookup_insert_eq; intros [= <-]; exact (private_umask mode_600 umask eq_refl)|].
      rewrite lookup_insert_ne by done. by apply tight_prepared.
  - intros []; [|apply tri_fail; intros d _ [_ Hno]; by apply Hno].
    eapply tri_conseq; [| |apply (tri_call prepared)]; [by intros d _ []|done].
Qed.

Lemma tri_connect dsn : sqliteDSN path = Some dsn → tri prepared (connect dsn path) (λ _ _, True).
Proof.
  intros Hdsn. apply tri_exec. intros d Hfr Hp. split; [|done]. destruct Hfr. split; cbn; try done.
  - intros f Hf. case_bool_decide; [by apply fr_files0|]. unfold store_files in Hf.
    rewrite !not_elem_of_cons in Hf. rewrite sqlite_files_other by apply Hf. apply fr_files0.
    unfold store_files. rewrite !not_elem_of_cons. apply Hf.
  - intros dsn' files [[= -> ->]|Hin]%elem_of_cons; [right; by split|by apply fr_conns0].
Qed.

Lemma tri_migrate :
  tri (λ _, True) (on_db migrate) (λ _ d, scans_complete → migrated (dk_db d0) (dk_db d)).
Proof using d0_wf.
  intros c Hfr _. unfold wp, on_db. destruct (fr_db _ Hfr) as [Hw Ht].
  pose proof (migrate_outcome (dk_db d0) (Conn (dk_db (cn_db c)) (cn_tick c)) Hw Ht) as Hm.
  destruct (migrate _) as [r c']. destruct Hm as (Hw' & Ht' & Hok & Hno). cbn [fst snd cn_db].
  split; [destruct Hfr; by split|]. destruct r as [[]|e]; [by intros Hall; apply Hok|].
  intros Ho. by specialize (Hno (op_faults Ho) (op_scans Ho) (op_rows Ho)).
Qed.

(** The directory of the store *)
Lemma tri_dir :
  tri no_files_yet (if bool_decide (Dir path = "") || bool_decide (Dir path = ".") then mret tt
    else
      created ← not_exist (Dir path);
      _ ← MkdirAll (Dir path) mode_700;
      if created : bool then ignoring (chmod_dir (Dir path) mode_700) else mret tt) (λ _, no_files_yet).
Proof.
  destruct (_ || _); [by apply tri_ret|].
  eapply tri_bind with (Q := λ created d, no_files_yet d ∧ (created = true → dk_dirs d0 !! Dir path = None)).
  - intros c Hfr Hc. unfold wp, not_exist, query, mbind, M_bind, sql_call.
    destruct (fault (cn_tick c)); cbn; (split; [done|]); (split; [done|]); [done|].
    intros [Hb _]%andb_true_iff. apply bool_decide_eq_true in Hb. by apply frame_missing with (cn_db c).
  - intros created. eapply tri_bind; [apply tri_MkdirAll; [by intros t d []|by intros d []]|]. intros [].
    destruct created; [|apply tri_ret; by intros d []].
    apply tri_ignoring.
    + apply tri_exec. intros d Hfr [Hn Hd]. destruct (dk_dirs d !! Dir path) as [m|] eqn:Hm; cbn; [|by split].
      split; [|done]. specialize (Hd eq_refl). apply frame_dir; [done|done| |done].
      destruct (fr_new _ Hfr _ _ Hm) as [Hd0|[_ Hin]]; [by rewrite Hd in Hd0|done].
    + intros c Hfr [Hn _]. unfold chmod_dir, exec, mbind, M_bind, sql_call.
      destruct (fault (cn_tick c)); [done|]. unfold apply_stmt. cbn [cn_db]. by destruct (dk_dirs (cn_db c) !! Dir path).
Qed.

Lemma tri_Open :
  tri no_files_yet (Open path)
    (λ _ d, (path ≠ ":memory:" → tight (store_files path) d) ∧ (scans_complete → migrated (dk_db d0) (dk_db d))).
Proof using d0_wf.
  unfold Open. eapply tri_bind; [apply tri_dir|]. intros [].
  eapply tri_bind; [eapply tri_conseq; [| |apply tri_prepare]; [done|by intros a d _ Hd; exact Hd]|]. intros [].
  destruct (sqliteDSN path) as [dsn|] eqn:Hdsn; cycle 1.
  { apply tri_fail. intros d _ _ Ho. destruct (op_dsn Ho) as [? Hs]. by rewrite Hdsn in Hs. }
  eapply tri_bind; [apply tri_call|]. intros []. eapply tri_bind; [by apply tri_connect|]. intros [].
  eapply tri_bind; [apply tri_migrate|]. intros []. eapply tri_conseq;
    [| |by apply (tri_tighten (λ d, scans_complete → migrated (dk_db d0) (dk_db d)))].
  - done.
  - by intros [] d _ [Hm Ht].
Qed.

End Open.

(** ** The data source name, read back *)

(** A URI file name as SQLite reads it: no authority, the name up to the query
    or fragment, its escapes decoded. *)
Fixpoint uri_name (s : string) : string :=
  match s with
  | "" => ""
  | String a s' => if Ascii.eqb a "?" || Ascii.eqb a "#" then "" else String a (uri_name s')
  end.

Definition uri_path (dsn : string) : option string :=
  if has_prefix dsn "file:///" then PathUnescape (uri_name (drop 7 dsn)) else None.

(** The text after the first question mark: the driver's parameters *)
Fixpoint uri_query (s : string) : string :=
  match s with "" => "" | String a s' => if Ascii.eqb a "?" then s' else uri_query s' end.

(** The values of a query whose keys and values have no plus sign *)
Definition query_values (key query : string) : list string :=
  omap (λ part, match Split part "=" with
                | [k; v] => if bool_decide (PathUnescape k = Some key) then PathUnescape v else None
                | _ => None
                end) (Split query "&").

Lemma unescape_percent a t : PathUnescape (percent a t) = String a <$> PathUnescape t.
Proof. destruct a as [[] [] [] [] [] [] [] []]; cbn; by destruct (PathUnescape t). Qed.

Lemma uri_percent a t : uri_name (percent a t) = percent a (uri_name t) ∧ uri_query (percent a t) = uri_query t.
Proof. by destruct a as [[] [] [] [] [] [] [] []]. Qed.

Lemma path_plain a : path_escaped (Ascii.nat_of_ascii a) = false →
  Ascii.eqb a "%" = false ∧ Ascii.eqb a "?" = false ∧ Ascii.eqb a "#" = false.
Proof.
  intros Ha. do 2 try split; match goal with |- Ascii.eqb a ?b = false => destruct (Ascii.eqb_spec a b) as [->|]; [vm_compute in Ha; done|done] end.
Qed.

(** An escaped path holds no question mark or number sign, and is read back. *)
Lemma escape_path_read s q :
  PathUnescape (uri_name (escape_path s +:+ "?" +:+ q)) = Some s ∧ uri_query (escape_path s +:+ "?" +:+ q) = q.
Proof.
  induction s as [|a s [IHp IHq]]; [done|]. cbn [escape_path]. destruct (path_escaped _) eqn:Ha.
  - change (percent a (escape_path s) +:+ "?" +:+ q) with (percent a (escape_path s +:+ "?" +:+ q)).
    destruct (uri_percent a (escape_path s +:+ "?" +:+ q)) as [-> ->]. rewrite unescape_percent, IHp. by split.
  - destruct (path_plain a Ha) as (Hp & Hq & Hs). rewrite str_app_cons. cbn [uri_name uri_query].
    rewrite Hq, Hs. cbn [orb PathUnescape]. rewrite Hp, IHp. by split.
Qed.

Lemma path_Clean_root p : has_prefix p "/" = true → ∃ q, path_Clean p = String slash q.
Proof. intros Hp. unfold path_Clean. rewrite Hp. by eexists. Qed.

Lemma uri_query_file s : uri_query ("file://" +:+ s) = uri_query s.
Proof. reflexivity. Qed.

Lemma pragmas_read : query_values "_pragma" (Encode "_pragma" pragmas) = pragmas.
Proof. vm_compute. reflexivity. Qed.

Section Dsn.
Context `{Os}.

Lemma Abs_root path abs : Abs path = Some abs → ∃ q, abs = String slash q.
Proof.
  unfold Abs. destruct (has_prefix path "/") eqn:Hp; [intros [= <-]; by apply path_Clean_root|].
  destruct getwd as [wd|] eqn:Hwd; [|done]. cbn. intros [= <-]. apply path_Clean_root.
  pose proof (getwd_rooted wd Hwd) as Hr. case_bool_decide; [done|]. by apply SecretProps.has_prefix_mono.
Qed.

(** The name SQLite opens is the absolute path, whatever characters it has. *)
Lemma sqliteDSN_names path dsn : path ≠ ":memory:" → sqliteDSN path = Some dsn →
  ∃ abs, Abs path = Some abs ∧ uri_path dsn = Some abs ∧ query_values "_pragma" (uri_query dsn) = pragmas.
Proof.
  intros Hp. unfold sqliteDSN. rewrite bool_decide_false by done. destruct (Abs path) as [abs|] eqn:Ha; [|done].
  cbn [mbind option_bind]. intros [= <-]. exists abs. split; [done|].
  destruct (Abs_root path abs Ha) as [q ->]. destruct (escape_path_read (String slash q) (Encode "_pragma" pragmas)) as [Hn Hq].
  change (escape_path (String slash q)) with (String slash (escape_path q)) in *. split.
  - unfold uri_path.
    change ("file://" +:+ String slash (escape_path q) +:+ "?" +:+ Encode "_pragma" pragmas)
      with ("file:///" +:+ (escape_path q +:+ "?" +:+ Encode "_pragma" pragmas)).
    rewrite has_prefix_app. exact Hn.
  - rewrite uri_query_file, Hq. apply pragmas_read.
Qed.

End Dsn.

(** ** Open *)

Section Claims.
Context `{Env, SqlOrder, MapOrder, SqliteTime, Scan, Os}.

(** C35: Opening the store never exposes it. Whatever fails, files other
    than the store's and directories that were there keep their permissions,
    every directory that is made belongs to the owner alone, and SQLite opens
    the file only when every file of the store belongs to the owner alone, by
    a name that it reads as the absolute path whatever characters the path
    has, with the pragmas asked for. When [Open] succeeds, the database file,
    its WAL and its shared memory have mode 0600 and the database is the
    migrated one. It does succeed unless a call fails, a directory or the
    file is in the way as a file or directory, or the rows cannot be read. *)
Theorem Open_spec path c :
  wf (dk_db (cn_db c)) → dk_conns (cn_db c) = [] →
  let '(r, c') := Open path c in
  frame path (cn_db c) (cn_db c') ∧
  (∀ dsn files, (dsn, files) ∈ dk_conns (cn_db c') → path ≠ ":memory:" →
    (∀ f m, f ∈ store_files path → files !! f = Some m → private m) ∧
    ∃ abs, Abs path = Some abs ∧ uri_path dsn = Some abs ∧ query_values "_pragma" (uri_query dsn) = pragmas) ∧
  (r = Ok tt → path ≠ ":memory:" → ∀ f m, f ∈ store_files path → dk_files (cn_db c') !! f = Some m → m = mode_600) ∧
  (r = Ok tt → scans_complete → migrated (dk_db (cn_db c)) (dk_db (cn_db c'))) ∧
  (openable path (cn_db c) → r = Ok tt).
Proof.
  intros Hw Hnone. assert (frame path (cn_db c) (cn_db c)) as Hf0 by (split; by auto).
  pose proof (tri_Open path (cn_db c) Hw c Hf0 eq_refl) as Hrun. unfold wp in Hrun.
  destruct (Open path c) as [r c']. cbn [fst snd] in Hrun. destruct Hrun as [Hf Hr]. split; [done|]. split.
  - intros dsn files Hin Hp. destruct (fr_conns _ _ _ Hf dsn files Hin) as [Hold|[Hdsn Hpriv]].
    + rewrite Hnone in Hold. by apply elem_of_nil in Hold.
    + split; [by apply Hpriv|]. by apply (sqliteDSN_names path).
  - destruct r as [[]|e]; [destruct Hr as [Ht Hm]|]; split_and!; try done.
Qed.

End Claims.

(** ** A first start *)

Module Demo.

Definition new_files (path : string) (t : gmap string Z) : gmap string Z :=
  match t !! path with
  | Some m => <[path +:+ "-wal" := m]> (<[path +:+ "-shm" := m]> t)
  | None => t
  end.

#[export] Program Instance os : Os := {| getwd := Some "/srv"; umask := 18; sqlite_files := new_files |}.
Next Obligation. intros wd [= <-]. reflexivity. Qed.
Next Obligation.
  intros path t f m. unfold new_files. destruct (t !! path) eqn:Hp; [|by left].
  rewrite !lookup_insert. intros Hf. destruct (decide _); [by right|]. destruct (decide _); [by right|by left].
Qed.
Next Obligation.
  intros path t f _ Hw Hs. unfold new_files. destruct (t !! path); [|done]. by rewrite !lookup_insert_ne by done.
Qed.

Definition empty_disk : disk := MkDisk {["/srv" := 493]} {["/srv/app" := 493]} [] (MkSchema ∅ ∅ ∅ ∅ ∅).

Lemma empty_wf : wf (dk_db empty_disk).
Proof. split; intros k r Hr; unfold empty_disk in Hr; cbn [dk_db sc_events sc_logs sc_ready] in Hr; by rewrite lookup_empty in Hr. Qed.

End Demo.

#[local] Existing Instance MigrationProps.Demo.env.
#[local] Existing Instance MigrationProps.Demo.order.
#[local] Existing Instance MigrationProps.Demo.sqlite_time.
#[local] Existing Instance MigrationProps.Demo.whole.
#[local] Existing Instance Demo.os.

Lemma empty_openable : openable "/srv/data/a?b.db" Demo.empty_disk.
Proof.
  split; [done|done| |by eexists| |].
  - split; [intros k r Hr; unfold Demo.empty_disk in Hr; cbn [dk_db sc_events sc_logs sc_ready] in Hr; by rewrite lookup_empty in Hr..|].
    unfold deliveries_unique, Demo.empty_disk. cbn [dk_db sc_events]. rewrite omap_empty. apply map_Forall_empty.
  - apply Forall_forall. vm_compute. repeat constructor.
  - split; [done|]. apply (bool_decide_unpack _). vm_compute. done.
Qed.

Lemma Open_spec_witness :
  let '(r, c') := Open "/srv/data/a?b.db" (Conn Demo.empty_disk 0) in
  r = Ok tt ∧ migrated (dk_db Demo.empty_disk) (dk_db (cn_db c')).
Proof.
  pose proof (Open_spec "/srv/data/a?b.db" (Conn Demo.empty_disk 0) Demo.empty_wf eq_refl) as H.
  destruct (Open _ _) as [r c']. destruct H as (_ & _ & _ & Hm & Hok).
  assert (r = Ok tt) as -> by (apply Hok, empty_openable). split; [reflexivity|]. by apply Hm.
Defined.

(** The new directory and files, and the connection's name *)
Example opened :
  let d := cn_db (Open "/srv/data/a?b.db" (Conn Demo.empty_disk 0)).2 in
  dk_dirs d !! "/srv/data" = Some mode_700 ∧ dk_files d !! "/srv/data/a?b.db-wal" = Some mode_600 ∧
  fst <$> dk_conns d = ["file:///srv/data/a%3Fb.db?_pragma=busy_timeout%28250%29&_pragma=journal_mode%28WAL%29&_pragma=synchronous%28FULL%29"].
Proof. vm_compute. done. Qed.
