(* ===== verification/Logger.v ===== *)
(** * Logging: [internal/logger/logger.go], [context.go]

    The level of the process's logger, the logger that a request carries in
    its context, and the masking of a value. A logger is its level and the
    attributes that every line of it has. *)

From S2P Require Import Prelude GoLib.

#[local] Open Scope string_scope.

Inductive Level : Type := LevelDebug | LevelInfo | LevelWarn | LevelError.

Definition parseLevel (s : string) : Level :=
  let s := ToLower s in
  if bool_decide (s = "debug") then LevelDebug
  else if bool_decide (s = "warn") then LevelWarn
  else if bool_decide (s = "error") then LevelError
  else LevelInfo.

Record Logger : Type := MkLogger { lg_level : Level; lg_attrs : list (string * string) }.

(** [New] makes the logger it returns the default one. *)
Definition New (level : string) : Logger := MkLogger (parseLevel level) [].

Definition With (key value : string) (l : Logger) : Logger :=
  MkLogger (lg_level l) (lg_attrs l ++ [(key, value)])%list.

(** The values of a context that the package put there, the last one first *)
Definition ctx : Type := list Logger.

Definition WithTrace (default : Logger) (c : ctx) (traceID : string) : ctx :=
  With "trace_id" traceID default :: c.

Definition From (default : Logger) (c : ctx) : Logger :=
  match c with l :: _ => l | [] => default end.

Definition Redact (s : string) : string :=
  if Nat.leb (String.length s) 4 then "****"
  else String.substring 0 2 s +:+ "****" +:+ String.substring (String.length s - 2) 2 s.

(** The lines of a request carry its own id, whatever its context had. *)
Lemma From_WithTrace default c id :
  lg_level (From default (WithTrace default c id)) = lg_level default ∧
  ("trace_id", id) ∈ lg_attrs (From default (WithTrace default c id)).
Proof. split; [done|]. cbn. apply elem_of_app. right. by left. Qed.

Lemma substring_at_most n k s : (String.length (String.substring n k s) ≤ k)%nat.
Proof.
  revert n k. induction s as [|a s IH]; intros [|n] [|k]; cbn; try lia; try apply IH.
  specialize (IH 0%nat k). lia.
Qed.

(** A masked value shows its first two and last two bytes at most, and the
    rest of it only through these: values that agree there look the same. *)
Lemma Redact_hides s : (String.length (Redact s) ≤ 8)%nat.
Proof.
  unfold Redact. destruct (Nat.leb _ _); [cbn; lia|]. rewrite !str_app_length.
  pose proof (substring_at_most 0 2 s). pose proof (substring_at_most (String.length s - 2) 2 s). cbn. lia.
Qed.

Lemma Redact_same x y :
  (4 < String.length x)%nat → (4 < String.length y)%nat → String.substring 0 2 x = String.substring 0 2 y →
  String.substring (String.length x - 2) 2 x = String.substring (String.length y - 2) 2 y → Redact x = Redact y.
Proof. intros Hx Hy H1 H2. unfold Redact. by rewrite !(proj2 (Nat.leb_gt _ 4)), H1, H2 by lia. Qed.

Example redact_ex : Redact "ghp_secret" = "gh****et" ∧ Redact "abcd" = "****" ∧ parseLevel "WARN" = LevelWarn.
Proof. vm_compute. done. Qed.
