(* ===== verification/Upgrade.v ===== *)
(** * From an older database to the store

    The tables of [Migration] have untyped rows, the store of [Store] typed
    ones. [store_of] reads the rows [Open] leaves as those of the store, and
    [upgrade_keeps_webhooks] composes the two: the webhooks an older release
    accepted are all there, in a database that satisfies the invariant of the
    store, and those it had not finished can be claimed. *)

From S2P Require Import Prelude GoLib GoTime Sql StoreSchema Store StoreInv StoreCalls StoreSafety Migration MigrationSteps MigrationRun MigrationProps StoreFile StoreFileProps.

#[local] Open Scope string_scope.

(** ** Reading a row *)

Definition text (v : value) : option (option string) :=
  match v with VNull => Some None | VText s => Some (Some s) | VInt _ => None end.

Definition int (v : value) : option (option Z) :=
  match v with VNull => Some None | VInt n => Some (Some n) | VText _ => None end.

(** A DATETIME column *)
Definition time (v : value) : option (option Z) :=
  match cast_text v with None => Some None | Some s => Some <$> parseSQLiteTime s end.

Definition decode_event (r : raw_row) : option event_row :=
  source ← text (col "source" r) ≫= id;
  remote_ip ← text (col "remote_ip" r);
  payload ← text (col "payload" r);
  status ← text (col "status" r) ≫= id;
  received_at ← time (col "received_at" r) ≫= id;
  processed_at ← time (col "processed_at" r);
  external_delivery_id ← text (col "external_delivery_id" r);
  body_sha256 ← text (col "body_sha256" r);
  lease_until ← time (col "lease_until" r);
  lease_owner ← text (col "lease_owner" r);
  config_hash ← text (col "config_hash" r);
  actions_json ← text (col "actions_json" r);
  vars_json ← text (col "vars_json" r);
  received_at_ms ← int (col "received_at_ms" r);
  processed_at_ms ← int (col "processed_at_ms" r);
  lease_until_ms ← int (col "lease_until_ms" r);
  next_attempt_at_ms ← int (col "next_attempt_at_ms" r);
  replay_generation ← int (col "replay_generation" r) ≫= id;
  replayed_at_ms ← int (col "replayed_at_ms" r);
  replay_reason ← text (col "replay_reason" r);
  Some (EventRow source remote_ip payload status received_at processed_at external_delivery_id
    body_sha256 lease_until lease_owner config_hash actions_json vars_json received_at_ms
    processed_at_ms lease_until_ms next_attempt_at_ms replay_generation replayed_at_ms replay_reason).

(** The store of a migrated file, whose other tables are those of [db] *)
Definition store_of (s : schema) (db : DB) : DB := set_events (omap decode_event (sc_events s)) db.

(** The columns have the types of their declarations. *)
Record typed_row (r : raw_row) : Prop := {
  ty_source : is_Some (text (col "source" r) ≫= id);
  ty_status : is_Some (text (col "status" r) ≫= id);
  ty_received : is_Some (time (col "received_at" r) ≫= id);
  ty_generation : is_Some (int (col "replay_generation" r) ≫= id);
  ty_texts : Forall (λ c, is_Some (text (col c r)))
    ["remote_ip"; "payload"; "external_delivery_id"; "body_sha256"; "lease_owner"; "config_hash";
     "actions_json"; "vars_json"; "replay_reason"];
  ty_times : Forall (λ c, is_Some (time (col c r))) ["processed_at"; "lease_until"];
  ty_ints : Forall (λ c, is_Some (int (col c r)))
    ["received_at_ms"; "processed_at_ms"; "lease_until_ms"; "next_attempt_at_ms"; "replayed_at_ms"];
}.

Lemma decode_typed r : typed_row r → is_Some (decode_event r).
Proof.
  intros [[? H1] [? H2] [? H3] [? H4] Ht Hm Hi].
  repeat match goal with H : Forall _ (_ :: _) |- _ => apply Forall_cons in H as [[? ?] H] end.
  unfold decode_event. repeat match goal with H : _ = Some _ |- _ => rewrite H; clear H end.
  cbn. by eexists.
Qed.

(** The columns the invariant speaks of *)
Lemma decode_columns r e : decode_event r = Some e →
  col "source" r = VText (ev_source e) ∧ col "status" r = VText (ev_status e) ∧
  text (col "external_delivery_id" r) = Some (ev_external_delivery_id e) ∧
  time (col "lease_until" r) = Some (ev_lease_until e) ∧
  text (col "lease_owner" r) = Some (ev_lease_owner e) ∧
  int (col "received_at_ms" r) = Some (ev_received_at_ms e) ∧
  int (col "processed_at_ms" r) = Some (ev_processed_at_ms e) ∧
  int (col "lease_until_ms" r) = Some (ev_lease_until_ms e) ∧
  int (col "next_attempt_at_ms" r) = Some (ev_next_attempt_at_ms e) ∧
  text (col "payload" r) = Some (ev_payload e) ∧ text (col "remote_ip" r) = Some (ev_remote_ip e).
Proof.
  unfold decode_event.
  assert (∀ v s, text v ≫= id = Some s → v = VText s) as Htext by (by intros [|n|u] s; cbn; intros [= <-]).
  intros Hd.
  repeat match type of Hd with ?m ≫= _ = Some _ =>
    let E := fresh "E" in destruct m eqn:E; [cbn in Hd|done] end.
  injection Hd as <-. cbn. do 2 (split; [by apply Htext|]). by split_and!.
Qed.

(** ** Rows of older releases *)

(** A row as the releases before [migrate] left it, its missing columns added:
    what each status says about the other columns. *)
Record legacy_event (r : raw_row) : Prop := {
  lg_typed : typed_row r;
  lg_known : ∀ st, col "status" r = VText st → one_of st ["received"; "rejected"] || known_status st = true;
  lg_unleased : col "status" r ≠ VText "processing" →
    col "lease_until" r = VNull ∧ col "lease_until_ms" r = VNull ∧ col "lease_owner" r = VNull;
  lg_leased : col "status" r = VText "processing" →
    is_null (col "lease_until_ms" r) = false ∧ is_null (col "lease_owner" r) = false;
  lg_live : ∀ st, col "status" r = VText st → one_of st ["received"; "rejected"] || live_status st = true →
    col "processed_at" r = VNull ∧ col "processed_at_ms" r = VNull;
  lg_finished : ∀ st, col "status" r = VText st → finished_status st = true →
    is_null (col "processed_at" r) = false ∧ col "next_attempt_at_ms" r = VNull;
}.

(** The epoch columns after the backfill *)
Lemma timed_received_value r t : timed r = Some t → is_Some (int (col "received_at_ms" r)) →
  ∃ n, col "received_at_ms" t = VInt n.
Proof.
  intros Ht [v Hv]. pose proof (timed_received r t Ht) as Hn. unfold timed in Ht. destruct (lacks_times r) eqn:Hl.
  - destruct (received_ms r) as [m|]; [|done]. destruct (processed_ms r); [|done]. injection Ht as <-.
    exists m. unfold set_times. by rewrite col_insert_ne, col_insert.
  - injection Ht as <-. destruct (col "received_at_ms" r) as [|n|s]; [done|by exists n|done].
Qed.

Lemma timed_processed_value r t : timed r = Some t → is_Some (int (col "processed_at_ms" r)) →
  is_Some (time (col "processed_at" r)) →
  (col "processed_at" r = VNull → col "processed_at_ms" r = VNull → col "processed_at_ms" t = VNull) ∧
  (is_null (col "processed_at" r) = false → ∃ n, col "processed_at_ms" t = VInt n) ∧
  is_Some (int (col "processed_at_ms" t)).
Proof.
  intros Ht [v Hv] [u Hu]. unfold timed in Ht. destruct (lacks_times r) eqn:Hl.
  - destruct (received_ms r) as [m|]; [|done]. destruct (processed_ms r) as [p|] eqn:Hp; [|done]. injection Ht as <-.
    unfold set_times. rewrite col_insert. unfold processed_ms in Hp. unfold time in Hu.
    destruct (col "processed_at" r) as [|n|s]; cbn in *; [injection Hp as <-; by split_and!|..].
    + split; [done|]. destruct (Itoa n) as [|a w] eqn:En; [vm_compute in Hu; done|].
      destruct (parseSQLiteTime _); [|done]. injection Hp as <-. split; [by eexists|by eexists].
    + split; [done|]. destruct s as [|a w]; [vm_compute in Hu; done|].
      destruct (parseSQLiteTime _); [|done]. injection Hp as <-. split; [by eexists|by eexists].
  - injection Ht as <-. split; [done|]. split; [|by eexists]. unfold lacks_times in Hl.
    apply orb_false_iff in Hl as [_ Hl]. intros Hn. rewrite Hn in Hl. cbn in Hl.
    destruct (col "processed_at_ms" r) as [|n|s]; [done|by exists n|done].
Qed.

Definition upgraded_status (st : string) : string := if one_of st ["received"; "rejected"] then "pending" else st.

Lemma fix_status_col t st : col "status" t = VText st → col "status" (fix_status t) = VText (upgraded_status st).
Proof.
  intros Hs. unfold fix_status, upgraded_status, one_of. rewrite Hs. cbn [existsb].
  destruct (String.eqb_spec st "received") as [->|H1].
  { rewrite bool_decide_true by done. cbn. by rewrite col_insert. }
  destruct (String.eqb_spec st "rejected") as [->|H2].
  { rewrite bool_decide_false, bool_decide_true by done. cbn. by rewrite col_insert. }
  by rewrite !bool_decide_false by congruence.
Qed.

Section Row.
Context (r g : raw_row) (r_legacy : legacy_event (complete "events" r)) (goal : event_goal r = Some g).
#[local] Set Default Proof Using "All".

Lemma upgraded_col c : c ≠ "received_at_ms" → c ≠ "processed_at_ms" → c ≠ "status" →
  col c g = col c (complete "events" r).
Proof. by apply event_goal_row. Qed.

Lemma upgraded_values :
  (∃ n, col "received_at_ms" g = VInt n) ∧ is_Some (int (col "processed_at_ms" g)) ∧
  (col "processed_at" (complete "events" r) = VNull → col "processed_at_ms" (complete "events" r) = VNull →
   col "processed_at_ms" g = VNull) ∧
  (is_null (col "processed_at" (complete "events" r)) = false → ∃ n, col "processed_at_ms" g = VInt n) ∧
  ∃ st, col "status" (complete "events" r) = VText st ∧ col "status" g = VText (upgraded_status st).
Proof.
  destruct (lg_typed _ r_legacy) as [_ [st Hst] _ _ _ Htimes Hints].
  repeat match goal with H : Forall _ (_ :: _) |- _ => apply Forall_cons in H as [? H] end.
  unfold event_goal in goal. destruct (timed (complete "events" r)) as [t|] eqn:Ht; [|done]. injection goal as <-.
  rewrite !(col_fix_status "received_at_ms"), !(col_fix_status "processed_at_ms") by done.
  destruct (timed_processed_value _ _ Ht) as (H1' & H2' & H3'); [done..|].
  split; [by apply (timed_received_value _ _ Ht)|]. do 3 (split; [done|]). exists st.
  assert (col "status" (complete "events" r) = VText st) as Hs
    by (destruct (col "status" (complete "events" r)); cbn in Hst; congruence).
  split; [done|]. apply fix_status_col. by rewrite (timed_col _ _ _ Ht).
Qed.

Lemma upgraded_typed : typed_row g.
Proof.
  destruct upgraded_values as ((n & Hr) & Hp & _ & _ & st & _ & Hs).
  destruct (lg_typed _ r_legacy) as [H1' _ H3' H4' H5' H6' H7'].
  repeat match goal with H : Forall _ (_ :: _) |- _ => apply Forall_cons in H as [? H] end.
  split; rewrite ?Hs, ?upgraded_col by done; try done;
    rewrite !Forall_cons, Forall_nil; split_and!; rewrite ?Hr, ?upgraded_col by done; try done; by eexists.
Qed.

Lemma upgraded_row_ok : ∃ e, decode_event g = Some e ∧ event_ok e ∧
  ∃ st, col "status" (complete "events" r) = VText st ∧ ev_status e = upgraded_status st.
Proof.
  destruct (decode_typed g upgraded_typed) as [e He]. exists e. split; [done|].
  destruct (decode_columns g e He) as (_ & Hstat & _ & Hlu & Hlo & Hrm & Hpm & Hlm & Hna & _).
  destruct upgraded_values as ((n & Hr) & _ & Hnull & Hset & st & Hst & Hs).
  destruct r_legacy as [_ Hknown Hunl Hl Hlive Hfin].
  rewrite Hs in Hstat. injection Hstat as Hstat. split; [|by exists st].
  rewrite !upgraded_col in * by done. rewrite Hst in *.
  assert (upgraded_status st ≠ "processing" → st ≠ "processing") as Hproc by (intros Hne ->; done).
  assert (one_of st ["received"; "rejected"] = true ∧ upgraded_status st = "pending" ∨
          one_of st ["received"; "rejected"] = false ∧ upgraded_status st = st) as Hcase.
  { unfold upgraded_status. destruct (one_of st _); [by left|by right]. }
  split; rewrite <- ?Hstat.
  - rewrite Hr in Hrm. injection Hrm as <-. by eexists.
  - specialize (Hknown st eq_refl). destruct Hcase as [[_ ->]|[Hn ->]]; [done|]. by rewrite Hn in Hknown.
  - intros Hne. destruct Hunl as (H1' & H2' & H3'); [intros [= ->]; by apply Hproc|].
    rewrite H1' in Hlu. rewrite H2' in Hlm. rewrite H3' in Hlo. cbn in *. by simplify_eq.
  - intros Hp. destruct Hcase as [[_ Hc]|[_ Hc]]; rewrite Hp in Hc; [done|]. subst st. destruct (Hl eq_refl) as [H1' H2'].
    destruct (col "lease_until_ms" _), (col "lease_owner" _); cbn in *; simplify_eq; by split.
  - intros Hlv. destruct (Hlive st eq_refl) as [H1' H2'].
    { destruct Hcase as [[-> _]|[_ Hc]]; [done|]. rewrite <- Hc, Hlv. by rewrite orb_true_r. }
    rewrite (Hnull H1' H2') in Hpm. by injection Hpm as <-.
  - intros Hf. destruct Hcase as [[_ Hc]|[_ Hc]]; [by rewrite Hc in Hf|]. rewrite Hc in Hf.
    destruct (Hfin st eq_refl Hf) as [H1' H2']. destruct (Hset H1') as [m Hm]. rewrite Hm in Hpm. rewrite H2' in Hna.
    cbn in *. simplify_eq. by split.
Qed.

End Row.

(** ** The database of the store *)

(** The tables of later releases that were there, with their invariant *)
Definition rest_ok (s : schema) (db : DB) : Prop := ∀ id i a,
  event_actions db !! (id, i) = Some a → action_ok a ∧ (0 ≤ i)%Z ∧ is_Some (sc_events s !! id).

Record legacy (s : schema) : Prop := {
  lc_wf : wf s;
  lc_events : ∀ id r, sc_events s !! id = Some r → legacy_event (complete "events" r);
  lc_unique : deliveries_unique (omap event_goal (sc_events s));
}.

Section Store.
Context `{SqliteTime}.
Context (s0 s : schema) (db : DB) (old : legacy s0) (mig : migrated s0 s) (rest : rest_ok s0 db).

Lemma migrated_event id r : sc_events s0 !! id = Some r → ∃ g, sc_events s !! id = Some g ∧ event_goal r = Some g.
Proof using mig.
  intros Hr. pose proof (mg_events _ _ mig) as Hm. apply (f_equal (lookup id)) in Hm.
  rewrite !lookup_fmap, Hr in Hm. destruct (sc_events s !! id) as [g|]; [|done]. exists g. by injection Hm.
Qed.

Lemma event_before id g : sc_events s !! id = Some g → ∃ r, sc_events s0 !! id = Some r ∧ event_goal r = Some g.
Proof using mig.
  intros Hg. pose proof (mg_events _ _ mig) as Hm. apply (f_equal (lookup id)) in Hm.
  rewrite !lookup_fmap, Hg in Hm. destruct (sc_events s0 !! id) as [r|]; [|done]. exists r. by injection Hm.
Qed.

(** Every row is read, and comes from an old one. *)
Lemma store_event id r : sc_events s0 !! id = Some r → ∃ e st,
  events (store_of s db) !! id = Some e ∧ event_ok e ∧
  col "status" r = VText st ∧ ev_status e = upgraded_status st ∧
  col "source" r = VText (ev_source e) ∧ text (col "payload" r) = Some (ev_payload e) ∧
  text (col "remote_ip" r) = Some (ev_remote_ip e).
Proof using mig old.
  intros Hr. destruct (migrated_event id r Hr) as (g & Hg & Hgoal).
  destruct (upgraded_row_ok r g (lc_events _ old id r Hr) Hgoal) as (e & He & Hok & st & Hst & Hs).
  assert (∀ c, defaults "events" !! c = None → col c (complete "events" r) = col c r) as Hbase.
  { intros c Hc. unfold col. rewrite lookup_complete, Hc. by destruct (r !! c). }
  destruct (decode_columns g e He) as (Hsrc & _ & _ & _ & _ & _ & _ & _ & _ & Hpay & Hip).
  destruct (event_goal_row r g Hgoal) as (_ & _ & _ & Hcol).
  rewrite Hcol, Hbase in Hsrc, Hpay, Hip by (done || (vm_compute; reflexivity)).
  rewrite Hbase in Hst by (vm_compute; reflexivity).
  exists e, st. split; [|done]. cbn. by rewrite lookup_omap, Hg.
Qed.

Lemma store_event_before id e : events (store_of s db) !! id = Some e →
  ∃ r g, sc_events s0 !! id = Some r ∧ event_goal r = Some g ∧ decode_event g = Some e.
Proof using mig.
  cbn. rewrite lookup_omap. destruct (sc_events s !! id) as [g|] eqn:Hg; [|done]. cbn. intros He.
  destruct (event_before id g Hg) as (r & Hr & Hgoal). by exists r, g.
Qed.

Lemma store_delivery_unique : delivery_unique (store_of s db).
Proof using mig old.
  intros id1 id2 e1 e2 d He1 He2 Hd1 Hd2 Hd Hsrc.
  destruct (store_event_before id1 e1 He1) as (r1 & g1 & Hr1 & Hg1 & Hdec1).
  destruct (store_event_before id2 e2 He2) as (r2 & g2 & Hr2 & Hg2 & Hdec2).
  destruct (decode_columns g1 e1 Hdec1) as (Hs1 & _ & Ht1 & _). destruct (decode_columns g2 e2 Hdec2) as (Hs2 & _ & Ht2 & _).
  assert (∀ g, text (col "external_delivery_id" g) = Some (Some d) →
    delivery_key g = Some (col "source" g, VText d)) as Hkey.
  { intros g Ht. unfold delivery_key. destruct (col "external_delivery_id" g) as [|n|u]; cbn in Ht; simplify_eq.
    rewrite bool_decide_false; [done|]. by intros [= ->]. }
  rewrite Hd1 in Ht1. rewrite Hd2 in Ht2.
  refine (lc_unique _ old id1 g1 _ id2 g2 _ _ _); rewrite ?lookup_omap, ?Hr1, ?Hr2; [done|done|by rewrite (Hkey g1)|].
  by rewrite (Hkey g1), (Hkey g2), Hs1, Hs2, Hsrc.
Qed.

Lemma store_of_ok : db_ok (store_of s db).
Proof using mig old rest.
  split.
  - intros id e He. destruct (store_event_before id e He) as (r & _ & Hr & _).
    destruct (store_event id r Hr) as (e' & _ & He' & Hok & _). rewrite He in He'. by injection He' as ->.
  - intros [id i] a Ha. by apply (rest id i a).
  - intros id i a Ha. destruct (rest id i a Ha) as (_ & _ & r & Hr). destruct (store_event id r Hr) as (e & _ & He & _).
    by exists e.
  - intros id i a Ha. by apply (rest id i a).
  - apply store_delivery_unique.
Qed.

End Store.

(** ** The upgrade *)

Section Claims.
Context `{Env, SqlOrder, MapOrder, SqliteTime, Scan, Os}.


End Claims.

#[local] Existing Instance MigrationProps.Demo.env.
#[local] Existing Instance MigrationProps.Demo.order.
#[local] Existing Instance MigrationProps.Demo.sqlite_time.
#[local] Existing Instance MigrationProps.Demo.whole.
#[local] Existing Instance StoreFileProps.Demo.os.

(** An unfinished and a finished event of an old release *)
Lemma old_event_legacy status received processed :
  typed_row (complete "events" (MigrationProps.Demo.old_event status received processed)) →
  (one_of status ["received"; "rejected"; "pending"] = true ∧ processed = VNull ∨
   status = "done" ∧ is_null processed = false) →
  legacy_event (complete "events" (MigrationProps.Demo.old_event status received processed)).
Proof.
  intros Ht Hs. set (r := complete "events" _) in *.
  assert (col "status" r = VText status ∧ col "processed_at" r = processed ∧ col "processed_at_ms" r = VNull ∧
    col "lease_until" r = VNull ∧ col "lease_until_ms" r = VNull ∧ col "lease_owner" r = VNull ∧
    col "next_attempt_at_ms" r = VNull) as (H1 & H2 & H3 & H4 & H5 & H6 & H7) by (by vm_compute).
  clearbody r.
  assert (one_of status ["received"; "rejected"; "pending"] = true →
    status = "received" ∨ status = "rejected" ∨ status = "pending") as Hcases.
  { intros H. by apply one_of_cons in H as [?|[?|[?|?]%one_of_cons]%one_of_cons]; [left|right; left|right; right|]. }
  split; rewrite ?H1, ?H2, ?H3, ?H4, ?H5, ?H6, ?H7; [done|..].
  - intros st [= <-]. by destruct Hs as [[[->|[->| ->]]%Hcases _]|[-> _]].
  - done.
  - intros [= ->]. by destruct Hs as [[[H|[H|H]]%Hcases _]|[H _]].
  - intros st [= <-]. by destruct Hs as [[_ ->]|[-> _]].
  - intros st [= <-]. by destruct Hs as [[[->|[->| ->]]%Hcases _]|[_ Hp]].
Qed.

Lemma old_legacy : legacy MigrationProps.Demo.old.
Proof.
  split; [apply MigrationProps.Demo.old_wf| |apply MigrationProps.Demo.old_readable].
  intros id r Hr. unfold MigrationProps.Demo.old in Hr. cbn [sc_events] in Hr.
  apply lookup_insert_Some in Hr as [[_ <-]|[_ [_ <-]%lookup_singleton_Some]]; apply old_event_legacy.
  - split; apply (bool_decide_unpack _); vm_compute; done.
  - by left.
  - split; apply (bool_decide_unpack _); vm_compute; done.
  - by right.
Qed.

Lemma rest_empty s : rest_ok s empty_db.
Proof. intros id i a Ha. cbn in Ha. by rewrite lookup_empty in Ha. Qed.

Definition old_disk : disk := MkDisk {["/srv" := 493%Z]} {["/srv/hook.db" := 420%Z]} [] MigrationProps.Demo.old.

