(* ===== verification/Callers.v ===== *)
(** * Start and Stop, from any caller

    [Monitor.Start] and [Monitor.Stop] of [internal/heartbeat/heartbeat.go] and
    [Queue.Stop] of [internal/queue/queue.go] may be called by any number of
    goroutines at once. [Lifecycle] has them as [run] calls them; here the
    callers are arbitrary, a critical section is one step, and closing a
    channel is counted: a second close would panic. *)

From S2P Require Import Prelude Lifecycle.

(** ** The monitor *)

(** A call: of [Start], or of [Stop] before it looked, before its cancel, and
    while it waits for [done]. [CReturned true] is a Stop that waited. *)
Inductive call_pc : Type := CStart | CStop | CCancel | CWait | CReturned (waited : bool).

(** The goroutine that [Start] launches: it starts the loops one by one, waits
    for them, and closes [done]. *)
Inductive spawner_pc : Type := Spawning (next : nat) | Joining | Closed.

Record monitor : Type := Mon {
  mo_targets : nat;
  mo_started : bool;                (* and cancel and done are set *)
  mo_canceled : bool;
  mo_spawners : list spawner_pc;    (* one for each launch *)
  mo_loops : list target_pc;
  mo_closes : nat;                  (* of done *)
  mo_calls : list call_pc;
}.

Definition mo_done (s : monitor) : bool := forallb (λ t, negb (target_live t)) (mo_loops s).

Definition set_calls (l : list call_pc) (s : monitor) : monitor :=
  Mon (mo_targets s) (mo_started s) (mo_canceled s) (mo_spawners s) (mo_loops s) (mo_closes s) l.
Definition set_loops (l : list target_pc) (s : monitor) : monitor :=
  Mon (mo_targets s) (mo_started s) (mo_canceled s) (mo_spawners s) l (mo_closes s) (mo_calls s).
Definition set_spawner (i : nat) (p : spawner_pc) (s : monitor) : monitor :=
  Mon (mo_targets s) (mo_started s) (mo_canceled s) (<[i := p]> (mo_spawners s)) (mo_loops s) (mo_closes s) (mo_calls s).

(** The critical section of [Start], and the goroutine it launches *)
Definition Start (i : nat) (s : monitor) : monitor :=
  let s := set_calls (<[i := CReturned false]> (mo_calls s)) s in
  if mo_started s then s
  else Mon (mo_targets s) true (mo_canceled s) (mo_spawners s ++ [Spawning 0]) (mo_loops s) (mo_closes s) (mo_calls s).

(** The critical section of [Stop]: [cancel] is nil before a [Start]. *)
Definition Stop (i : nat) (s : monitor) : monitor :=
  set_calls (<[i := if mo_started s then CCancel else CReturned false]> (mo_calls s)) s.

Definition do_cancel (i : nat) (s : monitor) : monitor :=
  Mon (mo_targets s) (mo_started s) true (mo_spawners s) (mo_loops s) (mo_closes s) (<[i := CWait]> (mo_calls s)).

(** One turn of the goroutine of [Start]: [None] while it waits. *)
Definition spawner_step (i : nat) (p : spawner_pc) (s : monitor) : option monitor :=
  match p with
  | Spawning n =>
      if (n <? mo_targets s)%nat
      then Some (set_spawner i (Spawning (S n)) (set_loops (mo_loops s ++ [TSelect]) s))
      else Some (set_spawner i Joining s)
  | Joining =>
      if mo_done s
      then Some (Mon (mo_targets s) (mo_started s) (mo_canceled s) (<[i := Closed]> (mo_spawners s)) (mo_loops s)
                   (S (mo_closes s)) (mo_calls s))
      else None
  | Closed => None
  end.

Inductive mon_step : monitor → monitor → Prop :=
| MCall s c : c = CStart ∨ c = CStop → mon_step s (set_calls (mo_calls s ++ [c]) s)
| MStart s i : mo_calls s !! i = Some CStart → mon_step s (Start i s)
| MStop s i : mo_calls s !! i = Some CStop → mon_step s (Stop i s)
| MCancel s i : mo_calls s !! i = Some CCancel → mon_step s (do_cancel i s)
| MJoined s i : mo_calls s !! i = Some CWait → (0 < mo_closes s)%nat →
    mon_step s (set_calls (<[i := CReturned true]> (mo_calls s)) s)
| MSpawner s s' i p : mo_spawners s !! i = Some p → spawner_step i p s = Some s' → mon_step s s'
| MTick s i : mo_loops s !! i = Some TSelect → mon_step s (set_loops (<[i := TTick]> (mo_loops s)) s)
| MTicked s i : mo_loops s !! i = Some TTick → mon_step s (set_loops (<[i := TSelect]> (mo_loops s)) s)
| MExit s i : mo_loops s !! i = Some TSelect → mo_canceled s = true →
    mon_step s (set_loops (<[i := TExited]> (mo_loops s)) s).

Definition new_monitor (targets : nat) : monitor := Mon targets false false [] [] 0 [].

(** ** What holds whatever the callers do *)

Definition exited (s : monitor) : Prop := Forall (λ t, t = TExited) (mo_loops s).

Lemma mo_done_spec s : mo_done s = true ↔ exited s.
Proof.
  unfold mo_done, exited. rewrite forallb_forall, Forall_forall. split; intros Hd t Ht.
  - specialize (Hd t (proj1 (list_elem_of_In _ _) Ht)). by destruct t.
  - apply list_elem_of_In in Ht. by rewrite (Hd t Ht).
Qed.

Definition launch (s : monitor) : Prop :=
  match mo_spawners s with
  | [] => mo_started s = false ∧ mo_canceled s = false ∧ mo_loops s = [] ∧ mo_closes s = 0%nat
  | [p] => mo_started s = true ∧
      match p with
      | Spawning n => (n ≤ mo_targets s)%nat ∧ length (mo_loops s) = n ∧ mo_closes s = 0%nat
      | Joining => length (mo_loops s) = mo_targets s ∧ mo_closes s = 0%nat
      | Closed => length (mo_loops s) = mo_targets s ∧ mo_closes s = 1%nat ∧ exited s
      end
  | _ => False
  end.

Definition call_ok (s : monitor) (c : call_pc) : Prop :=
  match c with
  | CCancel => mo_started s = true
  | CWait => mo_started s = true ∧ mo_canceled s = true
  | CReturned true => (0 < mo_closes s)%nat
  | _ => True
  end.

Record mon_ok (s : monitor) : Prop := {
  mk_launch : launch s;
  mk_calls : Forall (call_ok s) (mo_calls s);
  mk_exit : mo_canceled s = false → Forall (λ t, t ≠ TExited) (mo_loops s);
}.

Lemma call_ok_mono s s' c :
  (mo_started s = true → mo_started s' = true) → (mo_canceled s = true → mo_canceled s' = true) →
  (mo_closes s ≤ mo_closes s')%nat → call_ok s c → call_ok s' c.
Proof. intros H1 H2 H3. destruct c as [| | | |[]]; cbn; naive_solver lia. Qed.

Lemma calls_ok_mono s s' l :
  (mo_started s = true → mo_started s' = true) → (mo_canceled s = true → mo_canceled s' = true) →
  (mo_closes s ≤ mo_closes s')%nat → Forall (call_ok s) l → Forall (call_ok s') l.
Proof. intros H1 H2 H3 Hl. eapply Forall_impl; [exact Hl|]. intros c. by apply call_ok_mono. Qed.

(** A loop that has not returned moves. *)
Lemma launch_loop s i t t' : mo_loops s !! i = Some t → t ≠ TExited → launch s →
  launch (set_loops (<[i := t']> (mo_loops s)) s).
Proof.
  unfold launch. cbn. intros Hi Ht Hl. destruct (mo_spawners s) as [|p [|]]; [|rewrite length_insert|done].
  - destruct Hl as (_ & _ & Hl & _). by rewrite Hl in Hi.
  - destruct Hl as [? Hl]. split; [done|]. destruct p; [done|done|]. destruct Hl as (_ & _ & Hex).
    by eapply Forall_lookup_1 in Hex.
Qed.

Lemma mon_ok_step s s' : mon_step s s' → mon_ok s → mon_ok s'.
Proof.
  intros Hstep [Hl Hc He]. destruct Hstep as [s c Hcall|s i Hi|s i Hi|s i Hi|s i Hi Hcl|s s' i p Hp Hs|s i Hi|s i Hi|s i Hi Hcan].
  - split; [done| |done]. apply Forall_app. split; [done|]. apply Forall_singleton. by destruct Hcall as [-> | ->].
  - unfold Start. cbn [mo_started set_calls]. destruct (mo_started s) eqn:Hst.
    + split; [done| |done]. cbn. by apply Forall_insert.
    + unfold launch in Hl. destruct (mo_spawners s) as [|p [|]] eqn:Hsp; [|destruct Hl as [Hl _]; by rewrite Hl in Hst|done].
      destruct Hl as (_ & Hcan & Hloops & Hclose). split; cbn.
      * unfold launch. cbn. rewrite Hsp, Hloops, Hclose. cbn. split_and!; [done|lia|done..].
      * apply Forall_insert; [|done]. by apply (calls_ok_mono s).
      * done.
  - split; [done| |done]. cbn. apply Forall_insert; [done|]. by destruct (mo_started s) eqn:Hst.
  - assert (mo_started s = true) as Hst by (eapply Forall_lookup_1 in Hc; [|exact Hi]; exact Hc).
    split; cbn; [|apply Forall_insert; [by apply (calls_ok_mono s)|done]|done].
    unfold launch in *. cbn. destruct (mo_spawners s) as [|p [|]]; [|done..]. destruct Hl as [Hl _]. by rewrite Hl in Hst.
  - split; [done| |done]. cbn. by apply Forall_insert.
  - unfold launch in Hl. destruct (mo_spawners s) as [|p0 [|]] eqn:Hsp; [done| |done].
    apply list_lookup_singleton_Some in Hp as [-> <-]. destruct Hl as [Hst Hl]. destruct p0; cbn [spawner_step] in Hs; [| |done].
    + destruct Hl as (Hn & Hlen & Hclose). destruct (Nat.ltb_spec next (mo_targets s)); injection Hs as <-; split; cbn.
      * unfold launch. cbn. rewrite Hsp. cbn. rewrite length_app. cbn. split_and!; [done|lia..|done].
      * done.
      * intros Hcan. apply Forall_app. split; [by apply He|]. by apply Forall_singleton.
      * unfold launch. cbn. rewrite Hsp. cbn. split_and!; [done|lia|done].
      * done.
      * done.
    + destruct Hl as (Hlen & Hclose). destruct (mo_done s) eqn:Hd; [|done]. injection Hs as <-. split; cbn.
      * unfold launch. cbn. rewrite Hsp, Hclose. cbn. split_and!; [done..|]. by apply mo_done_spec.
      * apply (calls_ok_mono s); [done..| |done]. cbn. lia.
      * done.
  - split; [by eapply launch_loop|done|]. intros Hcan. cbn. apply Forall_insert; [by apply He|done].
  - split; [by eapply launch_loop|done|]. intros Hcan. cbn. apply Forall_insert; [by apply He|done].
  - split; [by eapply launch_loop|done|]. intros Hcan'. cbn in Hcan'. by rewrite Hcan in Hcan'.
Qed.

(** *** A Stop returns *)

Definition same_calls (s s' : monitor) : Prop :=
  mo_calls s' = mo_calls s ∧ mo_canceled s' = mo_canceled s ∧ mo_targets s' = mo_targets s.

Lemma spawn_all k s n : mo_spawners s = [Spawning n] → (mo_targets s - n = k)%nat →
  ∃ s', rtc mon_step s s' ∧ same_calls s s' ∧ mo_spawners s' = [Joining].
Proof.
  revert s n. induction k as [|k IH]; intros s n Hs Hk.
  - exists (set_spawner 0 Joining s). split; [|split; [done|by cbn; rewrite Hs]].
    apply rtc_once, (MSpawner _ _ 0 (Spawning n)); [by rewrite Hs|]. cbn [spawner_step].
    by rewrite (proj2 (Nat.ltb_ge _ _)) by lia.
  - destruct (IH (set_spawner 0 (Spawning (S n)) (set_loops (mo_loops s ++ [TSelect]) s)) (S n)) as (s' & Hr & Hc & Hp);
      [by cbn; rewrite Hs|cbn; lia|].
    exists s'. split; [|done]. eapply rtc_l; [|exact Hr]. apply (MSpawner _ _ 0 (Spawning n)); [by rewrite Hs|].
    cbn [spawner_step]. by rewrite (proj2 (Nat.ltb_lt _ _)) by lia.
Qed.

Lemma exit_all s done' rest : mo_canceled s = true → mo_loops s = (done' ++ rest)%list → Forall (λ t, t = TExited) done' →
  ∃ s', rtc mon_step s s' ∧ same_calls s s' ∧ mo_spawners s' = mo_spawners s ∧ mo_closes s' = mo_closes s ∧ exited s'.
Proof.
  revert s done'. induction rest as [|t rest IH]; intros s done' Hcan Hl Hd.
  { exists s. split; [done|]. do 3 (split; [done|]). unfold exited. by rewrite Hl, app_nil_r. }
  assert (∀ s, mo_canceled s = true → mo_loops s = (done' ++ t :: rest)%list →
    ∃ s1, rtc mon_step s s1 ∧ same_calls s s1 ∧ mo_spawners s1 = mo_spawners s ∧ mo_closes s1 = mo_closes s ∧
      mo_loops s1 = ((done' ++ [TExited]) ++ rest)%list) as Hone.
  { clear s Hcan Hl. intros s Hcan Hl.
    assert (∀ x y, <[length done' := x]> (done' ++ y :: rest)%list = (done' ++ x :: rest)%list) as Hins
      by (intros x y; rewrite insert_app_r_alt, Nat.sub_diag by lia; done).
    assert (∀ s, mo_loops s = (done' ++ TSelect :: rest)%list → mo_canceled s = true →
      mon_step s (set_loops (done' ++ TExited :: rest)%list s)) as Hexit.
    { intros s2 Hs2 Hc2. pose proof (MExit s2 (length done')) as Hm. rewrite Hs2, Hins in Hm. apply Hm; [|done].
      by apply list_lookup_middle. }
    destruct t.
    - eexists. split; [by apply rtc_once, Hexit|]. do 3 (split; [done|]). cbn. by rewrite <- app_assoc.
    - pose proof (MTicked s (length done')) as Hm. rewrite Hl, Hins in Hm.
      eexists. split; [eapply rtc_l; [apply Hm; by apply list_lookup_middle|by apply rtc_once, Hexit]|].
      do 3 (split; [done|]). cbn. by rewrite <- app_assoc.
    - exists s. split; [done|]. do 3 (split; [done|]). by rewrite <- app_assoc. }
  destruct (Hone s Hcan Hl) as (s1 & Hr1 & (Hc1 & Hcan1 & Ht1) & Hp1 & Hcl1 & Hl1).
  destruct (IH s1 (done' ++ [TExited])%list) as (s2 & Hr2 & (Hc2 & Hcan2 & Ht2) & Hp2 & Hcl2 & He2);
    [congruence|done|by apply Forall_app; split; [|apply Forall_singleton]|].
  exists s2. split; [by etrans|]. split; [by split_and!; congruence|]. split; [congruence|]. split; [congruence|done].
Qed.

Lemma stop_finishes s : mon_ok s → mo_started s = true → mo_canceled s = true →
  ∃ s', rtc mon_step s s' ∧ mo_calls s' = mo_calls s ∧ (0 < mo_closes s')%nat.
Proof.
  intros [Hl _ _] Hst Hcan. unfold launch in Hl. destruct (mo_spawners s) as [|p [|]] eqn:Hsp;
    [by destruct Hl as [Hl _]; rewrite Hl in Hst| |done].
  assert (∀ s, mo_spawners s = [Joining] → mo_canceled s = true →
    ∃ s', rtc mon_step s s' ∧ mo_calls s' = mo_calls s ∧ (0 < mo_closes s')%nat) as Hjoin.
  { clear. intros s Hp Hcan. destruct (exit_all s [] (mo_loops s) Hcan eq_refl) as (s1 & Hr & (Hc & _) & Hp1 & _ & He); [done|].
    eexists. split; [eapply rtc_r; [exact Hr|]|].
    - apply (MSpawner _ _ 0 Joining); [by rewrite Hp1, Hp|]. cbn [spawner_step].
      rewrite (proj2 (mo_done_spec s1) He). reflexivity.
    - cbn. split; [done|lia]. }
  destruct Hl as [_ Hl]. destruct p as [n| |].
  - destruct (spawn_all _ s n Hsp eq_refl) as (s1 & Hr1 & (Hc1 & Hcan1 & _) & Hp1).
    destruct (Hjoin s1 Hp1) as (s2 & Hr2 & Hc2 & Hcl); [congruence|]. exists s2. split; [by etrans|]. split; [congruence|done].
  - by apply Hjoin.
  - exists s. split; [done|]. split; [done|]. destruct Hl as (_ & -> & _). lia.
Qed.

Lemma targets_step s s' : mon_step s s' → mo_targets s' = mo_targets s.
Proof.
  intros Hs. destruct Hs as [| |s i Hi| | |s s' i p Hp Hs| | |]; try done.
  - unfold Start. cbn. by destruct (mo_started s).
  - destruct p; cbn [spawner_step] in Hs; repeat case_match; simplify_eq; done.
Qed.

Lemma monitor_reachable targets s : rtc mon_step (new_monitor targets) s → mon_ok s ∧ mo_targets s = targets.
Proof.
  intros Hr. eapply (rtc_ind_r (λ s, mon_ok s ∧ mo_targets s = targets)); [| |exact Hr].
  - split; [|done]. split; [done|by apply Forall_nil|done].
  - intros s1 s2 _ Hs [Hok Ht]. split; [by eapply mon_ok_step|]. by rewrite (targets_step _ _ Hs).
Qed.

Lemma call_returns s i c : mon_ok s → mo_calls s !! i = Some c →
  ∃ s' w, rtc mon_step s s' ∧ mo_calls s' !! i = Some (CReturned w).
Proof.
  intros Hok Hi. pose proof (lookup_lt_Some _ _ _ Hi) as Hlt.
  assert (∀ s, mon_ok s → mo_calls s !! i = Some CWait → ∃ s' w, rtc mon_step s s' ∧ mo_calls s' !! i = Some (CReturned w)) as Hwait.
  { clear. intros s Hok Hi. pose proof (Forall_lookup_1 _ _ _ _ (mk_calls _ Hok) Hi) as [Hst Hcan].
    destruct (stop_finishes s Hok Hst Hcan) as (s1 & Hr & Hc & Hcl). eexists _, true. split.
    - eapply rtc_r; [exact Hr|]. apply (MJoined s1 i); [by rewrite Hc|done].
    - cbn. apply list_lookup_insert_eq. rewrite Hc. by eapply lookup_lt_Some. }
  assert (∀ s, mon_ok s → mo_calls s !! i = Some CCancel → ∃ s' w, rtc mon_step s s' ∧ mo_calls s' !! i = Some (CReturned w)) as Hcancel.
  { intros s1 Hok1 Hi1. destruct (Hwait (do_cancel i s1)) as (s2 & w & Hr & Hw).
    - by eapply mon_ok_step; [apply MCancel|].
    - cbn. apply list_lookup_insert_eq. by eapply lookup_lt_Some.
    - exists s2, w. split; [|done]. eapply rtc_l; [by apply (MCancel s1 i)|done]. }
  destruct c as [| | | |w].
  - exists (Start i s), false. split; [by apply rtc_once, MStart|]. unfold Start. cbn.
    destruct (mo_started s); cbn; by apply list_lookup_insert_eq.
  - assert (mo_calls (Stop i s) !! i = Some (if mo_started s then CCancel else CReturned false)) as Hs
      by (cbn; by apply list_lookup_insert_eq).
    destruct (mo_started s).
    + destruct (Hcancel (Stop i s)) as (s2 & w & Hr & Hw); [by eapply mon_ok_step; [apply MStop|]|done|].
      exists s2, w. split; [|done]. eapply rtc_l; [by apply MStop|done].
    + exists (Stop i s), false. split; [by apply rtc_once, MStop|done].
  - by apply Hcancel.
  - by apply Hwait.
  - exists s, w. by split.
Qed.

(** Whoever calls [Start] and [Stop], in whatever order and at once: one
    goroutine is launched at most, with one loop for each target, and its
    channel is closed at most once; no loop ends before a Stop; a Stop that
    waited returns when every loop has ended; and every call can return. *)
Theorem monitor_callers targets s : rtc mon_step (new_monitor targets) s →
  (length (mo_spawners s) ≤ 1)%nat ∧ (mo_closes s ≤ 1)%nat ∧ (length (mo_loops s) ≤ targets)%nat ∧
  (mo_canceled s = false → TExited ∉ mo_loops s) ∧
  (∀ i, mo_calls s !! i = Some (CReturned true) → length (mo_loops s) = targets ∧ exited s) ∧
  (∀ i c, mo_calls s !! i = Some c → ∃ s' w, rtc mon_step s s' ∧ mo_calls s' !! i = Some (CReturned w)).
Proof.
  intros Hr. destruct (monitor_reachable targets s Hr) as [Hok <-].
  assert ((length (mo_spawners s) ≤ 1)%nat ∧ (mo_closes s ≤ 1)%nat ∧ (length (mo_loops s) ≤ mo_targets s)%nat ∧
    ((0 < mo_closes s)%nat → length (mo_loops s) = mo_targets s ∧ exited s)) as (H1 & H2 & H3 & H4).
  { pose proof (mk_launch _ Hok) as Hl. unfold launch in Hl. destruct (mo_spawners s) as [|[n| |] [|]]; try done.
    - destruct Hl as (_ & _ & -> & ->). cbn. split_and!; lia.
    - destruct Hl as (_ & ? & ? & ->). cbn. split_and!; lia.
    - destruct Hl as (_ & ? & ->). cbn. split_and!; lia.
    - destruct Hl as (_ & ? & Hc & ?). rewrite Hc. cbn. split_and!; [lia..|done]. }
  do 3 (split; [done|]). split; [|split].
  - intros Hcan Hin. pose proof (mk_exit _ Hok Hcan) as He. rewrite Forall_forall in He. by apply (He TExited).
  - intros i Hi. apply H4. exact (Forall_lookup_1 _ _ _ _ (mk_calls _ Hok) Hi).
  - intros i c. by apply call_returns.
Qed.

(** ** The queue *)

(** A call of [Queue.Stop]: before its critical section, while it waits for
    the workers or its context, and its result. *)
Inductive stop_pc : Type := QStop | QWait | QReturned (drained : bool).

Record stop_queue : Type := SQ {
  sq_stopped : bool;
  sq_closes : nat;                  (* of stopCh *)
  sq_workers : list worker_pc;
  sq_calls : list stop_pc;
}.

Definition sq_done (s : stop_queue) : bool := forallb (λ w, negb (worker_live w)) (sq_workers s).

Definition stop_section (i : nat) (s : stop_queue) : stop_queue :=
  let calls := <[i := QWait]> (sq_calls s) in
  if sq_stopped s then SQ true (sq_closes s) (sq_workers s) calls
  else SQ true (S (sq_closes s)) (sq_workers s) calls.

Inductive stop_step : stop_queue → stop_queue → Prop :=
| QCall s : stop_step s (SQ (sq_stopped s) (sq_closes s) (sq_workers s) (sq_calls s ++ [QStop]))
| QSection s i : sq_calls s !! i = Some QStop → stop_step s (stop_section i s)
| QDrained s i : sq_calls s !! i = Some QWait → sq_done s = true →
    stop_step s (SQ (sq_stopped s) (sq_closes s) (sq_workers s) (<[i := QReturned true]> (sq_calls s)))
| QExpired s i : sq_calls s !! i = Some QWait →
    stop_step s (SQ (sq_stopped s) (sq_closes s) (sq_workers s) (<[i := QReturned false]> (sq_calls s)))
| QWorker s i w w' : sq_workers s !! i = Some w → w ≠ WExited →
    (w' = WExited → w = WSelect ∧ sq_stopped s = true) →
    stop_step s (SQ (sq_stopped s) (sq_closes s) (<[i := w']> (sq_workers s)) (sq_calls s)).

Record stop_ok (s : stop_queue) : Prop := {
  so_closes : sq_closes s = if sq_stopped s then 1%nat else 0%nat;
  so_waits : ∀ i, sq_calls s !! i = Some QWait → sq_stopped s = true;
  so_drained : ∀ i, sq_calls s !! i = Some (QReturned true) → sq_done s = true;
}.

(** However many callers stop the queue, its channel is closed at most once,
    and a Stop returns without an error only when every worker has returned. *)
Theorem stop_callers workers s : rtc stop_step (SQ false 0 workers []) s →
  (sq_closes s ≤ 1)%nat ∧ ∀ i, sq_calls s !! i = Some (QReturned true) → sq_done s = true.
Proof.
  intros Hr. enough (stop_ok s) as [Hc _ Hd] by (split; [rewrite Hc; case_match; lia|done]).
  eapply (rtc_ind_r stop_ok); [| |exact Hr]; [by split|]. clear. intros s s' _ Hs [Hc Hw Hd].
  assert (∀ (i j : nat) (c c' : stop_pc) (l : list stop_pc), <[i := c]> l !! j = Some c' → c' = c ∨ l !! j = Some c') as Hins.
  { intros i j c c' l. rewrite list_lookup_insert_Some. naive_solver. }
  destruct Hs as [s|s i Hi|s i Hi Hdone|s i Hi|s i w w' Hi Hne Hex].
  - split; cbn; [done|..]; intros i Hi; apply lookup_app_Some in Hi as [Hi|[_ Hi]]; eauto;
      apply list_lookup_singleton_Some in Hi as [_ Hi]; done.
  - unfold stop_section. destruct (sq_stopped s) eqn:Hst; split; cbn; rewrite ?Hc; try done;
      intros j Hj; apply Hins in Hj as [|Hj]; try done; by eapply Hd.
  - split; cbn; [done|..]; intros j Hj; apply Hins in Hj as [|Hj]; try done; eauto.
  - split; cbn; [done|..]; intros j Hj; apply Hins in Hj as [|Hj]; try done; eauto.
  - split; cbn; [done|done|]. intros j Hj. specialize (Hd j Hj). unfold sq_done in Hd. exfalso.
    rewrite forallb_forall in Hd. apply list_elem_of_lookup_2 in Hi. specialize (Hd w (proj1 (list_elem_of_In _ _) Hi)).
    by destruct w.
Qed.
